(* ===== verification/_CoqProject ===== *)
-Q . S2P
Prelude.v
Externals.v
Errors.v
DataChannel.v
PendingMap.v
Config.v
Handle.v
Handler.v
BasicCommands.v
KadCommands.v
KadQueries.v
ReqRespCommands.v
Commands.v
EventLoop.v
EventChain.v
CommandChain.v
SwarmIds.v
LoopFrame.v
Trace.v
NodeEvents.v
Discovery.v
Addresses.v
Dialing.v
OpenFuture.v
UnitTests.v
Client.v
Node.v
System.v
Quota.v
Channels.v
Calls.v
Ownership.v
Isolation.v
Answers.v
Provenance.v
Prompted.v
Network.v
Contact.v
Deadlock.v
Drain.v
Fairness.v
Returns.v
Answered.v
Bootstrap.v
BootServer.v
Concrete.v
Simulator.v
IntegrationTests.v
Witnesses.v
