(* ===== verification/Prelude.v ===== *)
(** * swarm-p2p: a verification development

    swarm-p2p is a library on top of libp2p ([core/]) and a bootstrap and relay
    server ([bootstrap/]).  A node is one task, the event loop, which owns the
    libp2p swarm; clients talk to it by commands on a bounded queue and hear
    from it by result handles, by a bounded queue of node events, and by a
    bounded queue of inbound data channels.  This library models the code of
    both crates in Rocq and proves what makes them correct.

    ** The program's parts and the files that model them

    - [Prelude]: Rust's [Result], 64-bit integers as [Z] with [wrap64],
      [Vec::swap_remove] and [Vec::dedup], counting, invariants of transition
      systems, the development's tactics.
    - [Externals]: everything that is not code of the repository, as parameters:
      [NetTypes] (peer identifiers, multiaddresses, requests, query identifiers,
      errors), [SwarmOps] (the methods of [libp2p::Swarm] the code calls),
      [HashOrder] (iteration of a [HashSet]), [Mpsc] (tokio's bounded channel),
      the event types, and law classes for what the code relies on.  [Logged]
      wraps any swarm and records the calls made on it.
    - [Concrete]: executable instances of these classes, for the witnesses only.
    - [Errors]: [core/src/error.rs], the close reasons of [data_channel.rs], the
      normalisation of libp2p failures.
    - [DataChannel]: [core/src/data_channel.rs]; [try_acquire] and [guard_drop]
      are the two atomic operations on the mutex-protected counters.
    - [OpenFuture]: [core/src/client/data_channel_open.rs], a future as a state
      machine with an explicit clock.
    - [PendingMap]: [core/src/pending_map.rs], with the cleanup task as steps.
    - [Config]: [core/src/config.rs], [request.rs] and [runtime/behaviour.rs].
    - [Handle]: [ResultHandle] of [core/src/command/handler.rs] and
      [CommandFuture] of [client/future.rs].
    - [Handler]: the trait [CommandHandler] of [command/handler.rs] as a class
      over a monad ([H]: swarm state, emitted results, panic), and its contract
      [CommandHandlerLaws], the interface between the commands and the loop.
    - [BasicCommands], [KadCommands], [ReqRespCommands]: the sixteen commands of
      [core/src/command/]; each discharges the contract.  [KadQueries]: what the
      caller of a query receives over the query's whole life.
    - [Commands]: the erased [Command], a sum of the handlers.
    - [EventLoop]: [core/src/runtime/event_loop.rs] and [core/src/event.rs].
      [EventLoop.EventLoop] is the loop's own state, [Shared] what it shares
      with clients; one definition per method.
    - [EventChain]: the specification of the command chain and the proof that
      [handle_swarm_event] refines it, against [CommandHandlerLaws] only.
    - [CommandChain], [Dialing], [NodeEvents], [Discovery], [Addresses]: theorems
      on the loop with the crate's commands, grouped by subject.
    - [SwarmIds], [LoopFrame]: which calls the code makes on the swarm, where
      identifiers come from, and what a step of the loop leaves alone.
    - [Trace]: any swarm, with a log of the events it has yielded, the
      identifiers it has given out and the responses it has accepted.
    - [Client]: [NetClient] and its methods, [EventReceiver] ([core/src/client/]).
    - [Node]: [core/src/runtime/node.rs] and [EventLoop::run].  [loop_step] is
      the loop (every await is a phase), [app_step] anything the application
      might do to the shared state, [node_step] their union.
    - [System]: the node with the clients it really has: clones, calls in
      progress, opens, channels, receivers; [sys_step] has one constructor per
      atomic step of a client object, and [loop_step].  On it stand
      [Calls] (refinement of [Node], types of results), [Quota]
      (the channel quota), [Channels] (which channels an application is given),
      [Ownership] (identifiers and result cells),
      [Isolation] (calls do not interfere), [Answers] (what query calls return),
      [Provenance] (where everything in the log comes from), [Prompted] (what
      made the node call its swarm), [Deadlock] and [Drain] (what receiving events
      is needed for), [Fairness], [Returns] and [Answered] (infinite runs: queued
      commands are run, calls return).
    - [Network]: any number of [System]s, whose swarms exchange requests and
      responses; [net_yields] is what the network may do.  [Contact] adds what
      makes contact (mDNS, connections, identify, reservations) and composes
      [Prompted] over all nodes.
    - [Bootstrap], [BootServer]: [bootstrap/src/]; command line, identity file,
      behaviour, and the serving loop with the shutdown signal and its log.
    - [UnitTests]: the test functions of [core/src/], run on the model.
    - [Simulator]: executable, sound counterparts of [sys_step] and [net_step];
      [IntegrationTests]: the scenarios of [core/tests/] as executed runs of two
      or three nodes.  They are examples; what the tests mean to establish of all
      runs is stated by theorems of [Contact], [Network], [Answers], [Channels],
      [Quota] and [Client].
    - [Witnesses]: for each property with hypotheses an instance in which they
      hold.

    ** What the theorems show

    - The event loop: the command chain implements its specification for every
      command type that obeys the contract; node events are neither lost,
      duplicated nor reordered; the client's connection view equals the swarm's;
      the loop never panics and forgets cancelled commands.
    - The node with its clients, in every reachable state: it refines [Node] and
      stops only when no client and no call is left; an identified event reaches exactly the call
      that asked for it, and a connection event all calls that wait for it; what
      a call returns is what its command alone would have emitted on events the
      swarm yielded after it ran, none of its own left out, so that a response
      never reaches the wrong caller; the quota counters are the census of the
      guards alive.  An application that receives its events is served; one that
      awaits a call in the same task can deadlock.
    - Infinite runs: under fairness of the loop, of [select!], of the consumer of
      events and of the executor, calls with a timeout and calls that need no
      answer of the network return, and every call returns if libp2p concludes
      what it has begun for it ([network_answers]): a command that waits is never
      lost on its way from the queue to its last event.
    - What a node does: every dial, every address it registers or listens on, every
      query and message goes back to its configuration, a method its application
      called with these arguments (kind, key, payload, response), or an event of
      the swarm that asks for it.  Over a network: nodes connect, and relays hold
      reservations, only where a configuration or an application wanted it.
    - Data channels: the channels an application is given are those it asked for
      or accepted, under the peer, protocol and direction they are counted by,
      and have different identifiers.
    - Several nodes: what a [send_request] call returns is what the application
      at the other end gave in response to this very request, and what an
      application is told was requested was requested.
    - Commands: the answer of each query call as a function of the whole history
      of progress events of its own query, in the running node; requests,
      responses, dials and infrastructure peers on every branch.
    - Data channels: admission is exactly the limits, quota is never leaked by
      opens, timeouts, cancellations or refused hand-overs; opens terminate.
    - Timed state: bounded retention of the pending map; a request is answered
      once; fresh identifiers below 2^64.
    - Addresses and configuration: the LAN filter as numeric ranges, circuit
      addresses, advertised addresses, start-up wiring.
    - The server: its identity is stable and shared by both commands; it serves
      every event until a signal, and its log replays the connections.

    ** Modelling decisions

    - [DataChannelId]s come from one counter of the process: it is a field of
      [Shared], and the other nodes of the process take identifiers in the step
      [sy_other_node], so a node's identifiers need not be consecutive.
    - [CmdValue] erases the result types of the sixteen commands, which the
      source keeps apart by [ResultHandle<T>]; see [Commands].
    - [std::fs::write] may fail after it has created or truncated the file;
      [load_or_generate_keypair] takes its outcome as a parameter.
    - A mutex-protected object is a value, each method that locks it once is one
      function, and interleavings are sequences of such steps.
    - Wakers and result cells are natural numbers; [sh_handles] is the heap of
      result cells, shared by the futures and the tasks.
    - Times are nanoseconds in [Z]; [usize] and [u64] counters are [Z] with
      [wrap64] where the code wraps and saturation where it saturates.
    - A panic ([unwrap], an index out of range, a poll after completion) is
      [None]; theorems state that it does not happen.
    - [offer_event] takes the number of active commands as fuel: each iteration
      either advances the index or shortens the list, and [offer_event_inv]
      proves that this is enough.  There is no other fuel.
    - Log lines of the node are not modelled (those of the server, whose only
      output they are, are); error values that are only printed are opaque with
      their [Display] or [Debug] text.
    - A task that has ended is not represented: a call that returned or was
      dropped leaves [System], its result cell stays allocated and is not reused.

    ** Not modelled

    libp2p's behaviours and transports, the builder of the transport stack, and
    tokio's scheduler (every interleaving of steps is allowed, and fairness is a
    hypothesis of the theorems on infinite runs only); what libp2p's Kademlia and
    relay answer across nodes (in [IntegrationTests] the script chooses it, except
    that a relay grants a reservation only to a peer that listens through it);
    the bytes on a stream; clap's parsing of the command line; [Debug]
    implementations; re-exports and the deployment files. *)
From stdpp Require Export prelude gmap strings list relations sorting.
From Stdlib Require Export ZArith Lia.

(** ** Notation scope *)

Declare Scope swarm_scope.
Delimit Scope swarm_scope with swarm.

(** ** Rust's [Result] *)

Inductive Result (A E : Type) : Type :=
| Ok (a : A)
| Err (e : E).
Arguments Ok {A E} _.
Arguments Err {A E} _.

Definition result_map {A B E} (f : A -> B) (r : Result A E) : Result B E :=
  match r with Ok a => Ok (f a) | Err e => Err e end.

Definition result_map_err {A E F} (f : E -> F) (r : Result A E) : Result A F :=
  match r with Ok a => Ok a | Err e => Err (f e) end.

Definition result_bind {A B E} (r : Result A E) (f : A -> Result B E) : Result B E :=
  match r with Ok a => f a | Err e => Err e end.

Definition is_ok {A E} (r : Result A E) : bool :=
  match r with Ok _ => true | Err _ => false end.

(** [Option::ok_or]. *)
Definition ok_or {A E} (o : option A) (e : E) : Result A E :=
  match o with Some a => Ok a | None => Err e end.

Notation "'try' x <- r ;; k" := (result_bind r (fun x => k))
  (at level 100, x pattern, r at next level, right associativity) : swarm_scope.

(** ** Machine integers: [u64] and [usize] (64-bit targets) as [Z] *)

Definition u64_modulus : Z := 18446744073709551616.
Definition u64_max : Z := u64_modulus - 1.
Definition wrap64 (z : Z) : Z := z mod u64_modulus.
Definition in_u64 (z : Z) : Prop := (0 <= z <= u64_max)%Z.
Definition sat_sub (a b : Z) : Z := Z.max 0 (a - b).

(** ** [Vec::swap_remove]: the removed slot receives the last element.
    [None] is the out-of-range panic. *)
Definition swap_remove {A} (i : nat) (l : list A) : option (A * list A) :=
  match l !! i, last l with
  | Some x, Some y => Some (x, take (length l - 1) (<[i:=y]> l))
  | _, _ => None
  end.

(** [Vec::dedup]: drops an element equal to its predecessor. *)
Fixpoint dedup {A} `{EqDecision A} (l : list A) : list A :=
  match l with
  | [] => []
  | x :: l' =>
      match dedup l' with
      | [] => [x]
      | y :: l'' => if decide (x = y) then y :: l'' else x :: y :: l''
      end
  end.

(** How many elements of a list satisfy a decidable predicate. *)
Definition countP {A} (P : A -> Prop) `{forall x, Decision (P x)} (l : list A) : nat :=
  length (filter P l).

(** ** Development tactics *)

(** Case analysis on every [match] of the goal, then clean-up. *)
Ltac split_matches := repeat (case_match; simplify_eq/=).

(** Unfold a list of arithmetic definitions and call [lia]. *)
Ltac u64_lia := unfold in_u64, wrap64, sat_sub, u64_max, u64_modulus in *; lia.

Create HintDb swarm.

(** ** Lemmas on machine integers *)

Lemma wrap64_small z : in_u64 z -> wrap64 z = z.
Proof. intros ?. unfold wrap64. apply Z.mod_small. u64_lia. Qed.

Lemma wrap64_range z : in_u64 (wrap64 z).
Proof.
  unfold in_u64, wrap64, u64_max.
  pose proof (Z.mod_pos_bound z u64_modulus ltac:(done)). lia.
Qed.

Lemma sat_sub_exact a b : (b <= a)%Z -> sat_sub a b = (a - b)%Z.
Proof. unfold sat_sub. lia. Qed.

#[export] Hint Resolve wrap64_range : swarm.

(** ** Invariants of transition systems *)

Lemma rtc_invariant {A} (R : relation A) (I : A -> Prop) x y :
  (forall a b, R a b -> I a -> I b) -> rtc R x y -> I x -> I y.
Proof. intros Hstep. induction 1; eauto. Qed.

(** ** Lemmas on lists *)

Lemma countP_nil {A} (P : A -> Prop) `{forall x, Decision (P x)} : countP P [] = 0.
Proof. done. Qed.

Lemma countP_cons {A} (P : A -> Prop) `{forall x, Decision (P x)} x l :
  countP P (x :: l) = (if decide (P x) then 1 else 0) + countP P l.
Proof. unfold countP. rewrite filter_cons. by case_decide. Qed.

Lemma countP_app {A} (P : A -> Prop) `{forall x, Decision (P x)} l k :
  countP P (l ++ k) = countP P l + countP P k.
Proof. unfold countP. by rewrite filter_app, length_app. Qed.

#[export] Instance countP_perm {A} (P : A -> Prop) `{forall x, Decision (P x)} :
  Proper ((≡ₚ) ==> (=)) (countP P).
Proof. intros l k Hlk. unfold countP. by rewrite Hlk. Qed.

Lemma countP_le {A} (P Q : A -> Prop) `{forall x, Decision (P x)} `{forall x, Decision (Q x)} l :
  (forall x, P x -> Q x) -> countP P l <= countP Q l.
Proof.
  intros HPQ. induction l as [|x l IH]; [done|].
  rewrite !countP_cons. repeat case_decide; naive_solver lia.
Qed.

(** [swap_remove] never panics in range. *)
Lemma swap_remove_is_Some {A} i (l : list A) :
  i < length l -> is_Some (swap_remove i l).
Proof.
  intros Hi. unfold swap_remove.
  destruct (lookup_lt_is_Some_2 l i Hi) as [x ->].
  destruct l as [|y l] using rev_ind; [simpl in *; lia|].
  rewrite last_snoc. eauto.
Qed.

(** The slots below [i] keep their element, the slots above are permuted. *)
Lemma swap_remove_split {A} i (l : list A) x l' :
  swap_remove i l = Some (x, l') ->
  l !! i = Some x /\ take i l' = take i l /\ drop i l' ≡ₚ drop (S i) l.
Proof.
  unfold swap_remove. intros Hsr.
  destruct (l !! i) as [x0|] eqn:Hi; [|done].
  destruct (last l) as [y|] eqn:Hl; [|done]. simplify_eq.
  pose proof (lookup_lt_Some _ _ _ Hi) as Hlt.
  apply last_Some in Hl as [l0 ->].
  rewrite length_app in *; simpl in *.
  replace (length l0 + 1 - 1) with (length l0) by lia.
  split; [done|].
  destruct (decide (i = length l0)) as [->|Hne].
  - rewrite lookup_app_r in Hi by lia. rewrite Nat.sub_diag in Hi. simplify_eq/=.
    rewrite list_insert_id by (rewrite lookup_app_r, Nat.sub_diag by lia; done).
    rewrite take_app_length, firstn_all. split; [done|].
    rewrite !drop_ge; [done| |done]. rewrite length_app. simpl. lia.
  - assert (i < length l0) as Hi0 by lia.
    rewrite insert_app_l, take_app_le by (rewrite ?length_insert; lia).
    rewrite (take_ge (<[i:=y]> l0)) by (rewrite length_insert; lia).
    rewrite take_insert_ge, take_app_le by lia. split; [done|].
    rewrite drop_app_le by lia.
    rewrite insert_take_drop by done.
    rewrite drop_app_ge by (rewrite length_take; lia).
    rewrite length_take_le by lia. rewrite Nat.sub_diag. simpl.
    by rewrite Permutation_app_comm.
Qed.

Lemma swap_remove_perm {A} i (l : list A) x l' :
  swap_remove i l = Some (x, l') -> l ≡ₚ x :: l'.
Proof.
  intros H. apply swap_remove_split in H as (Hi & Ht & Hd).
  rewrite <- (take_drop_middle l i x Hi), <- (take_drop i l'), Ht, Hd.
  by rewrite Permutation_middle.
Qed.

Lemma swap_remove_length {A} i (l : list A) x l' :
  swap_remove i l = Some (x, l') -> length l = S (length l').
Proof. intros H%swap_remove_perm. by rewrite H. Qed.

(** [dedup] keeps the elements. *)
Lemma elem_of_dedup {A} `{EqDecision A} (l : list A) x : x ∈ dedup l <-> x ∈ l.
Proof.
  induction l as [|y l IH]; [done|]. simpl.
  destruct (dedup l) as [|z l'] eqn:Hd; [set_solver|].
  case_decide; set_solver.
Qed.

(** On a sorted list (antisymmetric order) [dedup] removes every duplicate. *)
Lemma dedup_sorted_nodup {A} `{EqDecision A} (R : relation A)
    `{!AntiSymm (=) R} `{!Transitive R} (l : list A) :
  StronglySorted R l -> StronglySorted R (dedup l) /\ NoDup (dedup l).
Proof.
  induction 1 as [|x l Hl IH Hx]; [split; constructor|]. simpl.
  destruct IH as [IHs IHn].
  assert (Forall (R x) (dedup l)) as Hxd.
  { rewrite Forall_forall in Hx |- *. intros y Hy. by apply Hx, elem_of_dedup. }
  destruct (dedup l) as [|y l'] eqn:Hd.
  - split; [repeat constructor | apply NoDup_singleton].
  - case_decide as Hxy; [done|]. split; [by constructor|].
    constructor; [|done]. intros Hin. apply Hxy.
    apply elem_of_cons in Hin as [|Hin]; [done|].
    apply StronglySorted_inv in IHs as [_ Hyl]. rewrite Forall_forall in Hyl, Hxd.
    apply (anti_symm R); [apply Hxd; left | by apply Hyl].
Qed.

#[export] Hint Resolve elem_of_dedup : swarm.
