(* ===== verification/Externals.v ===== *)
(** * The code outside the repository

    libp2p, tokio and the hashing of the standard library are parameters of
    the development.  [NetTypes] collects the opaque libp2p types and the pure
    functions on them the source calls, [SwarmOps] the methods of
    [libp2p::Swarm] (and of the behaviours inside it), [HashOrder] the iteration
    order of [HashSet], [Mpsc] tokio's bounded channels.  The operations are
    operational classes; what the source relies on is stated by the separate
    law classes ([MultiaddrLaws], [SwarmLaws], [HashOrderLaws], [MpscLaws]).
    The event types are inductive types with the constructors the source
    matches on, every other constructor being collapsed into one [..Other]. *)
From S2P Require Import Prelude.

(** ** IP addresses of the standard library *)

Record Ipv4Addr := mkIpv4 { octet_a : Z; octet_b : Z; octet_c : Z; octet_d : Z }.

(** The eight 16-bit segments. *)
Record Ipv6Addr := mkIpv6 { segments : list Z }.

#[export] Instance Ipv4Addr_eq_dec : EqDecision Ipv4Addr.
Proof. solve_decision. Defined.

#[export] Instance Ipv6Addr_eq_dec : EqDecision Ipv6Addr.
Proof. solve_decision. Defined.

Definition ip4_is_private (ip : Ipv4Addr) : bool :=
  (octet_a ip =? 10)%Z
  || ((octet_a ip =? 172)%Z && (16 <=? octet_b ip)%Z && (octet_b ip <=? 31)%Z)
  || ((octet_a ip =? 192)%Z && (octet_b ip =? 168)%Z).
Definition ip4_is_loopback (ip : Ipv4Addr) : bool := (octet_a ip =? 127)%Z.
Definition ip4_is_link_local (ip : Ipv4Addr) : bool :=
  (octet_a ip =? 169)%Z && (octet_b ip =? 254)%Z.
Definition ip4_is_unspecified (ip : Ipv4Addr) : bool :=
  bool_decide (ip = mkIpv4 0 0 0 0).
Definition ip6_is_loopback (ip : Ipv6Addr) : bool :=
  bool_decide (segments ip = [0; 0; 0; 0; 0; 0; 0; 1]%Z).
Definition ip6_is_unspecified (ip : Ipv6Addr) : bool :=
  bool_decide (segments ip = [0; 0; 0; 0; 0; 0; 0; 0]%Z).
(** [ip.segments()[0]]; an address always has its eight segments. *)
Definition ip6_segment0 (ip : Ipv6Addr) : Z := default 0%Z (segments ip !! 0).

(** ** multiaddr's [Protocol] *)

Inductive Protocol (P O : Type) :=
| PIp4 (ip : Ipv4Addr)
| PIp6 (ip : Ipv6Addr)
| PP2p (peer : P)
| PP2pCircuit
| POther (o : O).
Arguments PIp4 {P O} _.
Arguments PIp6 {P O} _.
Arguments PP2p {P O} _.
Arguments PP2pCircuit {P O}.
Arguments POther {P O} _.

(** ** The opaque types *)

Class NetTypes := {
  PeerId : Type;
  PeerId_eq_dec :: EqDecision PeerId;
  PeerId_countable :: Countable PeerId;
  peer_display : PeerId -> string;
  StreamProtocol : Type;
  StreamProtocol_eq_dec :: EqDecision StreamProtocol;
  StreamProtocol_countable :: Countable StreamProtocol;
  proto_display : StreamProtocol -> string;
  (** Multiaddr: [iter], [with] and [Ord]. *)
  OtherProto : Type;
  Multiaddr : Type;
  Multiaddr_eq_dec :: EqDecision Multiaddr;
  ma_iter : Multiaddr -> list (Protocol PeerId OtherProto);
  ma_with : Multiaddr -> Protocol PeerId OtherProto -> Multiaddr;
  ma_le : relation Multiaddr;
  ma_le_dec :: RelDecision ma_le;
  Stream : Type;
  (** request-response *)
  Req : Type;
  Resp : Type;
  ResponseChannel : Type;
  OutboundRequestId : Type;
  OutboundRequestId_eq_dec :: EqDecision OutboundRequestId;
  (** kad *)
  QueryId : Type;
  QueryId_eq_dec :: EqDecision QueryId;
  RecordKey : Type;
  KadRecord : Type;
  QueryStats : Type;
  qs_merge : QueryStats -> QueryStats -> QueryStats;
  qs_duration : QueryStats -> option Z;
  qs_num_requests : QueryStats -> Z;
  qs_num_successes : QueryStats -> Z;
  qs_num_failures : QueryStats -> Z;
  (** Error types the source only prints ([Display] or [Debug]). *)
  DialError : Type;
  dial_error_display : DialError -> string;
  TransportError : Type;
  transport_error_display : TransportError -> string;
  KadError : Type;
  kad_error_debug : KadError -> string;
  StoreError : Type;
  store_error_display : StoreError -> string;
  DcutrError : Type;
  dcutr_error_display : DcutrError -> string;
  RelayStatus : Type;
  relay_status_debug : RelayStatus -> string;
  IoError : Type;
  io_error_display : IoError -> string;
}.

(** [Multiaddr::with] appends one component, [Ord] is a total order. *)
Class MultiaddrLaws `{NetTypes} : Prop := {
  ma_iter_with : forall a p, ma_iter (ma_with a p) = ma_iter a ++ [p];
  ma_le_total_order :: TotalOrder ma_le;
}.

(** ** Results and events of the behaviours *)

Section events.
Context `{N : NetTypes}.

Inductive OutboundFailure :=
| OF_DialFailure
| OF_Timeout
| OF_ConnectionClosed
| OF_UnsupportedProtocols
| OF_Other.

Inductive OpenStreamError :=
| OSE_UnsupportedProtocol (p : StreamProtocol)
| OSE_Io (e : IoError)
| OSE_Other.

Inductive GetProvidersOk :=
| FoundProviders (providers : gset PeerId)
| GP_FinishedWithNoAdditionalRecord (closest_peers : list PeerId).

Inductive GetRecordOk :=
| FoundRecord (peer : option PeerId) (record : KadRecord)
| GR_FinishedWithNoAdditionalRecord.

Inductive QueryResult :=
| QR_Bootstrap (res : Result (PeerId * Z) KadError)
| QR_GetClosestPeers (res : Result (list PeerId) KadError)
| QR_GetProviders (res : Result GetProvidersOk KadError)
| QR_StartProviding (res : Result unit KadError)
| QR_GetRecord (res : Result GetRecordOk KadError)
| QR_PutRecord (res : Result unit KadError)
| QR_Other.

Inductive KadEvent :=
| OutboundQueryProgressed (id : QueryId) (result : QueryResult)
    (stats : QueryStats) (step_last : bool)
| RoutingUpdated (peer : PeerId) (addresses : list Multiaddr)
| KE_Other.

Inductive ReqRespEvent :=
| RR_Request (peer : PeerId) (request : Req) (channel : ResponseChannel)
| RR_Response (peer : PeerId) (request_id : OutboundRequestId) (response : Resp)
| RR_OutboundFailure (peer : PeerId) (request_id : OutboundRequestId) (error : OutboundFailure)
| RR_Other.

Record IdentifyInfo := {
  info_protocol_version : string;
  info_agent_version : string;
  info_listen_addrs : list Multiaddr;
  info_protocols : list StreamProtocol;
}.

Inductive RelayClientEvent :=
| RC_ReservationReqAccepted (relay_peer_id : PeerId) (renewal : bool)
| RC_OutboundCircuitEstablished (relay_peer_id : PeerId)
| RC_InboundCircuitEstablished (src_peer_id : PeerId).

Inductive RelayServerEvent :=
| RS_ReservationReqAccepted (src_peer_id : PeerId) (renewed : bool)
| RS_ReservationReqDenied (src_peer_id : PeerId) (status : RelayStatus)
| RS_ReservationClosed (src_peer_id : PeerId)
| RS_ReservationTimedOut (src_peer_id : PeerId)
| RS_CircuitReqAccepted (src_peer_id dst_peer_id : PeerId)
| RS_CircuitReqDenied (src_peer_id dst_peer_id : PeerId) (status : RelayStatus)
| RS_CircuitClosed (src_peer_id dst_peer_id : PeerId)
| RS_ReservationReqAcceptFailed
| RS_ReservationReqDenyFailed
| RS_CircuitReqDenyFailed
| RS_CircuitReqOutboundConnectFailed
| RS_CircuitReqAcceptFailed.

Inductive CoreBehaviourEvent :=
| CBE_Ping (peer : PeerId) (result : Result Z unit)
| CBE_IdentifyReceived (peer_id : PeerId) (info : IdentifyInfo)
| CBE_Kad (e : KadEvent)
| CBE_ReqResp (e : ReqRespEvent)
| CBE_MdnsDiscovered (peers : list (PeerId * Multiaddr))
| CBE_RelayClient (e : RelayClientEvent)
| CBE_RelayServer (e : RelayServerEvent)
| CBE_Autonat (tested_addr : Multiaddr) (server : PeerId) (result : Result unit string)
| CBE_Dcutr (remote_peer_id : PeerId) (result : Result unit DcutrError)
| CBE_Other.

(** [num_established] counts the connections to the peer: including the new
    one on establishment (a [NonZeroU32]), the remaining ones on closing. *)
Inductive SwarmEvent :=
| Behaviour (e : CoreBehaviourEvent)
| ConnectionEstablished (peer_id : PeerId) (num_established : Z)
| ConnectionClosed (peer_id : PeerId) (num_established : Z)
| OutgoingConnectionError (peer_id : option PeerId) (error : DialError)
| IncomingConnectionError
| NewListenAddr (address : Multiaddr)
| ListenerClosed
| ListenerError
| SE_Other.

End events.

(** ** The methods of [Swarm] *)

Class SwarmOps `{NetTypes} (S : Type) := {
  sw_is_connected : S -> PeerId -> bool;
  sw_dial : S -> PeerId -> S * Result unit DialError;
  sw_disconnect_peer_id : S -> PeerId -> S * Result unit unit;
  sw_listeners : S -> list Multiaddr;
  sw_external_addresses : S -> list Multiaddr;
  sw_add_peer_address : S -> PeerId -> Multiaddr -> S;
  sw_add_external_address : S -> Multiaddr -> S;
  sw_listen_on : S -> Multiaddr -> S * Result unit TransportError;
  sw_relay_client_is_enabled : S -> bool;
  sw_relay_server_is_enabled : S -> bool;
  kad_add_address : S -> PeerId -> Multiaddr -> S;
  kad_bootstrap : S -> S * Result QueryId unit;
  kad_put_record : S -> KadRecord -> S * Result QueryId StoreError;
  kad_start_providing : S -> RecordKey -> S * Result QueryId StoreError;
  kad_stop_providing : S -> RecordKey -> S;
  kad_remove_record : S -> RecordKey -> S;
  kad_get_record : S -> RecordKey -> S * QueryId;
  kad_get_providers : S -> RecordKey -> S * QueryId;
  kad_get_closest_peers : S -> RecordKey -> S * QueryId;
  rr_send_request : S -> PeerId -> Req -> S * OutboundRequestId;
  rr_send_response : S -> ResponseChannel -> Resp -> S * Result unit Resp;
}.

(** Polling the swarm inside [select!]: [sw_poll s (Some ev) s'] when it yields an
    event, [sw_poll s None s'] when it only works on its connections. *)
Class SwarmPoll `{NetTypes} (S : Type) := sw_poll : S -> option SwarmEvent -> S -> Prop.

(** Registering an address or dialling is not a connection: the swarm reports
    a new connection only by a later event; nor does it switch the relay client,
    a [Toggle] fixed when the behaviour is built. *)
Class SwarmLaws `{NetTypes} (S : Type) `{!SwarmOps S} : Prop := {
  is_connected_add_peer_address : forall s p a q,
    sw_is_connected (sw_add_peer_address s p a) q = sw_is_connected s q;
  is_connected_dial : forall s p q,
    sw_is_connected (sw_dial s p).1 q = sw_is_connected s q;
  is_connected_kad_add_address : forall s p a q,
    sw_is_connected (kad_add_address s p a) q = sw_is_connected s q;
  relay_client_add_peer_address : forall s p a,
    sw_relay_client_is_enabled (sw_add_peer_address s p a) = sw_relay_client_is_enabled s;
  relay_client_kad_add_address : forall s p a,
    sw_relay_client_is_enabled (kad_add_address s p a) = sw_relay_client_is_enabled s;
}.

(** ** [HashSet] iteration: any order of the elements *)

Class HashOrder `{NetTypes} := hs_iter : gset PeerId -> list PeerId.

Class HashOrderLaws `{NetTypes, !HashOrder} : Prop :=
  hs_iter_perm : forall X, hs_iter X ≡ₚ elements X.

(** ** tokio's bounded [mpsc] channel *)

Inductive TrySendError := TSE_Full | TSE_Closed.

Class Mpsc := {
  Chan : Type -> Type;
  ch_new : forall A, nat -> Chan A;
  ch_try_send : forall A, Chan A -> A -> Result (Chan A) TrySendError;
  ch_recv : forall A, Chan A -> option (A * Chan A);
  (** dropping the [Receiver]: the queued elements are dropped with it *)
  ch_drop_rx : forall A, Chan A -> Chan A;
  (** views used by the laws and the theorems *)
  ch_contents : forall A, Chan A -> list A;
  ch_capacity : forall A, Chan A -> nat;
  ch_rx_alive : forall A, Chan A -> bool;
}.
Arguments ch_new {_ A} _.
Arguments ch_try_send {_ A} _ _.
Arguments ch_recv {_ A} _.
Arguments ch_drop_rx {_ A} _.
Arguments ch_contents {_ A} _.
Arguments ch_capacity {_ A} _.
Arguments ch_rx_alive {_ A} _.

(** One poll of [Receiver::recv]: an element, [Some None] once the queue is empty
    and every sender is gone, pending ([None]) otherwise. *)
Definition ch_poll_recv `{Mpsc} {A} (senders : nat) (c : Chan A) : Chan A * option (option A) :=
  match ch_recv c with
  | Some (a, c) => (c, Some (Some a))
  | None => (c, if senders =? 0 then Some None else None)
  end.

(** A FIFO of fixed capacity; [try_send] fails with [Closed] once the receiver
    is gone, with [Full] when every slot is taken. *)
Class MpscLaws `{Mpsc} : Prop := {
  ch_new_spec : forall A n,
    ch_contents (ch_new (A := A) n) = [] /\ ch_capacity (ch_new (A := A) n) = n
    /\ ch_rx_alive (ch_new (A := A) n) = true;
  ch_try_send_closed : forall A (c : Chan A) a,
    ch_rx_alive c = false -> ch_try_send c a = Err TSE_Closed;
  ch_try_send_full : forall A (c : Chan A) a,
    ch_rx_alive c = true -> ch_capacity c <= length (ch_contents c) ->
    ch_try_send c a = Err TSE_Full;
  ch_try_send_ok : forall A (c : Chan A) a,
    ch_rx_alive c = true -> length (ch_contents c) < ch_capacity c ->
    exists c', ch_try_send c a = Ok c' /\ ch_contents c' = ch_contents c ++ [a]
      /\ ch_capacity c' = ch_capacity c /\ ch_rx_alive c' = true;
  ch_recv_nil : forall A (c : Chan A), ch_contents c = [] -> ch_recv c = None;
  ch_recv_cons : forall A (c : Chan A) a l,
    ch_contents c = a :: l ->
    exists c', ch_recv c = Some (a, c') /\ ch_contents c' = l
      /\ ch_capacity c' = ch_capacity c /\ ch_rx_alive c' = ch_rx_alive c;
  ch_drop_rx_spec : forall A (c : Chan A),
    ch_contents (ch_drop_rx c) = [] /\ ch_capacity (ch_drop_rx c) = ch_capacity c
    /\ ch_rx_alive (ch_drop_rx c) = false;
}.

(** ** Recording the calls made on a swarm

    [Logged S] runs the operations of any swarm and remembers the mutating
    calls with their arguments, in order; the ordering theorems are stated on this log. *)

Section logged.
Context `{N : NetTypes}.

Inductive SwarmCall :=
| CallDial (p : PeerId)
| CallDisconnect (p : PeerId)
| CallAddPeerAddress (p : PeerId) (a : Multiaddr)
| CallAddExternalAddress (a : Multiaddr)
| CallListenOn (a : Multiaddr)
| CallKadAddAddress (p : PeerId) (a : Multiaddr)
| CallKadBootstrap
| CallKadPutRecord (r : KadRecord)
| CallKadStartProviding (k : RecordKey)
| CallKadStopProviding (k : RecordKey)
| CallKadRemoveRecord (k : RecordKey)
| CallKadGetRecord (k : RecordKey)
| CallKadGetProviders (k : RecordKey)
| CallKadGetClosestPeers (k : RecordKey)
| CallSendRequest (p : PeerId) (request : Req)
| CallSendResponse (channel : ResponseChannel) (response : Resp).

Record Logged (S : Type) := mkLogged { lg_swarm : S; lg_calls : list SwarmCall }.
Arguments mkLogged {S} _ _.
Arguments lg_swarm {S} _.
Arguments lg_calls {S} _.

Definition log_upd {S} (c : SwarmCall) (s : Logged S) (s' : S) : Logged S :=
  mkLogged s' (lg_calls s ++ [c]).

Definition log_upd_r {S A} (c : SwarmCall) (s : Logged S) (r : S * A) : Logged S * A :=
  (log_upd c s r.1, r.2).

#[export] Instance Logged_ops {Sw : Type} `{!SwarmOps Sw} : SwarmOps (Logged Sw) := {
  sw_is_connected s := sw_is_connected (lg_swarm s);
  sw_dial s p := log_upd_r (CallDial p) s (sw_dial (lg_swarm s) p);
  sw_disconnect_peer_id s p :=
    log_upd_r (CallDisconnect p) s (sw_disconnect_peer_id (lg_swarm s) p);
  sw_listeners s := sw_listeners (lg_swarm s);
  sw_external_addresses s := sw_external_addresses (lg_swarm s);
  sw_add_peer_address s p a :=
    log_upd (CallAddPeerAddress p a) s (sw_add_peer_address (lg_swarm s) p a);
  sw_add_external_address s a :=
    log_upd (CallAddExternalAddress a) s (sw_add_external_address (lg_swarm s) a);
  sw_listen_on s a := log_upd_r (CallListenOn a) s (sw_listen_on (lg_swarm s) a);
  sw_relay_client_is_enabled s := sw_relay_client_is_enabled (lg_swarm s);
  sw_relay_server_is_enabled s := sw_relay_server_is_enabled (lg_swarm s);
  kad_add_address s p a :=
    log_upd (CallKadAddAddress p a) s (kad_add_address (lg_swarm s) p a);
  kad_bootstrap s := log_upd_r CallKadBootstrap s (kad_bootstrap (lg_swarm s));
  kad_put_record s r := log_upd_r (CallKadPutRecord r) s (kad_put_record (lg_swarm s) r);
  kad_start_providing s k := log_upd_r (CallKadStartProviding k) s (kad_start_providing (lg_swarm s) k);
  kad_stop_providing s k := log_upd (CallKadStopProviding k) s (kad_stop_providing (lg_swarm s) k);
  kad_remove_record s k := log_upd (CallKadRemoveRecord k) s (kad_remove_record (lg_swarm s) k);
  kad_get_record s k := log_upd_r (CallKadGetRecord k) s (kad_get_record (lg_swarm s) k);
  kad_get_providers s k := log_upd_r (CallKadGetProviders k) s (kad_get_providers (lg_swarm s) k);
  kad_get_closest_peers s k :=
    log_upd_r (CallKadGetClosestPeers k) s (kad_get_closest_peers (lg_swarm s) k);
  rr_send_request s p r :=
    log_upd_r (CallSendRequest p r) s (rr_send_request (lg_swarm s) p r);
  rr_send_response s c r :=
    log_upd_r (CallSendResponse c r) s (rr_send_response (lg_swarm s) c r);
}.

End logged.
Arguments Logged {_} _.
Arguments mkLogged {_ S} _ _.
Arguments lg_swarm {_ S} _.
Arguments lg_calls {_ S} _.

Section logged_laws.
Context `{N : NetTypes} {Sw : Type} `{!SwarmOps Sw} `{!SwarmLaws Sw}.

#[export] Instance Logged_laws : SwarmLaws (Logged Sw).
Proof.
  split; intros; simpl.
  - apply is_connected_add_peer_address.
  - apply is_connected_dial.
  - apply is_connected_kad_add_address.
  - apply relay_client_add_peer_address.
  - apply relay_client_kad_add_address.
Qed.

End logged_laws.
