(* ===== verification/Errors.v ===== *)
(** * Errors

    [core/src/error.rs] and the close reasons of [core/src/data_channel.rs]:
    the error types as values, their [Display] texts, and the functions that
    normalise libp2p failures into them ([map_outbound_failure] of
    [command/req_resp/send_request.rs], [map_open_stream_error] of
    [client/data_channel_open.rs]). *)
From S2P Require Import Prelude Externals.

Inductive NetworkFailureKind :=
| Timeout
| DialFailure
| UnsupportedProtocol
| ConnectionClosedFailure
| Cancelled
| CodecError
| ResourceLimitExceeded
| Unknown.

Definition NetworkFailureKind_fmt (k : NetworkFailureKind) : string :=
  match k with
  | Timeout => "timeout"
  | DialFailure => "dial failure"
  | UnsupportedProtocol => "unsupported protocol"
  | ConnectionClosedFailure => "connection closed"
  | Cancelled => "cancelled"
  | CodecError => "codec error"
  | ResourceLimitExceeded => "resource limit exceeded"
  | Unknown => "unknown"
  end.

Inductive DataChannelCloseReason :=
| DC_Normal
| DC_ConnectionClosed
| DC_LocalCancelled
| DC_UnsupportedProtocol
| DC_ResourceLimitExceeded
| DC_Io (detail : string).

Definition DataChannelCloseReason_fmt (r : DataChannelCloseReason) : string :=
  match r with
  | DC_Normal => "normal end-of-stream"
  | DC_ConnectionClosed => "underlying connection closed"
  | DC_LocalCancelled => "locally cancelled"
  | DC_UnsupportedProtocol => "unsupported protocol"
  | DC_ResourceLimitExceeded => "resource limit exceeded"
  | DC_Io detail => "io error: " +:+ detail
  end.

(** The payloads of [Anyhow], [Noise] and [Io] are foreign error values; they
    are represented by the text they print. *)
Inductive Error :=
| E_Anyhow (e : string)
| E_Transport (s : string)
| E_Noise (e : string)
| E_Io (e : string)
| E_Dial (s : string)
| E_Listen (s : string)
| E_Kad (s : string)
| E_RequestResponse (s : string)
| E_Behaviour (s : string)
| E_Network (k : NetworkFailureKind)
| E_DataChannel (r : DataChannelCloseReason).

Definition Error_fmt (e : Error) : string :=
  match e with
  | E_Anyhow e => e
  | E_Transport s => "Transport error: " +:+ s
  | E_Noise e => "Noise authentication error: " +:+ e
  | E_Io e => "IO error: " +:+ e
  | E_Dial s => "Dial error: " +:+ s
  | E_Listen s => "Listen error: " +:+ s
  | E_Kad s => "Kad error: " +:+ s
  | E_RequestResponse s => "Request-response error: " +:+ s
  | E_Behaviour s => "Behaviour error: " +:+ s
  | E_Network k => "Network failure: " +:+ NetworkFailureKind_fmt k
  | E_DataChannel r => "Data channel: " +:+ DataChannelCloseReason_fmt r
  end.

(** [crate::Result]. *)
Notation CResult A := (Result A Error).

#[export] Instance NetworkFailureKind_eq_dec : EqDecision NetworkFailureKind.
Proof. solve_decision. Defined.

#[export] Instance DataChannelCloseReason_eq_dec : EqDecision DataChannelCloseReason.
Proof. solve_decision. Defined.

#[export] Instance Error_eq_dec : EqDecision Error.
Proof. solve_decision. Defined.

Section mapping.
Context `{N : NetTypes}.

Definition map_outbound_failure (err : OutboundFailure) : Error :=
  E_Network
    match err with
    | OF_DialFailure => DialFailure
    | OF_Timeout => Timeout
    | OF_ConnectionClosed => ConnectionClosedFailure
    | OF_UnsupportedProtocols => UnsupportedProtocol
    | _ => Unknown
    end.

Definition map_open_stream_error (err : OpenStreamError) : Error :=
  match err with
  | OSE_UnsupportedProtocol _ => E_DataChannel DC_UnsupportedProtocol
  | OSE_Io e => E_DataChannel (DC_Io (io_error_display e))
  | _ => E_Network Unknown
  end.

End mapping.

(** ** The texts separate the cases *)

#[export] Instance NetworkFailureKind_fmt_inj : Inj (=) (=) NetworkFailureKind_fmt.
Proof. intros [] []; done. Qed.

#[export] Instance DataChannelCloseReason_fmt_inj : Inj (=) (=) DataChannelCloseReason_fmt.
Proof. intros [] []; simpl; intros; simplify_eq; done. Qed.
