(* ===== verification/DataChannel.v ===== *)
(** * Data channels and their quota registry ([core/src/data_channel.rs])

    [RegistryInner] is the mutex-protected state shared by the client (outbound
    channels) and the event loop (inbound channels): every operation takes the
    lock once, so one definition per operation is one atomic step.  A guard is
    the record of what it releases; the theorems relate the three counter maps
    to the list of guards that are alive. *)
From S2P Require Import Prelude Externals Errors.
From stdpp Require Import pretty.

(** ** Data *)

(** [DataChannelId::next]: [fetch_add] on a process-wide [AtomicU64]; returns
    the new counter value and the identifier handed out. *)
Definition DataChannelId_next (counter : Z) : Z * Z := (wrap64 (counter + 1), counter).

(** [Display for DataChannelId]. *)
Definition DataChannelId_fmt (id : Z) : string := "dc#" +:+ pretty id.

Inductive DataChannelDirection := Outbound | Inbound.

#[export] Instance DataChannelDirection_eq_dec : EqDecision DataChannelDirection.
Proof. solve_decision. Defined.

Record DataChannelLimits := {
  max_inbound_per_peer : Z;
  max_outbound_per_peer : Z;
  max_per_protocol : Z;
}.

Definition DataChannelLimits_default : DataChannelLimits :=
  {| max_inbound_per_peer := 4; max_outbound_per_peer := 4; max_per_protocol := 64 |}.

(** The limits are [usize] values. *)
Definition limits_in_range (l : DataChannelLimits) : Prop :=
  in_u64 (max_inbound_per_peer l) /\ in_u64 (max_outbound_per_peer l)
  /\ in_u64 (max_per_protocol l).

(** ** [*map.entry(k).or_default() += 1] and the decrement of [Drop] *)

Definition counter_get {K} `{Countable K} (m : gmap K Z) (k : K) : Z := default 0%Z (m !! k).

Definition counter_bump {K} `{Countable K} (m : gmap K Z) (k : K) : gmap K Z :=
  <[k := wrap64 (counter_get m k + 1)]> m.

Definition counter_release {K} `{Countable K} (m : gmap K Z) (k : K) : gmap K Z :=
  match m !! k with
  | Some c =>
      let c := sat_sub c 1 in
      if (c =? 0)%Z then delete k m else <[k := c]> m
  | None => m
  end.

Section registry.
Context `{N : NetTypes}.

Record RegistryInner := mkRegistry {
  inbound_per_peer : gmap PeerId Z;
  outbound_per_peer : gmap PeerId Z;
  per_protocol : gmap StreamProtocol Z;
}.

Definition RegistryInner_default : RegistryInner := mkRegistry ∅ ∅ ∅.

(** The [registry] field of a guard is the shared cell itself. *)
Record ChannelGuard := mkGuard {
  guard_peer : PeerId;
  guard_protocol : StreamProtocol;
  guard_direction : DataChannelDirection;
}.

#[export] Instance ChannelGuard_eq_dec : EqDecision ChannelGuard.
Proof. solve_decision. Defined.

(** ** [ChannelRegistry::try_acquire] *)

Definition per_peer_limit (l : DataChannelLimits) (d : DataChannelDirection) : Z :=
  match d with
  | Inbound => max_inbound_per_peer l
  | Outbound => max_outbound_per_peer l
  end.

Definition per_peer_map (inner : RegistryInner) (d : DataChannelDirection) : gmap PeerId Z :=
  match d with
  | Inbound => inbound_per_peer inner
  | Outbound => outbound_per_peer inner
  end.

Definition with_per_peer (inner : RegistryInner) (d : DataChannelDirection)
    (m : gmap PeerId Z) : RegistryInner :=
  match d with
  | Inbound => mkRegistry m (outbound_per_peer inner) (per_protocol inner)
  | Outbound => mkRegistry (inbound_per_peer inner) m (per_protocol inner)
  end.

Definition with_per_protocol (inner : RegistryInner) (m : gmap StreamProtocol Z) : RegistryInner :=
  mkRegistry (inbound_per_peer inner) (outbound_per_peer inner) m.

Definition try_acquire (limits : DataChannelLimits) (inner : RegistryInner)
    (peer : PeerId) (protocol : StreamProtocol) (direction : DataChannelDirection) :
    RegistryInner * option ChannelGuard :=
  let per_peer_count := counter_get (per_peer_map inner direction) peer in
  let per_protocol_count := counter_get (per_protocol inner) protocol in
  if (per_peer_limit limits direction <=? per_peer_count)%Z
     || (max_per_protocol limits <=? per_protocol_count)%Z
  then (inner, None)
  else
    let inner := with_per_peer inner direction
                   (counter_bump (per_peer_map inner direction) peer) in
    let inner := with_per_protocol inner (counter_bump (per_protocol inner) protocol) in
    (inner, Some (mkGuard peer protocol direction)).

(** ** [ChannelGuard::drop] *)

Definition guard_drop (inner : RegistryInner) (g : ChannelGuard) : RegistryInner :=
  let inner := with_per_peer inner (guard_direction g)
                 (counter_release (per_peer_map inner (guard_direction g)) (guard_peer g)) in
  with_per_protocol inner (counter_release (per_protocol inner) (guard_protocol g)).

Definition guard_drop_opt (inner : RegistryInner) (g : option ChannelGuard) : RegistryInner :=
  match g with Some g => guard_drop inner g | None => inner end.

(** ** [DataChannel] *)

Record DataChannel := mkDataChannel {
  dc_id : Z;
  dc_peer : PeerId;
  dc_protocol : StreamProtocol;
  dc_direction : DataChannelDirection;
  dc_stream : Stream;
  dc_guard : option ChannelGuard;
}.

Definition DataChannel_new (id : Z) (peer : PeerId) (protocol : StreamProtocol)
    (direction : DataChannelDirection) (stream : Stream) (guard : option ChannelGuard) :
    DataChannel := mkDataChannel id peer protocol direction stream guard.

(** The accessors. *)
Definition DataChannel_id (c : DataChannel) : Z := dc_id c.
Definition DataChannel_peer (c : DataChannel) : PeerId := dc_peer c.
Definition DataChannel_protocol (c : DataChannel) : StreamProtocol := dc_protocol c.
Definition DataChannel_direction (c : DataChannel) : DataChannelDirection := dc_direction c.

(** [stream_mut]: the borrowed stream and the handle after the borrow has
    written [s'] to it. *)
Definition stream_mut (c : DataChannel) : Stream * (Stream -> DataChannel) :=
  (dc_stream c,
   fun s' => mkDataChannel (dc_id c) (dc_peer c) (dc_protocol c) (dc_direction c) s' (dc_guard c)).

Record InboundDataChannel := { channel : DataChannel }.

(** The registration of one data-channel protocol. *)
Record DataChannelProtocolConfig := mkDataChannelProtocol { dcp_protocol : StreamProtocol }.

Definition DataChannelProtocolConfig_new (protocol : StreamProtocol) : DataChannelProtocolConfig :=
  mkDataChannelProtocol protocol.

(** The consumer's end of the inbound channel queue. *)
Section receiver.
Context `{!Mpsc}.

Record DataChannelReceiver := mkDataChannelReceiver { dcr_rx : Chan InboundDataChannel }.

Definition DataChannelReceiver_new (rx : Chan InboundDataChannel) : DataChannelReceiver :=
  mkDataChannelReceiver rx.

(** One poll of [recv]; [senders] counts the live senders. *)
Definition DataChannelReceiver_recv (senders : nat) (r : DataChannelReceiver) :
    DataChannelReceiver * option (option InboundDataChannel) :=
  let '(rx, x) := ch_poll_recv senders (dcr_rx r) in (mkDataChannelReceiver rx, x).

End receiver.

(** Dropping a handle drops its guard. *)
Definition data_channel_drop (inner : RegistryInner) (c : DataChannel) : RegistryInner :=
  guard_drop_opt inner (dc_guard c).

(** [into_stream(self)]: the stream is moved out, the other fields of the
    consumed handle, the guard among them, are dropped. *)
Definition into_stream (inner : RegistryInner) (c : DataChannel) : RegistryInner * Stream :=
  (guard_drop_opt inner (dc_guard c), dc_stream c).

(** ** Specification: the counters are the census of the live guards *)

Definition inbound_key (g : ChannelGuard) : option PeerId :=
  match guard_direction g with Inbound => Some (guard_peer g) | Outbound => None end.
Definition outbound_key (g : ChannelGuard) : option PeerId :=
  match guard_direction g with Outbound => Some (guard_peer g) | Inbound => None end.
Definition peer_key (d : DataChannelDirection) (g : ChannelGuard) : option PeerId :=
  match d with Inbound => inbound_key g | Outbound => outbound_key g end.
Definition protocol_key (g : ChannelGuard) : option StreamProtocol := Some (guard_protocol g).

Definition census {K} `{Countable K} (f : ChannelGuard -> option K) (k : K)
    (gs : list ChannelGuard) : nat := countP (fun g => f g = Some k) gs.

(** A counter map holds exactly the non-zero counts. *)
Definition count_entry (n : nat) : option Z := if decide (n = 0) then None else Some (Z.of_nat n).
Definition tracks {K} `{Countable K} (f : ChannelGuard -> option K) (m : gmap K Z)
    (gs : list ChannelGuard) : Prop := forall k, m !! k = count_entry (census f k gs).

Definition within_limits (l : DataChannelLimits) (gs : list ChannelGuard) : Prop :=
  (forall d p, (Z.of_nat (census (peer_key d) p gs) <= per_peer_limit l d)%Z)
  /\ (forall q, (Z.of_nat (census protocol_key q gs) <= max_per_protocol l)%Z).

Record registry_ok (l : DataChannelLimits) (inner : RegistryInner)
    (gs : list ChannelGuard) : Prop := {
  ok_inbound : tracks inbound_key (inbound_per_peer inner) gs;
  ok_outbound : tracks outbound_key (outbound_per_peer inner) gs;
  ok_protocol : tracks protocol_key (per_protocol inner) gs;
  ok_limits : within_limits l gs;
}.

(** The abstract admission rule: both counts are below their limit. *)
Definition admits (l : DataChannelLimits) (gs : list ChannelGuard)
    (peer : PeerId) (protocol : StreamProtocol) (d : DataChannelDirection) : Prop :=
  (Z.of_nat (census (peer_key d) peer gs) < per_peer_limit l d)%Z
  /\ (Z.of_nat (census protocol_key protocol gs) < max_per_protocol l)%Z.

#[export] Instance admits_dec l gs p q d : Decision (admits l gs p q d).
Proof. unfold admits. apply _. Defined.

(** ** The registry as a transition system: any interleaving of the atomic
    operations of the client tasks and of the event loop *)

Inductive registry_step (l : DataChannelLimits) :
    RegistryInner * list ChannelGuard -> RegistryInner * list ChannelGuard -> Prop :=
| step_acquire inner inner' gs p q d g :
    try_acquire l inner p q d = (inner', Some g) ->
    registry_step l (inner, gs) (inner', g :: gs)
| step_reject inner inner' gs p q d :
    try_acquire l inner p q d = (inner', None) ->
    registry_step l (inner, gs) (inner', gs)
| step_drop inner gs g gs' :
    gs ≡ₚ g :: gs' ->
    registry_step l (inner, gs) (guard_drop inner g, gs').

Definition registry_reachable (l : DataChannelLimits) : RegistryInner * list ChannelGuard -> Prop :=
  rtc (registry_step l) (RegistryInner_default, []).

(** Live byte streams, whether still wrapped in a handle or taken out of it. *)
Inductive stream_step (l : DataChannelLimits) :
    RegistryInner * list ChannelGuard * list (PeerId * Stream) ->
    RegistryInner * list ChannelGuard * list (PeerId * Stream) -> Prop :=
| ss_accept_and_take inner inner' gs ss p q g id s :
    try_acquire l inner p q Inbound = (inner', Some g) ->
    stream_step l (inner, gs, ss)
      (let '(inner'', s') := into_stream inner' (mkDataChannel id p q Inbound s (Some g)) in
       (inner'', gs, (p, s') :: ss))
| ss_accept inner inner' gs ss p q g s :
    try_acquire l inner p q Inbound = (inner', Some g) ->
    stream_step l (inner, gs, ss) (inner', g :: gs, (p, s) :: ss).

End registry.

(** ** Lemmas on the census and the counter maps *)

Section census.
Context `{N : NetTypes} {K : Type} `{Countable K}.
Implicit Types (f : ChannelGuard -> option K) (m : gmap K Z) (gs : list ChannelGuard) (k : K).

Lemma census_cons f k g gs :
  census f k (g :: gs) = (if decide (f g = Some k) then 1 else 0) + census f k gs.
Proof. unfold census, countP. rewrite filter_cons. by case_decide. Qed.

#[export] Instance census_perm f k : Proper ((≡ₚ) ==> (=)) (census f k).
Proof. intros gs gs' Hgs. unfold census. by rewrite Hgs. Qed.

Lemma tracks_get f m gs k : tracks f m gs -> counter_get m k = Z.of_nat (census f k gs).
Proof.
  intros Hm. unfold counter_get. rewrite Hm. unfold count_entry.
  case_decide as Hz; simpl; [by rewrite Hz | done].
Qed.

Lemma tracks_nil f : tracks f ∅ [].
Proof. intros k. by rewrite lookup_empty. Qed.

Lemma tracks_skip f m g gs : f g = None -> tracks f m (g :: gs) <-> tracks f m gs.
Proof.
  intros Hf. split; intros Hm k; specialize (Hm k);
    rewrite census_cons, decide_False in * by congruence; done.
Qed.

Lemma tracks_bump f m g gs k :
  tracks f m gs -> f g = Some k -> (Z.of_nat (census f k gs) < u64_max)%Z ->
  tracks f (counter_bump m k) (g :: gs).
Proof.
  intros Hm Hg Hlt j. unfold counter_bump. rewrite (tracks_get f m gs k Hm).
  rewrite lookup_insert, census_cons, Hg. unfold count_entry.
  destruct (decide (k = j)) as [<-|Hne].
  - rewrite (decide_True (P := Some k = Some k)) by done.
    rewrite decide_False by lia. f_equal. rewrite wrap64_small by u64_lia. lia.
  - rewrite (decide_False (P := Some k = Some j)) by congruence.
    apply Hm.
Qed.

Lemma tracks_release f m g gs k :
  tracks f m (g :: gs) -> f g = Some k -> tracks f (counter_release m k) gs.
Proof.
  intros Hm Hg j. unfold counter_release.
  pose proof (Hm k) as Hk. rewrite census_cons, decide_True in Hk by done.
  unfold count_entry in Hk. rewrite decide_False in Hk by lia. rewrite Hk.
  rewrite sat_sub_exact by lia.
  destruct (decide (k = j)) as [<-|Hne].
  - unfold count_entry. destruct (Z.eqb_spec (Z.of_nat (1 + census f k gs) - 1) 0).
    + rewrite decide_True by lia. apply lookup_delete_eq.
    + rewrite decide_False by lia. rewrite lookup_insert_eq. f_equal. lia.
  - pose proof (Hm j) as Hj. rewrite census_cons, decide_False in Hj by congruence.
    case_match; [rewrite lookup_delete_ne by done | rewrite lookup_insert_ne by done]; done.
Qed.

#[export] Instance tracks_perm f m : Proper ((≡ₚ) ==> iff) (tracks f m).
Proof.
  intros gs gs' Hgs. split; intros Hm k; [rewrite <- Hgs | rewrite Hgs]; apply Hm.
Qed.

(** A census determines its counter map. *)
Lemma tracks_unique f m m' gs : tracks f m gs -> tracks f m' gs -> m = m'.
Proof. intros Hm Hm'. apply map_eq. intros k. by rewrite Hm, Hm'. Qed.

End census.

#[export] Hint Resolve tracks_nil : swarm.

(** ** Lemmas on the registry operations *)

Section registry_lemmas.
Context `{N : NetTypes} (l : DataChannelLimits).
Context (Hl : limits_in_range l).
Implicit Types (inner : RegistryInner) (gs : list ChannelGuard).

Lemma registry_ok_empty : registry_ok l RegistryInner_default [].
Proof using Hl.
  destruct Hl as (Hi & Ho & Hp). split; try apply tracks_nil.
  split; [intros [] p | intros q]; change (census _ _ []) with 0; simpl; u64_lia.
Qed.

#[export] Instance registry_ok_perm inner : Proper ((≡ₚ) ==> iff) (registry_ok l inner).
Proof.
  intros gs gs' Hgs. split; intros [Hi Ho Hp [Hd Hq]].
  - split; [by rewrite <- Hgs..|]. split; intros; rewrite <- Hgs; auto.
  - split; [by rewrite Hgs..|]. split; intros; rewrite Hgs; auto.
Qed.

Lemma per_peer_tracks inner gs d :
  registry_ok l inner gs -> tracks (peer_key d) (per_peer_map inner d) gs.
Proof. intros []. by destruct d. Qed.

(** The code's test is the specification's admission rule. *)
Lemma try_acquire_test inner gs p q d :
  registry_ok l inner gs ->
  (per_peer_limit l d <=? counter_get (per_peer_map inner d) p)%Z
    || (max_per_protocol l <=? counter_get (per_protocol inner) q)%Z
  = bool_decide (~ admits l gs p q d).
Proof.
  intros Hok. rewrite (tracks_get (peer_key d) _ gs) by by apply per_peer_tracks.
  rewrite (tracks_get protocol_key _ gs) by apply Hok.
  apply Bool.eq_true_iff_eq. rewrite orb_true_iff, !Z.leb_le, bool_decide_eq_true.
  unfold admits. lia.
Qed.

Lemma within_limits_push gs p q d :
  within_limits l gs -> admits l gs p q d -> within_limits l (mkGuard p q d :: gs).
Proof.
  intros [Hd Hq] [Hpa Hqa]. split.
  - intros d' p'. rewrite census_cons. case_decide as He; [|apply Hd].
    assert (d' = d /\ p' = p) as [-> ->] by (destruct d, d'; cbv in He; naive_solver). lia.
  - intros q'. rewrite census_cons. case_decide as He; [|apply Hq]. injection He as <-. lia.
Qed.

Lemma try_acquire_admitted inner gs p q d :
  registry_ok l inner gs -> admits l gs p q d ->
  exists inner', try_acquire l inner p q d = (inner', Some (mkGuard p q d))
    /\ registry_ok l inner' (mkGuard p q d :: gs).
Proof using Hl.
  intros Hok Hadm. unfold try_acquire.
  rewrite (try_acquire_test inner gs) by done. rewrite bool_decide_false by tauto.
  eexists. split; [done|].
  pose proof (within_limits_push _ _ _ _ (ok_limits _ _ _ Hok) Hadm) as Hw.
  pose proof (per_peer_tracks _ _ d Hok) as Hd.
  destruct Hok as [Hi Ho Hp _], Hadm as [Hpa Hqa], Hl as (Li & Lo & Lp).
  assert (tracks (peer_key d) (counter_bump (per_peer_map inner d) p) (mkGuard p q d :: gs)).
  { apply tracks_bump; [done|by destruct d|]. destruct d; simpl in Hpa; u64_lia. }
  assert (tracks protocol_key (counter_bump (per_protocol inner) q) (mkGuard p q d :: gs))
    by (apply tracks_bump; [done..|u64_lia]).
  destruct d; split; simpl; try done; by apply tracks_skip.
Qed.

Lemma try_acquire_rejected inner gs p q d :
  registry_ok l inner gs -> ~ admits l gs p q d ->
  try_acquire l inner p q d = (inner, None).
Proof.
  intros Hok Hadm. unfold try_acquire.
  rewrite (try_acquire_test inner gs) by done. by rewrite bool_decide_true.
Qed.

Lemma within_limits_drop g gs : within_limits l (g :: gs) -> within_limits l gs.
Proof.
  intros [Hd Hq].
  split; [intros d p; specialize (Hd d p) | intros q; specialize (Hq q)];
    rewrite census_cons in *; lia.
Qed.

Lemma guard_drop_ok inner g gs :
  registry_ok l inner (g :: gs) -> registry_ok l (guard_drop inner g) gs.
Proof.
  intros [Hi Ho Hp Hw]. apply within_limits_drop in Hw.
  assert (tracks protocol_key (counter_release (per_protocol inner) (guard_protocol g)) gs)
    by by eapply tracks_release.
  destruct g as [p q []]; split; simpl; try done;
    by (eapply tracks_release || (eapply tracks_skip; [|done])).
Qed.

Lemma registry_ok_unique inner inner' gs :
  registry_ok l inner gs -> registry_ok l inner' gs -> inner = inner'.
Proof.
  intros [Hi Ho Hp _] [Hi' Ho' Hp' _]. destruct inner, inner'; simpl in *.
  f_equal; by eapply tracks_unique.
Qed.

(** What a successful or failed acquisition tells, in one lemma. *)
Lemma try_acquire_inv inner gs p q d inner' o :
  registry_ok l inner gs -> try_acquire l inner p q d = (inner', o) ->
  match o with
  | Some g => g = mkGuard p q d /\ admits l gs p q d /\ registry_ok l inner' (g :: gs)
  | None => inner' = inner /\ ~ admits l gs p q d
  end.
Proof using Hl.
  intros Hok Hacq. destruct (decide (admits l gs p q d)) as [Hadm|Hadm].
  - destruct (try_acquire_admitted _ _ _ _ _ Hok Hadm) as (i & Hi & ?).
    rewrite Hi in Hacq. by simplify_eq.
  - rewrite (try_acquire_rejected _ gs) in Hacq by done. by simplify_eq.
Qed.

Lemma registry_step_ok inner gs inner' gs' :
  registry_step l (inner, gs) (inner', gs') -> registry_ok l inner gs ->
  registry_ok l inner' gs'.
Proof using Hl.
  intros Hstep Hok. inversion Hstep as [? ? ? ? ? ? ? Ha|? ? ? ? ? ? Ha|? ? ? ? Hp]; subst.
  - by apply (try_acquire_inv _ gs) in Ha as (? & ? & ?).
  - by apply (try_acquire_inv _ gs') in Ha as (-> & ?).
  - rewrite Hp in Hok. by apply guard_drop_ok.
Qed.

End registry_lemmas.

Section registry_more.
Context `{N : NetTypes} (l : DataChannelLimits).
Context (Hl : limits_in_range l).

(** Dropping the guards one after the other, in any order. *)
Lemma drop_all_ok inner gs gs' :
  registry_ok l inner (gs ++ gs') -> registry_ok l (foldl guard_drop inner gs) gs'.
Proof.
  revert inner. induction gs as [|g gs IH]; intros inner Hok; [done|].
  apply IH. by apply (guard_drop_ok l).
Qed.

(** One accepted channel turned into a raw stream leaves the registry as it was. *)
Lemma accept_and_take_step inner gs ss p q s :
  registry_ok l inner gs -> admits l gs p q Inbound ->
  stream_step l (inner, gs, ss) (inner, gs, (p, s) :: ss).
Proof using Hl.
  intros Hok Hadm. destruct (try_acquire_admitted l Hl _ _ _ _ _ Hok Hadm) as (i & Hi & Hok').
  pose proof (ss_accept_and_take l _ _ gs ss p q _ 0 s Hi) as Hstep. simpl in Hstep.
  assert (guard_drop i (mkGuard p q Inbound) = inner) as Heq; [|by rewrite Heq in Hstep].
  eapply registry_ok_unique; [by apply (guard_drop_ok l)|done].
Qed.

End registry_more.

(** ** Properties *)

(** Whatever the interleaving of acquisitions, rejections and guard drops
    from the empty registry, the three counter maps are exactly the census of
    the live guards (no stale or zero entry) and no per-peer or per-protocol
    limit is exceeded; in particular no counter can wrap around. *)
Lemma registry_reachable_ok `{N : NetTypes} (l : DataChannelLimits) inner gs :
  limits_in_range l -> registry_reachable l (inner, gs) -> registry_ok l inner gs.
Proof.
  intros Hl Hr.
  apply (rtc_invariant _ (fun st => registry_ok l st.1 st.2) _ (inner, gs)) in Hr; [done| |].
  - intros [] [] Hstep Hok. by eapply registry_step_ok.
  - by apply registry_ok_empty.
Qed.

(** C19. [try_acquire] implements the abstract admission rule: on a registry
    that counts the live guards it hands out a guard for the requested peer,
    protocol and direction exactly when the peer's count in that direction and
    the protocol's count over both directions are below their limits, and the
    new registry counts the new guard; otherwise nothing changes. *)
Theorem try_acquire_refines `{N : NetTypes} (l : DataChannelLimits) inner gs p q d :
  limits_in_range l -> registry_ok l inner gs ->
  let '(inner', o) := try_acquire l inner p q d in
  if decide (admits l gs p q d)
  then o = Some (mkGuard p q d) /\ registry_ok l inner' (mkGuard p q d :: gs)
  else o = None /\ inner' = inner.
Proof.
  intros Hl Hok. destruct (try_acquire l inner p q d) as [inner' o] eqn:Ha.
  apply (try_acquire_inv l Hl _ gs) in Ha; [|done].
  destruct o as [g|]; case_decide; naive_solver.
Qed.

(** Quota never leaks: dropping all the live guards, in any order, brings
    the registry back to the empty one. *)
Lemma drop_all_restores `{N : NetTypes} (l : DataChannelLimits) inner gs gs' :
  limits_in_range l -> registry_ok l inner gs -> gs' ≡ₚ gs ->
  foldl guard_drop inner gs' = RegistryInner_default.
Proof.
  intros Hl Hok Hp. eapply registry_ok_unique; [|by apply registry_ok_empty].
  apply (drop_all_ok l). by rewrite app_nil_r, Hp.
Qed.

(** Acquiring a guard and dropping it is the identity on the registry,
    whatever other guards are alive. *)
Lemma acquire_release_id `{N : NetTypes} (l : DataChannelLimits) inner gs p q d inner' g :
  limits_in_range l -> registry_ok l inner gs ->
  try_acquire l inner p q d = (inner', Some g) -> guard_drop inner' g = inner.
Proof.
  intros Hl Hok Ha. apply (try_acquire_inv l Hl _ gs) in Ha as (_ & _ & Hok'); [|done].
  eapply registry_ok_unique; [by apply (guard_drop_ok l) | done].
Qed.

(** C36. The limits bound the guards, not the byte streams: [into_stream]
    releases the quota while the stream lives on, so with any admissible limits
    (even one inbound channel per peer) a peer can hold any number of live
    inbound streams while the registry is empty. *)
Theorem into_stream_defeats_limit `{N : NetTypes} (l : DataChannelLimits) (p : PeerId)
    (q : StreamProtocol) (s : Stream) (n : nat) :
  limits_in_range l -> (0 < max_inbound_per_peer l)%Z -> (0 < max_per_protocol l)%Z ->
  rtc (stream_step l) (RegistryInner_default, [], [])
    (RegistryInner_default, [], replicate n (p, s)).
Proof.
  intros Hl Hi Hp. induction n as [|n IH]; [done|]. eapply rtc_r; [exact IH|].
  apply (accept_and_take_step l Hl _ _ _ _ q); [by apply registry_ok_empty|].
  split; change (census _ _ []) with 0; simpl; lia.
Qed.
