(* ===== verification/PendingMap.v ===== *)
(** * The TTL map ([core/src/pending_map.rs])

    The state is the mutex-protected [HashMap]; each method locks it once, so
    each is one atomic function of the map and, where it reads the clock, of the
    current instant (nanoseconds, as [Z]).  The background task spawned by
    [with_cleanup_interval] is the [pm_tick] step of the transition system:
    tokio's interval fires at once and then every [cleanup_interval]. *)
From S2P Require Import Prelude.

Definition NANOS_PER_SEC : Z := 1000000000.
Definition from_secs (s : Z) : Z := (s * NANOS_PER_SEC)%Z.

(** [Duration::from_secs(10)]. *)
Definition DEFAULT_CLEANUP_INTERVAL : Z := from_secs 10.

(** [Instant::duration_since] saturates at zero. *)
Definition duration_since (now earlier : Z) : Z := sat_sub now earlier.

Record PendingEntry (V : Type) := mkEntry { value : V; created_at : Z }.
Arguments mkEntry {V} _ _.
Arguments value {V} _.
Arguments created_at {V} _.

Section pending_map.
Context {K V : Type} `{Countable K}.
Implicit Types (m : gmap K (PendingEntry V)) (k : K) (v : V) (now ttl : Z).

Definition pm_insert (now : Z) (k : K) (v : V) (m : gmap K (PendingEntry V)) :
    gmap K (PendingEntry V) := <[k := mkEntry v now]> m.

Definition pm_take (k : K) (m : gmap K (PendingEntry V)) :
    gmap K (PendingEntry V) * option V := (delete k m, value <$> m !! k).

Definition pm_len (m : gmap K (PendingEntry V)) : nat := size m.
Definition pm_is_empty (m : gmap K (PendingEntry V)) : bool := bool_decide (m = ∅).

(** The retention test of [purge_expired_entries]. *)
Definition live (now ttl : Z) (e : PendingEntry V) : Prop :=
  (duration_since now (created_at e) < ttl)%Z.

#[export] Instance live_dec now ttl e : Decision (live now ttl e).
Proof. unfold live. apply _. Defined.

Definition purge_expired_entries (now ttl : Z) (m : gmap K (PendingEntry V)) :
    gmap K (PendingEntry V) * nat :=
  let before := size m in
  let m' := filter (fun kv => live now ttl kv.2) m in
  (m', before - size m').

(** ** The map, its clock and its cleanup task *)

Record PMWorld := mkPM {
  pm_map : gmap K (PendingEntry V);
  pm_now : Z;
  pm_last_tick : Z;
}.

Inductive PMOp :=
| OpInsert (k : K) (v : V)
| OpTake (k : K)
| OpPurge
| OpAdvance (d : Z)
| OpTick.

(** One step; time passes only up to the next scheduled tick. *)
Definition pm_step (ttl interval : Z) (w : PMWorld) (o : PMOp) : option PMWorld :=
  match o with
  | OpInsert k v => Some (mkPM (pm_insert (pm_now w) k v (pm_map w)) (pm_now w) (pm_last_tick w))
  | OpTake k => Some (mkPM (pm_take k (pm_map w)).1 (pm_now w) (pm_last_tick w))
  | OpPurge =>
      Some (mkPM (purge_expired_entries (pm_now w) ttl (pm_map w)).1 (pm_now w) (pm_last_tick w))
  | OpAdvance d =>
      if decide (0 <= d /\ pm_now w + d <= pm_last_tick w + interval)%Z
      then Some (mkPM (pm_map w) (pm_now w + d) (pm_last_tick w)) else None
  | OpTick =>
      Some (mkPM (purge_expired_entries (pm_now w) ttl (pm_map w)).1 (pm_now w) (pm_now w))
  end.

Fixpoint pm_exec (ttl interval : Z) (w : PMWorld) (os : list PMOp) : option PMWorld :=
  match os with
  | [] => Some w
  | o :: os => match pm_step ttl interval w o with
               | Some w => pm_exec ttl interval w os
               | None => None
               end
  end.

(** [with_cleanup_interval]: an empty map whose first tick is immediate. *)
Definition pm_new (now : Z) : PMWorld := mkPM ∅ now now.

(** Operations that leave the entry of [k] alone. *)
Definition untouched (k : K) (o : PMOp) : Prop :=
  match o with OpInsert k' _ | OpTake k' => k' <> k | _ => True end.

(** No entry is from the future, nor older than the lifetime plus one period. *)
Definition pm_fresh (ttl interval : Z) (w : PMWorld) : Prop :=
  (pm_last_tick w <= pm_now w <= pm_last_tick w + interval)%Z
  /\ forall k e, pm_map w !! k = Some e ->
       (created_at e <= pm_now w)%Z
       /\ (pm_last_tick w <= created_at e \/ pm_last_tick w - created_at e < ttl)%Z.

(** ** Lemmas *)

Lemma purge_lookup now ttl m k :
  (purge_expired_entries now ttl m).1 !! k
  = match m !! k with
    | Some e => if decide (live now ttl e) then Some e else None
    | None => None
    end.
Proof. simpl. rewrite map_lookup_filter. by destruct (m !! k); simplify_option_eq. Qed.

Lemma pm_step_fresh ttl interval w o w' :
  (0 <= interval)%Z -> pm_step ttl interval w o = Some w' ->
  pm_fresh ttl interval w -> pm_fresh ttl interval w'.
Proof.
  intros Hi Hs [Hn Hm].
  destruct o as [k v|k| |d|]; simpl in Hs; [| | |case_decide; [|done]|]; simplify_eq;
    (split; [simpl; lia|]); intros j e He; simpl in He; unfold pm_insert in He.
  - apply lookup_insert_Some in He as [[<- <-]|[_ He]]; simpl; [lia | by eapply Hm].
  - apply lookup_delete_Some in He as [_ He]. by eapply Hm.
  - apply map_lookup_filter_Some in He as [He _]. by eapply Hm.
  - specialize (Hm _ _ He). simpl. lia.
  - apply map_lookup_filter_Some in He as [He Hl]. specialize (Hm _ _ He).
    unfold live, duration_since, sat_sub in Hl. simpl in *. lia.
Qed.

Lemma pm_exec_fresh ttl interval w os w' :
  (0 <= interval)%Z -> pm_exec ttl interval w os = Some w' ->
  pm_fresh ttl interval w -> pm_fresh ttl interval w'.
Proof.
  intros Hi. revert w. induction os as [|o os IH]; intros w Hs Hf; simpl in Hs; [by simplify_eq|].
  destruct (pm_step ttl interval w o) as [w1|] eqn:Ho; [|done].
  eapply IH; [done|]. by eapply pm_step_fresh.
Qed.

Lemma pm_exec_now_mono ttl interval w os w' :
  pm_exec ttl interval w os = Some w' -> (pm_now w <= pm_now w')%Z.
Proof.
  revert w. induction os as [|o os IH]; intros w Hs; simpl in Hs; [by simplify_eq|].
  destruct (pm_step ttl interval w o) as [w1|] eqn:Ho; [|done]. apply IH in Hs.
  destruct o; simpl in Ho; try case_decide; simplify_eq; simpl in *; lia.
Qed.

(** An entry survives every operation that does not name it while its age
    stays below the lifetime. *)
Lemma pm_exec_survives ttl interval w os w' k e :
  pm_exec ttl interval w os = Some w' -> Forall (untouched k) os ->
  pm_map w !! k = Some e -> (0 < ttl)%Z -> (pm_now w' - created_at e < ttl)%Z ->
  pm_map w' !! k = Some e.
Proof.
  intros Hs Hu He Httl Hage. revert w Hs He.
  induction Hu as [|o os Ho Hu IH]; intros w Hs He; simpl in Hs; [by simplify_eq|].
  destruct (pm_step ttl interval w o) as [w1|] eqn:Hstep; [|done].
  pose proof (pm_exec_now_mono _ _ _ _ _ Hs) as Hnow. apply (IH w1 Hs).
  destruct o as [k' v|k'| |d|]; simpl in *; try case_decide; simplify_eq; simpl in *; try done.
  - unfold pm_insert. by rewrite lookup_insert_ne.
  - by rewrite lookup_delete_ne.
  - apply map_lookup_filter_Some. split; [done|]. unfold live, duration_since, sat_sub; simpl. lia.
  - apply map_lookup_filter_Some. split; [done|]. unfold live, duration_since, sat_sub; simpl. lia.
Qed.

End pending_map.
Arguments PMWorld K V {_ _}.
Arguments PMOp K V : clear implicits.

(** ** Handles

    A [PendingMap] value is a handle: the [Arc] of the mutex cell, here its name
    in a heap of cells, and the lifetime.  Clones name the same cell; the
    cleanup task keeps its own [Arc] and never ends. *)
Record PendingMap := mkPendingMap { pm_inner : nat; pm_ttl : Z }.

Record CleanupTask := mkCleanup { ct_cell : nat; ct_ttl : Z; ct_interval : Z }.

Section handles.
Context {K V : Type} `{Countable K}.
Implicit Types (heap : gmap nat (gmap K (PendingEntry V))) (pm : PendingMap).

Definition with_cleanup_interval (heap : gmap nat (gmap K (PendingEntry V)))
    (ttl cleanup_interval : Z) :
    gmap nat (gmap K (PendingEntry V)) * PendingMap * CleanupTask :=
  let map := fresh (dom heap) in
  (<[map := ∅]> heap, mkPendingMap map ttl, mkCleanup map ttl cleanup_interval).

Definition PendingMap_new (heap : gmap nat (gmap K (PendingEntry V))) (ttl : Z) :
    gmap nat (gmap K (PendingEntry V)) * PendingMap * CleanupTask :=
  with_cleanup_interval heap ttl DEFAULT_CLEANUP_INTERVAL.

Definition PendingMap_clone (pm : PendingMap) : PendingMap := mkPendingMap (pm_inner pm) (pm_ttl pm).

(** [self.inner.lock()]. *)
Definition pm_lock (heap : gmap nat (gmap K (PendingEntry V))) (cell : nat) :
    gmap K (PendingEntry V) := default ∅ (heap !! cell).

Definition PendingMap_insert heap pm (now : Z) (k : K) (v : V) : gmap nat (gmap K (PendingEntry V)) :=
  <[pm_inner pm := pm_insert now k v (pm_lock heap (pm_inner pm))]> heap.

Definition PendingMap_take heap pm (k : K) : gmap nat (gmap K (PendingEntry V)) * option V :=
  let '(m, r) := pm_take k (pm_lock heap (pm_inner pm)) in (<[pm_inner pm := m]> heap, r).

Definition PendingMap_len heap pm : nat := pm_len (pm_lock heap (pm_inner pm)).
Definition PendingMap_is_empty heap pm : bool := pm_is_empty (pm_lock heap (pm_inner pm)).

Definition PendingMap_purge_expired heap pm (now : Z) :
    gmap nat (gmap K (PendingEntry V)) * nat :=
  let '(m, n) := purge_expired_entries now (pm_ttl pm) (pm_lock heap (pm_inner pm)) in
  (<[pm_inner pm := m]> heap, n).

(** One round of the cleanup task, after a tick. *)
Definition cleanup_tick heap (t : CleanupTask) (now : Z) : gmap nat (gmap K (PendingEntry V)) :=
  <[ct_cell t := (purge_expired_entries now (ct_ttl t) (pm_lock heap (ct_cell t))).1]> heap.

End handles.

Section handle_lemmas.
Context {K V : Type} `{Countable K}.
Implicit Types (heap : gmap nat (gmap K (PendingEntry V))).

Lemma pm_lock_insert heap c m : pm_lock (<[c := m]> heap) c = m.
Proof. unfold pm_lock. by rewrite lookup_insert_eq. Qed.

(** A purge of one entry. *)
Lemma purge_singleton (now ttl : Z) (k : K) (e : PendingEntry V) :
  purge_expired_entries now ttl {[k := e]}
  = if decide (live now ttl e) then ({[k := e]}, 0) else (∅, 1).
Proof.
  unfold purge_expired_entries. case_decide.
  - rewrite map_filter_singleton_True by done. f_equal. lia.
  - rewrite map_filter_singleton_False by done. by rewrite map_size_singleton.
Qed.

(** Without a lifetime every entry is expired. *)
Lemma purge_no_lifetime (now ttl : Z) (m : gmap K (PendingEntry V)) :
  (ttl <= 0)%Z -> (purge_expired_entries now ttl m).1 = ∅.
Proof.
  intros Ht. apply map_eq. intros k. rewrite purge_lookup, lookup_empty.
  destruct (m !! k); [|done]. rewrite decide_False; [done|].
  unfold live, duration_since, sat_sub. lia.
Qed.

End handle_lemmas.

(** ** Properties *)

(** One-shot consumption: a value stored under a key is returned by the
    first [take] of that key, whatever else happened to other keys in the
    meantime and however often the map was purged, as long as its age is below
    the lifetime; a second [take] finds nothing. *)
Lemma insert_take_once {K V} `{Countable K} (ttl interval : Z) (w w' : PMWorld K V)
    (os : list (PMOp K V)) (k : K) (v : V) :
  (0 < ttl)%Z -> Forall (untouched k) os ->
  pm_exec ttl interval w (OpInsert k v :: os) = Some w' ->
  (pm_now w' - pm_now w < ttl)%Z ->
  let '(m1, r1) := pm_take k (pm_map w') in
  let '(m2, r2) := pm_take k m1 in
  r1 = Some v /\ r2 = None /\ m2 = m1.
Proof.
  intros Httl Hu Hs Hage. simpl in Hs.
  assert (pm_map w' !! k = Some (mkEntry v (pm_now w))) as Hk.
  { eapply pm_exec_survives; [done|done| |done|done]. apply lookup_insert_eq. }
  simpl. rewrite Hk, lookup_delete_eq. by rewrite delete_delete_eq.
Qed.

(** A purge removes exactly the entries whose age has reached the lifetime
    and returns their number. *)
Lemma purge_exact {K V} `{Countable K} (now ttl : Z) (m : gmap K (PendingEntry V)) :
  let '(m', n) := purge_expired_entries now ttl m in
  (forall k, m' !! k = match m !! k with
                       | Some e => if decide (live now ttl e) then Some e else None
                       | None => None
                       end)
  /\ n = size (filter (fun kv => ~ live now ttl kv.2) m).
Proof.
  split; [intros k; apply (purge_lookup now ttl m)|]. simpl.
  rewrite <- (map_filter_union_complement (fun kv => live now ttl kv.2) m) at 1.
  rewrite map_size_disj_union by apply map_disjoint_filter_complement. lia.
Qed.

(** C30. The background task bounds retention: with ticks every [interval],
    no value stays in the map for more than the lifetime plus one interval,
    whatever the sequence of operations. *)
Theorem retention_bound {K V} `{Countable K} (ttl interval t0 : Z) (os : list (PMOp K V))
    (w : PMWorld K V) (k : K) (e : PendingEntry V) :
  (0 <= ttl)%Z -> (0 <= interval)%Z ->
  pm_exec ttl interval (pm_new t0) os = Some w -> pm_map w !! k = Some e ->
  (0 <= pm_now w - created_at e <= ttl + interval)%Z.
Proof.
  intros Httl Hi Hs He. eapply pm_exec_fresh in Hs as [Hn Hm]; [|done|].
  - specialize (Hm _ _ He). lia.
  - split; [simpl; lia|]. intros ? ? He'. simpl in He'. by rewrite lookup_empty in He'.
Qed.
