(* ===== verification/Config.v ===== *)
(** * Configuration

    [core/src/config.rs] (limits, infrastructure mode, node configuration and
    its builder), [core/src/request.rs] (per-call options), and
    [core/src/runtime/behaviour.rs]: [CoreBehaviour::new] as the function from a
    configuration to the parameters every sub-behaviour is created with. *)
From S2P Require Import Prelude Externals DataChannel PendingMap.

(** ** [config.rs] *)

Record RelayLimits := mkRelayLimits {
  max_reservations : Z;
  max_reservations_per_peer : Z;
  reservation_duration : Z;
  max_circuits : Z;
  max_circuits_per_peer : Z;
  max_circuit_duration : Z;
  max_circuit_bytes : Z;
}.

Definition RelayLimits_default : RelayLimits :=
  {| max_reservations := 16;
     max_reservations_per_peer := 2;
     reservation_duration := from_secs (30 * 60);
     max_circuits := 8;
     max_circuits_per_peer := 2;
     max_circuit_duration := from_secs (30 * 60);
     max_circuit_bytes := 64 * 1024 * 1024 |}.

Record LanHelperConfig := mkLanHelper {
  enable_kad_server : bool;
  relay_limits : RelayLimits;
  announce_private_addrs : bool;
}.

Definition LanHelperConfig_default : LanHelperConfig :=
  {| enable_kad_server := true;
     relay_limits := RelayLimits_default;
     announce_private_addrs := true |}.

Inductive InfrastructureMode :=
| Off
| LanHelper (config : LanHelperConfig).

Record InfrastructureRoles := mkRoles { role_kad_server : bool; role_relay_server : bool }.

(** The derived [PartialEq]s. *)
#[export] Instance RelayLimits_eq_dec : EqDecision RelayLimits.
Proof. solve_decision. Defined.
#[export] Instance LanHelperConfig_eq_dec : EqDecision LanHelperConfig.
Proof. solve_decision. Defined.
#[export] Instance InfrastructureMode_eq_dec : EqDecision InfrastructureMode.
Proof. solve_decision. Defined.
#[export] Instance InfrastructureRoles_eq_dec : EqDecision InfrastructureRoles.
Proof. solve_decision. Defined.

Definition roles_kad_server : InfrastructureRoles := mkRoles true false.
Definition roles_relay_server : InfrastructureRoles := mkRoles false true.
Definition roles_kad_and_relay : InfrastructureRoles := mkRoles true true.

(** ** [request.rs] *)

Record RequestOptions := mkRequestOptions {
  ro_timeout : option Z;
  ro_correlation : option string;
}.

Definition RequestOptions_new : RequestOptions := mkRequestOptions None None.
Definition ro_with_timeout (o : RequestOptions) (timeout : Z) : RequestOptions :=
  mkRequestOptions (Some timeout) (ro_correlation o).
Definition ro_with_correlation (o : RequestOptions) (c : string) : RequestOptions :=
  mkRequestOptions (ro_timeout o) (Some c).

Section config.
Context `{N : NetTypes}.

Record NodeConfig := mkNodeConfig {
  protocol_version : string;
  agent_version : string;
  listen_addrs : list Multiaddr;
  bootstrap_peers : list (PeerId * Multiaddr);
  enable_mdns : bool;
  enable_relay_client : bool;
  enable_dcutr : bool;
  enable_autonat : bool;
  idle_connection_timeout : Z;
  ping_interval : Z;
  ping_timeout : Z;
  kad_query_timeout : Z;
  kad_server_mode : bool;
  infrastructure_mode : InfrastructureMode;
  req_resp_protocol : string;
  req_resp_timeout : Z;
  data_channel_protocols : list StreamProtocol;
  data_channel_open_timeout : Z;
  data_channel_idle_timeout : Z;
  data_channel_limits : DataChannelLimits;
}.

(** [Default]; the two parsed listen addresses and the crate version are the
    results of the multiaddress parser and of the build. *)
Definition NodeConfig_default (version : string) (any_ip4 any_ip6 : Multiaddr) : NodeConfig :=
  {| protocol_version := "/swarm-p2p/1.0.0";
     agent_version := "swarm-p2p/" +:+ version;
     listen_addrs := [any_ip4; any_ip6];
     bootstrap_peers := [];
     enable_mdns := true;
     enable_relay_client := true;
     enable_dcutr := true;
     enable_autonat := true;
     idle_connection_timeout := from_secs 60;
     ping_interval := from_secs 15;
     ping_timeout := from_secs 10;
     kad_query_timeout := from_secs 60;
     kad_server_mode := false;
     infrastructure_mode := Off;
     req_resp_protocol := "/swarm-p2p/req/1.0.0";
     req_resp_timeout := from_secs 120;
     data_channel_protocols := [];
     data_channel_open_timeout := from_secs 30;
     data_channel_idle_timeout := from_secs 300;
     data_channel_limits := DataChannelLimits_default |}.

(** [NodeConfig::new]: the rest is [..Default::default()]. *)
Definition NodeConfig_new (d : NodeConfig) (pv av : string) : NodeConfig :=
  let '(mkNodeConfig _ _ la bp md rc dc an it pi pt kq ks im rp rt ps ot it' dl) := d in
  mkNodeConfig pv av la bp md rc dc an it pi pt kq ks im rp rt ps ot it' dl.

Definition with_listen_addrs (c : NodeConfig) (addrs : list Multiaddr) : NodeConfig :=
  let '(mkNodeConfig pv av _ bp md rc dc an it pi pt kq ks im rp rt ps ot it' dl) := c in
  mkNodeConfig pv av addrs bp md rc dc an it pi pt kq ks im rp rt ps ot it' dl.

Definition with_bootstrap_peers (c : NodeConfig) (peers : list (PeerId * Multiaddr)) : NodeConfig :=
  let '(mkNodeConfig pv av la _ md rc dc an it pi pt kq ks im rp rt ps ot it' dl) := c in
  mkNodeConfig pv av la peers md rc dc an it pi pt kq ks im rp rt ps ot it' dl.

Definition with_mdns (c : NodeConfig) (enable : bool) : NodeConfig :=
  let '(mkNodeConfig pv av la bp _ rc dc an it pi pt kq ks im rp rt ps ot it' dl) := c in
  mkNodeConfig pv av la bp enable rc dc an it pi pt kq ks im rp rt ps ot it' dl.

Definition with_relay_client (c : NodeConfig) (enable : bool) : NodeConfig :=
  let '(mkNodeConfig pv av la bp md _ dc an it pi pt kq ks im rp rt ps ot it' dl) := c in
  mkNodeConfig pv av la bp md enable dc an it pi pt kq ks im rp rt ps ot it' dl.

Definition with_dcutr (c : NodeConfig) (enable : bool) : NodeConfig :=
  let '(mkNodeConfig pv av la bp md rc _ an it pi pt kq ks im rp rt ps ot it' dl) := c in
  mkNodeConfig pv av la bp md rc enable an it pi pt kq ks im rp rt ps ot it' dl.

Definition with_autonat (c : NodeConfig) (enable : bool) : NodeConfig :=
  let '(mkNodeConfig pv av la bp md rc dc _ it pi pt kq ks im rp rt ps ot it' dl) := c in
  mkNodeConfig pv av la bp md rc dc enable it pi pt kq ks im rp rt ps ot it' dl.

Definition with_kad_server_mode (c : NodeConfig) (enable : bool) : NodeConfig :=
  let '(mkNodeConfig pv av la bp md rc dc an it pi pt kq _ im rp rt ps ot it' dl) := c in
  mkNodeConfig pv av la bp md rc dc an it pi pt kq enable im rp rt ps ot it' dl.

Definition with_infrastructure_mode (c : NodeConfig) (mode : InfrastructureMode) : NodeConfig :=
  let '(mkNodeConfig pv av la bp md rc dc an it pi pt kq ks _ rp rt ps ot it' dl) := c in
  mkNodeConfig pv av la bp md rc dc an it pi pt kq ks mode rp rt ps ot it' dl.

Definition with_lan_helper (c : NodeConfig) (config : LanHelperConfig) : NodeConfig :=
  let '(mkNodeConfig pv av la bp md rc dc an it pi pt kq ks _ rp rt ps ot it' dl) := c in
  mkNodeConfig pv av la bp md rc dc an it pi pt kq ks (LanHelper config) rp rt ps ot it' dl.

Definition with_req_resp_protocol (c : NodeConfig) (protocol : string) : NodeConfig :=
  let '(mkNodeConfig pv av la bp md rc dc an it pi pt kq ks im _ rt ps ot it' dl) := c in
  mkNodeConfig pv av la bp md rc dc an it pi pt kq ks im protocol rt ps ot it' dl.

Definition with_req_resp_timeout (c : NodeConfig) (timeout : Z) : NodeConfig :=
  let '(mkNodeConfig pv av la bp md rc dc an it pi pt kq ks im rp _ ps ot it' dl) := c in
  mkNodeConfig pv av la bp md rc dc an it pi pt kq ks im rp timeout ps ot it' dl.

Definition with_data_channel_protocols (c : NodeConfig) (ps : list StreamProtocol) : NodeConfig :=
  let '(mkNodeConfig pv av la bp md rc dc an it pi pt kq ks im rp rt _ ot it' dl) := c in
  mkNodeConfig pv av la bp md rc dc an it pi pt kq ks im rp rt ps ot it' dl.

Definition with_data_channel_open_timeout (c : NodeConfig) (timeout : Z) : NodeConfig :=
  let '(mkNodeConfig pv av la bp md rc dc an it pi pt kq ks im rp rt ps _ it' dl) := c in
  mkNodeConfig pv av la bp md rc dc an it pi pt kq ks im rp rt ps timeout it' dl.

Definition with_data_channel_idle_timeout (c : NodeConfig) (timeout : Z) : NodeConfig :=
  let '(mkNodeConfig pv av la bp md rc dc an it pi pt kq ks im rp rt ps ot _ dl) := c in
  mkNodeConfig pv av la bp md rc dc an it pi pt kq ks im rp rt ps ot timeout dl.

Definition with_data_channel_limits (c : NodeConfig) (limits : DataChannelLimits) : NodeConfig :=
  let '(mkNodeConfig pv av la bp md rc dc an it pi pt kq ks im rp rt ps ot it' _) := c in
  mkNodeConfig pv av la bp md rc dc an it pi pt kq ks im rp rt ps ot it' limits.

(** The configured mode, as [EventLoop::new] and [CoreBehaviour::new] read it. *)
Definition lan_helper_of (m : InfrastructureMode) : option LanHelperConfig :=
  match m with LanHelper config => Some config | Off => None end.

(** ** [behaviour.rs] *)

(** [relay::Config]: the seven limits set here; the rate limiters keep their
    library defaults. *)
Definition relay_config (helper : LanHelperConfig) : RelayLimits :=
  let '(mkRelayLimits mr mrp rd mc mcp mcd mcb) := relay_limits helper in
  mkRelayLimits mr mrp rd mc mcp mcd mcb.

Inductive KadMode := KadClient | KadServer.

Record KadConfig := mkKadConfig {
  kc_query_timeout : Z;
  kc_record_ttl : option Z;
  kc_replication_factor : Z;
  kc_publication_interval : option Z;
  kc_provider_record_ttl : option Z;
}.

(** What each field of [CoreBehaviour] is created with.  [cb_kad_mode] is
    [None] when the mode is left to AutoNAT; a toggle is its presence. *)
Record CoreBehaviour := mkCoreBehaviour {
  cb_ping : Z * Z;
  cb_identify : string * string * bool * Z;
  cb_kad : KadConfig;
  cb_kad_mode : option KadMode;
  cb_req_resp : StreamProtocol * Z;
  cb_mdns : bool;
  cb_relay_client : bool;
  cb_relay_server : option RelayLimits;
  cb_autonat : bool;
  cb_dcutr : bool;
}.

(** [CoreBehaviour::new].  [try_from_owned] validates a protocol name,
    [mdns_init] tells whether the mDNS sockets could be created; the two
    [expect]s panic ([None]). *)
Definition CoreBehaviour_new (try_from_owned : string -> option StreamProtocol)
    (mdns_init : bool) (config : NodeConfig) : option CoreBehaviour :=
  let kad_config :=
    mkKadConfig (kad_query_timeout config) (Some (from_secs 3600)) 3
      (Some (from_secs 3600)) (Some (from_secs 3600)) in
  let lan_helper := lan_helper_of (infrastructure_mode config) in
  let server_mode := kad_server_mode config
    || match lan_helper with Some c => enable_kad_server c | None => false end in
  if enable_mdns config && negb mdns_init then None else
  match try_from_owned (req_resp_protocol config) with
  | None => None
  | Some proto =>
      Some (mkCoreBehaviour
        (ping_interval config, ping_timeout config)
        (protocol_version config, agent_version config, true, 100%Z)
        kad_config
        (if server_mode then Some KadServer else None)
        (proto, req_resp_timeout config)
        (enable_mdns config)
        (enable_relay_client config)
        (option_map relay_config lan_helper)
        (enable_autonat config)
        (enable_dcutr config))
  end.

End config.

(** Both directions of the equivalences below, once the mode is known. *)
Ltac solve_iff :=
  intros;
  repeat match goal with
         | H : _ \/ _ |- _ => destruct H
         | H : exists _, _ |- _ => destruct H
         | H : _ /\ _ |- _ => destruct H
         end;
  simplify_eq/=; try congruence; eauto.

(** ** Properties *)

(** The infrastructure mode is honoured: construction panics only for an
    invalid request-response protocol name or a failing mDNS initialisation;
    otherwise the relay server is present exactly in LAN-helper mode and carries
    the helper's seven limits unchanged, Kad is forced to server mode exactly
    when the node or its LAN helper asks for it, and the relay client, AutoNAT,
    DCUtR and mDNS toggles follow their own flag only. *)
Lemma behaviour_honours_config `{N : NetTypes} (try_from_owned : string -> option StreamProtocol)
    (mdns_init : bool) (config : NodeConfig) :
  match CoreBehaviour_new try_from_owned mdns_init config with
  | None => (enable_mdns config = true /\ mdns_init = false)
            \/ try_from_owned (req_resp_protocol config) = None
  | Some b =>
      (forall limits, cb_relay_server b = Some limits <->
         exists h, infrastructure_mode config = LanHelper h /\ relay_limits h = limits)
      /\ (cb_kad_mode b = Some KadServer <->
          kad_server_mode config = true
          \/ exists h, infrastructure_mode config = LanHelper h /\ enable_kad_server h = true)
      /\ (cb_kad_mode b = Some KadServer \/ cb_kad_mode b = None)
      /\ cb_relay_client b = enable_relay_client config
      /\ cb_mdns b = enable_mdns config /\ cb_autonat b = enable_autonat config
      /\ cb_dcutr b = enable_dcutr config
      /\ try_from_owned (req_resp_protocol config) = Some (cb_req_resp b).1
  end.
Proof.
  unfold CoreBehaviour_new. destruct (enable_mdns config && negb mdns_init) eqn:Hm.
  { left. by apply andb_true_iff in Hm as [-> ->%negb_true_iff]. }
  destruct (try_from_owned _) as [proto|]; [|by right]. simpl.
  destruct (infrastructure_mode config) as [|h] eqn:Hi; simpl.
  - destruct (kad_server_mode config); split_and!; try done; try (by left); try (by right);
      intros; split; solve_iff.
  - assert (relay_config h = relay_limits h) as ->
      by (unfold relay_config; by destruct (relay_limits h)).
    destruct (kad_server_mode config), (enable_kad_server h) eqn:Hk; split_and!; try done;
      try (by left); try (by right); intros; split; solve_iff.
Qed.
