(* ===== verification/Handle.v ===== *)
(** * Result handles and command futures

    [ResultHandle] of [core/src/command/handler.rs] is a mutex-protected cell
    shared by the client's [CommandFuture] ([core/src/client/future.rs]) and by
    the [CommandTask] in the event loop.  Each method is one atomic function on
    [ResultState]; waking is returned as the waker that was woken.  The second
    half of the file runs one future against the event loop and the executor as
    a transition system, [future_step], in which the two halves of
    [CommandFuture::poll] (sending the command, then polling the handle) can be
    interleaved with everything else. *)
From S2P Require Import Prelude Externals Errors.

(** A waker names the task it schedules. *)
Notation Waker := nat (only parsing).

(** ** [ResultHandle] *)

Record ResultState (T : Type) := mkResultState {
  rs_result : option (CResult T);
  rs_waker : option Waker;
  rs_cancelled : bool;
}.
Arguments mkResultState {T} _ _ _.
Arguments rs_result {T} _.
Arguments rs_waker {T} _.
Arguments rs_cancelled {T} _.

Section handle.
Context {T : Type}.
Implicit Types (st : ResultState T).

Definition ResultState_default : ResultState T := mkResultState None None false.

(** [Some r] is [Poll::Ready(r)], [None] is [Poll::Pending]. *)
Definition handle_poll (st : ResultState T) (cx : Waker) : ResultState T * option (CResult T) :=
  match rs_result st with
  | Some result => (mkResultState None (rs_waker st) (rs_cancelled st), Some result)
  | None => (mkResultState None (Some cx) (rs_cancelled st), None)
  end.

Definition handle_finish (st : ResultState T) (result : CResult T) :
    ResultState T * option Waker :=
  (mkResultState (Some result) None (rs_cancelled st), rs_waker st).

Definition handle_cancel (st : ResultState T) : ResultState T :=
  mkResultState (rs_result st) (rs_waker st) true.

Definition handle_is_cancelled (st : ResultState T) : bool := rs_cancelled st.

End handle.

(** ** [CommandFuture] *)

Section future.
Context `{Mpsc} {C T : Type}.

(** [CommandTask]: a handler and the handle it shares with its future. *)
Record CommandTask := mkTask { task_handler : C; task_handle : nat }.

Record CommandFuture := mkFuture { cf_handler : option C; cf_handle : nat }.

(** [CommandFuture::new]; the handle is the freshly allocated cell [loc]. *)
Definition CommandFuture_new (handler : C) (loc : nat) : CommandFuture :=
  mkFuture (Some handler) loc.

Definition channel_closed_error : Error := E_Behaviour "command channel closed".

(** First half of [poll]: the first call sends the command. *)
Definition CommandFuture_send (f : CommandFuture) (sender : Chan CommandTask) :
    CommandFuture * Chan CommandTask * option (CResult T) :=
  match cf_handler f with
  | Some handler =>
      let f := mkFuture None (cf_handle f) in
      match ch_try_send sender (mkTask handler (cf_handle f)) with
      | Ok sender => (f, sender, None)
      | Err _ => (f, sender, Some (Err channel_closed_error))
      end
  | None => (f, sender, None)
  end.

(** [poll] when nothing interferes between its halves. *)
Definition CommandFuture_poll (f : CommandFuture) (sender : Chan CommandTask)
    (st : ResultState T) (cx : Waker) :
    CommandFuture * Chan CommandTask * ResultState T * option (CResult T) :=
  let '(f, sender, early) := CommandFuture_send f sender in
  match early with
  | Some r => (f, sender, st, Some r)
  | None => let '(st, r) := handle_poll st cx in (f, sender, st, r)
  end.

(** [Drop for CommandFuture]. *)
Definition CommandFuture_drop (st : ResultState T) : ResultState T := handle_cancel st.

(** ** One future, its executor and the event loop *)

Inductive Phase :=
| Idle
| Polling
| Done (r : CResult T)
| Dropped.

Record FutureWorld := mkFW {
  fw_future : CommandFuture;
  fw_phase : Phase;
  fw_state : ResultState T;
  fw_sender : Chan CommandTask;
  fw_loop : list CommandTask;
  fw_scheduled : bool;
}.

(** The task of the future has identity [me]; a spawned task starts scheduled. *)
Definition future_init (handler : C) (loc : nat) (sender : Chan CommandTask) : FutureWorld :=
  mkFW (CommandFuture_new handler loc) Idle ResultState_default sender [] true.

Definition wakes (me : nat) (w : option Waker) : bool := bool_decide (w = Some me).

Inductive future_step (me : nat) : FutureWorld -> FutureWorld -> Prop :=
| fs_poll_early f st ch lp f' ch' r :
    CommandFuture_send f ch = (f', ch', Some r) ->
    future_step me (mkFW f Idle st ch lp true) (mkFW f' (Done r) st ch' lp false)
| fs_poll_send f st ch lp f' ch' :
    CommandFuture_send f ch = (f', ch', None) ->
    future_step me (mkFW f Idle st ch lp true) (mkFW f' Polling st ch' lp false)
| fs_poll_ready f st ch lp sch st' r :
    handle_poll st me = (st', Some r) ->
    future_step me (mkFW f Polling st ch lp sch) (mkFW f (Done r) st' ch lp sch)
| fs_poll_pending f st ch lp sch st' :
    handle_poll st me = (st', None) ->
    future_step me (mkFW f Polling st ch lp sch) (mkFW f Idle st' ch lp sch)
| fs_recv f ph st ch lp sch t ch' :
    ch_recv ch = Some (t, ch') ->
    future_step me (mkFW f ph st ch lp sch) (mkFW f ph st ch' (t :: lp) sch)
| fs_finish f ph st ch lp sch t r st' w :
    t ∈ lp -> task_handle t = cf_handle f -> handle_finish st r = (st', w) ->
    future_step me (mkFW f ph st ch lp sch) (mkFW f ph st' ch lp (sch || wakes me w))
| fs_drop f st ch lp sch :
    future_step me (mkFW f Idle st ch lp sch)
      (mkFW f Dropped (CommandFuture_drop st) ch lp sch)
| fs_other_client f ph st ch lp sch t ch' :
    task_handle t <> cf_handle f -> ch_try_send ch t = Ok ch' ->
    future_step me (mkFW f ph st ch lp sch) (mkFW f ph st ch' lp sch)
| fs_spurious_wake f ph st ch lp sch :
    future_step me (mkFW f ph st ch lp sch) (mkFW f ph st ch lp true).

(** An idle future is scheduled, or has been sent and waits with its waker
    registered; a result that has arrived implies scheduled. *)
Definition wake_ok (me : nat) (w : FutureWorld) : Prop :=
  match fw_phase w with
  | Idle =>
      fw_scheduled w = true
      \/ (cf_handler (fw_future w) = None /\ rs_result (fw_state w) = None
          /\ rs_waker (fw_state w) = Some me)
  | Polling => cf_handler (fw_future w) = None
  | _ => True
  end.

End future.
Arguments CommandTask C : clear implicits.
Arguments CommandFuture C : clear implicits.
Arguments FutureWorld {_} C T.

(** ** Lemmas *)

Section future_lemmas.
Context `{Mpsc} {C T : Type}.
Implicit Types (f : CommandFuture C) (st : ResultState T).

Lemma CommandFuture_send_handler f ch f' ch' (r : option (CResult T)) :
  CommandFuture_send f ch = (f', ch', r) -> cf_handler f' = None.
Proof.
  unfold CommandFuture_send. destruct f as [[h|] loc]; simpl; [|by intros; simplify_eq].
  case_match; intros; by simplify_eq.
Qed.

Lemma handle_poll_pending st me st' :
  handle_poll st me = (st', None) -> rs_result st' = None /\ rs_waker st' = Some me.
Proof. unfold handle_poll. case_match; intros; by simplify_eq. Qed.

Lemma future_step_wake_ok me (w w' : FutureWorld C T) :
  future_step me w w' -> wake_ok me w -> wake_ok me w'.
Proof.
  destruct 1 as [| | | ? ? ? ? ? ? Hp| |f ph st ch lp sch t r st' wk Hin Ht Hf| | |];
    unfold wake_ok; simpl; try done.
  - intros _. by eapply CommandFuture_send_handler.
  - apply handle_poll_pending in Hp as [-> ->]. by right.
  - unfold handle_finish in Hf. simplify_eq. destruct ph; simpl; try done.
    intros [->|(Hh & Hr & ->)]; left; [done|]. unfold wakes.
    by rewrite bool_decide_true, orb_true_r.
  - destruct ph; simpl; auto.
Qed.

Lemma future_reachable_wake_ok me handler loc ch (w : FutureWorld C T) :
  rtc (future_step me) (future_init handler loc ch) w -> wake_ok me w.
Proof.
  intros Hr. eapply rtc_invariant; [apply future_step_wake_ok|exact Hr|]. by left.
Qed.

(** The two executor steps that deliver a result that has arrived. *)
Lemma future_deliver me f st ch lp r :
  cf_handler f = None -> rs_result st = Some r ->
  exists w', rtc (future_step me) (mkFW f Idle st ch lp true) w' /\ fw_phase w' = Done r.
Proof.
  intros Hf Hr. eexists. split.
  - eapply rtc_l; [apply fs_poll_send; unfold CommandFuture_send; by rewrite Hf|].
    eapply rtc_l; [|done]. apply fs_poll_ready. unfold handle_poll. by rewrite Hr.
  - done.
Qed.

End future_lemmas.

(** ** Properties *)

(** C8. No wake-up is lost: in every state the future, its executor, the event
    loop and other clients can reach, if the command has been sent and its
    result is in the handle while the future is not being polled, then the
    future's task is scheduled, and the executor's next two steps deliver that
    very result.  This covers commands that finish synchronously, even between
    the sending of the command and the polling of the handle. *)
Theorem no_lost_wakeup `{Mpsc} {C T} (me : nat) (handler : C) (loc : nat)
    (ch : Chan (CommandTask C)) (w : FutureWorld C T) (r : CResult T) :
  rtc (future_step me) (future_init handler loc ch) w ->
  fw_phase w = Idle -> cf_handler (fw_future w) = None -> rs_result (fw_state w) = Some r ->
  fw_scheduled w = true
  /\ exists w', rtc (future_step me) w w' /\ fw_phase w' = Done r.
Proof.
  intros Hr Hp Hh Hres. apply future_reachable_wake_ok in Hr.
  destruct w as [f ph st ch' lp sch]. unfold wake_ok in Hr. simpl in *. subst ph.
  destruct Hr as [->|(_ & Hn & _)]; [|congruence].
  split; [done | by apply future_deliver].
Qed.

(** What a first poll does, on every branch: with room in the command
    queue the command is queued once, the waker is registered and the poll is
    pending; with a closed queue {e and also with a full one} the poll is ready
    with the error "command channel closed" and nothing is queued. *)
Lemma first_poll_outcome `{MpscLaws} {C T} (handler : C) (loc : nat)
    (ch : Chan (CommandTask C)) (cx : nat) :
  let '(f, ch', st, r) :=
    CommandFuture_poll (T := T) (CommandFuture_new handler loc) ch ResultState_default cx in
  if ch_rx_alive ch && (length (ch_contents ch) <? ch_capacity ch)
  then r = None /\ rs_waker st = Some cx
       /\ ch_contents ch' = ch_contents ch ++ [mkTask handler loc]
  else r = Some (Err (E_Behaviour "command channel closed")) /\ ch' = ch.
Proof.
  unfold CommandFuture_poll, CommandFuture_send. simpl.
  destruct (ch_rx_alive ch) eqn:Ha; simpl; [|by rewrite ch_try_send_closed].
  destruct (Nat.ltb_spec (length (ch_contents ch)) (ch_capacity ch)) as [Hlt|Hge].
  - destruct (ch_try_send_ok _ ch (mkTask handler loc) Ha Hlt) as (ch' & -> & Hc & _). done.
  - by rewrite ch_try_send_full by done.
Qed.

(** A handle delivers each result at most once and remembers cancellation:
    after a ready poll the next poll is pending, and no later operation of the
    loop or of the client clears the cancelled flag. *)
Lemma handle_delivers_once {T} (st st' : ResultState T) (cx cx' : nat) (r r' : CResult T) :
  handle_poll st cx = (st', Some r) ->
  (handle_poll st' cx').2 = None
  /\ handle_poll (handle_finish st' r').1 cx' = (mkResultState None None (rs_cancelled st), Some r')
  /\ handle_is_cancelled (handle_finish (handle_cancel st') r').1 = true
  /\ handle_is_cancelled (handle_poll (handle_cancel st') cx').1 = true.
Proof.
  unfold handle_poll at 1. destruct (rs_result st); [|done]. intros. simplify_eq. done.
Qed.
