(* ===== verification/Handler.v ===== *)
(** * The command interface ([core/src/command/handler.rs])

    [CommandHandler] is the trait: [run], [on_event] and
    [take_relay_reservation_request], written in the small monad [H], whose
    computations read and write the swarm, emit the values passed to
    [handle.finish] in order, and may panic ([None]).  [CommandHandlerLaws] is
    the contract the event loop relies on; every command of [command/] is
    proved to satisfy it. *)
From S2P Require Import Prelude Externals Errors.

(** ** The handler monad *)

Section monad.
Context {Sw R : Type}.

Definition H (A : Type) : Type := Sw -> option (A * Sw * list (CResult R)).

#[export] Instance H_ret : MRet H := fun A a s => Some (a, s, []).

#[export] Instance H_bind : MBind H := fun A B k m s =>
  match m s with
  | Some (a, s1, f1) =>
      match k a s1 with
      | Some (b, s2, f2) => Some (b, s2, f1 ++ f2)
      | None => None
      end
  | None => None
  end.

#[export] Instance H_fmap : FMap H := fun A B f m s =>
  match m s with
  | Some (a, s', fin) => Some (f a, s', fin)
  | None => None
  end.

(** [handle.finish(r)]. *)
Definition finish (r : CResult R) : H unit := fun s => Some (tt, s, [r]).

(** Calls on the swarm: an observation, an update, an update with a result. *)
Definition observe {A} (f : Sw -> A) : H A := fun s => Some (f s, s, []).
Definition update (f : Sw -> Sw) : H unit := fun s => Some (tt, f s, []).
Definition call {A} (f : Sw -> Sw * A) : H A := fun s => Some ((f s).2, (f s).1, []).

Definition panic {A} : H A := fun _ => None.

(** [Option::unwrap]. *)
Definition unwrap {A} (o : option A) : H A := fun s => (fun a => (a, s, [])) <$> o.

End monad.
Arguments H : clear implicits.

(** ** Events and their correlation keys *)

Section interface.
Context `{N : NetTypes}.

(** What ties an event to one command: a query or request identifier. *)
Inductive CKey :=
| KQuery (id : QueryId)
| KRequest (id : OutboundRequestId).

Definition event_key (ev : SwarmEvent) : option CKey :=
  match ev with
  | Behaviour (CBE_Kad (OutboundQueryProgressed id _ _ _)) => Some (KQuery id)
  | Behaviour (CBE_ReqResp (RR_Response _ id _)) => Some (KRequest id)
  | Behaviour (CBE_ReqResp (RR_OutboundFailure _ id _)) => Some (KRequest id)
  | _ => None
  end.

(** [OnEventResult]: keep the command active?  What is left of the event? *)
Definition OnEventResult : Type := bool * option SwarmEvent.

(** ** The trait *)

Class CommandHandler (Sw C R : Type) := {
  run : C -> H Sw R C;
  on_event : C -> SwarmEvent -> H Sw R (C * OnEventResult);
}.

(** [take_relay_reservation_request], which needs neither swarm nor handle. *)
Class RelayRequester (C : Type) :=
  take_relay_reservation_request : C -> C * option (PeerId * list Multiaddr).

(** Specification only: the identifier a command waits for. *)
Class Keyed (C : Type) := command_key : C -> option CKey.

(** The trait's default methods. *)
Definition default_on_event {Sw C R} (c : C) (event : SwarmEvent) : H Sw R (C * OnEventResult) :=
  mret (c, (false, Some event)).

Definition default_take_relay {C} (c : C) : C * option (PeerId * list Multiaddr) := (c, None).

(** One answer to an event: the event is passed on unchanged or consumed;
    only an event carrying the command's own key is consumed; the handle is
    finished at most once, only when the command leaves the active list, and
    exactly once when it leaves after consuming. *)
Record event_answer {C R} `{!Keyed C} (c : C) (ev : SwarmEvent)
    (c' : C) (keep : bool) (rem : option SwarmEvent) (fin : list (CResult R)) : Prop := {
  ea_pass : rem = Some ev \/ rem = None;
  ea_owner : rem = None -> event_key ev = command_key c /\ is_Some (command_key c);
  ea_keep : keep = true -> fin = [];
  ea_once : length fin <= 1;
  ea_key : command_key c' = command_key c;
  ea_consume_done : rem = None -> keep = false -> length fin = 1;
}.

(** The contract of a command: [run] and [on_event] never panic, [run] finishes
    the handle at most once, and [on_event] answers as above without touching
    or even reading the swarm. *)
Class CommandHandlerLaws (Sw C R : Type) `{!CommandHandler Sw C R, !Keyed C} : Prop := {
  run_total : forall (c : C) (s : Sw),
    exists c' s' fin, run c s = Some (c', s', fin) /\ length fin <= 1;
  on_event_answers : forall (c : C) ev,
    exists c' keep rem fin,
      (forall s : Sw, on_event c ev s = Some (c', (keep, rem), s, fin))
      /\ event_answer c ev c' keep rem fin;
}.

(** Commands that wait for an identifier ignore every event without it. *)
Class IgnoresForeign (Sw C R : Type) `{!CommandHandler Sw C R, !Keyed C} : Prop :=
  foreign_ignored : forall (c : C) ev k (s : Sw),
    command_key c = Some k -> event_key ev <> Some k ->
    on_event c ev s = Some (c, (true, Some ev), s, []).

(** ** A command on its own, fed with events until it leaves *)

Fixpoint feed {Sw C R} `{!CommandHandler Sw C R} (c : C) (evs : list SwarmEvent) :
    H Sw R (C * bool * list (option SwarmEvent)) :=
  match evs with
  | [] => mret (c, true, [])
  | ev :: evs =>
      x ← on_event c ev;
      let '(c, (keep, rem)) := x in
      if keep : bool then
        y ← feed c evs;
        let '(c, alive, rems) := y in
        mret (c, alive, rem :: rems)
      else mret (c, false, rem :: (Some <$> evs))
  end.

(** The events that carry the identifier [k]. *)
Definition own (k : CKey) (ev : SwarmEvent) : Prop := event_key ev = Some k.

#[export] Instance CKey_eq_dec : EqDecision CKey.
Proof. solve_decision. Defined.

#[export] Instance own_dec k ev : Decision (own k ev).
Proof. unfold own. apply _. Defined.

(** ** Change of result type: the erasure of [CommandTrait] *)

Definition H_map {Sw R R' A} (inj : R -> R') (m : H Sw R A) : H Sw R' A := fun s =>
  match m s with
  | Some (a, s', fin) => Some (a, s', result_map inj <$> fin)
  | None => None
  end.

End interface.

(** ** Lemmas *)

Section monad_lemmas.
Context {Sw R : Type}.

Lemma H_bind_eq {A B} (m : H Sw R A) (k : A -> H Sw R B) s :
  (m ≫= k) s = match m s with
               | Some (a, s1, f1) =>
                   match k a s1 with
                   | Some (b, s2, f2) => Some (b, s2, f1 ++ f2)
                   | None => None
                   end
               | None => None
               end.
Proof. done. Qed.

Lemma H_map_eq {R' A} (inj : R -> R') (m : H Sw R A) s :
  H_map inj m s = match m s with
                  | Some (a, s', fin) => Some (a, s', result_map inj <$> fin)
                  | None => None
                  end.
Proof. done. Qed.

End monad_lemmas.

Section feed_lemmas.
Context `{N : NetTypes} {Sw C R : Type} `{!CommandHandler Sw C R, !Keyed C}.

Lemma feed_cons (c : C) ev evs (s : Sw) c' keep rem fin :
  on_event c ev s = Some (c', (keep, rem), s, fin) ->
  feed c (ev :: evs) s
  = if keep then
      match feed c' evs s with
      | Some (c2, alive, rems, s2, fin2) => Some (c2, alive, rem :: rems, s2, fin ++ fin2)
      | None => None
      end
    else Some (c', false, rem :: (Some <$> evs), s, fin).
Proof.
  intros He. simpl. rewrite H_bind_eq, He. destruct keep.
  - rewrite H_bind_eq. destruct (feed c' evs s) as [[[[[c2 alive] rems] s2] fin2]|]; [|done].
    simpl. by rewrite app_nil_r.
  - simpl. by rewrite app_nil_r.
Qed.

(** One more event for a command that is still active. *)
Lemma feed_snoc (c : C) evs ev (s : Sw) c1 rems fin1 c2 keep rem fin2 :
  (forall (c : C) ev, exists c' k r f, forall s : Sw, on_event c ev s = Some (c', (k, r), s, f)) ->
  feed c evs s = Some (c1, true, rems, s, fin1) ->
  on_event c1 ev s = Some (c2, (keep, rem), s, fin2) ->
  feed c (evs ++ [ev]) s = Some (c2, keep, rems ++ [rem], s, fin1 ++ fin2).
Proof.
  intros Ht. revert c rems fin1. induction evs as [|e evs IH]; intros c rems fin1 Hf He.
  - simpl in Hf. unfold mret, H_ret in Hf. injection Hf as -> <- <-.
    rewrite app_nil_l, (feed_cons _ _ _ _ _ _ _ _ He). destruct keep; simpl; [|done].
    by rewrite app_nil_r.
  - destruct (Ht c e) as (c' & k & r & f & Hce). specialize (Hce s).
    rewrite (feed_cons _ _ _ _ _ _ _ _ Hce) in Hf.
    rewrite <- app_comm_cons, (feed_cons _ _ _ _ _ _ _ _ Hce). destruct k; [|by simplify_eq].
    destruct (feed c' evs s) as [[[[[c3 al] rm] s3] f3]|] eqn:Hf3; [|done]. simplify_eq.
    rewrite (IH _ _ _ Hf3 He). by rewrite <- app_assoc.
Qed.

(** Every result a fed command emits, it emits on one of the events. *)
Lemma feed_result (c : C) evs (s : Sw) c1 alive rems fin r (P : C -> Prop) :
  (forall (c : C) ev, exists c' k r f, forall s : Sw, on_event c ev s = Some (c', (k, r), s, f)) ->
  (forall (c : C) ev s c' k, P c -> (exists r f, on_event c ev s = Some (c', (k, r), s, f)) -> P c') ->
  feed c evs s = Some (c1, alive, rems, s, fin) -> P c -> r ∈ fin ->
  exists c0 ev c' k rem f, P c0 /\ ev ∈ evs
    /\ on_event c0 ev s = Some (c', (k, rem), s, f) /\ r ∈ f.
Proof.
  intros Ht HP. revert c rems fin. induction evs as [|e evs IH]; intros c rems fin Hf Hc Hr.
  - simpl in Hf. unfold mret, H_ret in Hf. simplify_eq. by apply elem_of_nil in Hr.
  - destruct (Ht c e) as (c' & k & rem & f & Hce). specialize (Hce s).
    rewrite (feed_cons _ _ _ _ _ _ _ _ Hce) in Hf.
    assert (r ∈ f -> exists c0 ev c' k rem f, P c0 /\ ev ∈ e :: evs
      /\ on_event c0 ev s = Some (c', (k, rem), s, f) /\ r ∈ f) as Hnow
      by (intros; exists c, e, c', k, rem, f; split_and!; by try left).
    destruct k; [|simplify_eq; by apply Hnow].
    destruct (feed c' evs s) as [[[[[c3 al] rm] s3] f3]|] eqn:Hf3; [|done]. simplify_eq.
    apply elem_of_app in Hr as [Hr|Hr]; [by apply Hnow|].
    destruct (IH _ _ _ Hf3) as (c0 & ev & c'' & k' & rem' & f' & ? & ? & ? & ?); [by eapply HP; eauto|done|].
    exists c0, ev, c'', k', rem', f'. split_and!; [done|by right|done|done].
Qed.

(** Feeding a run of progress events of one shape advances the command by a
    plain fold. *)
Lemma feed_steps {A} (prog : A -> SwarmEvent) (adv : C -> A -> C) (P : C -> Prop)
    (steps : list A) (c : C) (s : Sw) evs :
  (forall c a s, P c -> on_event c (prog a) s = Some (adv c a, (true, None), s, [])
                 /\ P (adv c a)) ->
  P c ->
  P (foldl adv c steps)
  /\ feed c ((prog <$> steps) ++ evs) s
     = match feed (foldl adv c steps) evs s with
       | Some (c2, alive, rems, s2, fin2) =>
           Some (c2, alive, replicate (length steps) None ++ rems, s2, fin2)
       | None => None
       end.
Proof.
  intros Hstep. revert c. induction steps as [|a steps IH]; intros c Hc.
  { split; [done|]. simpl. by destruct (feed c evs s) as [[[[[]]]]|]. }
  destruct (Hstep c a s Hc) as [He Hc']. destruct (IH _ Hc') as [HP Hf]. split; [done|].
  change ((prog <$> a :: steps) ++ evs) with (prog a :: ((prog <$> steps) ++ evs)).
  rewrite (feed_cons _ _ _ _ _ _ _ _ He), Hf. simpl.
  by destruct (feed (foldl adv (adv c a) steps) evs s) as [[[[[]]]]|].
Qed.

Context `{!CommandHandlerLaws Sw C R, !IgnoresForeign Sw C R}.

(** Being fed does not change the identifier. *)
Lemma feed_key (c : C) evs (s : Sw) c1 alive rems fin :
  feed c evs s = Some (c1, alive, rems, s, fin) -> command_key c1 = command_key c.
Proof using CommandHandlerLaws0.
  revert c rems fin. induction evs as [|ev evs IH]; intros c rems fin Hf.
  { simpl in Hf. unfold mret, H_ret in Hf. by simplify_eq. }
  destruct (on_event_answers (Sw := Sw) c ev) as (c' & keep & rem & f & He & Ha).
  rewrite (feed_cons _ _ _ _ _ _ _ _ (He s)) in Hf. rewrite <- (ea_key _ _ _ _ _ _ Ha).
  destruct keep; [|by simplify_eq].
  destruct (feed c' evs s) as [[[[[c3 al] rm] s3] f3]|] eqn:Hf3; [|done]. simplify_eq. by eapply IH.
Qed.

(** Foreign events can be interleaved at will: they are all passed on, and the
    command behaves as if it saw its own events only. *)
Lemma feed_foreign k evs (c : C) (s : Sw) c2 alive rems fin :
  command_key c = Some k ->
  feed c (filter (own k) evs) s = Some (c2, alive, rems, s, fin) ->
  omap id rems = [] ->
  exists rems', feed c evs s = Some (c2, alive, rems', s, fin)
    /\ omap id rems' = filter (fun ev => ~ own k ev) evs.
Proof.
  revert c c2 rems fin. induction evs as [|ev evs IH]; intros c c2 rems fin Hk Hf Hr.
  { simpl in *. unfold mret, H_ret in *. simplify_eq. eauto. }
  rewrite filter_cons in Hf. rewrite filter_cons. case_decide as Ho.
  - rewrite decide_False by tauto.
    destruct (on_event_answers (Sw := Sw) c ev) as (c' & keep & rem & f & He & Ha).
    rewrite (feed_cons _ _ _ _ _ _ _ _ (He s)) in Hf.
    rewrite (feed_cons _ _ _ _ _ _ _ _ (He s)). destruct keep.
    + destruct (feed c' (filter (own k) evs) s) as [[[[[c3 alive3] rems3] s3] fin3]|] eqn:Hf3;
        [|done]. simplify_eq.
      destruct rem as [e|]; [done|]. simpl in Hr.
      eapply IH in Hf3 as (rems' & -> & Hrems'); [|by rewrite (ea_key _ _ _ _ _ _ Ha)|done].
      eexists. split; [done|]. done.
    + simplify_eq. destruct rem as [e|]; [done|]. simpl in Hr.
      eexists. split; [done|]. simpl.
      assert (forall l : list SwarmEvent, omap id (Some <$> l) = l) as Hid
        by (induction l as [|? ? IHl]; [done|simpl; by f_equal]).
      rewrite Hid in Hr |- *. clear IH He Ha. induction evs as [|ev' evs IHe]; [done|].
      rewrite filter_cons in Hr |- *. case_decide; [done|].
      rewrite decide_True by done. f_equal. auto.
  - rewrite decide_True by done.
    rewrite (feed_cons _ _ _ _ _ _ _ _ (foreign_ignored c ev k s Hk Ho)).
    eapply IH in Hf as (rems' & -> & Hrems'); [|done|done].
    eexists. split; [done|]. simpl. f_equal. apply Hrems'.
Qed.

(** The life of a query: progress events, then a last event that finishes it,
    interleaved with any foreign events. *)
Lemma query_lifecycle {A} (k : CKey) (prog : A -> SwarmEvent) (adv : C -> A -> C)
    (P : C -> Prop) (c c2 : C) (steps : list A) (lastev : SwarmEvent)
    (evs : list SwarmEvent) (s : Sw) fin :
  command_key c = Some k -> P c ->
  (forall c a s, P c -> on_event c (prog a) s = Some (adv c a, (true, None), s, [])
                 /\ P (adv c a)) ->
  (P (foldl adv c steps) ->
   on_event (foldl adv c steps) lastev s = Some (c2, (false, None), s, fin)) ->
  filter (own k) evs = (prog <$> steps) ++ [lastev] ->
  exists rems, feed c evs s = Some (c2, false, rems, s, fin)
    /\ omap id rems = filter (fun ev => ~ own k ev) evs.
Proof.
  intros Hk HP Hstep Hlast Hf.
  destruct (feed_steps prog adv P steps c s [lastev] Hstep HP) as [HP2 Hfeed].
  rewrite (feed_cons _ _ _ _ _ _ _ _ (Hlast HP2)) in Hfeed.
  eapply feed_foreign; [done | rewrite Hf; exact Hfeed |].
  rewrite omap_app. simpl. rewrite app_nil_r.
  clear. induction (length steps) as [|n IH]; [done|exact IH].
Qed.

End feed_lemmas.

(** Evaluate a handler on a given swarm, and branch on the data it tests. *)
Ltac run_H :=
  cbv beta iota zeta delta [mbind H_bind mret H_ret finish observe update call unwrap
                            default_on_event]; simpl.

Ltac branch_H :=
  repeat (match goal with
          | |- context [match ?x with _ => _ end] =>
              lazymatch type of x with
              | option (_ * _ * list _) => fail
              | _ => destruct x eqn:?
              end
          end; simpl).

(** A [run] computed symbolically: exhibit its outcome on every branch. *)
Ltac solve_run := intros c s; run_H; branch_H; (eexists _, _, _; split; [done|simpl; lia]).
