(* ===== verification/BasicCommands.v ===== *)
(** * Connection and address commands

    [command/dial.rs], [disconnect.rs], [is_connected.rs],
    [get_listen_addrs.rs], [add_peer_addrs.rs], [add_infrastructure_peer.rs]. *)
From S2P Require Import Prelude Externals Errors Config Handler.

Section commands.
Context `{N : NetTypes} {Sw : Type} `{!SwarmOps Sw}.

(** ** Dial *)

Record DialCommand := { dial_peer_id : PeerId }.

Definition DialCommand_run (c : DialCommand) : H Sw unit DialCommand :=
  connected ← observe (fun s => sw_is_connected s (dial_peer_id c));
  if connected : bool then
    finish (Ok tt);; mret c
  else
    res ← call (fun s => sw_dial s (dial_peer_id c));
    match res with
    | Err e => finish (Err (E_Dial (dial_error_display e)));; mret c
    | Ok _ => mret c
    end.

Definition DialCommand_on_event (c : DialCommand) (event : SwarmEvent) :
    H Sw unit (DialCommand * OnEventResult) :=
  match event with
  | ConnectionEstablished peer_id _ =>
      if decide (peer_id = dial_peer_id c)
      then finish (Ok tt);; mret (c, (false, Some event))
      else mret (c, (true, Some event))
  | OutgoingConnectionError (Some peer_id) error =>
      if decide (peer_id = dial_peer_id c)
      then finish (Err (E_Dial (dial_error_display error)));; mret (c, (false, Some event))
      else mret (c, (true, Some event))
  | _ => mret (c, (true, Some event))
  end.

#[export] Instance DialCommand_handler : CommandHandler Sw DialCommand unit := {
  run := DialCommand_run;
  on_event := DialCommand_on_event;
}.

(** ** Disconnect *)

Record DisconnectCommand := { disconnect_peer_id : PeerId }.

Definition DisconnectCommand_run (c : DisconnectCommand) : H Sw unit DisconnectCommand :=
  res ← call (fun s => sw_disconnect_peer_id s (disconnect_peer_id c));
  match res with
  | Err _ =>
      finish (Err (E_Dial ("peer " +:+ peer_display (disconnect_peer_id c)
                             +:+ " is not connected")));; mret c
  | Ok _ => mret c
  end.

Definition DisconnectCommand_on_event (c : DisconnectCommand) (event : SwarmEvent) :
    H Sw unit (DisconnectCommand * OnEventResult) :=
  match event with
  | ConnectionClosed peer_id num_established =>
      if decide (peer_id = disconnect_peer_id c /\ num_established = 0%Z)
      then finish (Ok tt);; mret (c, (false, Some event))
      else mret (c, (true, Some event))
  | _ => mret (c, (true, Some event))
  end.

#[export] Instance DisconnectCommand_handler : CommandHandler Sw DisconnectCommand unit := {
  run := DisconnectCommand_run;
  on_event := DisconnectCommand_on_event;
}.

(** ** IsConnected *)

Record IsConnectedCommand := { is_connected_peer_id : PeerId }.

Definition IsConnectedCommand_run (c : IsConnectedCommand) : H Sw bool IsConnectedCommand :=
  connected ← observe (fun s => sw_is_connected s (is_connected_peer_id c));
  finish (Ok connected);; mret c.

#[export] Instance IsConnectedCommand_handler : CommandHandler Sw IsConnectedCommand bool := {
  run := IsConnectedCommand_run;
  on_event := default_on_event;
}.

(** ** GetListenAddrs *)

Record GetListenAddrsCommand := mkGetListenAddrs {}.

Definition GetListenAddrsCommand_run (c : GetListenAddrsCommand) :
    H Sw (list Multiaddr) GetListenAddrsCommand :=
  addrs ← observe sw_listeners;
  external ← observe sw_external_addresses;
  let addrs := addrs ++ external in
  let addrs := merge_sort ma_le addrs in
  let addrs := dedup addrs in
  finish (Ok addrs);; mret c.

#[export] Instance GetListenAddrsCommand_handler :
    CommandHandler Sw GetListenAddrsCommand (list Multiaddr) := {
  run := GetListenAddrsCommand_run;
  on_event := default_on_event;
}.

(** ** AddPeerAddrs *)

Record AddPeerAddrsCommand := { apa_peer_id : PeerId; apa_addrs : list Multiaddr }.

Definition AddPeerAddrsCommand_run (c : AddPeerAddrsCommand) : H Sw unit AddPeerAddrsCommand :=
  update (fun s => foldl (fun s addr => sw_add_peer_address s (apa_peer_id c) addr) s (apa_addrs c));;
  finish (Ok tt);; mret c.

#[export] Instance AddPeerAddrsCommand_handler : CommandHandler Sw AddPeerAddrsCommand unit := {
  run := AddPeerAddrsCommand_run;
  on_event := default_on_event;
}.

(** ** AddInfrastructurePeer *)

Record AddInfrastructurePeerCommand := mkAddInfrastructurePeer {
  aip_peer_id : PeerId;
  aip_addrs : list Multiaddr;
  aip_roles : InfrastructureRoles;
  aip_pending_relay_addrs : option (list Multiaddr);
}.

Definition AddInfrastructurePeerCommand_new (peer_id : PeerId) (addrs : list Multiaddr)
    (roles : InfrastructureRoles) : AddInfrastructurePeerCommand :=
  mkAddInfrastructurePeer peer_id addrs roles None.

Definition AddInfrastructurePeerCommand_run (c : AddInfrastructurePeerCommand) :
    H Sw unit AddInfrastructurePeerCommand :=
  let peer_id := aip_peer_id c in
  update (fun s =>
    foldl (fun s addr =>
      let s := sw_add_peer_address s peer_id addr in
      if role_kad_server (aip_roles c) then kad_add_address s peer_id addr else s)
      s (aip_addrs c));;
  relay_client ← observe sw_relay_client_is_enabled;
  let c :=
    if role_relay_server (aip_roles c) && relay_client
    then mkAddInfrastructurePeer peer_id (aip_addrs c) (aip_roles c) (Some (aip_addrs c))
    else c in
  connected ← observe (fun s => sw_is_connected s peer_id);
  if connected : bool then
    finish (Ok tt);; mret c
  else
    (* a dial error is only logged *)
    _ ← call (fun s => sw_dial s peer_id);
    finish (Ok tt);; mret c.

Definition AddInfrastructurePeerCommand_take_relay (c : AddInfrastructurePeerCommand) :
    AddInfrastructurePeerCommand * option (PeerId * list Multiaddr) :=
  (mkAddInfrastructurePeer (aip_peer_id c) (aip_addrs c) (aip_roles c) None,
   (fun addrs => (aip_peer_id c, addrs)) <$> aip_pending_relay_addrs c).

#[export] Instance AddInfrastructurePeerCommand_handler :
    CommandHandler Sw AddInfrastructurePeerCommand unit := {
  run := AddInfrastructurePeerCommand_run;
  on_event := default_on_event;
}.

#[export] Instance AddInfrastructurePeerCommand_relay :
    RelayRequester AddInfrastructurePeerCommand := AddInfrastructurePeerCommand_take_relay.

(** None of these commands waits for an identifier. *)
#[export] Instance DialCommand_keyed : Keyed DialCommand := fun _ => None.
#[export] Instance DisconnectCommand_keyed : Keyed DisconnectCommand := fun _ => None.
#[export] Instance IsConnectedCommand_keyed : Keyed IsConnectedCommand := fun _ => None.
#[export] Instance GetListenAddrsCommand_keyed : Keyed GetListenAddrsCommand := fun _ => None.
#[export] Instance AddPeerAddrsCommand_keyed : Keyed AddPeerAddrsCommand := fun _ => None.
#[export] Instance AddInfrastructurePeerCommand_keyed :
    Keyed AddInfrastructurePeerCommand := fun _ => None.

(** ** Every command obeys the contract *)

(** The default [on_event] answers by leaving without finishing or consuming. *)
Lemma default_on_event_answers {C R} `{!Keyed C} (c : C) ev :
  exists c' keep rem (fin : list (CResult R)),
    (forall s : Sw, default_on_event c ev s = Some (c', (keep, rem), s, fin))
    /\ event_answer c ev c' keep rem fin.
Proof.
  exists c, false, (Some ev), []. split; [done|]. split; simpl; [by left|done|done|lia|done|done].
Qed.

(** Answers that keep the command and pass the event on. *)
Lemma keep_pass_answer {C R} `{!Keyed C} (c : C) ev :
  event_answer (R := R) c ev c true (Some ev) [].
Proof. split; simpl; [by left|done|done|lia|done|done]. Qed.

(** Answers that finish, leave and pass the event on. *)
Lemma finish_pass_answer {C R} `{!Keyed C} (c : C) ev (r : CResult R) :
  event_answer c ev c false (Some ev) [r].
Proof. split; simpl; [by left|done|done|lia|done|done]. Qed.

Lemma DialCommand_on_event_answers (c : DialCommand) ev :
  exists c' keep rem fin,
    (forall s : Sw, on_event c ev s = Some (c', (keep, rem), s, fin))
    /\ event_answer c ev c' keep rem fin.
Proof.
  simpl. unfold DialCommand_on_event.
  destruct ev as [|p n|p n|[p|] e| | | | |]; try case_decide;
    (eexists _, _, _, _; split; [intros s; run_H; done|]);
    auto using keep_pass_answer, finish_pass_answer.
Qed.

Lemma DisconnectCommand_on_event_answers (c : DisconnectCommand) ev :
  exists c' keep rem fin,
    (forall s : Sw, on_event c ev s = Some (c', (keep, rem), s, fin))
    /\ event_answer c ev c' keep rem fin.
Proof.
  simpl. unfold DisconnectCommand_on_event.
  destruct ev; try case_decide;
    (eexists _, _, _, _; split; [intros s; run_H; done|]);
    auto using keep_pass_answer, finish_pass_answer.
Qed.

#[export] Instance DialCommand_laws : CommandHandlerLaws Sw DialCommand unit.
Proof.
  split; [|apply DialCommand_on_event_answers].
  simpl. unfold DialCommand_run. solve_run.
Qed.

#[export] Instance DisconnectCommand_laws : CommandHandlerLaws Sw DisconnectCommand unit.
Proof.
  split; [|apply DisconnectCommand_on_event_answers].
  simpl. unfold DisconnectCommand_run. solve_run.
Qed.

#[export] Instance IsConnectedCommand_laws : CommandHandlerLaws Sw IsConnectedCommand bool.
Proof.
  split; [|apply default_on_event_answers]. simpl. unfold IsConnectedCommand_run. solve_run.
Qed.

#[export] Instance GetListenAddrsCommand_laws :
  CommandHandlerLaws Sw GetListenAddrsCommand (list Multiaddr).
Proof.
  split; [|apply default_on_event_answers]. simpl. unfold GetListenAddrsCommand_run. solve_run.
Qed.

#[export] Instance AddPeerAddrsCommand_laws : CommandHandlerLaws Sw AddPeerAddrsCommand unit.
Proof.
  split; [|apply default_on_event_answers]. simpl. unfold AddPeerAddrsCommand_run. solve_run.
Qed.

#[export] Instance AddInfrastructurePeerCommand_laws :
  CommandHandlerLaws Sw AddInfrastructurePeerCommand unit.
Proof.
  split; [|apply default_on_event_answers].
  simpl. unfold AddInfrastructurePeerCommand_run. solve_run.
Qed.

End commands.
