(* ===== verification/KadCommands.v ===== *)
(** * Kademlia commands ([core/src/command/kad/*.rs])

    Six query commands (bootstrap, get_closest_peers, get_providers, get_record,
    put_record, start_provide), which start a query in [run] and follow its
    progress events by query identifier, and two that only touch the local
    store (stop_provide, remove_record). *)
From S2P Require Import Prelude Externals Errors Handler BasicCommands.

Section commands.
Context `{N : NetTypes} {Sw : Type} `{!SwarmOps Sw} `{!HashOrder}.

(** ** [util.rs] and [merge_stats] *)

Record QueryStatsInfo := mkStatsInfo {
  qsi_duration : option Z;
  qsi_num_requests : Z;
  qsi_num_successes : Z;
  qsi_num_failures : Z;
}.

Definition QueryStatsInfo_from (value : QueryStats) : QueryStatsInfo :=
  mkStatsInfo (qs_duration value) (qs_num_requests value)
    (qs_num_successes value) (qs_num_failures value).

Definition merge_stats (existing : option QueryStats) (incoming : QueryStats) :
    option QueryStats :=
  Some match existing with
       | Some s => qs_merge s incoming
       | None => incoming
       end.

(** [Error::Kad(format!("<what>: {:?}", e))]. *)
Definition kad_err (what : string) (e : KadError) : Error :=
  E_Kad (what +:+ ": " +:+ kad_error_debug e).

Definition consumed_keep {C} (c : C) : C * OnEventResult := (c, (true, None)).
Definition consumed_done {C} (c : C) : C * OnEventResult := (c, (false, None)).
Definition pass_keep {C} (c : C) (event : SwarmEvent) : C * OnEventResult := (c, (true, Some event)).

(** ** Bootstrap *)

Record BootstrapResult := mkBootstrapResult { br_num_remaining : Z; br_stats : QueryStatsInfo }.

Record BootstrapCommand := mkBootstrap {
  bs_query_id : option QueryId;
  bs_stats : option QueryStats;
}.

Definition BootstrapCommand_new : BootstrapCommand := mkBootstrap None None.

Definition BootstrapCommand_run (c : BootstrapCommand) : H Sw BootstrapResult BootstrapCommand :=
  res ← call kad_bootstrap;
  match res with
  | Ok query_id => mret (mkBootstrap (Some query_id) (bs_stats c))
  | Err _ => finish (Err (E_Kad "Bootstrap failed: no known peers"));; mret c
  end.

Definition BootstrapCommand_on_event (c : BootstrapCommand) (event : SwarmEvent) :
    H Sw BootstrapResult (BootstrapCommand * OnEventResult) :=
  match event with
  | Behaviour (CBE_Kad (OutboundQueryProgressed id (QR_Bootstrap res) stats step_last)) =>
      if decide (bs_query_id c = Some id) then
        let c := mkBootstrap (bs_query_id c) (merge_stats (bs_stats c) stats) in
        match res with
        | Err e => finish (Err (kad_err "Bootstrap" e));; mret (consumed_done c)
        | Ok (_, num_remaining) =>
            if negb step_last then mret (consumed_keep c)
            else
              stats ← unwrap (bs_stats c);
              finish (Ok (mkBootstrapResult num_remaining (QueryStatsInfo_from stats)));;
              mret (consumed_done c)
        end
      else mret (pass_keep c event)
  | other => mret (pass_keep c other)
  end.

#[export] Instance BootstrapCommand_handler : CommandHandler Sw BootstrapCommand BootstrapResult := {
  run := BootstrapCommand_run;
  on_event := BootstrapCommand_on_event;
}.

(** ** GetClosestPeers *)

Record GetClosestPeersResult := mkClosestResult { cr_peers : list PeerId; cr_stats : QueryStatsInfo }.

Record GetClosestPeersCommand := mkGetClosestPeers {
  gc_key : RecordKey;
  gc_query_id : option QueryId;
  gc_peers : list PeerId;
  gc_stats : option QueryStats;
}.

Definition GetClosestPeersCommand_new (key : RecordKey) : GetClosestPeersCommand :=
  mkGetClosestPeers key None [] None.

Definition GetClosestPeersCommand_run (c : GetClosestPeersCommand) :
    H Sw GetClosestPeersResult GetClosestPeersCommand :=
  query_id ← call (fun s => kad_get_closest_peers s (gc_key c));
  mret (mkGetClosestPeers (gc_key c) (Some query_id) (gc_peers c) (gc_stats c)).

Definition GetClosestPeersCommand_on_event (c : GetClosestPeersCommand) (event : SwarmEvent) :
    H Sw GetClosestPeersResult (GetClosestPeersCommand * OnEventResult) :=
  match event with
  | Behaviour (CBE_Kad (OutboundQueryProgressed id (QR_GetClosestPeers res) stats step_last)) =>
      if decide (gc_query_id c = Some id) then
        let stats := merge_stats (gc_stats c) stats in
        match res with
        | Err e =>
            finish (Err (kad_err "GetClosestPeers" e));;
            mret (consumed_done (mkGetClosestPeers (gc_key c) (gc_query_id c) (gc_peers c) stats))
        | Ok peers =>
            let peers := gc_peers c ++ peers in
            if negb step_last
            then mret (consumed_keep (mkGetClosestPeers (gc_key c) (gc_query_id c) peers stats))
            else
              s ← unwrap stats;
              finish (Ok (mkClosestResult peers (QueryStatsInfo_from s)));;
              mret (consumed_done (mkGetClosestPeers (gc_key c) (gc_query_id c) [] stats))
        end
      else mret (pass_keep c event)
  | other => mret (pass_keep c other)
  end.

#[export] Instance GetClosestPeersCommand_handler :
    CommandHandler Sw GetClosestPeersCommand GetClosestPeersResult := {
  run := GetClosestPeersCommand_run;
  on_event := GetClosestPeersCommand_on_event;
}.

(** ** GetProviders *)

Record GetProvidersResult := mkProvidersResult { gpr_providers : list PeerId; gpr_stats : QueryStatsInfo }.

Record GetProvidersCommand := mkGetProviders {
  gp_key : RecordKey;
  gp_query_id : option QueryId;
  gp_providers : list PeerId;
  gp_stats : option QueryStats;
}.

Definition GetProvidersCommand_new (key : RecordKey) : GetProvidersCommand :=
  mkGetProviders key None [] None.

Definition GetProvidersCommand_run (c : GetProvidersCommand) :
    H Sw GetProvidersResult GetProvidersCommand :=
  query_id ← call (fun s => kad_get_providers s (gp_key c));
  mret (mkGetProviders (gp_key c) (Some query_id) (gp_providers c) (gp_stats c)).

Definition GetProvidersCommand_on_event (c : GetProvidersCommand) (event : SwarmEvent) :
    H Sw GetProvidersResult (GetProvidersCommand * OnEventResult) :=
  match event with
  | Behaviour (CBE_Kad (OutboundQueryProgressed id (QR_GetProviders res) stats step_last)) =>
      if decide (gp_query_id c = Some id) then
        let stats := merge_stats (gp_stats c) stats in
        match res with
        | Err e =>
            finish (Err (kad_err "GetProviders" e));;
            mret (consumed_done (mkGetProviders (gp_key c) (gp_query_id c) (gp_providers c) stats))
        | Ok ok =>
            let providers :=
              match ok with
              | FoundProviders providers => gp_providers c ++ hs_iter providers
              | GP_FinishedWithNoAdditionalRecord _ => gp_providers c
              end in
            if negb step_last
            then mret (consumed_keep (mkGetProviders (gp_key c) (gp_query_id c) providers stats))
            else
              s ← unwrap stats;
              finish (Ok (mkProvidersResult providers (QueryStatsInfo_from s)));;
              mret (consumed_done (mkGetProviders (gp_key c) (gp_query_id c) [] stats))
        end
      else mret (pass_keep c event)
  | other => mret (pass_keep c other)
  end.

#[export] Instance GetProvidersCommand_handler :
    CommandHandler Sw GetProvidersCommand GetProvidersResult := {
  run := GetProvidersCommand_run;
  on_event := GetProvidersCommand_on_event;
}.

(** ** GetRecord *)

Record GetRecordResult := mkRecordResult { grr_record : KadRecord; grr_stats : QueryStatsInfo }.

Record GetRecordCommand := mkGetRecord {
  gr_key : RecordKey;
  gr_query_id : option QueryId;
  gr_record : option KadRecord;
  gr_stats : option QueryStats;
}.

Definition GetRecordCommand_new (key : RecordKey) : GetRecordCommand :=
  mkGetRecord key None None None.

Definition GetRecordCommand_run (c : GetRecordCommand) : H Sw GetRecordResult GetRecordCommand :=
  query_id ← call (fun s => kad_get_record s (gr_key c));
  mret (mkGetRecord (gr_key c) (Some query_id) (gr_record c) (gr_stats c)).

(** The part after the result was looked at: wait, or conclude. *)
Definition GetRecordCommand_conclude (c : GetRecordCommand) (step_last : bool) :
    H Sw GetRecordResult (GetRecordCommand * OnEventResult) :=
  if negb step_last then mret (consumed_keep c)
  else
    s ← unwrap (gr_stats c);
    match gr_record c with
    | Some record => finish (Ok (mkRecordResult record (QueryStatsInfo_from s)))
    | None => finish (Err (E_Kad "Record not found"))
    end;;
    mret (consumed_done (mkGetRecord (gr_key c) (gr_query_id c) None (gr_stats c))).

Definition GetRecordCommand_on_event (c : GetRecordCommand) (event : SwarmEvent) :
    H Sw GetRecordResult (GetRecordCommand * OnEventResult) :=
  match event with
  | Behaviour (CBE_Kad (OutboundQueryProgressed id (QR_GetRecord res) stats step_last)) =>
      if decide (gr_query_id c = Some id) then
        let c := mkGetRecord (gr_key c) (gr_query_id c) (gr_record c)
                   (merge_stats (gr_stats c) stats) in
        match res, gr_record c with
        | Ok (FoundRecord _ record), None =>
            GetRecordCommand_conclude
              (mkGetRecord (gr_key c) (gr_query_id c) (Some record) (gr_stats c)) step_last
        | Ok _, _ => GetRecordCommand_conclude c step_last
        | Err e, None =>
            if step_last
            then finish (Err (kad_err "GetRecord" e));; mret (consumed_done c)
            else GetRecordCommand_conclude c step_last
        | Err _, Some _ => GetRecordCommand_conclude c step_last
        end
      else mret (pass_keep c event)
  | other => mret (pass_keep c other)
  end.

#[export] Instance GetRecordCommand_handler : CommandHandler Sw GetRecordCommand GetRecordResult := {
  run := GetRecordCommand_run;
  on_event := GetRecordCommand_on_event;
}.

(** ** PutRecord *)

Record PutRecordCommand := mkPutRecord {
  pr_record : KadRecord;
  pr_query_id : option QueryId;
  pr_stats : option QueryStats;
}.

Definition PutRecordCommand_new (record : KadRecord) : PutRecordCommand :=
  mkPutRecord record None None.

(** Always with [Quorum::One]. *)
Definition PutRecordCommand_run (c : PutRecordCommand) : H Sw QueryStatsInfo PutRecordCommand :=
  res ← call (fun s => kad_put_record s (pr_record c));
  match res with
  | Ok query_id => mret (mkPutRecord (pr_record c) (Some query_id) (pr_stats c))
  | Err e => finish (Err (E_Kad ("PutRecord store: " +:+ store_error_display e)));; mret c
  end.

Definition PutRecordCommand_on_event (c : PutRecordCommand) (event : SwarmEvent) :
    H Sw QueryStatsInfo (PutRecordCommand * OnEventResult) :=
  match event with
  | Behaviour (CBE_Kad (OutboundQueryProgressed id (QR_PutRecord res) stats step_last)) =>
      if decide (pr_query_id c = Some id) then
        let c := mkPutRecord (pr_record c) (pr_query_id c) (merge_stats (pr_stats c) stats) in
        if negb step_last then mret (consumed_keep c)
        else
          s ← unwrap (pr_stats c);
          match res with
          | Ok _ => finish (Ok (QueryStatsInfo_from s))
          | Err e => finish (Err (kad_err "PutRecord" e))
          end;;
          mret (consumed_done c)
      else mret (pass_keep c event)
  | other => mret (pass_keep c other)
  end.

#[export] Instance PutRecordCommand_handler : CommandHandler Sw PutRecordCommand QueryStatsInfo := {
  run := PutRecordCommand_run;
  on_event := PutRecordCommand_on_event;
}.

(** ** StartProvide *)

Record StartProvideCommand := mkStartProvide {
  sp_key : RecordKey;
  sp_query_id : option QueryId;
  sp_stats : option QueryStats;
}.

Definition StartProvideCommand_new (key : RecordKey) : StartProvideCommand :=
  mkStartProvide key None None.

Definition StartProvideCommand_run (c : StartProvideCommand) :
    H Sw QueryStatsInfo StartProvideCommand :=
  res ← call (fun s => kad_start_providing s (sp_key c));
  match res with
  | Ok query_id => mret (mkStartProvide (sp_key c) (Some query_id) (sp_stats c))
  | Err e => finish (Err (E_Kad ("StartProviding store: " +:+ store_error_display e)));; mret c
  end.

Definition StartProvideCommand_on_event (c : StartProvideCommand) (event : SwarmEvent) :
    H Sw QueryStatsInfo (StartProvideCommand * OnEventResult) :=
  match event with
  | Behaviour (CBE_Kad (OutboundQueryProgressed id (QR_StartProviding res) stats step_last)) =>
      if decide (sp_query_id c = Some id) then
        let c := mkStartProvide (sp_key c) (sp_query_id c) (merge_stats (sp_stats c) stats) in
        if negb step_last then mret (consumed_keep c)
        else
          s ← unwrap (sp_stats c);
          match res with
          | Ok _ => finish (Ok (QueryStatsInfo_from s))
          | Err e => finish (Err (kad_err "Provide" e))
          end;;
          mret (consumed_done c)
      else mret (pass_keep c event)
  | other => mret (pass_keep c other)
  end.

#[export] Instance StartProvideCommand_handler :
    CommandHandler Sw StartProvideCommand QueryStatsInfo := {
  run := StartProvideCommand_run;
  on_event := StartProvideCommand_on_event;
}.

(** ** StopProvide and RemoveRecord *)

Record StopProvideCommand := { stop_key : RecordKey }.

Definition StopProvideCommand_run (c : StopProvideCommand) : H Sw unit StopProvideCommand :=
  update (fun s => kad_stop_providing s (stop_key c));;
  finish (Ok tt);; mret c.

#[export] Instance StopProvideCommand_handler : CommandHandler Sw StopProvideCommand unit := {
  run := StopProvideCommand_run;
  on_event := default_on_event;
}.

Record RemoveRecordCommand := { remove_key : RecordKey }.

Definition RemoveRecordCommand_run (c : RemoveRecordCommand) : H Sw unit RemoveRecordCommand :=
  update (fun s => kad_remove_record s (remove_key c));;
  finish (Ok tt);; mret c.

#[export] Instance RemoveRecordCommand_handler : CommandHandler Sw RemoveRecordCommand unit := {
  run := RemoveRecordCommand_run;
  on_event := default_on_event;
}.

(** ** Keys: the query identifier stored by [run] *)

#[export] Instance BootstrapCommand_keyed : Keyed BootstrapCommand :=
  fun c => KQuery <$> bs_query_id c.
#[export] Instance GetClosestPeersCommand_keyed : Keyed GetClosestPeersCommand :=
  fun c => KQuery <$> gc_query_id c.
#[export] Instance GetProvidersCommand_keyed : Keyed GetProvidersCommand :=
  fun c => KQuery <$> gp_query_id c.
#[export] Instance GetRecordCommand_keyed : Keyed GetRecordCommand :=
  fun c => KQuery <$> gr_query_id c.
#[export] Instance PutRecordCommand_keyed : Keyed PutRecordCommand :=
  fun c => KQuery <$> pr_query_id c.
#[export] Instance StartProvideCommand_keyed : Keyed StartProvideCommand :=
  fun c => KQuery <$> sp_query_id c.
#[export] Instance StopProvideCommand_keyed : Keyed StopProvideCommand := fun _ => None.
#[export] Instance RemoveRecordCommand_keyed : Keyed RemoveRecordCommand := fun _ => None.

(** ** Every command obeys the contract *)

(** Answers that consume an event carrying the command's key. *)
Lemma consume_keep_answer {C R} `{!Keyed C} (c c' : C) ev k :
  event_key ev = Some k -> command_key c = Some k -> command_key c' = Some k ->
  event_answer (R := R) c ev c' true None [].
Proof. intros He Hc Hc'. split; simpl; [by right|by rewrite He, Hc|done|lia|congruence|done]. Qed.

Lemma consume_done_answer {C R} `{!Keyed C} (c c' : C) ev k (r : CResult R) :
  event_key ev = Some k -> command_key c = Some k -> command_key c' = Some k ->
  event_answer c ev c' false None [r].
Proof. intros He Hc Hc'. split; simpl; [by right|by rewrite He, Hc|done|lia|congruence|done]. Qed.

(** Compute the answer to the event on every branch, then classify it. *)
Ltac query_answer :=
  (eexists _, _, _, _; split; [intros s; run_H; done|]);
  first
    [ apply keep_pass_answer
    | eapply consume_keep_answer
    | eapply consume_done_answer ];
  cbv beta delta [command_key BootstrapCommand_keyed GetClosestPeersCommand_keyed
    GetProvidersCommand_keyed GetRecordCommand_keyed PutRecordCommand_keyed
    StartProvideCommand_keyed]; simpl;
  repeat match goal with H : _ = Some _ |- _ => rewrite H end; reflexivity.

Ltac query_laws :=
  split;
  [ simpl; solve_run
  | intros c ev; simpl;
    destruct ev as [[| |[id [r|r|r|r|r|r|] stats last| |]| | | | | | |]| | | | | | | |];
    run_H; branch_H; query_answer ].

#[export] Instance BootstrapCommand_laws :
  CommandHandlerLaws Sw BootstrapCommand BootstrapResult.
Proof. unfold BootstrapCommand_handler, BootstrapCommand_run, BootstrapCommand_on_event. query_laws. Qed.

#[export] Instance GetClosestPeersCommand_laws :
  CommandHandlerLaws Sw GetClosestPeersCommand GetClosestPeersResult.
Proof.
  unfold GetClosestPeersCommand_handler, GetClosestPeersCommand_run,
    GetClosestPeersCommand_on_event. query_laws.
Qed.

#[export] Instance GetProvidersCommand_laws :
  CommandHandlerLaws Sw GetProvidersCommand GetProvidersResult.
Proof.
  unfold GetProvidersCommand_handler, GetProvidersCommand_run, GetProvidersCommand_on_event.
  query_laws.
Qed.

#[export] Instance GetRecordCommand_laws :
  CommandHandlerLaws Sw GetRecordCommand GetRecordResult.
Proof.
  unfold GetRecordCommand_handler, GetRecordCommand_run, GetRecordCommand_on_event,
    GetRecordCommand_conclude. query_laws.
Qed.

#[export] Instance PutRecordCommand_laws : CommandHandlerLaws Sw PutRecordCommand QueryStatsInfo.
Proof. unfold PutRecordCommand_handler, PutRecordCommand_run, PutRecordCommand_on_event. query_laws. Qed.

#[export] Instance StartProvideCommand_laws :
  CommandHandlerLaws Sw StartProvideCommand QueryStatsInfo.
Proof.
  unfold StartProvideCommand_handler, StartProvideCommand_run, StartProvideCommand_on_event.
  query_laws.
Qed.

#[export] Instance StopProvideCommand_laws : CommandHandlerLaws Sw StopProvideCommand unit.
Proof. split; [|apply default_on_event_answers]. simpl. unfold StopProvideCommand_run. solve_run. Qed.

#[export] Instance RemoveRecordCommand_laws : CommandHandlerLaws Sw RemoveRecordCommand unit.
Proof. split; [|apply default_on_event_answers]. simpl. unfold RemoveRecordCommand_run. solve_run. Qed.

End commands.
