(* ===== verification/KadQueries.v ===== *)
(** * The life of the Kademlia queries

    What the caller of [get_record], [get_providers], [get_closest_peers],
    [bootstrap], [put_record] and [start_provide] receives, as a function of
    the whole sequence of progress events of its query, whatever foreign events
    (other queries, other protocols) are interleaved. *)
From S2P Require Import Prelude Externals Errors Handler BasicCommands KadCommands.

Section specs.
Context `{N : NetTypes} `{!HashOrder}.

(** One progress event of the query [q]. *)
Definition progress (q : QueryId) (res : QueryResult) (st : QueryStats) (last : bool) : SwarmEvent :=
  Behaviour (CBE_Kad (OutboundQueryProgressed q res st last)).

(** The statistics of all the steps, merged from the left. *)
Definition total_stats (sts : list QueryStats) (last : QueryStats) : QueryStats :=
  match sts with
  | [] => last
  | st :: sts => qs_merge (foldl qs_merge st sts) last
  end.

Definition providers_found (ok : GetProvidersOk) : list PeerId :=
  match ok with
  | FoundProviders providers => hs_iter providers
  | GP_FinishedWithNoAdditionalRecord _ => []
  end.

Definition record_found (res : Result GetRecordOk KadError) : option KadRecord :=
  match res with
  | Ok (FoundRecord _ record) => Some record
  | _ => None
  end.

(** The answer to [get_record]: the first record any step reported; without
    one, the error of the last step or "Record not found". *)
Definition get_record_answer (results : list (Result GetRecordOk KadError))
    (last : Result GetRecordOk KadError) (st : QueryStats) : CResult GetRecordResult :=
  match head (omap record_found (results ++ [last])), last with
  | Some record, _ => Ok (mkRecordResult record (QueryStatsInfo_from st))
  | None, Err e => Err (kad_err "GetRecord" e)
  | None, Ok _ => Err (E_Kad "Record not found")
  end.

End specs.

Section lifecycles.
Context `{N : NetTypes} {Sw : Type} `{!SwarmOps Sw} `{!HashOrder}.

(** ** Foreign events are ignored *)

Ltac ignores_foreign :=
  intros c ev k s Hk He; simpl;
  destruct ev as [[| |[id [r|r|r|r|r|r|] stats last| |]| | | | | | |]| | | | | | | |];
  try reflexivity;
  (case_decide; [|reflexivity]);
  exfalso; apply He; rewrite <- Hk; simpl;
  cbv beta delta [command_key BootstrapCommand_keyed GetClosestPeersCommand_keyed
    GetProvidersCommand_keyed GetRecordCommand_keyed PutRecordCommand_keyed
    StartProvideCommand_keyed];
  match goal with Hq : _ = Some _ |- _ => rewrite Hq; reflexivity end.

#[export] Instance Bootstrap_foreign : IgnoresForeign Sw BootstrapCommand BootstrapResult.
Proof. unfold BootstrapCommand_handler, BootstrapCommand_on_event. ignores_foreign. Qed.
#[export] Instance GetClosestPeers_foreign :
  IgnoresForeign Sw GetClosestPeersCommand GetClosestPeersResult.
Proof. unfold GetClosestPeersCommand_handler, GetClosestPeersCommand_on_event. ignores_foreign. Qed.
#[export] Instance GetProviders_foreign : IgnoresForeign Sw GetProvidersCommand GetProvidersResult.
Proof. unfold GetProvidersCommand_handler, GetProvidersCommand_on_event. ignores_foreign. Qed.
#[export] Instance GetRecord_foreign : IgnoresForeign Sw GetRecordCommand GetRecordResult.
Proof. unfold GetRecordCommand_handler, GetRecordCommand_on_event. ignores_foreign. Qed.
#[export] Instance PutRecord_foreign : IgnoresForeign Sw PutRecordCommand QueryStatsInfo.
Proof. unfold PutRecordCommand_handler, PutRecordCommand_on_event. ignores_foreign. Qed.
#[export] Instance StartProvide_foreign : IgnoresForeign Sw StartProvideCommand QueryStatsInfo.
Proof. unfold StartProvideCommand_handler, StartProvideCommand_on_event. ignores_foreign. Qed.

(** ** Folding the accumulators *)

Lemma merge_stats_fold sts st :
  merge_stats (foldl merge_stats None sts) st = Some (total_stats sts st).
Proof.
  destruct sts as [|st0 sts]; [done|]. simpl. change (merge_stats None st0) with (Some st0).
  assert (forall l a, foldl merge_stats (Some a) l = Some (foldl qs_merge a l)) as ->; [|done].
  induction l as [|x l IH]; [done|]. intros a. simpl. apply IH.
Qed.

Definition gp_adv (c : GetProvidersCommand) (x : GetProvidersOk * QueryStats) : GetProvidersCommand :=
  mkGetProviders (gp_key c) (gp_query_id c) (gp_providers c ++ providers_found x.1)
    (merge_stats (gp_stats c) x.2).

Lemma gp_fold key q ps o steps :
  foldl gp_adv (mkGetProviders key q ps o) steps
  = mkGetProviders key q (ps ++ (steps.*1 ≫= providers_found)) (foldl merge_stats o steps.*2).
Proof.
  revert ps o. induction steps as [|[ok st] steps IH]; intros ps o; simpl;
    [by rewrite app_nil_r|].
  unfold gp_adv at 2. simpl. by rewrite IH, <- app_assoc.
Qed.

Definition gc_adv (c : GetClosestPeersCommand) (x : list PeerId * QueryStats) :
    GetClosestPeersCommand :=
  mkGetClosestPeers (gc_key c) (gc_query_id c) (gc_peers c ++ x.1) (merge_stats (gc_stats c) x.2).

Lemma gc_fold key q ps o steps :
  foldl gc_adv (mkGetClosestPeers key q ps o) steps
  = mkGetClosestPeers key q (ps ++ concat steps.*1) (foldl merge_stats o steps.*2).
Proof.
  revert ps o. induction steps as [|[ok st] steps IH]; intros ps o; simpl;
    [by rewrite app_nil_r|].
  unfold gc_adv at 2. simpl. by rewrite IH, <- app_assoc.
Qed.

Definition gr_adv (c : GetRecordCommand) (x : Result GetRecordOk KadError * QueryStats) :
    GetRecordCommand :=
  mkGetRecord (gr_key c) (gr_query_id c)
    (match gr_record c with Some r => Some r | None => record_found x.1 end)
    (merge_stats (gr_stats c) x.2).

Lemma gr_fold key q r o steps :
  foldl gr_adv (mkGetRecord key q r o) steps
  = mkGetRecord key q
      (match r with Some r => Some r | None => head (omap record_found steps.*1) end)
      (foldl merge_stats o steps.*2).
Proof.
  revert r o. induction steps as [|[res st] steps IH]; intros r o; simpl; [by destruct r|].
  unfold gr_adv at 2. simpl. rewrite IH. destruct r; [done|].
  by destruct (record_found res).
Qed.

Definition bs_adv (c : BootstrapCommand) (x : (PeerId * Z) * QueryStats) : BootstrapCommand :=
  mkBootstrap (bs_query_id c) (merge_stats (bs_stats c) x.2).

Lemma bs_fold q o steps :
  foldl bs_adv (mkBootstrap q o) steps = mkBootstrap q (foldl merge_stats o steps.*2).
Proof. revert o. induction steps as [|[? st] steps IH]; intros o; simpl; [done|apply IH]. Qed.

Definition pr_adv (c : PutRecordCommand) (x : Result unit KadError * QueryStats) :
    PutRecordCommand := mkPutRecord (pr_record c) (pr_query_id c) (merge_stats (pr_stats c) x.2).

Lemma pr_fold r q o steps :
  foldl pr_adv (mkPutRecord r q o) steps = mkPutRecord r q (foldl merge_stats o steps.*2).
Proof. revert o. induction steps as [|[? st] steps IH]; intros o; simpl; [done|apply IH]. Qed.

Definition sp_adv (c : StartProvideCommand) (x : Result unit KadError * QueryStats) :
    StartProvideCommand := mkStartProvide (sp_key c) (sp_query_id c) (merge_stats (sp_stats c) x.2).

Lemma sp_fold k q o steps :
  foldl sp_adv (mkStartProvide k q o) steps = mkStartProvide k q (foldl merge_stats o steps.*2).
Proof. revert o. induction steps as [|[? st] steps IH]; intros o; simpl; [done|apply IH]. Qed.

End lifecycles.

(** ** Properties *)

(** [get_providers]: the caller receives, once, the providers of all the
    steps in order of arrival, with the merged statistics, when the last step
    arrives; the query's own events are consumed and every foreign event is
    passed on unchanged. *)
Lemma get_providers_collects `{N : NetTypes} {Sw} `{!SwarmOps Sw, !HashOrder}
    (key : RecordKey) (s0 s : Sw) (steps : list (GetProvidersOk * QueryStats))
    (ok : GetProvidersOk) (st : QueryStats) (evs : list SwarmEvent) :
  let q := (kad_get_providers s0 key).2 in
  filter (own (KQuery q)) evs
  = ((fun x => progress q (QR_GetProviders (Ok x.1)) x.2 false) <$> steps)
    ++ [progress q (QR_GetProviders (Ok ok)) st true] ->
  exists c1 c2 rems,
    run (GetProvidersCommand_new key) s0 = Some (c1, (kad_get_providers s0 key).1, [])
    /\ feed c1 evs s
       = Some (c2, false, rems, s,
               [Ok (mkProvidersResult ((steps.*1 ++ [ok]) ≫= providers_found)
                      (QueryStatsInfo_from (total_stats steps.*2 st)))])
    /\ omap id rems = filter (fun ev => ~ own (KQuery q) ev) evs.
Proof.
  intros q Hf.
  eapply (query_lifecycle (KQuery q) _ gp_adv (fun c => gp_query_id c = Some q)
            (mkGetProviders key (Some q) [] None)) with (s := s) in Hf as (rems & Hfeed & Hrems).
  - exists (mkGetProviders key (Some q) [] None). eexists _, rems.
    split; [done|]. split; [exact Hfeed|done].
  - done.
  - done.
  - intros c [ok' st'] s' Hc. split; [|done]. simpl.
    rewrite decide_True by done. run_H. unfold gp_adv. by destruct ok'; simpl; rewrite ?app_nil_r.
  - intros _. rewrite gp_fold. simpl. rewrite decide_True by done.
    rewrite merge_stats_fold. run_H.
    rewrite bind_app. simpl. rewrite app_nil_r. by destruct ok; rewrite ?app_nil_r.
Qed.

(** [get_record]: the first record any step reports wins, later records and
    errors are ignored; without a record the answer is the error of the last
    step, or "Record not found" when the last step is no error.  Errors of
    earlier steps never end the query. *)
Lemma get_record_first_wins `{N : NetTypes} {Sw} `{!SwarmOps Sw, !HashOrder}
    (key : RecordKey) (s0 s : Sw) (steps : list (Result GetRecordOk KadError * QueryStats))
    (res : Result GetRecordOk KadError) (st : QueryStats) (evs : list SwarmEvent) :
  let q := (kad_get_record s0 key).2 in
  filter (own (KQuery q)) evs
  = ((fun x => progress q (QR_GetRecord x.1) x.2 false) <$> steps)
    ++ [progress q (QR_GetRecord res) st true] ->
  exists c1 c2 rems,
    run (GetRecordCommand_new key) s0 = Some (c1, (kad_get_record s0 key).1, [])
    /\ feed c1 evs s
       = Some (c2, false, rems, s,
               [get_record_answer steps.*1 res (total_stats steps.*2 st)])
    /\ omap id rems = filter (fun ev => ~ own (KQuery q) ev) evs.
Proof.
  intros q Hf.
  set (first := head (omap record_found steps.*1)).
  eapply (query_lifecycle (KQuery q) _ gr_adv (fun c => gr_query_id c = Some q)
            (mkGetRecord key (Some q) None None)
            (mkGetRecord key (Some q)
               (match first, res with None, Err _ => None | _, _ => None end)
               (Some (total_stats steps.*2 st)))) with (s := s) in Hf as (rems & Hfeed & Hrems).
  - exists (mkGetRecord key (Some q) None None). eexists _, rems.
    split; [done|]. split; [exact Hfeed|done].
  - done.
  - done.
  - intros c [res' st'] s' Hc. split; [|done]. simpl.
    rewrite decide_True by done. unfold gr_adv, GetRecordCommand_conclude. run_H.
    by destruct res' as [[]|], (gr_record c).
  - intros _. rewrite gr_fold. simpl. rewrite decide_True by done.
    rewrite merge_stats_fold. unfold get_record_answer.
    rewrite omap_app, head_app. fold first. unfold GetRecordCommand_conclude. run_H.
    by destruct first, res as [[]|].
Qed.

(** [bootstrap] and [get_closest_peers] end at the first error, even on a
    step that is not the last, with that error; without one they end at the last
    step, bootstrap with the [num_remaining] of that step, [get_closest_peers]
    with the peers of all the steps in order, both with the merged statistics. *)
Lemma bootstrap_and_closest_outcome `{N : NetTypes} {Sw} `{!SwarmOps Sw, !HashOrder}
    (q : QueryId) (key : RecordKey) (s : Sw) (st : QueryStats) (is_last : bool)
    (bsteps : list ((PeerId * Z) * QueryStats)) (bres : Result (PeerId * Z) KadError)
    (csteps : list (list PeerId * QueryStats)) (cres : Result (list PeerId) KadError)
    (bevs cevs : list SwarmEvent) :
  (is_ok bres = true \/ is_ok cres = true -> is_last = true) ->
  filter (own (KQuery q)) bevs
  = ((fun x => progress q (QR_Bootstrap (Ok x.1)) x.2 false) <$> bsteps)
    ++ [progress q (QR_Bootstrap bres) st is_last] ->
  filter (own (KQuery q)) cevs
  = ((fun x => progress q (QR_GetClosestPeers (Ok x.1)) x.2 false) <$> csteps)
    ++ [progress q (QR_GetClosestPeers cres) st is_last] ->
  (exists c2 rems,
    feed (Sw := Sw) (mkBootstrap (Some q) None) bevs s
    = Some (c2, false, rems, s,
            [match bres with
             | Ok (_, n) =>
                 Ok (mkBootstrapResult n (QueryStatsInfo_from (total_stats bsteps.*2 st)))
             | Err e => Err (kad_err "Bootstrap" e)
             end])
    /\ omap id rems = filter (fun ev => ~ own (KQuery q) ev) bevs)
  /\ (exists c2 rems,
    feed (Sw := Sw) (mkGetClosestPeers key (Some q) [] None) cevs s
    = Some (c2, false, rems, s,
            [match cres with
             | Ok ps =>
                 Ok (mkClosestResult (concat csteps.*1 ++ ps)
                       (QueryStatsInfo_from (total_stats csteps.*2 st)))
             | Err e => Err (kad_err "GetClosestPeers" e)
             end])
    /\ omap id rems = filter (fun ev => ~ own (KQuery q) ev) cevs).
Proof.
  intros Hlast Hb Hc. split.
  - eapply (query_lifecycle (KQuery q) _ bs_adv (fun c => bs_query_id c = Some q)
              (mkBootstrap (Some q) None)) with (s := s) in Hb as (rems & Hfeed & Hrems).
    + eexists _, rems. split; [exact Hfeed|done].
    + done.
    + done.
    + intros c [[p n] st'] s' Hq. split; [|done]. simpl. by rewrite decide_True.
    + intros _. rewrite bs_fold. simpl. rewrite decide_True, merge_stats_fold by done. run_H.
      destruct bres as [[p n]|e]; [|done]. by rewrite Hlast by auto.
  - eapply (query_lifecycle (KQuery q) _ gc_adv (fun c => gc_query_id c = Some q)
              (mkGetClosestPeers key (Some q) [] None)
              (mkGetClosestPeers key (Some q)
                 (if cres then [] else concat csteps.*1) (Some (total_stats csteps.*2 st))))
      with (s := s) in Hc as (rems & Hfeed & Hrems).
    + eexists _, rems. split; [exact Hfeed|done].
    + done.
    + done.
    + intros c [ps st'] s' Hq. split; [|done]. simpl. by rewrite decide_True.
    + intros _. rewrite gc_fold. simpl. rewrite decide_True, merge_stats_fold by done. run_H.
      destruct cres as [ps|e]; [|done]. by rewrite Hlast by auto.
Qed.

(** [put_record] and [start_provide] are decided by the last step alone:
    results of earlier steps, errors included, only contribute statistics. *)
Lemma put_and_provide_last_step_decides `{N : NetTypes} {Sw} `{!SwarmOps Sw, !HashOrder}
    (q : QueryId) (record : KadRecord) (key : RecordKey) (s : Sw) (st : QueryStats)
    (steps : list (Result unit KadError * QueryStats)) (res : Result unit KadError)
    (pevs sevs : list SwarmEvent) :
  filter (own (KQuery q)) pevs
  = ((fun x => progress q (QR_PutRecord x.1) x.2 false) <$> steps)
    ++ [progress q (QR_PutRecord res) st true] ->
  filter (own (KQuery q)) sevs
  = ((fun x => progress q (QR_StartProviding x.1) x.2 false) <$> steps)
    ++ [progress q (QR_StartProviding res) st true] ->
  let answer what := match res with
                     | Ok _ => Ok (QueryStatsInfo_from (total_stats steps.*2 st))
                     | Err e => Err (kad_err what e)
                     end in
  (exists c2 rems,
    feed (Sw := Sw) (mkPutRecord record (Some q) None) pevs s
    = Some (c2, false, rems, s, [answer "PutRecord"])
    /\ omap id rems = filter (fun ev => ~ own (KQuery q) ev) pevs)
  /\ (exists c2 rems,
    feed (Sw := Sw) (mkStartProvide key (Some q) None) sevs s
    = Some (c2, false, rems, s, [answer "Provide"])
    /\ omap id rems = filter (fun ev => ~ own (KQuery q) ev) sevs).
Proof.
  intros Hp Hs answer. split.
  - eapply (query_lifecycle (KQuery q) _ pr_adv (fun c => pr_query_id c = Some q)
              (mkPutRecord record (Some q) None)) with (s := s) in Hp as (rems & Hfeed & Hrems).
    + eexists _, rems. split; [exact Hfeed|done].
    + done.
    + done.
    + intros c [r st'] s' Hq. split; [|done]. simpl. by rewrite decide_True.
    + intros _. rewrite pr_fold. simpl. rewrite decide_True, merge_stats_fold by done. run_H.
      by destruct res.
  - eapply (query_lifecycle (KQuery q) _ sp_adv (fun c => sp_query_id c = Some q)
              (mkStartProvide key (Some q) None)) with (s := s) in Hs as (rems & Hfeed & Hrems).
    + eexists _, rems. split; [exact Hfeed|done].
    + done.
    + done.
    + intros c [r st'] s' Hq. split; [|done]. simpl. by rewrite decide_True.
    + intros _. rewrite sp_fold. simpl. rewrite decide_True, merge_stats_fold by done. run_H.
      by destruct res.
Qed.
