(* ===== verification/ReqRespCommands.v ===== *)
(** * Request-response commands ([core/src/command/req_resp/*.rs]) *)
From S2P Require Import Prelude Externals Errors Handler BasicCommands KadCommands.

Section commands.
Context `{N : NetTypes} {Sw : Type} `{!SwarmOps Sw}.

(** ** SendRequest *)

Record SendRequestCommand := mkSendRequest {
  sr_peer_id : PeerId;
  sr_request : option Req;
  sr_request_id : option OutboundRequestId;
}.

Definition SendRequestCommand_new (peer_id : PeerId) (request : Req) : SendRequestCommand :=
  mkSendRequest peer_id (Some request) None.

Definition SendRequestCommand_run (c : SendRequestCommand) : H Sw Resp SendRequestCommand :=
  match sr_request c with
  | None => finish (Err (E_RequestResponse "SendRequest: run called twice"));; mret c
  | Some request =>
      request_id ← call (fun s => rr_send_request s (sr_peer_id c) request);
      mret (mkSendRequest (sr_peer_id c) None (Some request_id))
  end.

Definition SendRequestCommand_on_event (c : SendRequestCommand) (event : SwarmEvent) :
    H Sw Resp (SendRequestCommand * OnEventResult) :=
  match event with
  | Behaviour (CBE_ReqResp (RR_Response peer request_id response)) =>
      if decide (sr_request_id c = Some request_id /\ peer = sr_peer_id c)
      then finish (Ok response);; mret (consumed_done c)
      else mret (pass_keep c event)
  | Behaviour (CBE_ReqResp (RR_OutboundFailure peer request_id error)) =>
      if decide (sr_request_id c = Some request_id /\ peer = sr_peer_id c)
      then finish (Err (map_outbound_failure error));; mret (consumed_done c)
      else mret (pass_keep c event)
  | other => mret (pass_keep c other)
  end.

#[export] Instance SendRequestCommand_handler : CommandHandler Sw SendRequestCommand Resp := {
  run := SendRequestCommand_run;
  on_event := SendRequestCommand_on_event;
}.

#[export] Instance SendRequestCommand_keyed : Keyed SendRequestCommand :=
  fun c => KRequest <$> sr_request_id c.

(** ** SendResponse *)

Record SendResponseCommand := mkSendResponse {
  sp_channel : option ResponseChannel;
  sp_response : option Resp;
}.

Definition SendResponseCommand_new (channel : ResponseChannel) (response : Resp) :
    SendResponseCommand := mkSendResponse (Some channel) (Some response).

Definition SendResponseCommand_run (c : SendResponseCommand) : H Sw unit SendResponseCommand :=
  match sp_channel c, sp_response c with
  | Some channel, Some response =>
      res ← call (fun s => rr_send_response s channel response);
      match res with
      | Ok _ => finish (Ok tt)
      | Err _ => finish (Err (E_RequestResponse "Failed to send response: channel closed"))
      end;;
      mret (mkSendResponse None None)
  | _, _ =>
      finish (Err (E_RequestResponse "SendResponse: run called twice"));;
      mret (mkSendResponse None None)
  end.

#[export] Instance SendResponseCommand_handler : CommandHandler Sw SendResponseCommand unit := {
  run := SendResponseCommand_run;
  on_event := default_on_event;
}.

#[export] Instance SendResponseCommand_keyed : Keyed SendResponseCommand := fun _ => None.

(** ** The contract *)

#[export] Instance SendRequestCommand_laws : CommandHandlerLaws Sw SendRequestCommand Resp.
Proof.
  split.
  - simpl. unfold SendRequestCommand_run. solve_run.
  - intros c ev. simpl. unfold SendRequestCommand_on_event.
    destruct ev as [[| | |[|p id r|p id e|]| | | | | |]| | | | | | | |]; run_H;
      try case_decide as Hd;
      (eexists _, _, _, _; split; [intros s; run_H; done|]);
      try apply keep_pass_answer;
      destruct Hd as [Hid ->]; (apply (consume_done_answer c c _ (KRequest id)); [done|..]);
      unfold command_key, SendRequestCommand_keyed; by rewrite Hid.
Qed.

#[export] Instance SendResponseCommand_laws : CommandHandlerLaws Sw SendResponseCommand unit.
Proof. split; [|apply default_on_event_answers]. simpl. unfold SendResponseCommand_run. solve_run. Qed.

#[export] Instance SendRequestCommand_foreign : IgnoresForeign Sw SendRequestCommand Resp.
Proof.
  intros c ev k s Hk He. simpl. unfold SendRequestCommand_on_event.
  destruct ev as [[| | |[|p id r|p id e|]| | | | | |]| | | | | | | |]; try reflexivity;
    (case_decide as Hd; [|reflexivity]); destruct Hd as [Hid _];
    exfalso; apply He; rewrite <- Hk; unfold command_key, SendRequestCommand_keyed;
    by rewrite Hid.
Qed.

End commands.

(** ** Properties *)

(** The life of a request: [run] sends it exactly once and remembers its
    identifier; afterwards the response, or the outbound failure, that carries
    this identifier and comes from the addressed peer resolves the caller, with
    the response or with the typed failure kind; every other event, even one
    with the identifier but another peer, is passed on and changes nothing. *)
Lemma send_request_resolution `{N : NetTypes} {Sw} `{!SwarmOps Sw}
    (peer : PeerId) (request : Req) (s : Sw) (ev : SwarmEvent) (s2 : Sw) :
  let '(s1, id) := rr_send_request s peer request in
  let c1 := mkSendRequest peer None (Some id) in
  run (SendRequestCommand_new peer request) s = Some (c1, s1, [])
  /\ run c1 s2 = Some (c1, s2, [Err (E_RequestResponse "SendRequest: run called twice")])
  /\ match ev with
     | Behaviour (CBE_ReqResp (RR_Response p i response)) =>
         if decide (i = id /\ p = peer)
         then on_event c1 ev s2 = Some (c1, (false, None), s2, [Ok response])
         else on_event c1 ev s2 = Some (c1, (true, Some ev), s2, [])
     | Behaviour (CBE_ReqResp (RR_OutboundFailure p i failure)) =>
         if decide (i = id /\ p = peer)
         then on_event c1 ev s2 = Some (c1, (false, None), s2, [Err (map_outbound_failure failure)])
         else on_event c1 ev s2 = Some (c1, (true, Some ev), s2, [])
     | _ => on_event c1 ev s2 = Some (c1, (true, Some ev), s2, [])
     end.
Proof.
  destruct (rr_send_request s peer request) as [s1 id] eqn:Hs. simpl.
  unfold SendRequestCommand_run, SendRequestCommand_on_event. run_H. rewrite Hs.
  split; [done|]. split; [done|].
  destruct ev as [[| | |[|p i r|p i e|]| | | | | |]| | | | | | | |]; try reflexivity; simpl;
    repeat case_decide; try reflexivity; naive_solver.
Qed.
