(* ===== verification/Commands.v ===== *)
(** * The commands of the crate behind one interface

    [Command = Box<dyn CommandTrait>] erases the handler and result types.  Here
    the erased command is the sum [AnyCommand] of the sixteen handlers; the
    instance below dispatches to the handlers ([CommandTask]'s delegation), and
    is proved to satisfy the contract because each handler does.

    [CmdValue] is a device of the model and not of the source, whose result
    cells are typed ([ResultHandle<T>]): one heap of cells needs one type of
    results, their sum.  That nothing depends on it is shown by the typing
    lemmas ([result_shape], and [sys_step_returned] in [Calls]): a cell only ever
    holds a value of the type its [ResultHandle] has. *)
From S2P Require Import Prelude Externals Errors Handler BasicCommands KadCommands ReqRespCommands.

Section any.
Context `{N : NetTypes}.

Inductive AnyCommand :=
| ADial (c : DialCommand)
| ADisconnect (c : DisconnectCommand)
| AIsConnected (c : IsConnectedCommand)
| AGetListenAddrs (c : GetListenAddrsCommand)
| AAddPeerAddrs (c : AddPeerAddrsCommand)
| AAddInfrastructurePeer (c : AddInfrastructurePeerCommand)
| ABootstrap (c : BootstrapCommand)
| AGetClosestPeers (c : GetClosestPeersCommand)
| AGetProviders (c : GetProvidersCommand)
| AGetRecord (c : GetRecordCommand)
| APutRecord (c : PutRecordCommand)
| AStartProvide (c : StartProvideCommand)
| AStopProvide (c : StopProvideCommand)
| ARemoveRecord (c : RemoveRecordCommand)
| ASendRequest (c : SendRequestCommand)
| ASendResponse (c : SendResponseCommand).

Inductive CmdValue :=
| VUnit (v : unit)
| VBool (v : bool)
| VAddrs (v : list Multiaddr)
| VBootstrap (v : BootstrapResult)
| VClosest (v : GetClosestPeersResult)
| VProviders (v : GetProvidersResult)
| VRecord (v : GetRecordResult)
| VStats (v : QueryStatsInfo)
| VResp (v : Resp).

Context {Sw : Type} `{!SwarmOps Sw} `{!HashOrder}.

(** [CommandTask]'s delegation to its handler, at the erased types. *)
Definition run_boxed_as {C R} `{!CommandHandler Sw C R} (wrap : C -> AnyCommand)
    (inj : R -> CmdValue) (c : C) : H Sw CmdValue AnyCommand :=
  H_map inj (wrap <$> run c).

Definition on_event_boxed_as {C R} `{!CommandHandler Sw C R} (wrap : C -> AnyCommand)
    (inj : R -> CmdValue) (c : C) (event : SwarmEvent) :
    H Sw CmdValue (AnyCommand * OnEventResult) :=
  H_map inj ((fun x => (wrap x.1, x.2)) <$> on_event c event).

Definition run_boxed (c : AnyCommand) : H Sw CmdValue AnyCommand :=
  match c with
  | ADial c => run_boxed_as ADial VUnit c
  | ADisconnect c => run_boxed_as ADisconnect VUnit c
  | AIsConnected c => run_boxed_as AIsConnected VBool c
  | AGetListenAddrs c => run_boxed_as AGetListenAddrs VAddrs c
  | AAddPeerAddrs c => run_boxed_as AAddPeerAddrs VUnit c
  | AAddInfrastructurePeer c => run_boxed_as AAddInfrastructurePeer VUnit c
  | ABootstrap c => run_boxed_as ABootstrap VBootstrap c
  | AGetClosestPeers c => run_boxed_as AGetClosestPeers VClosest c
  | AGetProviders c => run_boxed_as AGetProviders VProviders c
  | AGetRecord c => run_boxed_as AGetRecord VRecord c
  | APutRecord c => run_boxed_as APutRecord VStats c
  | AStartProvide c => run_boxed_as AStartProvide VStats c
  | AStopProvide c => run_boxed_as AStopProvide VUnit c
  | ARemoveRecord c => run_boxed_as ARemoveRecord VUnit c
  | ASendRequest c => run_boxed_as ASendRequest VResp c
  | ASendResponse c => run_boxed_as ASendResponse VUnit c
  end.

Definition on_event_boxed (c : AnyCommand) (event : SwarmEvent) :
    H Sw CmdValue (AnyCommand * OnEventResult) :=
  match c with
  | ADial c => on_event_boxed_as ADial VUnit c event
  | ADisconnect c => on_event_boxed_as ADisconnect VUnit c event
  | AIsConnected c => on_event_boxed_as AIsConnected VBool c event
  | AGetListenAddrs c => on_event_boxed_as AGetListenAddrs VAddrs c event
  | AAddPeerAddrs c => on_event_boxed_as AAddPeerAddrs VUnit c event
  | AAddInfrastructurePeer c => on_event_boxed_as AAddInfrastructurePeer VUnit c event
  | ABootstrap c => on_event_boxed_as ABootstrap VBootstrap c event
  | AGetClosestPeers c => on_event_boxed_as AGetClosestPeers VClosest c event
  | AGetProviders c => on_event_boxed_as AGetProviders VProviders c event
  | AGetRecord c => on_event_boxed_as AGetRecord VRecord c event
  | APutRecord c => on_event_boxed_as APutRecord VStats c event
  | AStartProvide c => on_event_boxed_as AStartProvide VStats c event
  | AStopProvide c => on_event_boxed_as AStopProvide VUnit c event
  | ARemoveRecord c => on_event_boxed_as ARemoveRecord VUnit c event
  | ASendRequest c => on_event_boxed_as ASendRequest VResp c event
  | ASendResponse c => on_event_boxed_as ASendResponse VUnit c event
  end.

#[export] Instance AnyCommand_handler : CommandHandler Sw AnyCommand CmdValue := {
  run := run_boxed;
  on_event := on_event_boxed;
}.

(** Only [AddInfrastructurePeer] overrides the default. *)
#[export] Instance AnyCommand_relay : RelayRequester AnyCommand := fun c =>
  match c with
  | AAddInfrastructurePeer c =>
      let '(c, r) := take_relay_reservation_request c in (AAddInfrastructurePeer c, r)
  | c => default_take_relay c
  end.

#[export] Instance AnyCommand_keyed : Keyed AnyCommand := fun c =>
  match c with
  | ADial c => command_key c
  | ADisconnect c => command_key c
  | AIsConnected c => command_key c
  | AGetListenAddrs c => command_key c
  | AAddPeerAddrs c => command_key c
  | AAddInfrastructurePeer c => command_key c
  | ABootstrap c => command_key c
  | AGetClosestPeers c => command_key c
  | AGetProviders c => command_key c
  | AGetRecord c => command_key c
  | APutRecord c => command_key c
  | AStartProvide c => command_key c
  | AStopProvide c => command_key c
  | ARemoveRecord c => command_key c
  | ASendRequest c => command_key c
  | ASendResponse c => command_key c
  end.

(** The result type each command promises to its caller. *)
Definition result_shape (c : AnyCommand) (v : CmdValue) : Prop :=
  match c with
  | ADial _ | ADisconnect _ | AAddPeerAddrs _ | AAddInfrastructurePeer _
  | AStopProvide _ | ARemoveRecord _ | ASendResponse _ => exists u, v = VUnit u
  | AIsConnected _ => exists b, v = VBool b
  | AGetListenAddrs _ => exists l, v = VAddrs l
  | ABootstrap _ => exists r, v = VBootstrap r
  | AGetClosestPeers _ => exists r, v = VClosest r
  | AGetProviders _ => exists r, v = VProviders r
  | AGetRecord _ => exists r, v = VRecord r
  | APutRecord _ | AStartProvide _ => exists r, v = VStats r
  | ASendRequest _ => exists r, v = VResp r
  end.

Definition well_shaped (c : AnyCommand) (fin : list (CResult CmdValue)) : Prop :=
  Forall (fun r => match r with Ok v => result_shape c v | Err _ => True end) fin.

End any.

(** ** The contract *)

Section laws.
Context `{N : NetTypes} {Sw : Type} `{!SwarmOps Sw} `{!HashOrder}.

Section embed.
Context {C R : Type} `{!CommandHandler Sw C R, !Keyed C, !CommandHandlerLaws Sw C R}.
Context (wrap : C -> AnyCommand) (inj : R -> CmdValue).
Hypothesis wrap_key : forall c, command_key (wrap c) = command_key c.

Lemma embed_run_total (c : C) (s : Sw) :
  exists c' s' fin, run_boxed_as wrap inj c s = Some (c', s', fin) /\ length fin <= 1.
Proof using CommandHandlerLaws0.
  destruct (run_total c s) as (c' & s' & fin & Hr & Hf).
  exists (wrap c'), s', (result_map inj <$> fin).
  unfold run_boxed_as, H_map, fmap, H_fmap. rewrite Hr. split; [done|]. by rewrite length_fmap.
Qed.

Lemma embed_on_event_answers (c : C) ev :
  exists c' keep rem fin,
    (forall s : Sw, on_event_boxed_as wrap inj c ev s = Some (c', (keep, rem), s, fin))
    /\ event_answer (wrap c) ev c' keep rem fin.
Proof using CommandHandlerLaws0 wrap_key.
  destruct (on_event_answers (Sw := Sw) (R := R) c ev) as (c' & keep & rem & fin & He & Ha).
  exists (wrap c'), keep, rem, (result_map inj <$> fin). split.
  { intros s. unfold on_event_boxed_as, H_map, fmap, H_fmap. by rewrite He. }
  destruct Ha. split; rewrite ?wrap_key, ?length_fmap; auto.
  intros Hk. by rewrite ea_keep.
Qed.

End embed.

#[export] Instance AnyCommand_laws : CommandHandlerLaws Sw AnyCommand CmdValue.
Proof.
  split.
  - intros [] s; apply embed_run_total; apply _.
  - intros [] ev; by apply embed_on_event_answers.
Qed.

(** Type soundness of the erasure. *)
Lemma well_shaped_map {R} (c : AnyCommand) (inj : R -> CmdValue) (fin : list (CResult R)) :
  (forall r, result_shape c (inj r)) -> well_shaped c (result_map inj <$> fin).
Proof. intros Hi. unfold well_shaped. apply Forall_fmap, Forall_true. by intros []; simpl. Qed.

Lemma run_boxed_shape (c c' : AnyCommand) (s s' : Sw) fin :
  run c s = Some (c', s', fin) -> well_shaped c fin /\ result_shape c' = result_shape c.
Proof.
  destruct c as [c|c|c|c|c|c|c|c|c|c|c|c|c|c|c|c]; simpl;
    unfold run_boxed_as, H_map, fmap, H_fmap;
    (destruct (run c s) as [[[] ?]|]; [|done]); intros; simplify_eq;
    (split; [apply well_shaped_map; simpl; eauto | done]).
Qed.

Lemma on_event_boxed_shape (c c' : AnyCommand) ev (s s' : Sw) r fin :
  on_event c ev s = Some (c', r, s', fin) ->
  well_shaped c fin /\ result_shape c' = result_shape c.
Proof.
  destruct c as [c|c|c|c|c|c|c|c|c|c|c|c|c|c|c|c]; simpl;
    unfold on_event_boxed_as, H_map, fmap, H_fmap;
    (destruct (on_event c ev s) as [[[[] ?] ?]|]; [|done]); intros; simplify_eq;
    (split; [apply well_shaped_map; simpl; eauto | done]).
Qed.

End laws.
