(* ===== verification/EventLoop.v ===== *)
(** * The event loop ([core/src/runtime/event_loop.rs], [core/src/event.rs])

    [EventLoop] is the loop's own state (the swarm included), [Shared] what it
    shares with the clients: the result handles, the pending response channels,
    the quota registry and the two outgoing channels.  One definition per
    method; the methods are total except for the explicit panics of the command
    chain ([None]).  The loop is generic in the erased command type [C], of
    which it only uses the [CommandHandler] interface. *)
From S2P Require Import Prelude Externals Errors DataChannel PendingMap Config Handle Handler.

(** ** [event.rs] *)

Inductive NatStatus := NatPublic | NatUnknown.

Section events.
Context `{N : NetTypes}.

Inductive NodeEvent :=
| Listening (addr : Multiaddr)
| PeersDiscovered (peers : list (PeerId * Multiaddr))
| PeerConnected (peer_id : PeerId)
| PeerDisconnected (peer_id : PeerId)
| IdentifyReceived (peer_id : PeerId) (agent_version protocol_version : string)
    (listen_addrs : list Multiaddr) (protocols : list string)
| PingSuccess (peer_id : PeerId) (rtt_ms : Z)
| NatStatusChanged (status : NatStatus) (public_addr : option Multiaddr)
| HolePunchSucceeded (peer_id : PeerId)
| HolePunchFailed (peer_id : PeerId) (error : string)
| RelayReservationAccepted (relay_peer_id : PeerId) (renewal : bool)
| RelayServerReservationAccepted (src_peer_id : PeerId) (renewed : bool)
| RelayServerReservationDenied (src_peer_id : PeerId) (status : string)
| RelayServerReservationClosed (src_peer_id : PeerId)
| RelayServerCircuitAccepted (src_peer_id dst_peer_id : PeerId)
| RelayServerCircuitDenied (src_peer_id dst_peer_id : PeerId) (status : string)
| RelayServerCircuitClosed (src_peer_id dst_peer_id : PeerId)
| LanHelperStatusChanged (relay_server_enabled : bool) (advertised_addrs : list Multiaddr)
| InboundRequest (peer_id : PeerId) (pending_id : Z) (request : Req).

(** ** [is_usable_lan_addr] *)

Definition is_usable_lan_protocol (protocol : Protocol PeerId OtherProto) : bool :=
  match protocol with
  | PIp4 ip =>
      ip4_is_private ip && negb (ip4_is_loopback ip) && negb (ip4_is_link_local ip)
      && negb (ip4_is_unspecified ip)
  | PIp6 ip =>
      (Z.land (ip6_segment0 ip) 0xfe00 =? 0xfc00)%Z && negb (ip6_is_loopback ip)
      && negb (ip6_is_unspecified ip)
  | _ => false
  end.

Definition is_usable_lan_addr (addr : Multiaddr) : bool :=
  existsb is_usable_lan_protocol (ma_iter addr).

(** [Duration::as_millis() as u64]: the [u128] count of milliseconds truncated. *)
Definition as_millis_u64 (d : Z) : Z := wrap64 (d / 1000000).

(** ** [convert_relay_server_event] *)

Definition convert_relay_server_event (event : RelayServerEvent) : option NodeEvent :=
  match event with
  | RS_ReservationReqAccepted src renewed => Some (RelayServerReservationAccepted src renewed)
  | RS_ReservationReqDenied src status =>
      Some (RelayServerReservationDenied src (relay_status_debug status))
  | RS_ReservationClosed src | RS_ReservationTimedOut src =>
      Some (RelayServerReservationClosed src)
  | RS_CircuitReqAccepted src dst => Some (RelayServerCircuitAccepted src dst)
  | RS_CircuitReqDenied src dst status =>
      Some (RelayServerCircuitDenied src dst (relay_status_debug status))
  | RS_CircuitClosed src dst => Some (RelayServerCircuitClosed src dst)
  | RS_ReservationReqAcceptFailed | RS_ReservationReqDenyFailed | RS_CircuitReqDenyFailed
  | RS_CircuitReqOutboundConnectFailed | RS_CircuitReqAcceptFailed => None
  end.

End events.

Section event_loop.
Context `{N : NetTypes} {Sw C V : Type}.
Context `{!SwarmOps Sw, !HashOrder, !Mpsc, !CommandHandler Sw C V, !RelayRequester C}.

(** ** State *)

Record EventLoop := mkEventLoop {
  el_swarm : Sw;
  el_active : list (CommandTask C);
  el_protocol_version : string;
  el_pending_id_counter : Z;
  el_bootstrap_peers : gmap PeerId (list Multiaddr);
  el_enable_relay_client : bool;
  el_lan_helper : option LanHelperConfig;
  el_advertised : list Multiaddr;
}.

(** [sh_woken] is the trace of the wakers woken so far. *)
Record Shared := mkShared {
  sh_handles : gmap nat (ResultState V);
  sh_woken : list nat;
  sh_pending : gmap Z (PendingEntry ResponseChannel);
  sh_now : Z;
  sh_limits : DataChannelLimits;
  sh_registry : RegistryInner;
  sh_next_dc_id : Z;
  sh_events : Chan NodeEvent;
  sh_inbound : Chan InboundDataChannel;
}.

Definition el_set_swarm (s : Sw) (el : EventLoop) : EventLoop :=
  mkEventLoop s (el_active el) (el_protocol_version el) (el_pending_id_counter el)
    (el_bootstrap_peers el) (el_enable_relay_client el) (el_lan_helper el) (el_advertised el).
Definition el_set_active (a : list (CommandTask C)) (el : EventLoop) : EventLoop :=
  mkEventLoop (el_swarm el) a (el_protocol_version el) (el_pending_id_counter el)
    (el_bootstrap_peers el) (el_enable_relay_client el) (el_lan_helper el) (el_advertised el).
Definition el_set_counter (n : Z) (el : EventLoop) : EventLoop :=
  mkEventLoop (el_swarm el) (el_active el) (el_protocol_version el) n
    (el_bootstrap_peers el) (el_enable_relay_client el) (el_lan_helper el) (el_advertised el).
Definition el_set_bootstrap (m : gmap PeerId (list Multiaddr)) (el : EventLoop) : EventLoop :=
  mkEventLoop (el_swarm el) (el_active el) (el_protocol_version el) (el_pending_id_counter el)
    m (el_enable_relay_client el) (el_lan_helper el) (el_advertised el).
Definition el_set_advertised (l : list Multiaddr) (el : EventLoop) : EventLoop :=
  mkEventLoop (el_swarm el) (el_active el) (el_protocol_version el) (el_pending_id_counter el)
    (el_bootstrap_peers el) (el_enable_relay_client el) (el_lan_helper el) l.

Definition sh_set_handles (h : gmap nat (ResultState V)) (w : list nat) (sh : Shared) : Shared :=
  mkShared h w (sh_pending sh) (sh_now sh) (sh_limits sh) (sh_registry sh) (sh_next_dc_id sh)
    (sh_events sh) (sh_inbound sh).
Definition sh_set_pending (p : gmap Z (PendingEntry ResponseChannel)) (sh : Shared) : Shared :=
  mkShared (sh_handles sh) (sh_woken sh) p (sh_now sh) (sh_limits sh) (sh_registry sh)
    (sh_next_dc_id sh) (sh_events sh) (sh_inbound sh).
Definition sh_set_now (now : Z) (sh : Shared) : Shared :=
  mkShared (sh_handles sh) (sh_woken sh) (sh_pending sh) now (sh_limits sh) (sh_registry sh)
    (sh_next_dc_id sh) (sh_events sh) (sh_inbound sh).
Definition sh_set_dc (r : RegistryInner) (id : Z) (sh : Shared) : Shared :=
  mkShared (sh_handles sh) (sh_woken sh) (sh_pending sh) (sh_now sh) (sh_limits sh) r id
    (sh_events sh) (sh_inbound sh).
Definition sh_set_events (c : Chan NodeEvent) (sh : Shared) : Shared :=
  mkShared (sh_handles sh) (sh_woken sh) (sh_pending sh) (sh_now sh) (sh_limits sh)
    (sh_registry sh) (sh_next_dc_id sh) c (sh_inbound sh).
Definition sh_set_inbound (c : Chan InboundDataChannel) (sh : Shared) : Shared :=
  mkShared (sh_handles sh) (sh_woken sh) (sh_pending sh) (sh_now sh) (sh_limits sh)
    (sh_registry sh) (sh_next_dc_id sh) (sh_events sh) c.

(** [EventLoop::new]. *)
Definition EventLoop_new (swarm : Sw) (protocol_version : string) (enable_relay_client : bool)
    (mode : InfrastructureMode) : EventLoop :=
  mkEventLoop swarm [] protocol_version 0 ∅ enable_relay_client (lan_helper_of mode) [].

(** ** Start-up *)

(** [start_listen]: stops at the first address that cannot be listened on. *)
Fixpoint start_listen (el : EventLoop) (addrs : list Multiaddr) : EventLoop * CResult unit :=
  match addrs with
  | [] => (el, Ok tt)
  | addr :: addrs =>
      let '(s, r) := sw_listen_on (el_swarm el) addr in
      let el := el_set_swarm s el in
      match r with
      | Ok _ => start_listen el addrs
      | Err e => (el, Err (E_Listen (transport_error_display e)))
      end
  end.

(** [bootstrap_peers.entry(peer).or_default().extend(addrs)]. *)
Definition bootstrap_extend (peer_id : PeerId) (addrs : list Multiaddr) (el : EventLoop) : EventLoop :=
  el_set_bootstrap
    (<[peer_id := default [] (el_bootstrap_peers el !! peer_id) ++ addrs]> (el_bootstrap_peers el)) el.

(** One iteration of [connect_bootstrap_peers]; a dial error is only logged. *)
Definition connect_bootstrap_peer (el : EventLoop) (p : PeerId * Multiaddr) : EventLoop :=
  let '(peer_id, addr) := p in
  let s := kad_add_address (el_swarm el) peer_id addr in
  let s := sw_add_peer_address s peer_id addr in
  let '(s, _) := sw_dial s peer_id in
  let el := el_set_swarm s el in
  if el_enable_relay_client el then bootstrap_extend peer_id [addr] el else el.

Definition connect_bootstrap_peers (el : EventLoop) (peers : list (PeerId * Multiaddr)) : EventLoop :=
  foldl connect_bootstrap_peer el peers.

(** ** Relay reservations *)

(** The circuit address to listen on for one address of the relay. *)
Definition relay_circuit_addr (peer_id : PeerId) (addr : Multiaddr) : Multiaddr :=
  let base :=
    if existsb (fun p => match p with PP2p _ => true | _ => false end) (ma_iter addr)
    then addr else ma_with addr (PP2p peer_id) in
  ma_with base PP2pCircuit.

Definition request_relay_reservations (el : EventLoop) (peer_id : PeerId)
    (addrs : list Multiaddr) : EventLoop :=
  foldl (fun el addr =>
    let '(s, _) := sw_listen_on (el_swarm el) (relay_circuit_addr peer_id addr) in
    el_set_swarm s el) el addrs.

(** ** Result handles *)

(** [handle.finish(r)] on the shared cell [loc]; the woken waker is recorded. *)
Definition finish_handle (loc : nat) (sh : Shared) (r : CResult V) : Shared :=
  match sh_handles sh !! loc with
  | Some st =>
      let '(st, w) := handle_finish st r in
      sh_set_handles (<[loc := st]> (sh_handles sh)) (sh_woken sh ++ option_list w) sh
  | None => sh
  end.

Definition task_is_cancelled (sh : Shared) (t : CommandTask C) : bool :=
  match sh_handles sh !! task_handle t with
  | Some st => handle_is_cancelled st
  | None => false
  end.

(** [self.active_commands.retain(|cmd| !cmd.is_cancelled())]. *)
Definition retain_active (el : EventLoop) (sh : Shared) : EventLoop :=
  el_set_active (filter (fun t => task_is_cancelled sh t = false) (el_active el)) el.

(** ** [handle_inbound_channel] *)

Definition handle_inbound_channel (sh : Shared) (protocol : StreamProtocol) (peer : PeerId)
    (stream : Stream) : Shared :=
  let '(inner, guard) := try_acquire (sh_limits sh) (sh_registry sh) peer protocol Inbound in
  match guard with
  | None => sh_set_dc inner (sh_next_dc_id sh) sh
  | Some guard =>
      let '(next, id) := DataChannelId_next (sh_next_dc_id sh) in
      let chan := DataChannel_new id peer protocol Inbound stream (Some guard) in
      match ch_try_send (sh_inbound sh) {| channel := chan |} with
      | Ok inbound => sh_set_inbound inbound (sh_set_dc inner next sh)
      | Err _ => sh_set_dc (data_channel_drop inner chan) next sh
      end
  end.

(** ** [handle_command] *)

Definition handle_command (el : EventLoop) (sh : Shared) (cmd : CommandTask C) :
    option (EventLoop * Shared) :=
  match run (task_handler cmd) (el_swarm el) with
  | None => None
  | Some (c, s, fin) =>
      let sh := foldl (finish_handle (task_handle cmd)) sh fin in
      let el := el_set_swarm s el in
      let '(c, req) := take_relay_reservation_request c in
      let el :=
        match req with
        | Some (peer_id, addrs) =>
            if sw_is_connected (el_swarm el) peer_id
            then request_relay_reservations el peer_id addrs
            else bootstrap_extend peer_id addrs el
        | None => el
        end in
      Some (el_set_active (el_active el ++ [mkTask c (task_handle cmd)]) el, sh)
  end.

(** ** The command chain of [handle_swarm_event] *)

(** [fuel] bounds the iterations of the [while] loop; [length - i] decreases in
    each, so the number of active commands is enough ([EventChain.offer_event_inv]). *)
Fixpoint offer_event (fuel i : nat) (remaining : option SwarmEvent) (el : EventLoop) (sh : Shared) :
    option (option SwarmEvent * EventLoop * Shared) :=
  match fuel with
  | 0 => Some (remaining, el, sh)
  | S fuel =>
      if i <? length (el_active el) then
        match remaining with
        | None => Some (None, el, sh)
        | Some event =>
            match el_active el !! i with
            | None => None
            | Some t =>
                match on_event (task_handler t) event (el_swarm el) with
                | None => None
                | Some (c, (keep, returned), s, fin) =>
                    let sh := foldl (finish_handle (task_handle t)) sh fin in
                    let active := <[i := mkTask c (task_handle t)]> (el_active el) in
                    let el := el_set_swarm s el in
                    if keep : bool then offer_event fuel (S i) returned (el_set_active active el) sh
                    else
                      match swap_remove i active with
                      | None => None
                      | Some (_, active) => offer_event fuel i returned (el_set_active active el) sh
                      end
                end
            end
        end
      else Some (remaining, el, sh)
  end.

(** ** [convert_to_node_event] *)

Definition next_pending_id (el : EventLoop) : EventLoop * Z :=
  (el_set_counter (wrap64 (el_pending_id_counter el + 1)) el, el_pending_id_counter el).

(** [maybe_announce_lan_helper_addr]; a status event that does not fit is dropped. *)
Definition maybe_announce_lan_helper_addr (el : EventLoop) (sh : Shared) (addr : Multiaddr) :
    EventLoop * Shared :=
  match el_lan_helper el with
  | None => (el, sh)
  | Some config =>
      if negb (announce_private_addrs config) then (el, sh)
      else
        let el :=
          if is_usable_lan_addr addr && negb (bool_decide (addr ∈ el_advertised el))
          then el_set_advertised (el_advertised el ++ [addr])
                 (el_set_swarm (sw_add_external_address (el_swarm el) addr) el)
          else el in
        let event := LanHelperStatusChanged (sw_relay_server_is_enabled (el_swarm el))
                       (el_advertised el) in
        match ch_try_send (sh_events sh) event with
        | Ok ch => (el, sh_set_events ch sh)
        | Err _ => (el, sh)
        end
  end.

Definition on_mdns_discovered (el : EventLoop) (peers : list (PeerId * Multiaddr)) : EventLoop :=
  let s := foldl (fun s x => sw_add_peer_address s x.1 x.2) (el_swarm el) peers in
  let dialed : gset PeerId := list_to_set peers.*1 in
  let s := foldl (fun s peer_id =>
             if sw_is_connected s peer_id then s else (sw_dial s peer_id).1) s (hs_iter dialed) in
  el_set_swarm s el.

Definition on_identify_received (el : EventLoop) (peer_id : PeerId) (info : IdentifyInfo) : EventLoop :=
  if decide (info_protocol_version info = el_protocol_version el) then
    let s := foldl (fun s addr => sw_add_peer_address (kad_add_address s peer_id addr) peer_id addr)
               (el_swarm el) (info_listen_addrs info) in
    let el := el_set_swarm s el in
    match el_bootstrap_peers el !! peer_id with
    | Some addrs =>
        request_relay_reservations
          (el_set_bootstrap (delete peer_id (el_bootstrap_peers el)) el) peer_id addrs
    | None => el
    end
  else el.

Definition on_routing_updated (el : EventLoop) (peer : PeerId) (addresses : list Multiaddr) : EventLoop :=
  el_set_swarm (foldl (fun s addr => sw_add_peer_address s peer addr) (el_swarm el) addresses) el.

Definition on_inbound_request (el : EventLoop) (sh : Shared) (channel : ResponseChannel) :
    EventLoop * Shared * Z :=
  let '(el, pending_id) := next_pending_id el in
  (el, sh_set_pending (pm_insert (sh_now sh) pending_id channel (sh_pending sh)) sh, pending_id).

Definition convert_behaviour_event (el : EventLoop) (sh : Shared) (e : CoreBehaviourEvent) :
    EventLoop * Shared * option NodeEvent :=
  match e with
  | CBE_RelayClient e =>
      (el, sh, match e with
               | RC_ReservationReqAccepted relay_peer_id renewal =>
                   Some (RelayReservationAccepted relay_peer_id renewal)
               | RC_OutboundCircuitEstablished _ | RC_InboundCircuitEstablished _ => None
               end)
  | CBE_RelayServer e => (el, sh, convert_relay_server_event e)
  | CBE_ReqResp (RR_Request peer request channel) =>
      let '(el, sh, pending_id) := on_inbound_request el sh channel in
      (el, sh, Some (InboundRequest peer pending_id request))
  | CBE_Dcutr remote_peer_id result =>
      (el, sh, Some match result with
                    | Ok _ => HolePunchSucceeded remote_peer_id
                    | Err e => HolePunchFailed remote_peer_id (dcutr_error_display e)
                    end)
  | CBE_MdnsDiscovered peers => (on_mdns_discovered el peers, sh, Some (PeersDiscovered peers))
  | CBE_Ping peer (Ok rtt) => (el, sh, Some (PingSuccess peer (as_millis_u64 rtt)))
  | CBE_IdentifyReceived peer_id info =>
      (on_identify_received el peer_id info, sh,
       Some (IdentifyReceived peer_id (info_agent_version info) (info_protocol_version info)
               (info_listen_addrs info) (proto_display <$> info_protocols info)))
  | CBE_Autonat tested_addr _ result =>
      (el, sh, match result with
               | Ok _ => Some (NatStatusChanged NatPublic (Some tested_addr))
               | Err _ => None
               end)
  | CBE_Kad (RoutingUpdated peer addresses) => (on_routing_updated el peer addresses, sh, None)
  | _ => (el, sh, None)
  end.

Definition convert_to_node_event (el : EventLoop) (sh : Shared) (event : SwarmEvent) :
    EventLoop * Shared * option NodeEvent :=
  match event with
  | Behaviour e => convert_behaviour_event el sh e
  | NewListenAddr address =>
      let '(el, sh) := maybe_announce_lan_helper_addr el sh address in
      (el, sh, Some (Listening address))
  | ConnectionEstablished peer_id num_established =>
      (el, sh, if (num_established =? 1)%Z then Some (PeerConnected peer_id) else None)
  | ConnectionClosed peer_id num_established =>
      (el, sh, if (num_established =? 0)%Z then Some (PeerDisconnected peer_id) else None)
  | _ => (el, sh, None)
  end.

(** [handle_swarm_event] up to [event_tx.send(evt).await]: the event, if any,
    that the loop then waits to send. *)
Definition handle_swarm_event (el : EventLoop) (sh : Shared) (event : SwarmEvent) :
    option (EventLoop * Shared * option NodeEvent) :=
  match offer_event (length (el_active el)) 0 (Some event) el sh with
  | None => None
  | Some (None, el, sh) => Some (el, sh, None)
  | Some (Some event, el, sh) => Some (convert_to_node_event el sh event)
  end.

End event_loop.
Arguments EventLoop {_} Sw C.
Arguments Shared {_} V {_}.
