(* ===== verification/EventChain.v ===== *)
(** * The command chain

    What one swarm event does to the list of active commands: which commands
    see it, in what sense the order of the list is irrelevant, and when the event
    reaches the front end.  Proved against the [CommandHandlerLaws] interface
    only, hence for any command type. *)
From S2P Require Import Prelude Externals Errors DataChannel PendingMap Config Handle Handler EventLoop.

Section spec.
Context `{N : NetTypes} {Sw C V : Type}.
Context `{!SwarmOps Sw, !HashOrder, !Mpsc, !CommandHandler Sw C V, !RelayRequester C, !Keyed C}.

(** The answer of one task to an event, read off [on_event]. *)
Definition answer_of (s : Sw) (ev : SwarmEvent) (t : CommandTask C) :
    option (CommandTask C * bool * option SwarmEvent * list (CResult V)) :=
  match on_event (task_handler t) ev s with
  | Some (c, (keep, rem), _, fin) => Some (mkTask c (task_handle t), keep, rem, fin)
  | None => None
  end.

(** The task as it stays in the list, if it stays. *)
Definition survivor (s : Sw) (ev : SwarmEvent) (t : CommandTask C) : option (CommandTask C) :=
  match answer_of s ev t with
  | Some (t', true, _, _) => Some t'
  | _ => None
  end.

Definition consumes (s : Sw) (ev : SwarmEvent) (t : CommandTask C) : bool :=
  match answer_of s ev t with
  | Some (_, _, None, _) => true
  | _ => false
  end.

Definition emitted (s : Sw) (ev : SwarmEvent) (t : CommandTask C) : list (CResult V) :=
  match answer_of s ev t with
  | Some (_, _, _, fin) => fin
  | None => []
  end.

(** The results one task emits, put into its handle. *)
Definition deliver (s : Sw) (ev : SwarmEvent) (sh : Shared V) (t : CommandTask C) : Shared V :=
  foldl (finish_handle (task_handle t)) sh (emitted s ev t).

Definition task_key (t : CommandTask C) : option CKey := command_key (task_handler t).

(** No two active commands wait for the same identifier. *)
Definition keys_distinct (l : list (CommandTask C)) : Prop := NoDup (omap task_key l).

(** The specification of the chain: the commands are visited in some order;
    everyone before a consumer passes the event on; if someone consumes, the rest
    of the list is not visited and stays as it is. *)
Definition chain_spec (s : Sw) (ev : SwarmEvent) (active active' : list (CommandTask C))
    (sh sh' : Shared V) (remaining : option SwarmEvent) : Prop :=
  exists visited rest,
    visited ++ rest ≡ₚ active
    /\ active' ≡ₚ omap (survivor s ev) visited ++ rest
    /\ sh' = foldl (deliver s ev) sh visited
    /\ match remaining with
       | Some ev' => ev' = ev /\ rest = [] /\ Forall (fun t => consumes s ev t = false) visited
       | None => exists before t, visited = before ++ [t]
                   /\ Forall (fun t => consumes s ev t = false) before
                   /\ consumes s ev t = true
       end.

End spec.

Section chain.
Context `{N : NetTypes} {Sw C V : Type}.
Context `{!SwarmOps Sw, !HashOrder, !Mpsc, !CommandHandler Sw C V, !RelayRequester C, !Keyed C}.
Context `{!CommandHandlerLaws Sw C V}.
Implicit Types (t : CommandTask C) (el : EventLoop Sw C) (sh : Shared V).

(** Every task answers, without touching the swarm. *)
Lemma answer_of_spec t ev :
  exists c' keep rem fin,
    (forall s, on_event (task_handler t) ev s = Some (c', (keep, rem), s, fin))
    /\ (forall s, answer_of s ev t = Some (mkTask c' (task_handle t), keep, rem, fin))
    /\ event_answer (task_handler t) ev c' keep rem fin.
Proof using CommandHandlerLaws0.
  destruct (on_event_answers (Sw := Sw) (R := V) (task_handler t) ev)
    as (c' & keep & rem & fin & He & Ha).
  exists c', keep, rem, fin. split; [done|]. split; [|done].
  intros s. unfold answer_of. by rewrite He.
Qed.

(** Only an event with the command's own identifier is consumed. *)
Lemma consumes_key s ev t :
  consumes s ev t = true -> exists k, event_key ev = Some k /\ task_key t = Some k.
Proof using CommandHandlerLaws0.
  destruct (answer_of_spec t ev) as (c' & keep & rem & fin & _ & Ha & Hans).
  unfold consumes. rewrite Ha. destruct rem as [e|]; [done|]. intros _.
  destruct (ea_owner _ _ _ _ _ _ Hans eq_refl) as [Hk [k Hk']].
  exists k. unfold task_key. by rewrite Hk.
Qed.

Lemma survivor_key s ev t t' :
  survivor s ev t = Some t' -> task_key t' = task_key t /\ task_handle t' = task_handle t.
Proof using CommandHandlerLaws0.
  destruct (answer_of_spec t ev) as (c' & keep & rem & fin & _ & Ha & Hans).
  unfold survivor. rewrite Ha. destruct keep; [|done]. intros. simplify_eq.
  unfold task_key. simpl. by rewrite (ea_key _ _ _ _ _ _ Hans).
Qed.

Lemma el_set_swarm_id el : el_set_swarm (el_swarm el) el = el.
Proof. by destruct el. Qed.

(** One iteration: the task in slot [i] survives in place, or is replaced by
    the last one. *)
Lemma offer_event_step fuel i ev el sh t :
  el_active el !! i = Some t ->
  exists active,
    offer_event (S fuel) i (Some ev) el sh
    = offer_event fuel (if survivor (el_swarm el) ev t then S i else i)
        (if consumes (el_swarm el) ev t then None else Some ev)
        (el_set_active active el) (deliver (el_swarm el) ev sh t)
    /\ match survivor (el_swarm el) ev t with
       | Some t' => active = <[i := t']> (el_active el)
       | None => length active < length (el_active el) /\ take i active = take i (el_active el)
                 /\ drop i active ≡ₚ drop (S i) (el_active el)
       end.
Proof using CommandHandlerLaws0.
  intros Ht. pose proof (lookup_lt_Some _ _ _ Ht) as Hi.
  destruct (answer_of_spec t ev) as (c' & keep & rem & fin & He & Ha & Hans).
  unfold deliver, emitted, survivor, consumes. rewrite (Ha (el_swarm el)).
  simpl. rewrite (proj2 (Nat.ltb_lt _ _) Hi), Ht, He, el_set_swarm_id.
  assert ((if rem then Some ev else None) = rem) as Hrem
    by (destruct (ea_pass _ _ _ _ _ _ Hans) as [-> | ->]; done).
  replace (if match rem with Some _ => false | None => true end then None else Some ev)
    with rem by (by destruct rem).
  destruct keep; [eauto|].
  set (act := <[i := mkTask c' (task_handle t)]> (el_active el)).
  destruct (swap_remove_is_Some i act) as [[x active] Hsr]; [by unfold act; rewrite length_insert|].
  rewrite Hsr. exists active. split; [done|].
  pose proof (swap_remove_length _ _ _ _ Hsr) as Hlen.
  apply swap_remove_split in Hsr as (_ & Htk & Hdr). unfold act in *.
  rewrite length_insert in Hlen. rewrite take_insert_ge in Htk by lia.
  rewrite drop_insert_lt in Hdr by lia. split; [lia|done].
Qed.

Lemma offer_event_consumed fuel i el sh :
  offer_event fuel i None el sh = Some (None, el, sh).
Proof. destruct fuel; simpl; [done|]. by case_match. Qed.

Lemma offer_event_end fuel i ev el sh :
  length (el_active el) <= i -> offer_event fuel i (Some ev) el sh = Some (Some ev, el, sh).
Proof.
  intros Hi. destruct fuel; simpl; [done|].
  by rewrite (proj2 (Nat.ltb_ge _ _) Hi).
Qed.

Lemma el_set_active_id el : el_set_active (el_active el) el = el.
Proof. by destruct el. Qed.

(** What slot [i] on becomes: the visited tasks that survive, then the rest. *)
Definition chain_from (s : Sw) (ev : SwarmEvent) (i : nat) (l l' : list (CommandTask C))
    (sh sh' : Shared V) (remaining : option SwarmEvent) : Prop :=
  exists visited rest,
    visited ++ rest ≡ₚ drop i l
    /\ l' ≡ₚ take i l ++ omap (survivor s ev) visited ++ rest
    /\ sh' = foldl (deliver s ev) sh visited
    /\ match remaining with
       | Some ev' => ev' = ev /\ rest = [] /\ Forall (fun t => consumes s ev t = false) visited
       | None => exists before t, visited = before ++ [t]
                   /\ Forall (fun t => consumes s ev t = false) before
                   /\ consumes s ev t = true
       end.

(** A consumer in slot [i] ends the visit. *)
Lemma chain_from_consume s ev i l l' t sh :
  l !! i = Some t -> consumes s ev t = true ->
  match survivor s ev t with
  | Some t' => l' = <[i := t']> l
  | None => take i l' = take i l /\ drop i l' ≡ₚ drop (S i) l
  end ->
  chain_from s ev i l l' sh (deliver s ev sh t) None.
Proof.
  intros Ht Hc Hl. exists [t], (drop (S i) l). split; [by rewrite (drop_S _ t i) by done|].
  split; [|split; [done|exists [], t; by split_and!]].
  simpl. destruct (survivor s ev t) as [t'|].
  - subst l'. pose proof (lookup_lt_Some _ _ _ Ht). by rewrite insert_take_drop.
  - destruct Hl as [Ht' Hd]. by rewrite <- (take_drop i l'), Ht', Hd.
Qed.

(** A command that passes the event on prefixes the visit of the rest. *)
Lemma chain_from_pass s ev i l l1 l' t sh sh' remaining :
  l !! i = Some t -> consumes s ev t = false ->
  match survivor s ev t with
  | Some t' => l1 = <[i := t']> l
  | None => take i l1 = take i l /\ drop i l1 ≡ₚ drop (S i) l
  end ->
  chain_from s ev (if survivor s ev t then S i else i) l1 l' (deliver s ev sh t) sh' remaining ->
  chain_from s ev i l l' sh sh' remaining.
Proof.
  intros Ht Hc Hl (visited & rest & Hperm & Hl' & Hsh & Hrem).
  pose proof (lookup_lt_Some _ _ _ Ht) as Hi.
  exists (t :: visited), rest.
  assert (drop (if survivor s ev t then S i else i) l1 ≡ₚ drop (S i) l
          /\ take (if survivor s ev t then S i else i) l1
             = take i l ++ option_list (survivor s ev t)) as [Hd Htk].
  { destruct (survivor s ev t) as [t'|]; simpl.
    - subst l1. rewrite drop_insert_lt by lia. split; [done|].
      rewrite (take_S_r _ i t') by (apply list_lookup_insert_eq; lia).
      by rewrite take_insert_ge.
    - destruct Hl as [-> ->]. by rewrite app_nil_r. }
  rewrite Hd in Hperm. split; [by rewrite (drop_S _ t), <- Hperm|].
  rewrite Htk in Hl'. split; [rewrite Hl'; simpl|].
  { rewrite <- app_assoc. by destruct (survivor s ev t). }
  split; [done|]. destruct remaining as [ev'|].
  - destruct Hrem as (-> & -> & Hf). by split_and!; [done..|constructor].
  - destruct Hrem as (before & t0 & -> & Hf & Hc0). exists (t :: before), t0.
    by split_and!; [done|constructor|done].
Qed.

(** The loop invariant of the chain, from slot [i] on; in particular the fuel
    is enough and nothing panics. *)
Lemma offer_event_inv fuel i ev el sh :
  length (el_active el) - i <= fuel -> i <= length (el_active el) ->
  exists remaining active sh',
    offer_event fuel i (Some ev) el sh = Some (remaining, el_set_active active el, sh')
    /\ chain_from (el_swarm el) ev i (el_active el) active sh sh' remaining.
Proof using CommandHandlerLaws0.
  revert i el sh. induction fuel as [|fuel IH]; intros i el sh Hfuel Hi.
  all: destruct (decide (length (el_active el) <= i)) as [Hge|Hlt].
  2: lia.
  1,2: exists (Some ev), (el_active el), sh; rewrite offer_event_end, el_set_active_id by done;
       (split; [done|]); exists [], []; rewrite drop_ge, take_ge by done; simpl;
       rewrite app_nil_r; by split_and!.
  destruct (lookup_lt_is_Some_2 (el_active el) i) as [t Ht]; [lia|].
  destruct (offer_event_step fuel i ev el sh t Ht) as (act & -> & Hact).
  assert (match survivor (el_swarm el) ev t with
          | Some t' => act = <[i := t']> (el_active el)
          | None => take i act = take i (el_active el)
                    /\ drop i act ≡ₚ drop (S i) (el_active el)
          end) as Hact' by (destruct (survivor _ _ _); tauto).
  destruct (consumes (el_swarm el) ev t) eqn:Hc.
  { rewrite offer_event_consumed. eexists None, act, _. split; [done|].
    by apply (chain_from_consume _ _ _ _ _ t). }
  destruct (IH (if survivor (el_swarm el) ev t then S i else i) (el_set_active act el)
              (deliver (el_swarm el) ev sh t)) as (remaining & active & sh' & -> & Hch).
  { simpl. destruct (survivor _ _ _); [subst act; rewrite length_insert|]; lia. }
  { simpl. destruct (survivor _ _ _); [subst act; rewrite length_insert; lia|].
    destruct Hact as (_ & Htk & _). apply (f_equal length) in Htk.
    rewrite !length_take in Htk. lia. }
  exists remaining, active, sh'. split; [by destruct el|].
  by eapply chain_from_pass.
Qed.

(** The chain implements its specification. *)
Lemma offer_event_spec ev el sh :
  exists remaining active sh',
    offer_event (length (el_active el)) 0 (Some ev) el sh
    = Some (remaining, el_set_active active el, sh')
    /\ chain_spec (el_swarm el) ev (el_active el) active sh sh' remaining.
Proof using CommandHandlerLaws0.
  destruct (offer_event_inv (length (el_active el)) 0 ev el sh) as (r & a & sh' & -> & Hc); [lia..|].
  exists r, a, sh'. split; [done|]. exact Hc.
Qed.

End chain.

(** ** Identifiers and owners *)

(** A command answers an identified event that is not its own by passing it on,
    unchanged itself and without a result; if it waits for an identifier it stays. *)
Class ForeignSilent `{N : NetTypes} (Sw C V : Type) `{!CommandHandler Sw C V, !Keyed C} : Prop :=
  foreign_silent : forall (c : C) (ev : SwarmEvent) (k : CKey),
    event_key ev = Some k -> command_key c <> Some k ->
    exists keep, (forall s : Sw, on_event c ev s = Some (c, (keep, Some ev), s, []))
      /\ (is_Some (command_key c) -> keep = true).

Section owner.
Context `{N : NetTypes} {Sw C V : Type}.
Context `{!SwarmOps Sw, !HashOrder, !Mpsc, !CommandHandler Sw C V, !RelayRequester C, !Keyed C}.
Context `{!CommandHandlerLaws Sw C V}.
Implicit Types (t : CommandTask C) (el : EventLoop Sw C) (sh : Shared V).

Lemma omap_nodup_inj {A B} (f : A -> option B) (l : list A) x y b :
  NoDup (omap f l) -> x ∈ l -> y ∈ l -> f x = Some b -> f y = Some b -> x = y.
Proof.
  induction l as [|z l IH]; [by intros _ ?%elem_of_nil|].
  assert (forall u, u ∈ l -> f u = Some b -> b ∈ omap f l) as Hin
    by (intros u ? ?; apply list_elem_of_omap; eauto).
  simpl. intros Hnd Hx Hy Hfx Hfy. apply elem_of_cons in Hx, Hy.
  destruct (f z) as [b'|] eqn:Hz.
  - apply NoDup_cons in Hnd as [Hni Hnd].
    destruct Hx as [->|Hx], Hy as [->|Hy]; [done|..|by auto];
      simplify_eq; exfalso; eapply Hni, Hin; eauto.
  - destruct Hx as [->|Hx], Hy as [->|Hy]; [done|congruence..|by auto].
Qed.

#[export] Instance keys_distinct_perm : Proper ((≡ₚ) ==> iff) (@keys_distinct N C _).
Proof. intros l k Hlk. unfold keys_distinct. by rewrite Hlk. Qed.

(** The identifiers that remain after a visit are among those before it. *)
Lemma survivors_keys s ev l : omap task_key (omap (survivor s ev) l) `sublist_of` omap task_key l.
Proof using CommandHandlerLaws0.
  induction l as [|t l IH]; simpl; [done|].
  destruct (survivor s ev t) as [t'|] eqn:Ht; simpl.
  - apply survivor_key in Ht as [-> _]. destruct (task_key t); [by constructor|done].
  - destruct (task_key t); [by constructor|done].
Qed.

Lemma chain_spec_keys s ev active active' sh sh' remaining :
  chain_spec s ev active active' sh sh' remaining ->
  keys_distinct active -> keys_distinct active'.
Proof using CommandHandlerLaws0.
  intros (visited & rest & Hp & Hp' & _). rewrite <- Hp, Hp'. unfold keys_distinct.
  rewrite !omap_app. intros Hnd. eapply sublist_NoDup; [exact Hnd|].
  apply sublist_app; [apply survivors_keys|done].
Qed.

Lemma deliver_silent s ev sh l :
  Forall (fun t => emitted s ev t = []) l -> foldl (deliver s ev) sh l = sh.
Proof.
  induction 1 as [|t l Ht _ IH] in sh |- *; [done|]. simpl. rewrite <- (IH sh) at 2.
  f_equal. unfold deliver. by rewrite Ht.
Qed.

Context `{!ForeignSilent Sw C V}.

Lemma foreign_emits_nothing s ev k t :
  event_key ev = Some k -> task_key t <> Some k -> emitted s ev t = [].
Proof using ForeignSilent0.
  intros He Hk. destruct (foreign_silent (task_handler t) ev k He Hk) as (keep & Ha & _).
  unfold emitted, answer_of. by rewrite Ha.
Qed.

Lemma foreign_survives s ev k k' t :
  event_key ev = Some k -> task_key t = Some k' -> k' <> k -> survivor s ev t = Some t.
Proof using ForeignSilent0.
  intros He Hk' Hne. destruct (foreign_silent (task_handler t) ev k He) as (keep & Ha & Hkeep).
  { unfold task_key in Hk'. congruence. }
  unfold survivor, answer_of. rewrite Ha, Hkeep by (unfold task_key in Hk'; eauto).
  by destruct t.
Qed.

(** Of a list of commands only the owner answers. *)
Lemma deliver_owner s ev k t l sh :
  keys_distinct l -> event_key ev = Some k -> t ∈ l -> task_key t = Some k ->
  foldl (deliver s ev) sh l = deliver s ev sh t.
Proof using ForeignSilent0.
  intros Hd He (l1 & l2 & ->)%list_elem_of_split Hk.
  unfold keys_distinct in Hd. rewrite omap_app in Hd. simpl in Hd. rewrite Hk in Hd.
  apply NoDup_app in Hd as (_ & Hl1 & [Hl2 _]%NoDup_cons).
  assert (forall l', (k ∈ omap task_key l' -> False) -> Forall (fun u => emitted s ev u = []) l') as Hs.
  { intros l' Hl'. apply Forall_forall. intros u Hu. apply (foreign_emits_nothing _ _ k); [done|].
    intros Huk. apply Hl', list_elem_of_omap. eauto. }
  rewrite foldl_app. simpl. rewrite (deliver_silent _ _ _ l1), (deliver_silent _ _ _ l2); [done|..].
  - by apply Hs.
  - apply Hs. intros Hin. eapply Hl1; [exact Hin|by left].
Qed.

(** The visit of an event that has an owner. *)
(** Whoever was not offered the event does not own it. *)
Lemma chain_spec_missed s ev active visited rest remaining t :
  visited ++ rest ≡ₚ active -> keys_distinct active ->
  match remaining with
  | Some ev' => ev' = ev /\ rest = [] /\ Forall (fun t => consumes s ev t = false) visited
  | None => exists before t, visited = before ++ [t]
              /\ Forall (fun t => consumes s ev t = false) before /\ consumes s ev t = true
  end ->
  t ∈ rest -> event_key ev = None \/ task_key t <> event_key ev.
Proof using CommandHandlerLaws0 ForeignSilent0.
  intros Hp Hd Hrem Ht. destruct remaining as [ev'|].
  { destruct Hrem as (_ & -> & _). by apply elem_of_nil in Ht. }
  destruct Hrem as (before & t0 & -> & _ & (k & He & Hk)%consumes_key). right. rewrite He. intros Htk.
  rewrite <- Hp in Hd. unfold keys_distinct in Hd. rewrite !omap_app in Hd. simpl in Hd. rewrite Hk in Hd.
  apply NoDup_app in Hd as (_ & Hd & _). apply (Hd k); [set_solver|].
  apply list_elem_of_omap. by exists t.
Qed.

Lemma chain_spec_owner s ev k t active active' sh sh' remaining :
  chain_spec s ev active active' sh sh' remaining ->
  keys_distinct active -> event_key ev = Some k -> t ∈ active -> task_key t = Some k ->
  (consumes s ev t = true -> remaining = None) /\ sh' = deliver s ev sh t.
Proof using CommandHandlerLaws0 ForeignSilent0.
  intros (visited & rest & Hp & Hp' & -> & Hrem) Hd He Ht Hk. rewrite <- Hp in Hd, Ht.
  assert (t ∈ visited /\ (consumes s ev t = true -> remaining = None)) as [Hin Hc].
  { destruct remaining as [ev'|].
    - destruct Hrem as (_ & -> & Hf). rewrite app_nil_r in Ht. split; [done|].
      rewrite Forall_forall in Hf. specialize (Hf _ Ht). congruence.
    - destruct Hrem as (before & t0 & -> & _ & (k0 & He0 & Hk0)%consumes_key).
      assert (t0 = t) as ->; [|set_solver].
      apply (omap_nodup_inj task_key _ _ _ k Hd); [set_solver|done|congruence|done]. }
  split; [done|]. apply (deliver_owner _ _ k); [|done..]. unfold keys_distinct in *.
  rewrite omap_app in Hd. by apply NoDup_app in Hd as [? _].
Qed.

(** Nobody owns the event. *)
Lemma chain_spec_unowned s ev k active active' sh sh' remaining :
  chain_spec s ev active active' sh sh' remaining -> event_key ev = Some k ->
  (forall t, t ∈ active -> task_key t <> Some k) -> remaining = Some ev /\ sh' = sh.
Proof using CommandHandlerLaws0 ForeignSilent0.
  intros (visited & rest & Hp & _ & -> & Hrem) He Hno.
  assert (forall t, t ∈ visited -> task_key t <> Some k) as Hv
    by (intros t Ht; apply Hno; rewrite <- Hp; set_solver).
  split.
  - destruct remaining as [ev'|]; [by destruct Hrem as [-> _]|].
    destruct Hrem as (before & t0 & -> & _ & (k0 & He0 & Hk0)%consumes_key).
    exfalso. apply (Hv t0); [set_solver|congruence].
  - apply deliver_silent, Forall_forall. intros t Ht. apply (foreign_emits_nothing _ _ k); auto.
Qed.

(** Whatever becomes of it, the commands that wait for something else stay. *)
Lemma chain_spec_others s ev k active active' sh sh' remaining u k' :
  chain_spec s ev active active' sh sh' remaining -> event_key ev = Some k ->
  u ∈ active -> task_key u = Some k' -> k' <> k -> u ∈ active'.
Proof using ForeignSilent0.
  intros (visited & rest & Hp & -> & _) He Hu Huk Hne. rewrite <- Hp in Hu.
  apply elem_of_app in Hu as [Hu|Hu]; apply elem_of_app; [left|by right].
  apply list_elem_of_omap. exists u. split; [done|]. by eapply foreign_survives.
Qed.

(** Identified events are of no interest to the front end. *)
Lemma convert_identified el sh ev k :
  event_key ev = Some k -> convert_to_node_event el sh ev = (el, sh, None).
Proof. by destruct ev as [[| |[]|[]| | | | | |]| | | | | | | |]. Qed.

End owner.

(** ** Properties *)

(** C1. The command chain implements its specification, for any command type
    that obeys the handler contract: handling a swarm event never panics; the
    active commands are visited in some order until one of them consumes the
    event, everyone before it having passed it on; visited commands get their
    results delivered to their own handles and leave or stay as they answered;
    unvisited commands stay untouched although [swap_remove] reorders the list;
    and the event is converted for the front end iff nobody consumed it. *)
Theorem handle_swarm_event_refines `{N : NetTypes} {Sw C V}
    `{!SwarmOps Sw, !HashOrder, !Mpsc, !CommandHandler Sw C V, !RelayRequester C, !Keyed C}
    `{!CommandHandlerLaws Sw C V} (el : EventLoop Sw C) (sh : Shared V) (ev : SwarmEvent) :
  exists active sh' remaining,
    chain_spec (el_swarm el) ev (el_active el) active sh sh' remaining
    /\ handle_swarm_event el sh ev
       = Some match remaining with
              | None => (el_set_active active el, sh', None)
              | Some ev => convert_to_node_event (el_set_active active el) sh' ev
              end.
Proof.
  destruct (offer_event_spec ev el sh) as (r & active & sh' & Ho & Hc).
  exists active, sh', r. split; [done|]. unfold handle_swarm_event. rewrite Ho. by destruct r.
Qed.

(** Each identified event reaches its owner, in whatever order the commands
    are stored: if the active commands wait for distinct identifiers and one of
    them is waiting for the event's identifier and takes it, then its result
    (and no other) is delivered, to its own handle; the front end sees nothing;
    and every command waiting for another identifier is still active. *)
Lemma owner_receives `{N : NetTypes} {Sw C V}
    `{!SwarmOps Sw, !HashOrder, !Mpsc, !CommandHandler Sw C V, !RelayRequester C, !Keyed C}
    `{!CommandHandlerLaws Sw C V, !ForeignSilent Sw C V}
    (el : EventLoop Sw C) (sh : Shared V) (ev : SwarmEvent) (k : CKey) (t : CommandTask C) :
  keys_distinct (el_active el) -> event_key ev = Some k ->
  t ∈ el_active el -> task_key t = Some k -> consumes (el_swarm el) ev t = true ->
  exists active,
    handle_swarm_event el sh ev
    = Some (el_set_active active el, deliver (el_swarm el) ev sh t, None)
    /\ keys_distinct active
    /\ forall u k', u ∈ el_active el -> task_key u = Some k' -> k' <> k -> u ∈ active.
Proof.
  intros Hd He Ht Hk Hc. destruct (offer_event_spec ev el sh) as (r & active & sh' & Ho & Hch).
  destruct (chain_spec_owner _ _ _ _ _ _ _ _ _ Hch Hd He Ht Hk) as [Hr ->].
  exists active. unfold handle_swarm_event. rewrite Ho, (Hr Hc). split_and!; [done| |].
  - by eapply chain_spec_keys.
  - intros u k' Hu Huk Hne. eapply chain_spec_others; eauto.
Qed.
