(* ===== verification/CommandChain.v ===== *)
(** * The crate's commands in the event loop

    Instantiates the generic chain of [EventChain] with [AnyCommand]: the
    handlers are silent on foreign identifiers, and the type erasure of
    [CommandTrait] is sound across the whole loop: a result handle only ever
    receives the type its caller was promised. *)
From S2P Require Import Prelude Externals Errors DataChannel PendingMap Config Handle Handler.
From S2P Require Import BasicCommands KadCommands KadQueries ReqRespCommands Commands.
From S2P Require Import EventLoop EventChain.

Section silent.
Context `{N : NetTypes} {Sw : Type} `{!SwarmOps Sw} `{!HashOrder}.

(** Commands that ignore foreign events and never take one before [run]. *)
Lemma silent_of_ignores {C R} `{!CommandHandler Sw C R, !Keyed C, !IgnoresForeign Sw C R} :
  (forall (c : C) ev (s : Sw), command_key c = None -> is_Some (event_key ev) ->
     on_event c ev s = Some (c, (true, Some ev), s, [])) ->
  ForeignSilent Sw C R.
Proof.
  intros Hn c ev k He Hk. exists true. split; [|done]. intros s.
  destruct (command_key c) as [k'|] eqn:Hc; [|apply Hn; eauto].
  apply (foreign_ignored c ev k'); congruence.
Qed.

(** Commands with the default [on_event] just leave. *)
Lemma silent_of_default {C R} `{!CommandHandler Sw C R, !Keyed C} :
  (forall c : C, command_key c = None) ->
  (forall (c : C) ev (s : Sw), on_event c ev s = default_on_event c ev s) ->
  ForeignSilent Sw C R.
Proof.
  intros Hn Hd c ev k He Hk. exists false. split; [intros s; by rewrite Hd|].
  rewrite Hn. by intros [].
Qed.

Ltac unstarted_passes :=
  apply silent_of_ignores; intros c ev s Hk He;
  destruct ev as [[| |[id [r|r|r|r|r|r|] st last| |]|[|p i r|p i e|]| | | | | |]| | | | | | | |];
  try (by destruct He); try reflexivity; destruct c; simpl in *;
  unfold command_key, BootstrapCommand_keyed, GetClosestPeersCommand_keyed,
    GetProvidersCommand_keyed, GetRecordCommand_keyed, PutRecordCommand_keyed,
    StartProvideCommand_keyed, SendRequestCommand_keyed in Hk; simpl in Hk;
  match type of Hk with _ <$> ?o = None => destruct o; [done|] end;
  try reflexivity.

#[export] Instance Bootstrap_silent : ForeignSilent Sw BootstrapCommand BootstrapResult.
Proof. unstarted_passes. Qed.
#[export] Instance GetClosestPeers_silent :
  ForeignSilent Sw GetClosestPeersCommand GetClosestPeersResult.
Proof. unstarted_passes. Qed.
#[export] Instance GetProviders_silent : ForeignSilent Sw GetProvidersCommand GetProvidersResult.
Proof. unstarted_passes. Qed.
#[export] Instance GetRecord_silent : ForeignSilent Sw GetRecordCommand GetRecordResult.
Proof. unstarted_passes. Qed.
#[export] Instance PutRecord_silent : ForeignSilent Sw PutRecordCommand QueryStatsInfo.
Proof. unstarted_passes. Qed.
#[export] Instance StartProvide_silent : ForeignSilent Sw StartProvideCommand QueryStatsInfo.
Proof. unstarted_passes. Qed.
#[export] Instance SendRequest_silent : ForeignSilent Sw SendRequestCommand Resp.
Proof. unstarted_passes; (rewrite decide_False by naive_solver; reflexivity). Qed.

(** Dial and disconnect only look at connection events. *)
#[export] Instance Dial_silent : ForeignSilent Sw DialCommand unit.
Proof. intros c ev k He Hk. exists true. split; [|done]. intros s. by destruct ev. Qed.
#[export] Instance Disconnect_silent : ForeignSilent Sw DisconnectCommand unit.
Proof. intros c ev k He Hk. exists true. split; [|done]. intros s. by destruct ev. Qed.

#[export] Instance IsConnected_silent : ForeignSilent Sw IsConnectedCommand bool.
Proof. by apply silent_of_default. Qed.
#[export] Instance GetListenAddrs_silent :
  ForeignSilent Sw GetListenAddrsCommand (list Multiaddr).
Proof. by apply silent_of_default. Qed.
#[export] Instance AddPeerAddrs_silent : ForeignSilent Sw AddPeerAddrsCommand unit.
Proof. by apply silent_of_default. Qed.
#[export] Instance AddInfrastructurePeer_silent :
  ForeignSilent Sw AddInfrastructurePeerCommand unit.
Proof. by apply silent_of_default. Qed.
#[export] Instance StopProvide_silent : ForeignSilent Sw StopProvideCommand unit.
Proof. by apply silent_of_default. Qed.
#[export] Instance RemoveRecord_silent : ForeignSilent Sw RemoveRecordCommand unit.
Proof. by apply silent_of_default. Qed.
#[export] Instance SendResponse_silent : ForeignSilent Sw SendResponseCommand unit.
Proof. by apply silent_of_default. Qed.

Lemma embed_silent {C R} `{!CommandHandler Sw C R, !Keyed C, !ForeignSilent Sw C R}
    (wrap : C -> AnyCommand) (inj : R -> CmdValue) (c : C) ev k :
  event_key ev = Some k -> command_key c <> Some k ->
  exists keep, (forall s : Sw, on_event_boxed_as wrap inj c ev s
                  = Some (wrap c, (keep, Some ev), s, []))
    /\ (is_Some (command_key c) -> keep = true).
Proof.
  intros He Hk. destruct (foreign_silent c ev k He Hk) as (keep & Ha & Hkeep).
  exists keep. split; [|done]. intros s.
  unfold on_event_boxed_as, H_map, fmap, H_fmap. by rewrite Ha.
Qed.

#[export] Instance AnyCommand_silent : ForeignSilent Sw AnyCommand CmdValue.
Proof.
  intros [c|c|c|c|c|c|c|c|c|c|c|c|c|c|c|c] ev k He Hk;
    (eapply embed_silent with (c := c); [exact He|exact Hk]).
Qed.

End silent.

(** ** What the conversion to front-end events leaves alone *)

Section frame.
Context `{N : NetTypes} {Sw C V : Type} `{!SwarmOps Sw, !HashOrder, !Mpsc}.
Implicit Types (el : EventLoop Sw C) (sh : Shared V).

Lemma request_relay_reservations_frame el p addrs :
  exists s, request_relay_reservations el p addrs = el_set_swarm s el.
Proof.
  unfold request_relay_reservations. revert el.
  induction addrs as [|a addrs IH]; intros el; simpl; [exists (el_swarm el); by destruct el|].
  destruct (sw_listen_on _ _) as [s r]. destruct (IH (el_set_swarm s el)) as [s' ->]. by exists s'.
Qed.

Lemma convert_to_node_event_frame el sh ev :
  let '(el', sh', _) := convert_to_node_event el sh ev in
  el_active el' = el_active el /\ sh_handles sh' = sh_handles sh
  /\ sh_woken sh' = sh_woken sh.
Proof.
  destruct ev as [[p [rtt|e]|p info|[]|[]|ps|[]|e|a sv [u|x]|p r|]|p n|p n|o e| |a| | |];
    simpl; try done.
  - unfold on_identify_received. case_decide; [|done]. simpl. case_match; [|done].
    match goal with |- context [request_relay_reservations ?e ?p ?a] =>
      destruct (request_relay_reservations_frame e p a) as [s ->] end. done.
  - unfold maybe_announce_lan_helper_addr. repeat case_match; simplify_eq/=; done.
Qed.

End frame.

(** ** Typed handles *)

Section typed.
Context `{N : NetTypes} {Sw : Type} `{!SwarmOps Sw, !HashOrder, !Mpsc}.
Implicit Types (el : EventLoop Sw AnyCommand) (sh : Shared CmdValue).

(** [G] gives, for each handle, the values its future may receive. *)
Definition tasks_typed (G : nat -> CmdValue -> Prop) (l : list (CommandTask AnyCommand)) : Prop :=
  Forall (fun t => result_shape (task_handler t) = G (task_handle t)) l.

Definition handles_typed (G : nat -> CmdValue -> Prop) (sh : Shared CmdValue) : Prop :=
  forall loc st v, sh_handles sh !! loc = Some st -> rs_result st = Some (Ok v) -> G loc v.

Lemma finish_handle_typed G loc sh (r : CResult CmdValue) :
  handles_typed G sh -> match r with Ok v => G loc v | Err _ => True end ->
  handles_typed G (finish_handle loc sh r).
Proof.
  intros Hh Hr loc' st v. unfold finish_handle.
  destruct (sh_handles sh !! loc) as [st0|] eqn:Hst; [|apply Hh]. simpl.
  intros [[<- <-]|[_ Hl]]%lookup_insert_Some; [|by eapply Hh].
  simpl. intros. by simplify_eq.
Qed.

Lemma finish_all_typed G (c : AnyCommand) loc sh fin :
  result_shape c = G loc -> well_shaped c fin -> handles_typed G sh ->
  handles_typed G (foldl (finish_handle loc) sh fin).
Proof.
  intros Hc Hf. induction Hf as [|r fin Hr Hf IH] in sh |- *; [done|]. intros Hh. simpl.
  apply IH, finish_handle_typed; [done|]. destruct r; [by rewrite <- Hc|done].
Qed.

Lemma deliver_typed G s ev sh t :
  result_shape (task_handler t) = G (task_handle t) -> handles_typed G sh ->
  handles_typed G (deliver s ev sh t).
Proof.
  intros Ht Hh. unfold deliver, emitted, answer_of.
  destruct (on_event (task_handler t) ev s) as [[[[c [keep rem]] s'] fin]|] eqn:He; [|done].
  apply on_event_boxed_shape in He as [Hw _]. by eapply finish_all_typed.
Qed.

Lemma survivor_typed G s ev t t' :
  survivor s ev t = Some t' -> result_shape (task_handler t) = G (task_handle t) ->
  result_shape (task_handler t') = G (task_handle t').
Proof.
  unfold survivor, answer_of.
  destruct (on_event (task_handler t) ev s) as [[[[c [[] rem]] s'] fin]|] eqn:He; [|done..].
  intros. simplify_eq. simpl. apply on_event_boxed_shape in He as [_ ->]. done.
Qed.

Lemma chain_spec_typed G s ev active active' sh sh' remaining :
  chain_spec s ev active active' sh sh' remaining ->
  tasks_typed G active -> handles_typed G sh -> tasks_typed G active' /\ handles_typed G sh'.
Proof.
  intros (visited & rest & Hp & Hp' & -> & _). unfold tasks_typed. rewrite <- Hp, Hp'.
  intros [Hv Hr]%Forall_app Hh. split.
  - apply Forall_app. split; [|done]. clear Hp Hp' Hh.
    induction Hv as [|t l Ht Hv IH]; simpl; [done|].
    destruct (survivor s ev t) eqn:Hs; [|done]. constructor; [by eapply survivor_typed|done].
  - clear Hp Hp' Hr. induction Hv as [|t l Ht Hv IH] in sh, Hh |- *; simpl; [done|].
    by apply IH, deliver_typed.
Qed.

Lemma take_relay_shape (c c' : AnyCommand) req :
  take_relay_reservation_request c = (c', req) -> result_shape c' = result_shape c.
Proof.
  unfold take_relay_reservation_request, AnyCommand_relay, default_take_relay.
  destruct c as [c|c|c|c|c|c|c|c|c|c|c|c|c|c|c|c]; [..|]; try (intros; by simplify_eq).
  destruct (take_relay_reservation_request c). intros. by simplify_eq.
Qed.

Lemma handle_command_typed G el sh cmd el' sh' :
  handle_command el sh cmd = Some (el', sh') ->
  tasks_typed G (cmd :: el_active el) -> handles_typed G sh ->
  tasks_typed G (el_active el') /\ handles_typed G sh'.
Proof.
  intros Hc [Hcmd Ht]%Forall_cons Hh. unfold handle_command in Hc.
  destruct (run (task_handler cmd) (el_swarm el)) as [[[c s] fin]|] eqn:Hr; [|done].
  apply run_boxed_shape in Hr as [Hw Hs].
  destruct (take_relay_reservation_request c) as [c' req] eqn:Htk.
  apply take_relay_shape in Htk as Hs'. simplify_eq.
  split; [|by eapply finish_all_typed].
  apply Forall_app. split; [|repeat constructor; simpl; congruence].
  repeat case_match; try done. simpl.
  match goal with |- context [request_relay_reservations ?e ?p ?a] =>
    destruct (request_relay_reservations_frame e p a) as [s' ->] end. done.
Qed.

Lemma handle_swarm_event_typed G el sh ev el' sh' out :
  handle_swarm_event el sh ev = Some (el', sh', out) ->
  tasks_typed G (el_active el) -> handles_typed G sh ->
  tasks_typed G (el_active el') /\ handles_typed G sh'.
Proof.
  intros He Ht Hh. unfold handle_swarm_event in He.
  destruct (offer_event_spec ev el sh) as (r & active & sh1 & Ho & Hch). rewrite Ho in He.
  destruct (chain_spec_typed _ _ _ _ _ _ _ _ Hch Ht Hh) as [Hact Hsh].
  destruct r as [ev'|]; [|by simplify_eq].
  pose proof (convert_to_node_event_frame (el_set_active active el) sh1 ev') as Hf.
  destruct (convert_to_node_event _ _ _) as [[el2 sh2] out2]. destruct Hf as (Ha & Hhd & _).
  simplify_eq. rewrite Ha. split; [done|]. unfold handles_typed. by rewrite Hhd.
Qed.

End typed.

(** ** Properties *)

(** Type soundness of the erased commands: if every queued task's handle
    belongs to a future that expects that command's result type, then running
    a command and handling any swarm event keep it so, and never put a value
    of another type into a handle.  Both never panic. *)
Lemma command_results_typed `{N : NetTypes} {Sw} `{!SwarmOps Sw, !HashOrder, !Mpsc}
    (G : nat -> CmdValue -> Prop) (el : EventLoop Sw AnyCommand) (sh : Shared CmdValue)
    (cmd : CommandTask AnyCommand) (ev : SwarmEvent) :
  tasks_typed G (cmd :: el_active el) -> handles_typed G sh ->
  (exists el' sh', handle_command el sh cmd = Some (el', sh')
     /\ tasks_typed G (el_active el') /\ handles_typed G sh')
  /\ (exists el' sh' out, handle_swarm_event el sh ev = Some (el', sh', out)
     /\ tasks_typed G (el_active el') /\ handles_typed G sh').
Proof.
  intros Ht Hh. split.
  - destruct (handle_command el sh cmd) as [[el' sh']|] eqn:Hc.
    + exists el', sh'. split; [done|]. by eapply handle_command_typed.
    + unfold handle_command in Hc.
      destruct (run_total (R := CmdValue) (task_handler cmd) (el_swarm el)) as (c & s & fin & Hr & _).
      rewrite Hr in Hc. by destruct (take_relay_reservation_request c).
  - apply Forall_cons in Ht as [_ Ht].
    destruct (handle_swarm_event el sh ev) as [[[el' sh'] out]|] eqn:He.
    + exists el', sh', out. split; [done|]. by eapply handle_swarm_event_typed.
    + unfold handle_swarm_event in He.
      destruct (offer_event_spec ev el sh) as (r & active & sh' & Ho & _). rewrite Ho in He.
      by destruct r.
Qed.
