(* ===== verification/SwarmIds.v ===== *)
(** * What the crate does to the swarm, and where identifiers come from

    [swarm_op] lists the calls the source makes that change the swarm,
    [swarm_alloc] those that hand out a query or request identifier.  Every
    command's [run] and every conversion of an event is a sequence of such
    calls, and a command that waits for an identifier was given it by its own
    [run].  [SwarmIdLaws] is libp2p's promise that identifiers are not reused. *)
From S2P Require Import Prelude Externals Errors DataChannel PendingMap Config Handle Handler.
From S2P Require Import BasicCommands KadCommands KadQueries ReqRespCommands Commands.
From S2P Require Import EventLoop EventChain CommandChain.

Section ops.
Context `{N : NetTypes} {Sw : Type} `{!SwarmOps Sw}.

Inductive swarm_op (s : Sw) : Sw -> Prop :=
| so_dial p : swarm_op s (sw_dial s p).1
| so_disconnect p : swarm_op s (sw_disconnect_peer_id s p).1
| so_add_peer_address p a : swarm_op s (sw_add_peer_address s p a)
| so_add_external_address a : swarm_op s (sw_add_external_address s a)
| so_listen_on a : swarm_op s (sw_listen_on s a).1
| so_kad_add_address p a : swarm_op s (kad_add_address s p a)
| so_bootstrap : swarm_op s (kad_bootstrap s).1
| so_put_record r : swarm_op s (kad_put_record s r).1
| so_start_providing k : swarm_op s (kad_start_providing s k).1
| so_stop_providing k : swarm_op s (kad_stop_providing s k)
| so_remove_record k : swarm_op s (kad_remove_record s k)
| so_get_record k : swarm_op s (kad_get_record s k).1
| so_get_providers k : swarm_op s (kad_get_providers s k).1
| so_get_closest_peers k : swarm_op s (kad_get_closest_peers s k).1
| so_send_request p r : swarm_op s (rr_send_request s p r).1
| so_send_response c r : swarm_op s (rr_send_response s c r).1.

(** The calls about addresses and connections alone. *)
Inductive book_op (s : Sw) : Sw -> Prop :=
| bo_dial p : book_op s (sw_dial s p).1
| bo_add_peer_address p a : book_op s (sw_add_peer_address s p a)
| bo_add_external_address a : book_op s (sw_add_external_address s a)
| bo_listen_on a : book_op s (sw_listen_on s a).1
| bo_kad_add_address p a : book_op s (kad_add_address s p a).

(** [swarm_alloc s s' k]: the call that leads from [s] to [s'] returned [k]. *)
Inductive swarm_alloc (s : Sw) : Sw -> CKey -> Prop :=
| sa_bootstrap s' id : kad_bootstrap s = (s', Ok id) -> swarm_alloc s s' (KQuery id)
| sa_put_record r s' id : kad_put_record s r = (s', Ok id) -> swarm_alloc s s' (KQuery id)
| sa_start_providing k s' id : kad_start_providing s k = (s', Ok id) -> swarm_alloc s s' (KQuery id)
| sa_get_record k s' id : kad_get_record s k = (s', id) -> swarm_alloc s s' (KQuery id)
| sa_get_providers k s' id : kad_get_providers s k = (s', id) -> swarm_alloc s s' (KQuery id)
| sa_get_closest_peers k s' id : kad_get_closest_peers s k = (s', id) -> swarm_alloc s s' (KQuery id)
| sa_send_request p r s' id : rr_send_request s p r = (s', id) -> swarm_alloc s s' (KRequest id).

(** Which identifiers a swarm has handed out. *)
Class SwarmIds := sw_issued : Sw -> CKey -> Prop.

Class SwarmIdLaws `{!SwarmPoll Sw, !SwarmIds} : Prop := {
  issued_op : forall s s' k, swarm_op s s' -> sw_issued s k -> sw_issued s' k;
  issued_poll : forall s o s' k, sw_poll s o s' -> sw_issued s k -> sw_issued s' k;
  issued_alloc : forall s s' k, swarm_alloc s s' k -> ~ sw_issued s k /\ sw_issued s' k;
}.

(** The relay client is a [Toggle], set when the behaviour is built. *)
Class RelayToggle `{!SwarmPoll Sw} : Prop := {
  relay_client_op : forall s s', swarm_op s s' ->
    sw_relay_client_is_enabled s' = sw_relay_client_is_enabled s;
  relay_client_poll : forall s o s', sw_poll s o s' ->
    sw_relay_client_is_enabled s' = sw_relay_client_is_enabled s;
}.

End ops.
Arguments RelayToggle {_} Sw {_ _}.
Arguments SwarmIds {_} Sw.
Arguments SwarmIdLaws {_} Sw {_ _ _}.

(** What [run] does: without an identifier the command still has none and the
    swarm took some calls, or its one call gave it an identifier. *)
Class RunAllocates `{N : NetTypes} (Sw C R : Type) `{!SwarmOps Sw, !CommandHandler Sw C R, !Keyed C} :
    Prop :=
  run_allocates : forall (c c' : C) (s s' : Sw) fin,
    command_key c = None -> run c s = Some (c', s', fin) ->
    (command_key c' = None /\ rtc swarm_op s s')
    \/ (exists k, command_key c' = Some k /\ swarm_alloc s s' k).

(** ** Lemmas *)

Section op_lemmas.
Context `{N : NetTypes} {Sw : Type} `{!SwarmOps Sw}.

Lemma swarm_op_eq (s s1 s' : Sw) : swarm_op s s1 -> s1 = s' -> swarm_op s s'.
Proof. by intros ? <-. Qed.

(** An allocation is one of the calls. *)
Lemma alloc_op (s s' : Sw) k : swarm_alloc s s' k -> swarm_op s s'.
Proof.
  destruct 1 as [s' id He|r s' id He|x s' id He|x s' id He|x s' id He|x s' id He|p r s' id He];
    (eapply swarm_op_eq; [|exact (f_equal fst He)]); constructor.
Qed.

Lemma book_swarm_op (s s' : Sw) : book_op s s' -> swarm_op s s'.
Proof. destruct 1; constructor. Qed.

Lemma book_ops (s s' : Sw) : rtc book_op s s' -> rtc swarm_op s s'.
Proof. apply rtc_subrel, book_swarm_op. Qed.

Lemma fold_ops (R : relation Sw) {A} (f : Sw -> A -> Sw) (l : list A) (s : Sw) :
  (forall s a, rtc R s (f s a)) -> rtc R s (foldl f s l).
Proof.
  intros Hf. revert s. induction l as [|a l IH]; intros s; simpl; [done|].
  etrans; [apply Hf|apply IH].
Qed.

Lemma relay_reservations_book {C} (el : EventLoop Sw C) p addrs :
  rtc book_op (el_swarm el) (el_swarm (request_relay_reservations el p addrs)).
Proof.
  unfold request_relay_reservations. revert el.
  induction addrs as [|a addrs IH]; intros el; simpl; [done|].
  pose proof (bo_listen_on (el_swarm el) (relay_circuit_addr p a)) as Hop.
  destruct (sw_listen_on _ _) as [s r]. eapply rtc_l; [exact Hop|]. apply (IH (el_set_swarm s el)).
Qed.

(** Converting an event only registers addresses, dials and listens. *)
Lemma convert_book {C V} `{!HashOrder, !Mpsc} (el : EventLoop Sw C) (sh : Shared V) ev :
  rtc book_op (el_swarm el) (el_swarm (convert_to_node_event el sh ev).1.1).
Proof.
  destruct ev as [[p [rtt|e]|p info|[i r st l|p addrs|]|[]|ps|[]|e|a sv [u|x]|p r|]|p n|p n|o e| |a| | |];
    simpl; try done.
  - unfold on_identify_received. case_decide; [|done]. simpl.
    set (s1 := foldl _ _ _). assert (rtc book_op (el_swarm el) s1) as Hs1.
    { apply fold_ops. intros s a. eapply rtc_l; [apply bo_kad_add_address|].
      apply rtc_once, bo_add_peer_address. }
    case_match; [|done]. simpl. etrans; [exact Hs1|].
    apply (relay_reservations_book (el_set_bootstrap _ (el_set_swarm s1 el))).
  - apply fold_ops. intros s a. apply rtc_once, bo_add_peer_address.
  - unfold on_mdns_discovered. simpl. etrans; [|apply fold_ops].
    + apply fold_ops. intros s a. apply rtc_once, bo_add_peer_address.
    + intros s p. case_match; [done|]. apply rtc_once, bo_dial.
  - unfold maybe_announce_lan_helper_addr. repeat case_match; simplify_eq/=; try done;
      apply rtc_once, bo_add_external_address.
Qed.

Lemma relay_client_ops `{!SwarmPoll Sw, !RelayToggle Sw} (s s' : Sw) :
  rtc swarm_op s s' -> sw_relay_client_is_enabled s' = sw_relay_client_is_enabled s.
Proof. induction 1 as [|s s1 s2 Hop _ IH]; [done|]. rewrite IH. by apply relay_client_op. Qed.

Context `{!SwarmPoll Sw, !SwarmIds Sw, !SwarmIdLaws Sw}.

Lemma issued_ops (s s' : Sw) k : rtc swarm_op s s' -> sw_issued s k -> sw_issued s' k.
Proof. induction 1; eauto using issued_op. Qed.

End op_lemmas.

(** ** Every command *)

Section commands.
Context `{N : NetTypes} {Sw : Type} `{!SwarmOps Sw} `{!HashOrder}.

(** Evaluate a command's [run]. *)
Tactic Notation "open_run" reference(r) := simpl; unfold r; run_H.

#[export] Instance Bootstrap_allocates : RunAllocates Sw BootstrapCommand BootstrapResult.
Proof.
  intros c c' s s' fin Hk. open_run BootstrapCommand_run. pose proof (so_bootstrap s) as Hop.
  destruct (kad_bootstrap s) as [s1 [id|[]]] eqn:Hs; simpl; intros; simplify_eq.
  - right. eexists. split; [reflexivity|]. by constructor.
  - left. split; [done|]. by apply rtc_once.
Qed.

#[export] Instance PutRecord_allocates : RunAllocates Sw PutRecordCommand QueryStatsInfo.
Proof.
  intros c c' s s' fin Hk. open_run PutRecordCommand_run. pose proof (so_put_record s (pr_record c)) as Hop.
  destruct (kad_put_record s (pr_record c)) as [s1 [id|e]] eqn:Hs; simpl; intros; simplify_eq.
  - right. eexists. split; [reflexivity|]. by eapply sa_put_record.
  - left. split; [done|]. by apply rtc_once.
Qed.

#[export] Instance StartProvide_allocates : RunAllocates Sw StartProvideCommand QueryStatsInfo.
Proof.
  intros c c' s s' fin Hk. open_run StartProvideCommand_run. pose proof (so_start_providing s (sp_key c)) as Hop.
  destruct (kad_start_providing s (sp_key c)) as [s1 [id|e]] eqn:Hs; simpl; intros; simplify_eq.
  - right. eexists. split; [reflexivity|]. by eapply sa_start_providing.
  - left. split; [done|]. by apply rtc_once.
Qed.

#[export] Instance GetRecord_allocates : RunAllocates Sw GetRecordCommand GetRecordResult.
Proof.
  intros c c' s s' fin Hk. open_run GetRecordCommand_run.
  intros. simplify_eq. right. eexists. split; [reflexivity|].
  apply (sa_get_record _ (gr_key c)), surjective_pairing.
Qed.

#[export] Instance GetProviders_allocates : RunAllocates Sw GetProvidersCommand GetProvidersResult.
Proof.
  intros c c' s s' fin Hk. open_run GetProvidersCommand_run.
  intros. simplify_eq. right. eexists. split; [reflexivity|].
  apply (sa_get_providers _ (gp_key c)), surjective_pairing.
Qed.

#[export] Instance GetClosestPeers_allocates :
  RunAllocates Sw GetClosestPeersCommand GetClosestPeersResult.
Proof.
  intros c c' s s' fin Hk. open_run GetClosestPeersCommand_run.
  intros. simplify_eq. right. eexists. split; [reflexivity|].
  apply (sa_get_closest_peers _ (gc_key c)), surjective_pairing.
Qed.

#[export] Instance SendRequest_allocates : RunAllocates Sw SendRequestCommand Resp.
Proof.
  intros c c' s s' fin Hk. open_run SendRequestCommand_run. destruct (sr_request c) as [request|]; intros; simplify_eq; [|by left].
  right. eexists. split; [reflexivity|].
  apply (sa_send_request _ (sr_peer_id c) request), surjective_pairing.
Qed.

(** Commands that never wait for an identifier. *)
Lemma never_keyed {C R} `{!CommandHandler Sw C R, !Keyed C} :
  (forall c : C, command_key c = None) ->
  (forall (c c' : C) (s s' : Sw) fin, run c s = Some (c', s', fin) -> rtc swarm_op s s') ->
  RunAllocates Sw C R.
Proof. intros Hn Hr c c' s s' fin _ He. left. eauto. Qed.

#[export] Instance Dial_allocates : RunAllocates Sw DialCommand unit.
Proof.
  apply never_keyed; [done|]. intros c c' s s' fin. open_run DialCommand_run. destruct (sw_is_connected _ _); [by intros; simplify_eq|].
  pose proof (so_dial s (dial_peer_id c)) as Hop.
  destruct (sw_dial s (dial_peer_id c)) as [s1 []]; simpl; intros; simplify_eq; by apply rtc_once.
Qed.

#[export] Instance Disconnect_allocates : RunAllocates Sw DisconnectCommand unit.
Proof.
  apply never_keyed; [done|]. intros c c' s s' fin. open_run DisconnectCommand_run.
  pose proof (so_disconnect s (disconnect_peer_id c)) as Hop.
  destruct (sw_disconnect_peer_id s (disconnect_peer_id c)) as [s1 []]; simpl; intros; simplify_eq;
    by apply rtc_once.
Qed.

#[export] Instance IsConnected_allocates : RunAllocates Sw IsConnectedCommand bool.
Proof. apply never_keyed; [done|]. intros c c' s s' fin. open_run IsConnectedCommand_run. intros. by simplify_eq. Qed.

#[export] Instance GetListenAddrs_allocates :
  RunAllocates Sw GetListenAddrsCommand (list Multiaddr).
Proof. apply never_keyed; [done|]. intros c c' s s' fin. open_run GetListenAddrsCommand_run. intros. by simplify_eq. Qed.

#[export] Instance AddPeerAddrs_allocates : RunAllocates Sw AddPeerAddrsCommand unit.
Proof.
  apply never_keyed; [done|]. intros c c' s s' fin. open_run AddPeerAddrsCommand_run. intros. simplify_eq. apply fold_ops.
  intros. apply rtc_once, so_add_peer_address.
Qed.

#[export] Instance StopProvide_allocates : RunAllocates Sw StopProvideCommand unit.
Proof.
  apply never_keyed; [done|]. intros c c' s s' fin. open_run StopProvideCommand_run. intros. simplify_eq.
  apply rtc_once, so_stop_providing.
Qed.

#[export] Instance RemoveRecord_allocates : RunAllocates Sw RemoveRecordCommand unit.
Proof.
  apply never_keyed; [done|]. intros c c' s s' fin. open_run RemoveRecordCommand_run. intros. simplify_eq.
  apply rtc_once, so_remove_record.
Qed.

#[export] Instance SendResponse_allocates : RunAllocates Sw SendResponseCommand unit.
Proof.
  apply never_keyed; [done|]. intros c c' s s' fin. open_run SendResponseCommand_run.
  destruct (sp_channel c) as [ch|], (sp_response c) as [r|]; try (by intros; simplify_eq).
  pose proof (so_send_response s ch r) as Hop.
  destruct (rr_send_response s ch r) as [s1 []]; simpl; intros; simplify_eq; by apply rtc_once.
Qed.

#[export] Instance AddInfrastructurePeer_allocates :
  RunAllocates Sw AddInfrastructurePeerCommand unit.
Proof.
  apply never_keyed; [done|]. intros c c' s s' fin. open_run AddInfrastructurePeerCommand_run.
  set (s1 := foldl _ _ _). assert (rtc swarm_op s s1) as Hs1.
  { apply fold_ops. intros u a. eapply rtc_l; [apply so_add_peer_address|].
    case_match; [apply rtc_once, so_kad_add_address|done]. }
  pose proof (so_dial s1 (aip_peer_id c)) as Hop.
  repeat case_match; intros; simplify_eq/=; try done; (etrans; [exact Hs1|by apply rtc_once]).
Qed.

(** The erased command does what its handler does. *)
Lemma embed_allocates {C R} `{!CommandHandler Sw C R, !Keyed C, !RunAllocates Sw C R}
    (wrap : C -> AnyCommand) (inj : R -> CmdValue) (c : C) (c' : AnyCommand) (s s' : Sw) fin :
  (forall c, command_key (wrap c) = command_key c) ->
  command_key c = None -> run_boxed_as wrap inj c s = Some (c', s', fin) ->
  (command_key c' = None /\ rtc swarm_op s s')
  \/ (exists k, command_key c' = Some k /\ swarm_alloc s s' k).
Proof.
  intros Hw Hk. unfold run_boxed_as, H_map, fmap, H_fmap.
  destruct (run c s) as [[[c1 s1] f1]|] eqn:Hr; [|done]. intros. simplify_eq.
  rewrite Hw. by eapply run_allocates.
Qed.

#[export] Instance AnyCommand_allocates : RunAllocates Sw AnyCommand CmdValue.
Proof.
  intros [c|c|c|c|c|c|c|c|c|c|c|c|c|c|c|c] c' s s' fin Hk Hr;
    (eapply embed_allocates with (c := c); [|exact Hk|exact Hr]; done).
Qed.

(** A relay request taken out of a command leaves its identifier. *)
Lemma take_relay_key (c c' : AnyCommand) req :
  take_relay_reservation_request c = (c', req) -> command_key c' = command_key c.
Proof.
  unfold take_relay_reservation_request, AnyCommand_relay, default_take_relay.
  destruct c as [c|c|c|c|c|c|c|c|c|c|c|c|c|c|c|c]; try (intros; by simplify_eq).
  destruct (take_relay_reservation_request c). intros. by simplify_eq.
Qed.

End commands.
