(* ===== verification/LoopFrame.v ===== *)
(** * What a step of the event loop leaves alone

    The loop writes result cells that exist, queues events and inbound channels
    and stores response channels; it never allocates a result cell, and outside
    [handle_inbound_channel] it touches neither the quota registry nor the
    inbound queue.  Stated once here for the invariants of the whole node. *)
From S2P Require Import Prelude Externals Errors DataChannel PendingMap Config Handle Handler.
From S2P Require Import Commands EventLoop EventChain CommandChain SwarmIds.

Section frame.
Context `{N : NetTypes} {Sw C V : Type} `{!SwarmOps Sw, !HashOrder, !Mpsc}.
Implicit Types (el : EventLoop Sw C) (sh : Shared V).

(** The quota side of the shared state, the clock and the allocated cells. *)
Record shared_frame (sh sh' : Shared V) : Prop := {
  sf_limits : sh_limits sh' = sh_limits sh;
  sf_registry : sh_registry sh' = sh_registry sh;
  sf_next : sh_next_dc_id sh' = sh_next_dc_id sh;
  sf_inbound : sh_inbound sh' = sh_inbound sh;
  sf_now : sh_now sh' = sh_now sh;
  sf_cells : dom (sh_handles sh') = dom (sh_handles sh);
}.

#[export] Instance shared_frame_preorder : PreOrder shared_frame.
Proof.
  split; [by split|]. intros sh1 sh2 sh3 [? ? ? ? ? ?] [? ? ? ? ? ?]. split; congruence.
Qed.

Lemma finish_handle_frame loc sh (r : CResult V) : shared_frame sh (finish_handle loc sh r).
Proof.
  unfold finish_handle. destruct (sh_handles sh !! loc) as [st|] eqn:Hst; [|done].
  split; try done. simpl. rewrite dom_insert_L. apply elem_of_dom_2 in Hst. set_solver.
Qed.

Lemma finish_all_frame loc sh (fin : list (CResult V)) :
  shared_frame sh (foldl (finish_handle loc) sh fin).
Proof.
  revert sh. induction fin as [|r fin IH]; intros sh; simpl; [done|].
  etrans; [apply finish_handle_frame|apply IH].
Qed.

(** Results do not touch the response channels. *)
Lemma finish_all_pending loc sh (fin : list (CResult V)) :
  sh_pending (foldl (finish_handle loc) sh fin) = sh_pending sh.
Proof.
  revert sh. induction fin as [|r fin IH]; intros sh; simpl; [done|]. rewrite IH.
  unfold finish_handle. by destruct (sh_handles sh !! loc).
Qed.

Lemma convert_frame el sh ev : shared_frame sh (convert_to_node_event el sh ev).1.2.
Proof.
  destruct ev as [[p [rtt|e]|p info|[]|[]|ps|[]|e|a sv [u|x]|p r|]|p n|p n|o e| |a| | |];
    simpl; try done.
  unfold maybe_announce_lan_helper_addr. repeat case_match; simplify_eq/=; done.
Qed.

Context `{!CommandHandler Sw C V, !RelayRequester C, !Keyed C}.

Lemma deliver_all_frame s ev l sh : shared_frame sh (foldl (deliver s ev) sh l).
Proof.
  revert sh. induction l as [|t l IH]; intros sh; simpl; [done|].
  etrans; [apply finish_all_frame|apply IH].
Qed.

Lemma deliver_all_pending s ev l sh : sh_pending (foldl (deliver s ev) sh l) = sh_pending sh.
Proof.
  revert sh. induction l as [|t l IH]; intros sh; simpl; [done|].
  rewrite IH. apply finish_all_pending.
Qed.

Lemma handle_command_frame el sh cmd el' sh' :
  handle_command el sh cmd = Some (el', sh') -> shared_frame sh sh'.
Proof.
  unfold handle_command. repeat case_match; intros; simplify_eq; apply finish_all_frame.
Qed.

(** Running a command, taken apart: what was run, whatever became of it, is the
    last active command, and its results are in its own cell. *)
Lemma handle_command_inv el sh cmd el' sh' :
  handle_command el sh cmd = Some (el', sh') ->
  exists c s fin, run (task_handler cmd) (el_swarm el) = Some (c, s, fin)
    /\ el_active el'
       = el_active el ++ [mkTask (take_relay_reservation_request c).1 (task_handle cmd)]
    /\ sh' = foldl (finish_handle (task_handle cmd)) sh fin.
Proof.
  unfold handle_command. destruct (run _ _) as [[[c s] fin]|]; [|done].
  destruct (take_relay_reservation_request c) as [c' req] eqn:Ht. intros. simplify_eq.
  exists c, s, fin. rewrite Ht. split; [done|]. split; [|done]. simpl. f_equal.
  destruct req as [[p addrs]|]; [|done]. case_match; [|done].
  by destruct (request_relay_reservations_frame (el_set_swarm s el) p addrs) as [s' ->].
Qed.

(** A result in a cell was there before, or was put there now. *)
Lemma finish_all_result loc sh fin loc' st' (r : CResult V) :
  sh_handles (foldl (finish_handle loc) sh fin) !! loc' = Some st' -> rs_result st' = Some r ->
  (exists st, sh_handles sh !! loc' = Some st /\ rs_result st = Some r) \/ (loc' = loc /\ r ∈ fin).
Proof.
  revert sh. induction fin as [|r0 fin IH]; intros sh Hl Hr; simpl in *; [eauto|].
  destruct (IH _ Hl Hr) as [(st & Hst & Hr')|[-> Hin]]; [|right; set_solver].
  unfold finish_handle in Hst. destruct (sh_handles sh !! loc) as [st0|]; [|eauto].
  simpl in Hst. apply lookup_insert_Some in Hst as [[<- <-]|[_ Hst]]; [|eauto].
  simpl in Hr'. simplify_eq. right. set_solver.
Qed.

Lemma deliver_all_result s ev l sh loc st' (r : CResult V) :
  sh_handles (foldl (deliver s ev) sh l) !! loc = Some st' -> rs_result st' = Some r ->
  (exists st, sh_handles sh !! loc = Some st /\ rs_result st = Some r)
  \/ (exists t, t ∈ l /\ task_handle t = loc /\ r ∈ emitted s ev t).
Proof.
  revert sh. induction l as [|t l IH]; intros sh Hl Hr; simpl in *; [eauto|].
  destruct (IH _ Hl Hr) as [(st & Hst & Hr')|(u & Hu & Hh & Hin)]; [|right; exists u; set_solver].
  destruct (finish_all_result _ _ _ _ _ _ Hst Hr') as [?|[-> ?]]; [by left|].
  right. exists t. set_solver.
Qed.

Context `{!CommandHandlerLaws Sw C V}.

(** Handling an event, taken apart: the visit of the commands, then, if nobody
    consumed the event, its conversion. *)
Lemma handle_swarm_event_inv el sh ev el' sh' o :
  handle_swarm_event el sh ev = Some (el', sh', o) ->
  exists active sh1 remaining,
    chain_spec (el_swarm el) ev (el_active el) active sh sh1 remaining
    /\ (el', sh', o) = match remaining with
                       | None => (el_set_active active el, sh1, None)
                       | Some ev => convert_to_node_event (el_set_active active el) sh1 ev
                       end
    /\ el_active el' = active /\ sh_handles sh' = sh_handles sh1.
Proof using CommandHandlerLaws0.
  unfold handle_swarm_event. destruct (offer_event_spec ev el sh) as (r & active & sh1 & -> & Hc).
  destruct r as [ev'|]; intros He; eexists active, sh1, _; (split; [exact Hc|]); simpl.
  - injection He as He. split; [by rewrite He|].
    pose proof (convert_to_node_event_frame (el_set_active active el) sh1 ev') as Hf.
    rewrite He in Hf. destruct Hf as (-> & -> & _). done.
  - by simplify_eq.
Qed.

Lemma handle_swarm_event_frame el sh ev el' sh' o :
  handle_swarm_event el sh ev = Some (el', sh', o) -> shared_frame sh sh'.
Proof using CommandHandlerLaws0.
  intros (active & sh1 & r & (visited & rest & _ & _ & -> & _) & He & _)%handle_swarm_event_inv.
  destruct r as [ev'|]; simplify_eq; [|apply deliver_all_frame].
  pose proof (convert_frame (el_set_active active el) (foldl (deliver (el_swarm el) ev) sh visited) ev')
    as Hf. rewrite <- He in Hf. etrans; [apply deliver_all_frame|exact Hf].
Qed.

(** A response channel is stored for a request event alone, which the loop then
    reports under the identifier it is stored under. *)
Lemma handle_swarm_event_pending el sh ev el' sh' o id e :
  handle_swarm_event el sh ev = Some (el', sh', o) -> sh_pending sh' !! id = Some e ->
  sh_pending sh !! id = Some e
  \/ (exists p request, ev = Behaviour (CBE_ReqResp (RR_Request p request (value e)))
        /\ o = Some (InboundRequest p id request)).
Proof using CommandHandlerLaws0.
  intros (active & sh1 & r & (visited & rest & _ & _ & -> & Hr) & He & _)%handle_swarm_event_inv.
  destruct r as [ev'|]; simplify_eq; [|rewrite deliver_all_pending; by left].
  destruct Hr as [-> _].
  assert (sh_pending (foldl (deliver (el_swarm el) ev) sh visited) = sh_pending sh) as <-
    by apply deliver_all_pending.
  destruct ev as [[p [rtt|x]|p info|[]|[p request ch| | |]|ps|[]|x|a sv [u|x]|p q|]|p n|p n|x y| |a| | |];
    simplify_eq/=; try (by left).
  - unfold pm_insert. intros [[<- <-]|[_ ?]]%lookup_insert_Some; [right; by exists p, request|by left].
  - revert He. unfold maybe_announce_lan_helper_addr. repeat case_match; intros; simplify_eq/=; by left.
Qed.

Lemma handle_swarm_event_reports el sh ev el' sh' p id request :
  handle_swarm_event el sh ev = Some (el', sh', Some (InboundRequest p id request)) ->
  exists ch, ev = Behaviour (CBE_ReqResp (RR_Request p request ch)).
Proof using CommandHandlerLaws0.
  intros (active & sh1 & r & (visited & rest & _ & _ & -> & Hr) & He & _)%handle_swarm_event_inv.
  destruct r as [ev'|]; simplify_eq. destruct Hr as [-> _].
  destruct ev as [[q [rtt|x]|q info|[]|[q request' ch| | |]|ps|[]|x|a sv [u|x]|q x|]|q n|q n|x y| |a| | |];
    simplify_eq/=; try (by destruct x); try (by repeat case_match); by eexists.
Qed.

(** The active commands after an event keep identifiers and handles. *)
Lemma chain_spec_sub s ev active active' sh sh' remaining t' :
  chain_spec s ev active active' sh sh' remaining -> t' ∈ active' ->
  exists t, t ∈ active /\ task_key t' = task_key t /\ task_handle t' = task_handle t.
Proof using CommandHandlerLaws0.
  intros (visited & rest & Hp & Hp' & _). rewrite Hp'.
  intros [(t & Ht & Hs)%list_elem_of_omap|Ht]%elem_of_app.
  - exists t. split; [rewrite <- Hp; set_solver|]. by apply survivor_key in Hs.
  - exists t'. split; [rewrite <- Hp; set_solver|done].
Qed.

End frame.

(** ** The two handlers and the swarm *)

Section swarm.
Context `{N : NetTypes} {Sw : Type} `{!SwarmOps Sw, !HashOrder, !Mpsc}.
Implicit Types (el : EventLoop Sw AnyCommand) (sh : Shared CmdValue).

Lemma handle_swarm_event_book el sh ev el' sh' o :
  handle_swarm_event el sh ev = Some (el', sh', o) -> rtc book_op (el_swarm el) (el_swarm el').
Proof.
  intros (active & sh1 & r & _ & He & _)%handle_swarm_event_inv.
  destruct r as [ev'|]; simplify_eq; [|done].
  pose proof (convert_book (el_set_active active el) sh1 ev') as Hops. by rewrite <- He in Hops.
Qed.

Lemma handle_swarm_event_ops el sh ev el' sh' o :
  handle_swarm_event el sh ev = Some (el', sh', o) -> rtc swarm_op (el_swarm el) (el_swarm el').
Proof. intros He. apply book_ops. by eapply handle_swarm_event_book. Qed.

(** Running a command, on the swarm: the command's [run], then at most a relay
    reservation. *)
Lemma handle_command_swarm el sh cmd el' sh' :
  handle_command el sh cmd = Some (el', sh') ->
  exists c s fin, run (task_handler cmd) (el_swarm el) = Some (c, s, fin)
    /\ el_active el'
       = el_active el ++ [mkTask (take_relay_reservation_request c).1 (task_handle cmd)]
    /\ rtc book_op s (el_swarm el').
Proof.
  unfold handle_command. destruct (run _ _) as [[[c s] fin]|]; [|done].
  destruct (take_relay_reservation_request c) as [c' req] eqn:Ht. intros. simplify_eq. simpl.
  exists c, s, fin. rewrite Ht. split; [done|]. simpl.
  destruct req as [[p addrs]|]; [|done]. case_match; [|done].
  destruct (request_relay_reservations_frame (el_set_swarm s el) p addrs) as [s2 He].
  rewrite He. split; [done|]. rewrite <- He. apply (relay_reservations_book (el_set_swarm s el)).
Qed.

(** Running a command: it becomes the last active one; either it has no
    identifier, or its identifier was allocated by this very run. *)
Lemma handle_command_spec el sh cmd el' sh' :
  handle_command el sh cmd = Some (el', sh') -> task_key cmd = None ->
  exists c, el_active el' = el_active el ++ [mkTask c (task_handle cmd)]
    /\ ((command_key c = None /\ rtc swarm_op (el_swarm el) (el_swarm el'))
        \/ exists k s, command_key c = Some k /\ swarm_alloc (el_swarm el) s k
             /\ rtc swarm_op s (el_swarm el')).
Proof.
  intros (c & s & fin & Hr & Ha & Hops%book_ops)%handle_command_swarm Hk.
  destruct (take_relay_reservation_request c) as [c' req] eqn:Ht. apply take_relay_key in Ht.
  exists c'. split; [done|]. rewrite Ht.
  destruct (run_allocates (task_handler cmd) _ _ _ _ Hk Hr) as [[Hn Hs]|(k & Hk' & Hal)].
  - left. split; [done|]. by etrans.
  - right. by exists k, s.
Qed.

End swarm.
