(* ===== verification/Trace.v ===== *)
(** * A swarm that remembers

    [Traced] runs any swarm and logs, in order, the events it yields, the calls
    that gave out an identifier and the responses it accepted.  The log is a
    specification device: the theorems on what calls return ([Isolation],
    [Answers]) and on several nodes ([Network]) are stated on it. *)
From S2P Require Import Prelude Externals Errors DataChannel PendingMap Config Handle Handler.
From S2P Require Import BasicCommands KadCommands KadQueries ReqRespCommands Commands.
From S2P Require Import EventLoop EventChain CommandChain SwarmIds LoopFrame.

Section traced.
Context `{N : NetTypes}.

(** The calls that give out an identifier, with their arguments. *)
Inductive IdCall :=
| IBootstrap
| IPutRecord (r : KadRecord)
| IStartProviding (k : RecordKey)
| IGetRecord (k : RecordKey)
| IGetProviders (k : RecordKey)
| IGetClosestPeers (k : RecordKey)
| ISendRequest (p : PeerId) (request : Req).

Inductive Observation :=
| OYield (ev : SwarmEvent)
| OAlloc (c : IdCall) (k : CKey)
| OAnswer (channel : ResponseChannel) (response : Resp).

Definition yielded (o : Observation) : option SwarmEvent :=
  match o with OYield ev => Some ev | _ => None end.
Definition allocated (o : Observation) : option CKey :=
  match o with OAlloc _ k => Some k | _ => None end.

Record Traced (S : Type) := mkTraced { tr_swarm : S; tr_log : list Observation }.
Arguments mkTraced {S} _ _.
Arguments tr_swarm {S} _.
Arguments tr_log {S} _.

(** The events a swarm has yielded, the identifiers it has given out. *)
Definition tr_events {S} (s : Traced S) : list SwarmEvent := omap yielded (tr_log s).
Definition tr_ids {S} (s : Traced S) : list CKey := omap allocated (tr_log s).

Definition tr_upd {S} (s : Traced S) (s' : S) : Traced S := mkTraced s' (tr_log s).
Definition tr_upd_r {S A} (s : Traced S) (r : S * A) : Traced S * A := (tr_upd s r.1, r.2).

(** Logging what a call's result says. *)
Definition tr_note {S A} (note : A -> option Observation) (s : Traced S) (r : S * A) : Traced S * A :=
  (mkTraced r.1 (tr_log s ++ option_list (note r.2)), r.2).
Definition on_id {A} (c : IdCall) (k : A -> CKey) (a : A) : option Observation := Some (OAlloc c (k a)).
Definition on_ok {A E} (c : IdCall) (k : A -> CKey) (r : Result A E) : option Observation :=
  match r with Ok a => Some (OAlloc c (k a)) | Err _ => None end.
Definition on_answer (c : ResponseChannel) (response : Resp) (r : Result unit Resp) : option Observation :=
  match r with Ok _ => Some (OAnswer c response) | Err _ => None end.

#[export] Instance Traced_ops {Sw : Type} `{!SwarmOps Sw} : SwarmOps (Traced Sw) := {
  sw_is_connected s := sw_is_connected (tr_swarm s);
  sw_dial s p := tr_upd_r s (sw_dial (tr_swarm s) p);
  sw_disconnect_peer_id s p := tr_upd_r s (sw_disconnect_peer_id (tr_swarm s) p);
  sw_listeners s := sw_listeners (tr_swarm s);
  sw_external_addresses s := sw_external_addresses (tr_swarm s);
  sw_add_peer_address s p a := tr_upd s (sw_add_peer_address (tr_swarm s) p a);
  sw_add_external_address s a := tr_upd s (sw_add_external_address (tr_swarm s) a);
  sw_listen_on s a := tr_upd_r s (sw_listen_on (tr_swarm s) a);
  sw_relay_client_is_enabled s := sw_relay_client_is_enabled (tr_swarm s);
  sw_relay_server_is_enabled s := sw_relay_server_is_enabled (tr_swarm s);
  kad_add_address s p a := tr_upd s (kad_add_address (tr_swarm s) p a);
  kad_bootstrap s := tr_note (on_ok IBootstrap KQuery) s (kad_bootstrap (tr_swarm s));
  kad_put_record s r := tr_note (on_ok (IPutRecord r) KQuery) s (kad_put_record (tr_swarm s) r);
  kad_start_providing s k :=
    tr_note (on_ok (IStartProviding k) KQuery) s (kad_start_providing (tr_swarm s) k);
  kad_stop_providing s k := tr_upd s (kad_stop_providing (tr_swarm s) k);
  kad_remove_record s k := tr_upd s (kad_remove_record (tr_swarm s) k);
  kad_get_record s k := tr_note (on_id (IGetRecord k) KQuery) s (kad_get_record (tr_swarm s) k);
  kad_get_providers s k :=
    tr_note (on_id (IGetProviders k) KQuery) s (kad_get_providers (tr_swarm s) k);
  kad_get_closest_peers s k :=
    tr_note (on_id (IGetClosestPeers k) KQuery) s (kad_get_closest_peers (tr_swarm s) k);
  rr_send_request s p r :=
    tr_note (on_id (ISendRequest p r) KRequest) s (rr_send_request (tr_swarm s) p r);
  rr_send_response s c r := tr_note (on_answer c r) s (rr_send_response (tr_swarm s) c r);
}.

#[export] Instance Traced_poll {Sw : Type} `{!SwarmPoll Sw} : SwarmPoll (Traced Sw) := fun s o s' =>
  sw_poll (tr_swarm s) o (tr_swarm s') /\ tr_log s' = tr_log s ++ option_list (OYield <$> o).

#[export] Instance Traced_ids {Sw : Type} `{!SwarmIds Sw} : SwarmIds (Traced Sw) :=
  fun s k => sw_issued (tr_swarm s) k.

(** One state comes after another. *)
Definition tr_le {S} (s s' : Traced S) : Prop := tr_log s `prefix_of` tr_log s'.

#[export] Instance tr_le_preorder {S} : PreOrder (@tr_le S).
Proof. unfold tr_le. split; [by intros s|]. intros s1 s2 s3 H12 H23. by etrans. Qed.

(** The identifier call a command makes when it runs. *)
Definition id_call (c : AnyCommand) : option IdCall :=
  match c with
  | ABootstrap _ => Some IBootstrap
  | APutRecord c => Some (IPutRecord (pr_record c))
  | AStartProvide c => Some (IStartProviding (sp_key c))
  | AGetRecord c => Some (IGetRecord (gr_key c))
  | AGetProviders c => Some (IGetProviders (gp_key c))
  | AGetClosestPeers c => Some (IGetClosestPeers (gc_key c))
  | ASendRequest c => ISendRequest (sr_peer_id c) <$> sr_request c
  | _ => None
  end.

End traced.
Arguments Traced {_} _.
Arguments mkTraced {_ S} _ _.
Arguments tr_swarm {_ S} _.
Arguments tr_log {_ S} _.

(** ** What is logged *)

Section log.
Context `{N : NetTypes} {Sw : Type} `{!SwarmOps Sw}.
Implicit Types (s : Traced Sw).

Lemma tr_events_app s s' l : tr_log s' = tr_log s ++ l -> tr_events s' = tr_events s ++ omap yielded l.
Proof. unfold tr_events. intros ->. apply omap_app. Qed.

Lemma tr_ids_app s s' l : tr_log s' = tr_log s ++ l -> tr_ids s' = tr_ids s ++ omap allocated l.
Proof. unfold tr_ids. intros ->. apply omap_app. Qed.

(** Addresses and connections leave no trace. *)
Lemma book_log s s' : rtc book_op s s' -> tr_log s' = tr_log s.
Proof. induction 1 as [|s1 s2 s3 H12 _ IH]; [done|]. rewrite IH. by destruct H12. Qed.

(** A call logs at most one thing, and never an event. *)
Lemma op_log s s' :
  swarm_op s s' -> exists o, tr_log s' = tr_log s ++ option_list o /\ (o ≫= yielded) = None.
Proof.
  destruct 1; simpl; try (exists None; split; [by rewrite app_nil_r|done]);
    first [by exists (Some (OAlloc _ _))|by eexists (Some (OAlloc _ _))
          |eexists; split; [reflexivity|]]; unfold on_ok, on_answer; by case_match.
Qed.

Lemma alloc_log s s' k : swarm_alloc s s' k -> exists c, tr_log s' = tr_log s ++ [OAlloc c k].
Proof.
  destruct 1 as [s' id He|r s' id He|x s' id He|x s' id He|x s' id He|x s' id He|p r s' id He];
    unfold tr_note, on_id, on_ok in He; simpl in He; injection He as <- Hid; simpl;
    rewrite Hid; by eexists.
Qed.

Lemma op_events s s' : swarm_op s s' -> tr_events s' = tr_events s.
Proof.
  intros ([o|] & ->%tr_events_app & Ho)%op_log; simpl in *; [rewrite Ho|]; by rewrite app_nil_r.
Qed.

Lemma ops_events s s' : rtc swarm_op s s' -> tr_events s' = tr_events s.
Proof. induction 1 as [|? ? ? ?%op_events _ IH]; [done|congruence]. Qed.

Lemma ops_le s s' : rtc swarm_op s s' -> tr_le s s'.
Proof.
  induction 1 as [|s1 s2 s3 (o & Ho & _)%op_log _ IH]; [done|]. etrans; [|exact IH].
  unfold tr_le. rewrite Ho. by apply prefix_app_r.
Qed.

Lemma book_events s s' : rtc book_op s s' -> tr_events s' = tr_events s.
Proof. unfold tr_events. by intros ->%book_log. Qed.

(** What was yielded between two states. *)
Lemma tr_le_events s s' : tr_le s s' -> exists later, tr_events s' = tr_events s ++ later.
Proof. intros [l Hl]. eexists. by apply tr_events_app. Qed.

Lemma tr_le_elem s s' x : tr_le s s' -> x ∈ tr_log s -> x ∈ tr_log s'.
Proof. intros [l ->] ?. set_solver. Qed.

(** Yielding. *)
Lemma poll_events `{!SwarmPoll Sw} s o s' : sw_poll s o s' -> tr_events s' = tr_events s ++ option_list o.
Proof. intros [_ ->%tr_events_app]. by destruct o. Qed.

Lemma poll_le `{!SwarmPoll Sw} s o s' : sw_poll s o s' -> tr_le s s'.
Proof. intros [_ Hl]. unfold tr_le. rewrite Hl. by apply prefix_app_r. Qed.

End log.

(** ** Identifiers on the traced swarm *)

Section ids.
Context `{N : NetTypes} {Sw : Type} `{!SwarmOps Sw, !SwarmPoll Sw, !SwarmIds Sw, !SwarmIdLaws Sw}.
Implicit Types (s : Traced Sw).

Lemma op_untraced s s' : swarm_op s s' -> swarm_op (tr_swarm s) (tr_swarm s').
Proof. destruct 1; constructor. Qed.

Lemma alloc_untraced s s' k : swarm_alloc s s' k -> swarm_alloc (tr_swarm s) (tr_swarm s') k.
Proof.
  destruct 1 as [s' id He|r s' id He|x s' id He|x s' id He|x s' id He|x s' id He|p r s' id He];
    apply (f_equal (fun x => (tr_swarm x.1, x.2))) in He; simpl in He; rewrite <- surjective_pairing in He;
    by econstructor.
Qed.

#[export] Instance Traced_relay_toggle `{!RelayToggle Sw} : RelayToggle (Traced Sw).
Proof.
  split.
  - intros s s' Ho%op_untraced. exact (relay_client_op _ _ Ho).
  - intros s o s' [Hp _]. exact (relay_client_poll _ _ _ Hp).
Qed.

#[export] Instance Traced_id_laws : SwarmIdLaws (Traced Sw).
Proof.
  split.
  - intros s s' k Ho%op_untraced. exact (issued_op _ _ k Ho).
  - intros s o s' k [Hp _]. exact (issued_poll _ _ _ k Hp).
  - intros s s' k Ha%alloc_untraced. exact (issued_alloc _ _ k Ha).
Qed.

(** An identifier is given out once. *)
Definition ids_once (s : Traced Sw) : Prop :=
  NoDup (tr_ids s) /\ forall k, k ∈ tr_ids s -> sw_issued s k.

Lemma ids_once_mono s s' :
  tr_ids s' = tr_ids s -> (forall k, sw_issued s k -> sw_issued s' k) -> ids_once s -> ids_once s'.
Proof. intros Hi Hm [Hn Hs]. split; rewrite Hi; auto. Qed.

Lemma poll_ids_once s o s' : sw_poll s o s' -> ids_once s -> ids_once s'.
Proof.
  intros Hp. apply ids_once_mono; [|intros k; by eapply issued_poll].
  destruct Hp as [_ Hl]. rewrite (tr_ids_app _ _ _ Hl). by destruct o; rewrite app_nil_r.
Qed.

Lemma book_ids_once s s' : rtc book_op s s' -> ids_once s -> ids_once s'.
Proof.
  intros Hb. apply ids_once_mono; [unfold tr_ids; by rewrite (book_log _ _ Hb)|].
  intros k. by apply issued_ops, book_ops.
Qed.

Lemma alloc_ids_once s s' k : swarm_alloc s s' k -> ids_once s -> ids_once s'.
Proof.
  intros Ha [Hn Hs]. destruct (alloc_log _ _ _ Ha) as (c & Hl%tr_ids_app).
  destruct (issued_alloc _ _ _ Ha) as [Hfresh Hk]. unfold ids_once. rewrite Hl. simpl. split.
  - apply NoDup_app. split; [done|]. split; [|apply NoDup_singleton].
    intros x Hx ->%list_elem_of_singleton. by apply Hfresh, Hs.
  - intros x [Hx| ->%list_elem_of_singleton]%elem_of_app; [|done].
    eapply issued_op; [by eapply alloc_op|]. by apply Hs.
Qed.

(** An identifier belongs to one call. *)
Lemma ids_once_inj s c c' k :
  ids_once s -> OAlloc c k ∈ tr_log s -> OAlloc c' k ∈ tr_log s -> c = c'.
Proof.
  intros [Hn _] (l1 & l2 & Hl)%list_elem_of_split Hc'. unfold tr_ids in Hn. rewrite Hl in Hn, Hc'.
  rewrite omap_app in Hn. simpl in Hn. apply NoDup_app in Hn as (_ & Hd & [Hd2 _]%NoDup_cons).
  apply elem_of_app in Hc' as [Hc'|[[=]|Hc']%elem_of_cons].
  - exfalso. apply (Hd k); [|by left]. apply list_elem_of_omap. by eexists.
  - done.
  - exfalso. apply Hd2. apply list_elem_of_omap. by eexists.
Qed.

End ids.

(** ** What a command logs *)

Section commands.
Context `{N : NetTypes} {Sw : Type} `{!SwarmOps Sw, !HashOrder}.
Implicit Types (s : Traced Sw).

(** Nothing, its identifier, or the response it gives. *)
Definition logs (c c' : AnyCommand) (l : list Observation) : Prop :=
  l = []
  \/ (exists call k, l = [OAlloc call k] /\ id_call c = Some call /\ command_key c' = Some k)
  \/ (exists ch resp, l = [OAnswer ch resp] /\ c = ASendResponse (SendResponseCommand_new ch resp)).

Lemma fold_unlogged {A} (f : Traced Sw -> A -> Traced Sw) (l : list A) s :
  (forall s a, tr_log (f s a) = tr_log s) -> tr_log (foldl f s l) = tr_log s.
Proof. intros Hf. revert s. induction l as [|a l IH]; intros s; simpl; [done|]. by rewrite IH. Qed.

Lemma run_log c s c' s' fin :
  run c s = Some (c', s', fin) -> exists l, tr_log s' = tr_log s ++ l /\ logs c c' l.
Proof.
  assert (forall s', tr_log s' = tr_log s -> exists l, tr_log s' = tr_log s ++ l /\ logs c c' l) as Hnil
    by (intros s1 Hs1; exists []; rewrite app_nil_r; split; [done|by left]).
  destruct c as [c|c|c|c|c|c|c|c|c|c|c|c|c|c|c|c]; simpl; unfold run_boxed_as, H_map, fmap, H_fmap; simpl;
    unfold DialCommand_run, DisconnectCommand_run, IsConnectedCommand_run, GetListenAddrsCommand_run,
      AddPeerAddrsCommand_run, AddInfrastructurePeerCommand_run, BootstrapCommand_run,
      GetClosestPeersCommand_run, GetProvidersCommand_run, GetRecordCommand_run, PutRecordCommand_run,
      StartProvideCommand_run, StopProvideCommand_run, RemoveRecordCommand_run, SendRequestCommand_run,
      SendResponseCommand_run; run_H; intros Hr; repeat (case_match; simpl in Hr); simplify_eq/=;
    try (apply Hnil; first [reflexivity|by apply fold_unlogged]).
  all: try (exists []; split; [done|by left]).
  all: eexists; (split; [reflexivity|]); right.
  1-6: left; eexists _, _; (split; [reflexivity|]); by split.
  - left. eexists _, _. split; [done|]. split; [|done]. simpl. by match goal with Hq : sr_request _ = _ |- _ => rewrite Hq end.
  - right. destruct c as [ch resp]. simpl in *. simplify_eq. by eexists _, _.
Qed.

End commands.
