(* ===== verification/NodeEvents.v ===== *)
(** * What the front end sees

    Theorems on the conversion of unconsumed swarm events: the connection view
    reconstructed from the node events, the identifiers of inbound requests,
    and the hand-over of inbound data channels, which never blocks the loop. *)
From S2P Require Import Prelude Externals Errors DataChannel PendingMap Config Handle Handler.
From S2P Require Import EventLoop EventChain.

(** ** Connection histories *)

Section connections.
Context `{N : NetTypes}.

(** The swarm's own accounting: [num_established] after the event. *)
Definition conn_next (m : gmap PeerId Z) (ev : SwarmEvent) : option (gmap PeerId Z) :=
  match ev with
  | ConnectionEstablished p n =>
      if decide (n = counter_get m p + 1)%Z then Some (<[p := n]> m) else None
  | ConnectionClosed p n =>
      if decide (0 < counter_get m p /\ n = counter_get m p - 1)%Z then Some (<[p := n]> m)
      else None
  | _ => Some m
  end.

Fixpoint conn_exec (m : gmap PeerId Z) (evs : list SwarmEvent) : option (gmap PeerId Z) :=
  match evs with
  | [] => Some m
  | ev :: evs => conn_next m ev ≫= fun m => conn_exec m evs
  end.

(** What a client that keeps a set of connected peers does with a node event;
    [None]: a peer reported connected twice, or disconnected without being so. *)
Definition view_next (v : gset PeerId) (e : NodeEvent) : option (gset PeerId) :=
  match e with
  | PeerConnected p => if decide (p ∈ v) then None else Some ({[p]} ∪ v)
  | PeerDisconnected p => if decide (p ∈ v) then Some (v ∖ {[p]}) else None
  | _ => Some v
  end.

Fixpoint view_exec (v : gset PeerId) (es : list NodeEvent) : option (gset PeerId) :=
  match es with
  | [] => Some v
  | e :: es => view_next v e ≫= fun v => view_exec v es
  end.

(** The abstraction relation: the view is the set of peers with a connection. *)
Definition view_of (m : gmap PeerId Z) (v : gset PeerId) : Prop :=
  forall p, (0 <= counter_get m p)%Z /\ (p ∈ v <-> (0 < counter_get m p)%Z).

Lemma counter_get_insert (m : gmap PeerId Z) p n q :
  counter_get (<[p := n]> m) q = if decide (p = q) then n else counter_get m q.
Proof. unfold counter_get. rewrite lookup_insert. by case_decide. Qed.

(** The node event of one swarm event that no command consumes. *)
Definition conn_event (ev : SwarmEvent) : option NodeEvent :=
  match ev with
  | ConnectionEstablished p n => if (n =? 1)%Z then Some (PeerConnected p) else None
  | ConnectionClosed p n => if (n =? 0)%Z then Some (PeerDisconnected p) else None
  | _ => None
  end.

(** Changing the count of [p] asks for a view that changes at [p] only. *)
Lemma view_update m v p n (o : option (gset PeerId)) :
  view_of m v -> (0 <= n)%Z ->
  (exists v', o = Some v' /\ (p ∈ v' <-> (0 < n)%Z) /\ forall q, q <> p -> (q ∈ v' <-> q ∈ v)) ->
  exists v', o = Some v' /\ view_of (<[p := n]> m) v'.
Proof.
  intros Hv Hn (v' & -> & Hp & Hq). exists v'. split; [done|]. intros q.
  rewrite counter_get_insert. case_decide as He; [by subst|].
  rewrite Hq by done. apply Hv.
Qed.

(** One event simulates: the view follows the counts. *)
Lemma view_simulates m m' v ev :
  view_of m v -> conn_next m ev = Some m' ->
  exists v', view_exec v (option_list (conn_event ev)) = Some v' /\ view_of m' v'.
Proof.
  intros Hv Hm. destruct ev as [|p n|p n| | | | | |]; simpl in Hm; simplify_eq; [by exists v| | |by exists v..].
  - case_decide as Hn; [|done]. simplify_eq. pose proof (proj1 (Hv p)). apply (view_update m v p); [done|lia|]. simpl.
    destruct (Z.eqb_spec (counter_get m p + 1) 1); simpl.
    + rewrite decide_False by (rewrite (proj2 (Hv p)); lia). eexists. split; [done|].
      split; [split; [lia|set_solver]|set_solver].
    + exists v. split; [done|]. split; [rewrite (proj2 (Hv p)); lia|done].
  - case_decide as Hn; [|done]. destruct Hn as [Hpos ->]. simplify_eq.
    apply (view_update m v p); [done|lia|]. simpl.
    destruct (Z.eqb_spec (counter_get m p - 1) 0); simpl.
    + rewrite decide_True by (rewrite (proj2 (Hv p)); lia). eexists. split; [done|].
      split; [split; [set_solver|lia]|set_solver].
    + exists v. split; [done|]. split; [rewrite (proj2 (Hv p)); lia|done].
Qed.

Lemma view_exec_app v es es' :
  view_exec v (es ++ es') = view_exec v es ≫= fun v => view_exec v es'.
Proof.
  revert v. induction es as [|e es IH]; intros v; [done|]. simpl.
  destruct (view_next v e); [apply IH|done].
Qed.

End connections.

Section loop.
Context `{N : NetTypes} {Sw C V : Type}.
Context `{!SwarmOps Sw, !HashOrder, !Mpsc, !CommandHandler Sw C V, !RelayRequester C, !Keyed C}.
Context `{!CommandHandlerLaws Sw C V}.
Implicit Types (el : EventLoop Sw C) (sh : Shared V).

(** An event without identifier is never consumed, so it is converted. *)
Lemma unkeyed_converted el sh ev :
  event_key ev = None ->
  exists active sh',
    handle_swarm_event el sh ev
    = Some (convert_to_node_event (el_set_active active el) sh' ev).
Proof using CommandHandlerLaws0.
  intros He. destruct (offer_event_spec ev el sh) as (r & active & sh' & Ho & Hc).
  exists active, sh'. unfold handle_swarm_event. rewrite Ho.
  destruct Hc as (visited & rest & _ & _ & _ & Hr). destruct r as [ev'|].
  - by destruct Hr as (-> & _).
  - destruct Hr as (before & t & _ & _ & Hcons).
    apply consumes_key in Hcons as (k & Hk & _). congruence.
Qed.

(** The front-end event emitted for one swarm event. *)
Definition out_of el sh ev : option NodeEvent :=
  match handle_swarm_event el sh ev with Some (_, _, o) => o | None => None end.

Lemma convert_conn el sh ev v :
  view_exec v (option_list (convert_to_node_event el sh ev).2)
  = view_exec v (option_list (conn_event ev)).
Proof.
  destruct ev as [[p [rtt|e]|p info|[]|[]|ps|[]|[]|a sv [u|x]|p [u|x]|]|p n|p n|o e| |a| | |];
    simpl; try done; try (by destruct (maybe_announce_lan_helper_addr el sh a)).
Qed.

(** Whatever the commands do, the view sees exactly the connection event. *)
Lemma out_of_conn el sh ev v :
  view_exec v (option_list (out_of el sh ev)) = view_exec v (option_list (conn_event ev)).
Proof using CommandHandlerLaws0.
  unfold out_of, handle_swarm_event.
  destruct (offer_event_spec ev el sh) as (r & active & sh' & -> & Hc).
  destruct Hc as (visited & rest & _ & _ & _ & Hr). destruct r as [ev'|].
  - destruct Hr as (-> & _). pose proof (convert_conn (el_set_active active el) sh' ev v) as Hv.
    by destruct (convert_to_node_event _ _ _) as [[? ?] ?].
  - destruct Hr as (before & t & _ & _ & Hcons).
    apply consumes_key in Hcons as (k & Hk & _). by destruct ev.
Qed.

Lemma view_trace (trace : list (EventLoop Sw C * Shared V * SwarmEvent)) m m' v :
  conn_exec m trace.*2 = Some m' -> view_of m v ->
  exists v', view_exec v (omap (fun x => out_of x.1.1 x.1.2 x.2) trace) = Some v' /\ view_of m' v'.
Proof using CommandHandlerLaws0.
  revert m v. induction trace as [|[[el sh] ev] trace IH]; intros m v Hm Hv; simpl in Hm.
  { simplify_eq. by exists v. }
  destruct (conn_next m ev) as [m1|] eqn:Hm1; [|done]. simpl in Hm.
  destruct (view_simulates _ _ _ _ Hv Hm1) as (v1 & Hv1 & Hof).
  destruct (IH _ _ Hm Hof) as (v' & Hv' & Hof'). exists v'. split; [|done].
  rewrite <- (out_of_conn el sh) in Hv1. simpl.
  replace (match out_of el sh ev with Some y => y :: _ | None => _ end)
    with (option_list (out_of el sh ev) ++ omap (fun x => out_of x.1.1 x.1.2 x.2) trace)
    by (by destruct (out_of el sh ev)).
  by rewrite view_exec_app, Hv1.
Qed.

End loop.

(** ** Inbound requests *)

Section requests.
Context `{N : NetTypes} {Sw C V : Type} `{!SwarmOps Sw, !HashOrder, !Mpsc}.
Implicit Types (el : EventLoop Sw C) (sh : Shared V).

(** A run of inbound requests, collecting the identifiers handed out. *)
Fixpoint inbound_requests el sh (chans : list ResponseChannel) :
    EventLoop Sw C * Shared V * list Z :=
  match chans with
  | [] => (el, sh, [])
  | ch :: chans =>
      let '(el, sh, id) := on_inbound_request el sh ch in
      let '(el, sh, ids) := inbound_requests el sh chans in
      (el, sh, id :: ids)
  end.

Lemma inbound_requests_spec el sh chans n :
  el_pending_id_counter el = n -> (0 <= n)%Z -> (n + Z.of_nat (length chans) <= u64_max)%Z ->
  let '(el', sh', ids) := inbound_requests el sh chans in
  ids = (fun i => (n + Z.of_nat i)%Z) <$> seq 0 (length chans)
  /\ sh_pending sh'
     = foldl (fun m x => <[x.1 := mkEntry x.2 (sh_now sh)]> m) (sh_pending sh) (zip ids chans)
  /\ el_pending_id_counter el' = (n + Z.of_nat (length chans))%Z.
Proof.
  revert el sh n. induction chans as [|ch chans IH]; intros el sh n Hn Hnn Hmax; simpl.
  { by rewrite Z.add_0_r. }
  set (el1 := el_set_counter _ el). set (sh1 := sh_set_pending _ sh).
  simpl in Hmax. specialize (IH el1 sh1 (n + 1)%Z).
  destruct (inbound_requests el1 sh1 chans) as [[el' sh'] ids].
  destruct IH as (-> & Hp & Hc); [simpl; rewrite Hn; apply wrap64_small; u64_lia|lia|lia|].
  split_and!.
  - f_equal; [rewrite Hn; simpl; lia|]. rewrite <- fmap_S_seq, <- list_fmap_compose.
    apply list_fmap_ext. intros i x _. simpl. lia.
  - simpl in Hp |- *. by rewrite Hp.
  - lia.
Qed.

Lemma pending_lookup (now : Z) (l : list (Z * ResponseChannel))
    (m : gmap Z (PendingEntry ResponseChannel)) id ch :
  NoDup l.*1 -> (id, ch) ∈ l ->
  foldl (fun m x => <[x.1 := mkEntry x.2 now]> m) m l !! id = Some (mkEntry ch now).
Proof.
  intros Hnd Hin. induction l as [|x l IH] using rev_ind; [by apply elem_of_nil in Hin|].
  rewrite fmap_app in Hnd. apply NoDup_app in Hnd as (Hnd & Hx & _).
  rewrite foldl_app. simpl. apply elem_of_app in Hin as [Hin|Hin].
  - rewrite lookup_insert_ne; [by apply IH|]. intros He.
    apply (Hx id); [by apply (list_elem_of_fmap_2 fst) in Hin|]. rewrite <- He. simpl. set_solver.
  - apply list_elem_of_singleton in Hin as <-. by rewrite lookup_insert_eq.
Qed.

End requests.

(** ** Properties *)

(** C5. The connection view of a client is right: fold the node events of any
    sequence of swarm events, each handled in an arbitrary state of the loop
    (whatever commands are active), into a set that adds the peer of each
    [PeerConnected] and removes that of each [PeerDisconnected]; if the swarm's
    [num_established] counts its connections, the set is defined at every event
    (no peer is reported connected twice or disconnected without being
    connected) and is exactly the set of peers with at least one connection. *)
Theorem connection_view `{N : NetTypes} {Sw C V}
    `{!SwarmOps Sw, !HashOrder, !Mpsc, !CommandHandler Sw C V, !RelayRequester C, !Keyed C}
    `{!CommandHandlerLaws Sw C V}
    (trace : list (EventLoop Sw C * Shared V * SwarmEvent)) (m : gmap PeerId Z) :
  conn_exec ∅ trace.*2 = Some m ->
  exists v, view_exec ∅ (omap (fun x => out_of x.1.1 x.1.2 x.2) trace) = Some v
    /\ forall p, p ∈ v <-> (0 < counter_get m p)%Z.
Proof.
  intros Hm. destruct (view_trace trace ∅ m ∅ Hm) as (v & Hv & Hof).
  - intros p. unfold counter_get. rewrite lookup_empty. simpl. split; [lia|set_solver by lia].
  - exists v. split; [done|]. intros p. apply Hof.
Qed.

(** C31. Inbound requests get consecutive identifiers, all different, and each
    response channel can afterwards be taken under its own identifier (and no
    other), as long as fewer than 2^64 requests have been counted. *)
Theorem pending_ids_fresh `{N : NetTypes} {Sw C V} `{!SwarmOps Sw, !HashOrder, !Mpsc}
    (el : EventLoop Sw C) (sh : Shared V) (chans : list ResponseChannel) :
  (0 <= el_pending_id_counter el)%Z ->
  (el_pending_id_counter el + Z.of_nat (length chans) <= u64_max)%Z ->
  let '(el', sh', ids) := inbound_requests el sh chans in
  NoDup ids
  /\ forall i id ch, ids !! i = Some id -> chans !! i = Some ch ->
       id = (el_pending_id_counter el + Z.of_nat i)%Z
       /\ (pm_take id (sh_pending sh')).2 = Some ch.
Proof.
  intros Hnn Hmax. pose proof (inbound_requests_spec el sh chans _ eq_refl Hnn Hmax) as Hs.
  destruct (inbound_requests el sh chans) as [[el' sh'] ids]. destruct Hs as (Hids & Hp & _).
  assert (NoDup ids) as Hnd.
  { rewrite Hids. apply NoDup_fmap_2; [intros ? ? ?; lia|apply NoDup_seq]. }
  assert (length ids = length chans) as Hlen by (by rewrite Hids, length_fmap, length_seq).
  split; [done|]. intros i id ch Hid Hch. split.
  - rewrite Hids, list_lookup_fmap in Hid.
    rewrite lookup_seq_lt in Hid by (by eapply lookup_lt_Some). simpl in Hid. congruence.
  - simpl. rewrite Hp, (pending_lookup _ _ _ _ ch); [done| |].
    + by rewrite fst_zip by lia.
    + apply list_elem_of_lookup. exists i. apply lookup_zip_with_Some. eauto.
Qed.

(** C23. Taking over an inbound data channel never blocks the loop and never
    leaks quota.  Over its limit the stream is dropped and nothing changes;
    within the limits a handle with a fresh identifier is queued if the
    consumer has room, and otherwise (queue full or closed) it is dropped and
    the registry is exactly what it was. *)
Theorem inbound_channel_handover `{N : NetTypes} {V} `{MpscLaws}
    (sh : Shared V) (gs : list ChannelGuard) (q : StreamProtocol) (p : PeerId) (s : Stream) :
  limits_in_range (sh_limits sh) -> registry_ok (sh_limits sh) (sh_registry sh) gs ->
  let sh' := handle_inbound_channel sh q p s in
  let id := sh_next_dc_id sh in
  let g := mkGuard p q Inbound in
  if decide (admits (sh_limits sh) gs p q Inbound) then
    sh_next_dc_id sh' = wrap64 (id + 1)
    /\ if ch_rx_alive (sh_inbound sh)
           && (length (ch_contents (sh_inbound sh)) <? ch_capacity (sh_inbound sh))
       then ch_contents (sh_inbound sh')
            = ch_contents (sh_inbound sh) ++ [{| channel := mkDataChannel id p q Inbound s (Some g) |}]
            /\ registry_ok (sh_limits sh) (sh_registry sh') (g :: gs)
       else sh_inbound sh' = sh_inbound sh /\ sh_registry sh' = sh_registry sh
  else sh' = sh.
Proof.
  intros Hl Hok. simpl. unfold handle_inbound_channel.
  destruct (try_acquire _ _ _ _ _) as [inner o] eqn:Ha.
  pose proof (try_acquire_inv _ Hl _ _ _ _ _ _ _ Hok Ha) as Hinv.
  destruct o as [g|]; [|destruct Hinv as [-> Hno]; rewrite decide_False by done; by destruct sh].
  destruct Hinv as (-> & Hadm & Hok'). rewrite decide_True by done. simpl.
  assert (guard_drop inner (mkGuard p q Inbound) = sh_registry sh) as Hback.
  { eapply registry_ok_unique; [by apply (guard_drop_ok (sh_limits sh))|done]. }
  destruct (ch_rx_alive (sh_inbound sh)) eqn:Hrx; simpl.
  - destruct (Nat.ltb_spec (length (ch_contents (sh_inbound sh))) (ch_capacity (sh_inbound sh))).
    + edestruct (ch_try_send_ok _ (sh_inbound sh)) as (c & Hc & Hcc & _); [done..|].
      rewrite Hc. simpl. by rewrite Hcc.
    + rewrite ch_try_send_full by done. simpl. unfold data_channel_drop. simpl. by rewrite Hback.
  - rewrite ch_try_send_closed by done. simpl. unfold data_channel_drop. simpl. by rewrite Hback.
Qed.
