(* ===== verification/Discovery.v ===== *)
(** * Discovery and relay reservations

    The order in which the loop talks to the swarm, stated on the log of
    [Logged]: mDNS discoveries, identify, routing updates, the life of a relay
    reservation, from [add_infrastructure_peer] or the bootstrap list to the
    circuit address the node listens on. *)
From S2P Require Import Prelude Externals Errors DataChannel PendingMap Config Handle Handler.
From S2P Require Import BasicCommands EventLoop EventChain.

(** ** Lemmas on the log *)

Section log.
Context `{N : NetTypes} {Sw : Type} `{!SwarmOps Sw, !SwarmLaws Sw}.
Implicit Types (s : Logged Sw).

(** Any fold of logged updates logs one block per element. *)
Lemma fold_log {A} (f : Logged Sw -> A -> Logged Sw) (cs : A -> list SwarmCall) l s :
  (forall s a, lg_calls (f s a) = lg_calls s ++ cs a) ->
  lg_calls (foldl f s l) = lg_calls s ++ concat (cs <$> l).
Proof.
  intros Hf. revert s. induction l as [|a l IH]; intros s; simpl; [by rewrite app_nil_r|].
  by rewrite IH, Hf, <- app_assoc.
Qed.

Lemma concat_singletons {A B} (g : A -> B) l : concat ((fun a => [g a]) <$> l) = g <$> l.
Proof. induction l as [|a l IH]; [done|]. simpl. f_equal. exact IH. Qed.

Lemma register_connected (l : list (PeerId * Multiaddr)) s q :
  sw_is_connected (foldl (fun s x => sw_add_peer_address s x.1 x.2) s l) q = sw_is_connected s q.
Proof using SwarmLaws0.
  revert s. induction l as [|x l IH]; intros s; [done|].
  change (foldl ?f s (x :: l)) with (foldl f (f s x) l). rewrite IH.
  apply is_connected_add_peer_address.
Qed.

Lemma dial_all_log (l : list PeerId) s :
  lg_calls (foldl (fun s p => if sw_is_connected s p then s else (sw_dial s p).1) s l)
  = lg_calls s ++ (CallDial <$> filter (fun p => sw_is_connected s p = false) l).
Proof using SwarmLaws0.
  revert s. induction l as [|p l IH]; intros s; [by rewrite app_nil_r|].
  change (foldl ?f s (p :: l)) with (foldl f (f s p) l). rewrite IH, filter_cons. cbv beta.
  destruct (sw_is_connected s p) eqn:Hp.
  - rewrite decide_False by congruence. done.
  - rewrite decide_True by done.
    rewrite (list_filter_iff _ (fun p => sw_is_connected s p = false))
      by (intros q; by rewrite (is_connected_dial s p q)).
    simpl. by rewrite <- app_assoc.
Qed.

End log.

Section relay.
Context `{N : NetTypes} {Sw C : Type} `{!SwarmOps Sw}.

(** Requesting reservations listens on one circuit address per relay address
    and changes nothing but the swarm. *)
Lemma relay_log (el : EventLoop (Logged Sw) C) p addrs :
  exists s, request_relay_reservations el p addrs = el_set_swarm s el
    /\ lg_calls s = lg_calls (el_swarm el)
                    ++ ((fun a => CallListenOn (relay_circuit_addr p a)) <$> addrs).
Proof.
  unfold request_relay_reservations. revert el.
  induction addrs as [|a addrs IH]; intros el; simpl.
  { exists (el_swarm el). split; [by destruct el|]. by rewrite app_nil_r. }
  edestruct IH as (s & -> & Hs). exists s. split; [done|]. rewrite Hs. simpl.
  by rewrite <- app_assoc.
Qed.

Lemma identify_log (el : EventLoop (Logged Sw) C) p info :
  lg_calls (foldl (fun s addr => sw_add_peer_address (kad_add_address s p addr) p addr)
              (el_swarm el) (info_listen_addrs info))
  = lg_calls (el_swarm el)
    ++ concat ((fun a => [CallKadAddAddress p a; CallAddPeerAddress p a])
                 <$> info_listen_addrs info).
Proof. apply (fold_log (fun s addr => _)). intros s a. simpl. by rewrite <- app_assoc. Qed.

End relay.

(** The registration loop of [AddInfrastructurePeerCommand::run]. *)
Section infra.
Context `{N : NetTypes} {Sw : Type} `{!SwarmOps Sw, !SwarmLaws Sw}.

Definition infra_register (p : PeerId) (kad : bool) (s : Logged Sw) (addr : Multiaddr) : Logged Sw :=
  let s := sw_add_peer_address s p addr in
  if kad then kad_add_address s p addr else s.

Lemma infra_register_spec (s : Logged Sw) p addrs kad :
  let s1 := foldl (infra_register p kad) s addrs in
  sw_is_connected s1 p = sw_is_connected s p
  /\ sw_relay_client_is_enabled s1 = sw_relay_client_is_enabled s
  /\ lg_calls s1
     = lg_calls s ++ concat ((fun a => CallAddPeerAddress p a
                                        :: (if kad then [CallKadAddAddress p a] else [])) <$> addrs).
Proof using SwarmLaws0.
  split_and!.
  - revert s. induction addrs as [|a addrs IH]; intros s; [done|].
    change (foldl ?f s (a :: addrs)) with (foldl f (f s a) addrs). rewrite IH.
    unfold infra_register. destruct kad;
      by rewrite ?is_connected_kad_add_address, is_connected_add_peer_address.
  - revert s. induction addrs as [|a addrs IH]; intros s; [done|].
    change (foldl ?f s (a :: addrs)) with (foldl f (f s a) addrs). rewrite IH.
    unfold infra_register. destruct kad;
      by rewrite ?relay_client_kad_add_address, relay_client_add_peer_address.
  - apply fold_log. intros s' a. unfold infra_register. destruct kad; simpl;
      by rewrite <- ?app_assoc.
Qed.

Lemma infra_run (s : Logged Sw) p addrs roles :
  exists c s',
    run (AddInfrastructurePeerCommand_new p addrs roles) s = Some (c, s', [Ok tt])
    /\ (take_relay_reservation_request c).2
       = (if role_relay_server roles && sw_relay_client_is_enabled s then Some (p, addrs) else None)
    /\ sw_is_connected s' p = sw_is_connected s p
    /\ lg_calls s'
       = lg_calls s
         ++ concat ((fun a => CallAddPeerAddress p a
                              :: (if role_kad_server roles then [CallKadAddAddress p a] else []))
                      <$> addrs)
         ++ (if sw_is_connected s p then [] else [CallDial p]).
Proof using SwarmLaws0.
  pose proof (infra_register_spec s p addrs (role_kad_server roles)) as (Hc & Hr & Hlog).
  unfold run, AddInfrastructurePeerCommand_handler, AddInfrastructurePeerCommand_run. run_H.
  unfold infra_register in *. simpl in *.
  set (s1 := foldl _ s addrs) in *. rewrite Hr, Hc.
  destruct (sw_is_connected (lg_swarm s) p); (eexists _, _; split; [done|]); simpl;
    (split; [by destruct (_ && _)|]); rewrite ?is_connected_dial, Hlog;
    (split; [done|]); by rewrite ?app_nil_r, <- ?app_assoc.
Qed.

End infra.

(** ** Properties *)

(** C27. An mDNS discovery registers every address before dialling anyone (a
    dial by peer uses the addresses known at that time), dials each discovered
    peer at most once however many addresses it announced, exactly those that
    were not connected, in the arbitrary order of the hash set, touches nothing
    else, and reports the discovery to the front end. *)
Theorem mdns_registers_then_dials `{N : NetTypes} {Sw C V}
    `{!SwarmOps Sw, !SwarmLaws Sw, !HashOrder, !HashOrderLaws, !Mpsc}
    (el : EventLoop (Logged Sw) C) (sh : Shared V) (peers : list (PeerId * Multiaddr)) :
  exists s dials,
    convert_to_node_event el sh (Behaviour (CBE_MdnsDiscovered peers))
    = (el_set_swarm s el, sh, Some (PeersDiscovered peers))
    /\ lg_calls s = lg_calls (el_swarm el)
                    ++ ((fun x => CallAddPeerAddress x.1 x.2) <$> peers) ++ (CallDial <$> dials)
    /\ NoDup dials
    /\ forall p, p ∈ dials <-> p ∈ peers.*1 /\ sw_is_connected (el_swarm el) p = false.
Proof.
  simpl. unfold on_mdns_discovered.
  set (s1 := foldl (fun s x => sw_add_peer_address s x.1 x.2) (el_swarm el) peers).
  eexists _, (filter (fun p => sw_is_connected s1 p = false) (hs_iter (list_to_set peers.*1))).
  split; [done|]. split; [|split].
  - rewrite dial_all_log. unfold s1.
    rewrite (fold_log _ (fun x => [CallAddPeerAddress x.1 x.2])) by done.
    by rewrite concat_singletons, <- app_assoc.
  - apply NoDup_filter. rewrite hs_iter_perm. apply NoDup_elements.
  - intros p. rewrite list_elem_of_filter, hs_iter_perm, elem_of_elements, elem_of_list_to_set.
    unfold s1. rewrite register_connected. tauto.
Qed.

(** C26. Identify is the gate into the routing table and to the relay: a peer of
    another protocol version changes nothing at all; a peer of the same version
    has each address added to the routing table and to the address book, and if
    it is a recorded relay, one circuit per recorded relay address is then
    requested and the record is removed, so that a second identify of the peer
    requests nothing.  The front end gets the event in either case. *)
Theorem identify_gate `{N : NetTypes} {Sw C V} `{!SwarmOps Sw, !HashOrder, !Mpsc}
    (el : EventLoop (Logged Sw) C) (sh : Shared V) (p : PeerId) (info : IdentifyInfo) :
  exists el',
    convert_to_node_event el sh (Behaviour (CBE_IdentifyReceived p info))
    = (el', sh, Some (IdentifyReceived p (info_agent_version info) (info_protocol_version info)
                        (info_listen_addrs info) (proto_display <$> info_protocols info)))
    /\ if decide (info_protocol_version info = el_protocol_version el) then
         lg_calls (el_swarm el')
         = lg_calls (el_swarm el)
           ++ concat ((fun a => [CallKadAddAddress p a; CallAddPeerAddress p a])
                        <$> info_listen_addrs info)
           ++ ((fun a => CallListenOn (relay_circuit_addr p a))
                 <$> default [] (el_bootstrap_peers el !! p))
         /\ el_bootstrap_peers el' = delete p (el_bootstrap_peers el)
         /\ el_active el' = el_active el
       else el' = el.
Proof.
  eexists. split; [done|]. unfold on_identify_received. case_decide as Hv; [|done]. cbv zeta.
  pose proof (identify_log el p info) as Hlog.
  set (s1 := foldl _ (el_swarm el) (info_listen_addrs info)) in *.
  destruct (el_bootstrap_peers (el_set_swarm s1 el) !! p) as [addrs|] eqn:Hb; simpl in Hb; rewrite Hb.
  - simpl. match goal with |- context [request_relay_reservations ?e ?q ?a] =>
      destruct (relay_log e q a) as (s2 & -> & Hs2) end.
    simpl in *. by rewrite Hs2, Hlog, <- app_assoc.
  - simpl. rewrite Hlog, app_nil_r. by rewrite delete_id.
Qed.

(** C28. Adding an infrastructure peer: each address goes to the address book,
    and to the routing table iff the peer is a Kad server; the peer is dialled
    iff it is not connected; the caller gets [Ok] whatever the dial says.  If
    the peer is a relay server and the relay client is on, the reservation is
    requested at once when the peer is connected, and otherwise recorded until
    its identify; in any other case no reservation is requested or recorded. *)
Theorem add_infrastructure_peer_outcome `{N : NetTypes} {Sw}
    `{!SwarmOps Sw, !SwarmLaws Sw, !HashOrder, !Mpsc}
    (el : EventLoop (Logged Sw) AddInfrastructurePeerCommand) (sh : Shared unit)
    (p : PeerId) (addrs : list Multiaddr) (roles : InfrastructureRoles) (loc : nat) :
  let cmd := mkTask (AddInfrastructurePeerCommand_new p addrs roles) loc in
  let relay := role_relay_server roles && sw_relay_client_is_enabled (el_swarm el) in
  let connected := sw_is_connected (el_swarm el) p in
  exists el', handle_command el sh cmd = Some (el', finish_handle loc sh (Ok tt))
    /\ lg_calls (el_swarm el')
       = lg_calls (el_swarm el)
         ++ concat ((fun a => CallAddPeerAddress p a
                              :: (if role_kad_server roles then [CallKadAddAddress p a] else []))
                      <$> addrs)
         ++ (if connected then [] else [CallDial p])
         ++ (if relay && connected
             then (fun a => CallListenOn (relay_circuit_addr p a)) <$> addrs else [])
    /\ el_bootstrap_peers el'
       = (if relay && negb connected
          then <[p := default [] (el_bootstrap_peers el !! p) ++ addrs]> (el_bootstrap_peers el)
          else el_bootstrap_peers el).
Proof.
  intros cmd relay connected.
  destruct (infra_run (el_swarm el) p addrs roles) as (c & s & Hrun & Htk & Hcon & Hlog).
  unfold handle_command, cmd. simpl task_handler. rewrite Hrun.
  destruct (take_relay_reservation_request c) as [c2 req]. simpl in Htk. subst req. simpl.
  unfold relay, connected in *. clear relay connected. simpl in *.
  destruct (role_relay_server roles && sw_relay_client_is_enabled (lg_swarm (el_swarm el))); simpl.
  - rewrite Hcon. destruct (sw_is_connected (lg_swarm (el_swarm el)) p); simpl.
    + edestruct (relay_log (el_set_swarm s el) p addrs) as (s2 & -> & Hs2).
      eexists. split; [done|]. simpl in *. by rewrite Hs2, Hlog, <- !app_assoc.
    + eexists. split; [done|]. simpl. by rewrite Hlog, ?app_nil_r.
  - eexists. split; [done|]. simpl. by rewrite Hlog, ?app_nil_r.
Qed.
