(* ===== verification/Addresses.v ===== *)
(** * Addresses

    What the address manipulations compute: the LAN filter as address ranges,
    the circuit address of a reservation, the addresses a LAN helper advertises,
    and the list returned by [get_listen_addrs]. *)
From S2P Require Import Prelude Externals Errors DataChannel PendingMap Config Handle Handler.
From S2P Require Import BasicCommands EventLoop EventChain Discovery.

(** ** Address ranges *)

(** Octets are bytes, segments 16-bit words, and there are eight of them. *)
Definition ip4_ok (ip : Ipv4Addr) : Prop :=
  (0 <= octet_a ip < 256 /\ 0 <= octet_b ip < 256
   /\ 0 <= octet_c ip < 256 /\ 0 <= octet_d ip < 256)%Z.
Definition ip6_ok (ip : Ipv6Addr) : Prop :=
  length (segments ip) = 8 /\ Forall (fun s => 0 <= s < 65536)%Z (segments ip).

(** The address as a 32-bit number. *)
Definition ip4_to_z (ip : Ipv4Addr) : Z :=
  (octet_a ip * 16777216 + octet_b ip * 65536 + octet_c ip * 256 + octet_d ip)%Z.

(** RFC 1918: 10/8, 172.16/12 and 192.168/16. *)
Definition rfc1918 (z : Z) : Prop :=
  (167772160 <= z <= 184549375)%Z \/ (2886729728 <= z <= 2887778303)%Z
  \/ (3232235520 <= z <= 3232301055)%Z.

Definition lan_component `{NetTypes} (p : Protocol PeerId OtherProto) : Prop :=
  match p with
  | PIp4 ip => rfc1918 (ip4_to_z ip)
  | PIp6 ip => (64512 <= ip6_segment0 ip <= 65023)%Z
  | _ => False
  end.

Definition component_ok `{NetTypes} (p : Protocol PeerId OtherProto) : Prop :=
  match p with PIp4 ip => ip4_ok ip | PIp6 ip => ip6_ok ip | _ => True end.

Lemma ip4_private_range ip : ip4_ok ip -> ip4_is_private ip = true <-> rfc1918 (ip4_to_z ip).
Proof.
  intros (Ha & Hb & Hc & Hd). unfold ip4_is_private, rfc1918, ip4_to_z.
  rewrite !orb_true_iff, !andb_true_iff, !Z.eqb_eq, !Z.leb_le. lia.
Qed.

(** Masking a 16-bit word with [0xfe00] clears its nine low bits. *)
Lemma mask_fe00 s : (0 <= s < 65536)%Z -> Z.land s 0xfe00 = (s / 512 * 512)%Z.
Proof.
  intros Hs. change 512%Z with (2 ^ 9)%Z.
  rewrite <- (Z.shiftr_div_pow2 s 9), <- (Z.shiftl_mul_pow2 _ 9), <- Z.ldiff_ones_r by lia.
  rewrite Z.ldiff_land. rewrite <- (Z.mod_small s (2 ^ 16)) at 2 by lia.
  rewrite <- Z.land_ones, <- Z.land_assoc by lia. reflexivity.
Qed.

Lemma ula_range s : (0 <= s < 65536)%Z ->
  (Z.land s 0xfe00 =? 0xfc00)%Z = true <-> (64512 <= s <= 65023)%Z.
Proof.
  intros Hs. rewrite Z.eqb_eq, mask_fe00 by done.
  pose proof (Z.div_mod s 512 ltac:(lia)). pose proof (Z.mod_pos_bound s 512 ltac:(lia)). lia.
Qed.

(** The exclusions that follow the first test never apply. *)
Lemma usable_lan_component `{N : NetTypes} (p : Protocol PeerId OtherProto) :
  component_ok p -> is_usable_lan_protocol p = true <-> lan_component p.
Proof.
  destruct p as [ip|ip| | |]; simpl; try done.
  - intros Hok. rewrite !andb_true_iff, ip4_private_range by done.
    split; [tauto|]. intros Hr. split_and!; try done; apply negb_true_iff.
    + destruct Hok as (Ha & Hb & Hc & Hd). unfold ip4_is_loopback, rfc1918, ip4_to_z in *. lia.
    + destruct Hok as (Ha & Hb & Hc & Hd). unfold ip4_is_link_local, rfc1918, ip4_to_z in *. lia.
    + apply bool_decide_eq_false. intros ->. unfold rfc1918, ip4_to_z in Hr. simpl in Hr. lia.
  - intros [Hlen Hf]. unfold ip6_is_loopback, ip6_is_unspecified.
    destruct ip as [[|s l]]; simpl in *; [done|].
    apply Forall_cons in Hf as [Hs _]. unfold ip6_segment0. simpl.
    rewrite !andb_true_iff, ula_range by done. split; [tauto|]. intros Hr.
    split; [split; [done|]|]; apply negb_true_iff, bool_decide_eq_false; intros He;
      injection He as -> _; lia.
Qed.

(** ** Addresses a LAN helper advertises *)

Section lan_helper.
Context `{N : NetTypes} {Sw C V : Type} `{!SwarmOps Sw, !HashOrder, !Mpsc}.
Implicit Types (el : EventLoop (Logged Sw) C) (sh : Shared V).

Definition on_listen (st : EventLoop (Logged Sw) C * Shared V) (addr : Multiaddr) :
    EventLoop (Logged Sw) C * Shared V :=
  (convert_to_node_event st.1 st.2 (NewListenAddr addr)).1.

(** Does the node announce private addresses at all? *)
Definition announces (c : option LanHelperConfig) : bool :=
  match c with Some c => announce_private_addrs c | None => false end.

(** The new address list, and the swarm calls it takes. *)
Definition advertise (l : list Multiaddr) (addr : Multiaddr) : list Multiaddr :=
  if is_usable_lan_addr addr && negb (bool_decide (addr ∈ l)) then l ++ [addr] else l.

Lemma on_listen_spec el sh addr el' sh' :
  on_listen (el, sh) addr = (el', sh') ->
  el_lan_helper el' = el_lan_helper el
  /\ el_advertised el' = (if announces (el_lan_helper el)
                          then advertise (el_advertised el) addr else el_advertised el)
  /\ exists new, el_advertised el' = el_advertised el ++ new
       /\ lg_calls (el_swarm el') = lg_calls (el_swarm el) ++ (CallAddExternalAddress <$> new).
Proof.
  unfold on_listen. simpl. unfold maybe_announce_lan_helper_addr, announces, advertise.
  destruct (el_lan_helper el) as [cfg|] eqn:Hc; simpl.
  2: { intros. simplify_eq. split_and!; [done..|]. exists []. by rewrite !app_nil_r. }
  destruct (announce_private_addrs cfg); simpl.
  2: { intros. simplify_eq. split_and!; [done..|]. exists []. by rewrite !app_nil_r. }
  destruct (is_usable_lan_addr addr && negb (bool_decide (addr ∈ el_advertised el))); simpl;
    destruct (ch_try_send _ _); simpl; intros; simplify_eq/=;
    (split; [congruence|]); (split; [done|]);
    ((exists [addr]; done) || (exists []; rewrite !app_nil_r; done)).
Qed.

Lemma elem_of_advertise l addr a :
  a ∈ advertise l addr <-> a ∈ l \/ (a = addr /\ is_usable_lan_addr addr = true).
Proof.
  unfold advertise. destruct (is_usable_lan_addr addr); simpl; [|naive_solver].
  case_bool_decide; set_solver.
Qed.

Lemma advertise_nodup l addr : NoDup l -> NoDup (advertise l addr).
Proof.
  intros Hl. unfold advertise. destruct (is_usable_lan_addr addr); simpl; [|done].
  case_bool_decide; simpl; [done|]. apply NoDup_app. split_and!; [done|set_solver|apply NoDup_singleton].
Qed.

Lemma listen_all_spec addrs el sh el' sh' :
  foldl on_listen (el, sh) addrs = (el', sh') ->
  el_lan_helper el' = el_lan_helper el
  /\ (exists new, el_advertised el' = el_advertised el ++ new
       /\ lg_calls (el_swarm el') = lg_calls (el_swarm el) ++ (CallAddExternalAddress <$> new))
  /\ (NoDup (el_advertised el) -> NoDup (el_advertised el'))
  /\ forall a, a ∈ el_advertised el' <->
       a ∈ el_advertised el
       \/ (announces (el_lan_helper el) = true /\ a ∈ addrs /\ is_usable_lan_addr a = true).
Proof.
  revert el sh. induction addrs as [|addr addrs IH]; intros el sh Hf.
  { simpl in Hf. simplify_eq. split_and!; [done| |done|set_solver].
    exists []. by rewrite !app_nil_r. }
  simpl in Hf. destruct (on_listen (el, sh) addr) as [el1 sh1] eqn:Hst.
  apply on_listen_spec in Hst as (Hc1 & Ha1 & new1 & Hn1 & Hl1).
  apply IH in Hf as (Hc & (new & Hn & Hl) & Hnd & Hin).
  split_and!; [congruence| | |].
  - exists (new1 ++ new). by rewrite Hn, Hl, Hn1, Hl1, fmap_app, !app_assoc.
  - intros Hnd0. apply Hnd. rewrite Ha1. destruct (announces _); [by apply advertise_nodup|done].
  - intros a. rewrite Hin, Hc1, Ha1. destruct (announces (el_lan_helper el)).
    + rewrite elem_of_advertise, elem_of_cons. naive_solver.
    + naive_solver.
Qed.

End lan_helper.

(** ** Properties *)

(** C34. The LAN filter accepts exactly the addresses with a component in the
    RFC 1918 ranges (as 32-bit numbers) or in fc00::/7; the loopback, link-local
    and unspecified addresses its further tests exclude are already outside.
    The filter looks at any component, so a relay circuit through a private
    relay address passes too. *)
Theorem usable_lan_addr_ranges `{N : NetTypes} `{!MultiaddrLaws} (addr : Multiaddr)
    (p : Protocol PeerId OtherProto) :
  Forall component_ok (ma_iter addr) ->
  (is_usable_lan_addr addr = true <-> Exists lan_component (ma_iter addr))
  /\ (is_usable_lan_addr addr = true -> is_usable_lan_addr (ma_with addr p) = true).
Proof.
  intros Hok. unfold is_usable_lan_addr. split.
  - rewrite existsb_exists, Exists_exists. rewrite Forall_forall in Hok.
    split; intros (q & Hin & Hq); exists q; (split; [by apply list_elem_of_In|]);
      apply (usable_lan_component q); auto; by apply Hok, list_elem_of_In.
  - rewrite ma_iter_with, existsb_app. by intros ->.
Qed.

(** The circuit address of a reservation: the relay's address, completed
    with the relay's peer identifier unless it already names a peer, then
    [p2p-circuit] as its last component. *)
Lemma relay_circuit_addr_shape `{N : NetTypes} `{!MultiaddrLaws} (peer : PeerId) (addr : Multiaddr) :
  ((exists q, PP2p q ∈ ma_iter addr) ->
   ma_iter (relay_circuit_addr peer addr) = ma_iter addr ++ [PP2pCircuit])
  /\ ((forall q, PP2p q ∉ ma_iter addr) ->
      ma_iter (relay_circuit_addr peer addr) = ma_iter addr ++ [PP2p peer; PP2pCircuit]).
Proof.
  unfold relay_circuit_addr. split.
  - intros [q Hq]. rewrite (proj2 (existsb_exists _ _)); [apply ma_iter_with|].
    exists (PP2p q). by rewrite <- list_elem_of_In.
  - intros Hno. destruct (existsb _ _) eqn:He.
    + apply existsb_exists in He as ([] & Hin & ?); try done.
      by apply list_elem_of_In, Hno in Hin.
    + by rewrite !ma_iter_with, <- app_assoc.
Qed.

(** C33. A LAN helper advertises each usable address once: after any sequence of
    listen addresses, the advertised list has no duplicates and contains exactly
    the usable ones among them, and the external addresses given to the swarm
    are exactly this list, in this order.  A node that is not configured to
    announce private addresses advertises nothing and calls nothing. *)
Theorem lan_helper_advertises_once `{N : NetTypes} {Sw C V} `{!SwarmOps Sw, !HashOrder, !Mpsc}
    (swarm : Logged Sw) (version : string) (relay : bool) (mode : InfrastructureMode)
    (sh : Shared V) (addrs : list Multiaddr) :
  let el := EventLoop_new (C := C) swarm version relay mode in
  let el' := (foldl on_listen (el, sh) addrs).1 in
  NoDup (el_advertised el')
  /\ (forall a, a ∈ el_advertised el' <->
        announces (lan_helper_of mode) = true /\ a ∈ addrs /\ is_usable_lan_addr a = true)
  /\ lg_calls (el_swarm el')
     = lg_calls swarm ++ (CallAddExternalAddress <$> el_advertised el').
Proof.
  intros el. destruct (foldl on_listen (el, sh) addrs) as [el' sh'] eqn:Hf.
  apply listen_all_spec in Hf as (_ & (new & Hn & Hl) & Hnd & Hin). simpl in *.
  split_and!; [apply Hnd; constructor| |by rewrite Hl, Hn].
  intros a. rewrite Hin. set_solver.
Qed.

(** [get_listen_addrs] answers synchronously with the listen and external
    addresses together: in order, without duplicates, nothing added or lost. *)
Lemma get_listen_addrs_sorted_set `{N : NetTypes} {Sw} `{!SwarmOps Sw, !MultiaddrLaws}
    (c : GetListenAddrsCommand) (s : Sw) :
  exists addrs, run c s = Some (c, s, [Ok addrs])
    /\ StronglySorted ma_le addrs /\ NoDup addrs
    /\ forall a, a ∈ addrs <-> a ∈ sw_listeners s \/ a ∈ sw_external_addresses s.
Proof.
  eexists. split; [done|]. set (l := sw_listeners s ++ sw_external_addresses s).
  pose proof (StronglySorted_merge_sort ma_le l) as Hs.
  destruct (dedup_sorted_nodup ma_le _ Hs) as [Hds Hdn]. split_and!; [done..|].
  intros a. rewrite elem_of_dedup, merge_sort_Permutation. unfold l. by rewrite elem_of_app.
Qed.
