(* ===== verification/Dialing.v ===== *)
(** * Dialling

    [dial] across the loop: how one dial resolves, and how one connection event
    resolves every dial to its peer, because a dial never consumes the events it
    reacts to. *)
From S2P Require Import Prelude Externals Errors DataChannel PendingMap Config Handle Handler.
From S2P Require Import BasicCommands KadCommands KadQueries ReqRespCommands Commands EventLoop EventChain CommandChain.

(** ** Deliveries to distinct handles do not interfere *)

Section deliveries.
Context `{N : NetTypes} {Sw C V : Type}.
Context `{!SwarmOps Sw, !HashOrder, !Mpsc, !CommandHandler Sw C V, !RelayRequester C, !Keyed C}.
Implicit Types (t : CommandTask C) (sh : Shared V).

Definition finish_state (st : ResultState V) (r : CResult V) : ResultState V :=
  (handle_finish st r).1.

Lemma finish_handle_lookup loc loc' sh r :
  sh_handles (finish_handle loc sh r) !! loc'
  = if decide (loc = loc') then (fun st => finish_state st r) <$> sh_handles sh !! loc'
    else sh_handles sh !! loc'.
Proof.
  unfold finish_handle. destruct (sh_handles sh !! loc) as [st|] eqn:Hst; simpl.
  - rewrite lookup_insert. case_decide; [subst; by rewrite Hst|done].
  - case_decide; [subst; by rewrite Hst|done].
Qed.

Lemma finish_all_lookup loc loc' fin sh :
  sh_handles (foldl (finish_handle loc) sh fin) !! loc'
  = if decide (loc = loc') then (fun st => foldl finish_state st fin) <$> sh_handles sh !! loc'
    else sh_handles sh !! loc'.
Proof.
  revert sh. induction fin as [|r fin IH]; intros sh; simpl.
  - case_decide; [|done]. by destruct (sh_handles sh !! loc').
  - rewrite IH, !finish_handle_lookup. case_decide; [|done].
    by destruct (sh_handles sh !! loc').
Qed.

(** Tasks with other handles leave a handle alone. *)
Lemma deliver_all_other s ev l sh loc :
  loc ∉ task_handle <$> l ->
  sh_handles (foldl (deliver s ev) sh l) !! loc = sh_handles sh !! loc.
Proof.
  revert sh. induction l as [|u l IH]; intros sh Hl; [done|].
  rewrite fmap_cons, not_elem_of_cons in Hl. destruct Hl as [Hne Hl]. simpl.
  rewrite IH by done. unfold deliver. rewrite finish_all_lookup. by rewrite decide_False.
Qed.

(** The result a task leaves in its own handle after a whole visit. *)
Lemma deliver_all_lookup s ev l sh t :
  NoDup (task_handle <$> l) -> t ∈ l ->
  sh_handles (foldl (deliver s ev) sh l) !! task_handle t
  = (fun st => foldl finish_state st (emitted s ev t)) <$> sh_handles sh !! task_handle t.
Proof.
  intros Hnd Hin. induction l as [|u l IH] using rev_ind; [by apply elem_of_nil in Hin|].
  rewrite fmap_app in Hnd. apply NoDup_app in Hnd as (Hnd & Hu & _).
  rewrite foldl_app. simpl. unfold deliver at 1. rewrite finish_all_lookup.
  apply elem_of_app in Hin as [Hin|Hin].
  - rewrite decide_False; [by apply IH|]. intros He. apply (Hu (task_handle t)).
    + by apply (list_elem_of_fmap_2 task_handle).
    + rewrite <- He. simpl. set_solver.
  - apply list_elem_of_singleton in Hin as ->. rewrite decide_True by done. f_equal.
    apply deliver_all_other. intros Ht. apply (Hu _ Ht). simpl. set_solver.
Qed.

End deliveries.

Lemma fmap_nodup_inj {A B} (f : A -> B) (l : list A) x y :
  NoDup (f <$> l) -> x ∈ l -> y ∈ l -> f x = f y -> x = y.
Proof.
  intros Hnd [i Hi]%list_elem_of_lookup_1 [j Hj]%list_elem_of_lookup_1 Hf.
  assert (i = j) as ->; [|congruence].
  apply (NoDup_lookup _ i j (f x) Hnd); rewrite list_lookup_fmap.
  - by rewrite Hi.
  - by rewrite Hj, Hf.
Qed.

(** An event without an identifier is shown to every active command. *)
Section unidentified.
Context `{N : NetTypes} {Sw C V : Type}.
Context `{!SwarmOps Sw, !HashOrder, !Mpsc, !CommandHandler Sw C V, !RelayRequester C, !Keyed C}.
Context `{!CommandHandlerLaws Sw C V}.

Lemma chain_spec_unidentified s ev (active active' : list (CommandTask C)) sh (sh' : Shared V) remaining :
  chain_spec s ev active active' sh sh' remaining -> event_key ev = None ->
  remaining = Some ev
  /\ exists visited, visited ≡ₚ active /\ active' ≡ₚ omap (survivor s ev) visited
       /\ sh' = foldl (deliver s ev) sh visited.
Proof.
  intros (visited & rest & Hp & Hp' & -> & Hr) He. destruct remaining as [ev'|].
  - destruct Hr as (-> & -> & _). rewrite app_nil_r in *. eauto 6.
  - destruct Hr as (before & t & _ & _ & (k & Hk & _)%consumes_key). congruence.
Qed.

End unidentified.

(** Only a dial is a dial after an event. *)
Lemma boxed_dial_inv `{N : NetTypes} {Sw} `{!SwarmOps Sw, !HashOrder}
    (c : AnyCommand) ev (s s' : Sw) (d : DialCommand) res fin :
  on_event c ev s = Some (ADial d, res, s', fin) ->
  exists d' fin', c = ADial d' /\ on_event d' ev s = Some (d, res, s', fin').
Proof.
  destruct c as [c|c|c|c|c|c|c|c|c|c|c|c|c|c|c|c]; simpl;
    unfold on_event_boxed_as, H_map, fmap, H_fmap;
    (destruct (on_event c ev s) as [[[[c' r] s1] f]|] eqn:He; [|done]);
    intros; simplify_eq; eauto.
Qed.

(** Both halves of a dial, on every branch. *)
Lemma dial_answers `{N : NetTypes} {Sw} `{!SwarmOps Sw} (c : DialCommand) (ev : SwarmEvent) (s : Sw) :
  run c s = Some (if sw_is_connected s (dial_peer_id c) then (c, s, [Ok tt])
                  else match sw_dial s (dial_peer_id c) with
                       | (s', Ok _) => (c, s', [])
                       | (s', Err e) => (c, s', [Err (E_Dial (dial_error_display e))])
                       end)
  /\ on_event c ev s
     = Some match ev with
            | ConnectionEstablished q _ =>
                if decide (q = dial_peer_id c) then (c, (false, Some ev), s, [Ok tt])
                else (c, (true, Some ev), s, [])
            | OutgoingConnectionError (Some q) e =>
                if decide (q = dial_peer_id c)
                then (c, (false, Some ev), s, [Err (E_Dial (dial_error_display e))])
                else (c, (true, Some ev), s, [])
            | _ => (c, (true, Some ev), s, [])
            end.
Proof.
  simpl. unfold DialCommand_run, DialCommand_on_event. run_H. split.
  - destruct (sw_is_connected s (dial_peer_id c)); [done|]. by destruct (sw_dial s (dial_peer_id c)) as [s' []].
  - destruct ev as [|q n|q n|[q|] e| | | | |]; try done; simpl; by case_decide.
Qed.

(** What a connection event means to a call that waits for one. *)
Definition connection_answer `{N : NetTypes} (ev : SwarmEvent) (c : AnyCommand) :
    option (CResult CmdValue) :=
  match c, ev with
  | ADial d, ConnectionEstablished q _ =>
      if decide (q = dial_peer_id d) then Some (Ok (VUnit tt)) else None
  | ADial d, OutgoingConnectionError (Some q) e =>
      if decide (q = dial_peer_id d) then Some (Err (E_Dial (dial_error_display e))) else None
  | ADisconnect d, ConnectionClosed q n =>
      if decide (q = disconnect_peer_id d /\ n = 0%Z) then Some (Ok (VUnit tt)) else None
  | _, _ => None
  end.

(** The commands that wait for a connection event, or for an identified one. *)
Definition awaits_event `{N : NetTypes} (c : AnyCommand) : Prop :=
  is_Some (command_key c) \/ (exists d, c = ADial d) \/ (exists d, c = ADisconnect d).

Section answers.
Context `{N : NetTypes} {Sw : Type} `{!SwarmOps Sw, !HashOrder}.

Lemma keyed_ignores_unidentified (c : AnyCommand) ev k (s : Sw) :
  command_key c = Some k -> event_key ev = None ->
  on_event c ev s = Some (c, (true, Some ev), s, []).
Proof.
  intros Hk He. assert (event_key ev <> Some k) as Hne by congruence.
  destruct c as [c|c|c|c|c|c|c|c|c|c|c|c|c|c|c|c]; try discriminate Hk; simpl;
    unfold on_event_boxed_as, H_map, fmap, H_fmap; by rewrite (foreign_ignored c ev k s Hk Hne).
Qed.

(** How a waiting command answers an event without an identifier. *)
Lemma unidentified_answer (c : AnyCommand) ev (s : Sw) :
  awaits_event c -> event_key ev = None ->
  on_event c ev s = Some match connection_answer ev c with
                         | Some r => (c, (false, Some ev), s, [r])
                         | None => (c, (true, Some ev), s, [])
                         end.
Proof.
  intros [[k Hk]|[[d ->]|[d ->]]] He.
  - rewrite (keyed_ignores_unidentified _ _ k) by done.
    destruct c; try discriminate Hk; done.
  - simpl. unfold on_event_boxed_as, H_map, fmap, H_fmap. rewrite (proj2 (dial_answers d ev s)).
    destruct ev as [|q n|q n|[q|] e| | | | |]; simpl; try done; by case_decide.
  - simpl. unfold on_event_boxed_as, H_map, fmap, H_fmap. simpl. unfold DisconnectCommand_on_event. run_H.
    destruct ev as [|q n|q n|[q|] e| | | | |]; simpl; try done; by case_decide.
Qed.

End answers.

(** After an event without an identifier every dial and disconnect it answers
    has its answer and is gone, and every other waiting command stays. *)
Lemma unidentified_event_resolves `{N : NetTypes} {Sw} `{!SwarmOps Sw, !HashOrder, !Mpsc}
    (el : EventLoop Sw AnyCommand) (sh : Shared CmdValue) (ev : SwarmEvent) :
  NoDup (task_handle <$> el_active el) -> event_key ev = None ->
  exists active sh1,
    handle_swarm_event el sh ev = Some (convert_to_node_event (el_set_active active el) sh1 ev)
    /\ forall t, t ∈ el_active el -> awaits_event (task_handler t) ->
         match connection_answer ev (task_handler t) with
         | Some r =>
             task_handle t ∉ task_handle <$> active
             /\ (is_Some (sh_handles sh !! task_handle t) ->
                 rs_result <$> sh_handles sh1 !! task_handle t = Some (Some r))
         | None => t ∈ active /\ sh_handles sh1 !! task_handle t = sh_handles sh !! task_handle t
         end.
Proof.
  intros Hnd He. destruct (offer_event_spec ev el sh) as (r & active & sh1 & Ho & Hch).
  destruct (chain_spec_unidentified _ _ _ _ _ _ _ Hch He) as [-> (visited & Hp & Hp' & ->)].
  exists active, (foldl (deliver (el_swarm el) ev) sh visited). unfold handle_swarm_event. rewrite Ho.
  split; [done|]. intros t Ht Hw. rewrite <- Hp in Hnd, Ht.
  pose proof (unidentified_answer _ _ (el_swarm el) Hw He) as Hon.
  rewrite (deliver_all_lookup _ _ visited _ t) by done. unfold emitted, answer_of. rewrite Hon.
  destruct (connection_answer ev (task_handler t)) as [r|] eqn:Ha; simpl.
  - split; [|intros [st ->]; done]. rewrite Hp'.
    intros (t' & Heq & (u & Hu & Hs)%list_elem_of_omap)%list_elem_of_fmap.
    apply survivor_key in Hs as Hk. destruct Hk as [_ Hh].
    assert (u = t) as ->.
    { apply (fmap_nodup_inj task_handle visited); congruence. }
    unfold survivor, answer_of in Hs. by rewrite Hon in Hs.
  - split; [|by destruct (sh_handles sh !! task_handle t)]. rewrite Hp'.
    apply list_elem_of_omap. exists t. split; [done|]. unfold survivor, answer_of. rewrite Hon.
    by destruct t.
Qed.

(** ** Properties *)

(** How a dial resolves: at once if the peer is connected or the dial is
    refused, and otherwise by the first event about this peer, an established
    connection or a failed outgoing connection; all other events pass by.  The
    event is never consumed.  A dial resolved at once is not removed: it stays
    active and reacts to the next event about the peer a second time. *)
Lemma dial_resolution `{N : NetTypes} {Sw} `{!SwarmOps Sw} (p : PeerId) (s : Sw) (ev : SwarmEvent) :
  let c := {| dial_peer_id := p |} in
  run c s = Some (if sw_is_connected s p then (c, s, [Ok tt])
                  else match sw_dial s p with
                       | (s', Ok _) => (c, s', [])
                       | (s', Err e) => (c, s', [Err (E_Dial (dial_error_display e))])
                       end)
  /\ on_event c ev s
     = Some match ev with
            | ConnectionEstablished q _ =>
                if decide (q = p) then (c, (false, Some ev), s, [Ok tt])
                else (c, (true, Some ev), s, [])
            | OutgoingConnectionError (Some q) e =>
                if decide (q = p)
                then (c, (false, Some ev), s, [Err (E_Dial (dial_error_display e))])
                else (c, (true, Some ev), s, [])
            | _ => (c, (true, Some ev), s, [])
            end.
Proof. exact (dial_answers {| dial_peer_id := p |} ev s). Qed.

(** One established connection resolves every dial to its peer: whatever
    else is active and in whatever order, after the event no dial to the peer
    is active any more, each of them has [Ok] in its handle, and the event still
    reaches the front end. *)
Lemma connection_resolves_all_dials `{N : NetTypes} {Sw} `{!SwarmOps Sw, !HashOrder, !Mpsc}
    (el : EventLoop Sw AnyCommand) (sh : Shared CmdValue) (p : PeerId) :
  NoDup (task_handle <$> el_active el) ->
  exists active sh',
    handle_swarm_event el sh (ConnectionEstablished p 1)
    = Some (el_set_active active el, sh', Some (PeerConnected p))
    /\ (forall t, t ∈ active -> task_handler t <> ADial {| dial_peer_id := p |})
    /\ forall t st, t ∈ el_active el -> task_handler t = ADial {| dial_peer_id := p |} ->
         sh_handles sh !! task_handle t = Some st ->
         rs_result <$> sh_handles sh' !! task_handle t = Some (Some (Ok (VUnit tt))).
Proof.
  intros Hnd. set (ev := ConnectionEstablished p 1).
  destruct (offer_event_spec ev el sh) as (r & active & sh' & Ho & Hch).
  exists active, sh'. unfold handle_swarm_event. rewrite Ho.
  destruct Hch as (visited & rest & Hp & Hp' & -> & Hr). destruct r as [ev'|].
  2: { destruct Hr as (before & t & _ & _ & Hc). apply consumes_key in Hc as (k & Hk & _). done. }
  destruct Hr as (-> & -> & _). rewrite app_nil_r in *. split; [done|]. split.
  - intros t Ht. rewrite Hp' in Ht. apply list_elem_of_omap in Ht as (u & Hu & Hs).
    intros He. unfold survivor, answer_of in Hs.
    destruct (on_event (task_handler u) ev (el_swarm el)) as [[[[c [keep rem]] s] fin]|] eqn:Hon;
      [|done]. destruct keep; [|done]. injection Hs as <-. simpl in He. subst c.
    apply boxed_dial_inv in Hon as (d & fin' & _ & Hd).
    rewrite (proj2 (dial_answers d ev (el_swarm el))) in Hd. simpl in Hd.
    by case_decide; simplify_eq.
  - intros t st Ht Hd Hst.
    rewrite (deliver_all_lookup _ _ visited _ t); [|by rewrite Hp|by rewrite Hp].
    rewrite Hst. unfold emitted, answer_of. rewrite Hd. simpl.
    unfold on_event_boxed_as, H_map, fmap, H_fmap. simpl. rewrite decide_True by done. done.
Qed.
