(* ===== verification/OpenFuture.v ===== *)
(** * Opening a data channel ([core/src/client/data_channel_open.rs])

    [DataChannelOpenFuture] is a state machine polled by the caller's executor;
    it talks to the stream behaviour directly, not through the event loop.  A
    poll is a function of the registry cell, the identifier counter, the clock
    and the answer of [Control::open_stream] at that poll ([None]: still
    pending); the outer [option] is the panic of a poll after completion. *)
From S2P Require Import Prelude Externals Errors DataChannel.

Section open.
Context `{N : NetTypes}.

(** ** State *)

Record OpenInit := mkOpenInit {
  oi_peer_id : PeerId;
  oi_protocol : StreamProtocol;
  oi_open_timeout : Z;
}.

(** The boxed future of [open_stream_with_guard]: its arguments, and once it
    has been polled the identifier and the deadline of the timeout. *)
Record OpeningFuture := mkOpening {
  of_init : OpenInit;
  of_guard : ChannelGuard;
  of_started : option (Z * Z);
}.

Inductive OpenState :=
| OS_Init (init : OpenInit)
| OS_Opening (f : OpeningFuture)
| OS_Finished.

Definition DataChannelOpenFuture_new (peer_id : PeerId) (protocol : StreamProtocol)
    (open_timeout : Z) : OpenState := OS_Init (mkOpenInit peer_id protocol open_timeout).

(** ** [into_opening_future] and [open_stream_with_guard] *)

Definition into_opening_future (limits : DataChannelLimits) (inner : RegistryInner)
    (init : OpenInit) : RegistryInner * CResult OpeningFuture :=
  let '(inner, guard) :=
    try_acquire limits inner (oi_peer_id init) (oi_protocol init) Outbound in
  match guard with
  | Some guard => (inner, Ok (mkOpening init guard None))
  | None => (inner, Err (E_DataChannel DC_ResourceLimitExceeded))
  end.

(** One poll of the boxed future; [tokio::time::timeout] polls the inner
    future first and the timer second.  On [Ready] the locals are dropped: the
    guard too, unless it moved into the channel. *)
Definition open_stream_with_guard_poll (inner : RegistryInner) (next_id now : Z)
    (answer : option (Result Stream OpenStreamError)) (f : OpeningFuture) :
    RegistryInner * Z * OpeningFuture * option (CResult DataChannel) :=
  let '(next_id, id, deadline) :=
    match of_started f with
    | Some (id, deadline) => (next_id, id, deadline)
    | None =>
        let '(next_id, id) := DataChannelId_next next_id in
        (next_id, id, now + oi_open_timeout (of_init f))%Z
    end in
  let f := mkOpening (of_init f) (of_guard f) (Some (id, deadline)) in
  match answer with
  | Some (Ok stream) =>
      (inner, next_id, f,
       Some (Ok (DataChannel_new id (oi_peer_id (of_init f)) (oi_protocol (of_init f)) Outbound
                   stream (Some (of_guard f)))))
  | Some (Err e) =>
      (guard_drop inner (of_guard f), next_id, f, Some (Err (map_open_stream_error e)))
  | None =>
      if (deadline <=? now)%Z
      then (guard_drop inner (of_guard f), next_id, f, Some (Err (E_Network Timeout)))
      else (inner, next_id, f, None)
  end.

(** ** [poll] and [drop] *)

Definition open_poll_opening (inner : RegistryInner) (next_id now : Z)
    (answer : option (Result Stream OpenStreamError)) (f : OpeningFuture) :
    RegistryInner * Z * OpenState * option (CResult DataChannel) :=
  let '(inner, next_id, f, r) := open_stream_with_guard_poll inner next_id now answer f in
  match r with
  | Some result => (inner, next_id, OS_Finished, Some result)
  | None => (inner, next_id, OS_Opening f, None)
  end.

(** The loop of [poll] goes round at most twice: [Init], then [Opening]. *)
Definition DataChannelOpenFuture_poll (limits : DataChannelLimits) (inner : RegistryInner)
    (next_id now : Z) (answer : option (Result Stream OpenStreamError)) (st : OpenState) :
    option (RegistryInner * Z * OpenState * option (CResult DataChannel)) :=
  match st with
  | OS_Init init =>
      let '(inner, r) := into_opening_future limits inner init in
      match r with
      | Ok future => Some (open_poll_opening inner next_id now answer future)
      | Err err => Some (inner, next_id, OS_Finished, Some (Err err))
      end
  | OS_Opening future => Some (open_poll_opening inner next_id now answer future)
  | OS_Finished => None
  end.

(** Dropping the future drops what its state holds. *)
Definition open_future_drop (inner : RegistryInner) (st : OpenState) : RegistryInner :=
  match st with
  | OS_Opening f => guard_drop inner (of_guard f)
  | _ => inner
  end.

(** ** A caller that polls until the future is ready, or gives up *)

Fixpoint open_run (limits : DataChannelLimits) (inner : RegistryInner) (next_id : Z)
    (st : OpenState) (polls : list (Z * option (Result Stream OpenStreamError))) :
    option (RegistryInner * Z * OpenState * option (CResult DataChannel)) :=
  match polls with
  | [] => Some (inner, next_id, st, None)
  | (now, answer) :: polls =>
      match DataChannelOpenFuture_poll limits inner next_id now answer st with
      | Some (inner, next_id, st, None) => open_run limits inner next_id st polls
      | x => x
      end
  end.

(** The guards held by a state, and by the channel a poll may return. *)
Definition open_guards (st : OpenState) : list ChannelGuard :=
  match st with OS_Opening f => [of_guard f] | _ => [] end.
Definition ready_guards (r : option (CResult DataChannel)) : list ChannelGuard :=
  match r with Some (Ok c) => option_list (dc_guard c) | _ => [] end.

(** The deadline that a state that has been polled is waiting for. *)
Definition waiting (st : OpenState) (deadline : Z) : Prop :=
  exists f id, st = OS_Opening f /\ of_started f = Some (id, deadline).

End open.

(** ** Lemmas *)

Section open_lemmas.
Context `{N : NetTypes} (l : DataChannelLimits).
Context (Hl : limits_in_range l).

Lemma open_poll_opening_ok inner next_id now answer f gs :
  registry_ok l inner (of_guard f :: gs) ->
  let '(inner', _, st', r) := open_poll_opening inner next_id now answer f in
  registry_ok l inner' (open_guards st' ++ ready_guards r ++ gs)
  /\ (is_Some r <-> st' = OS_Finished).
Proof.
  intros Hok. unfold open_poll_opening, open_stream_with_guard_poll.
  repeat case_match; simplify_eq/=;
    (split; [first [done | by apply (guard_drop_ok l)] | split; [by intros []|by eauto]]).
Qed.

Lemma open_poll_ok inner next_id now answer st gs inner' next_id' st' r :
  registry_ok l inner (open_guards st ++ gs) ->
  DataChannelOpenFuture_poll l inner next_id now answer st = Some (inner', next_id', st', r) ->
  registry_ok l inner' (open_guards st' ++ ready_guards r ++ gs)
  /\ (is_Some r <-> st' = OS_Finished).
Proof using Hl.
  intros Hok Hp. destruct st as [init|f|]; simpl in Hp; [|injection Hp as Hp|done].
  - unfold into_opening_future in Hp. destruct (try_acquire _ _ _ _ _) as [i o] eqn:Ha.
    apply (try_acquire_inv l Hl _ _ _ _ _ _ _ Hok) in Ha. destruct o as [g|]; simplify_eq.
    + destruct Ha as (-> & _ & Hok').
      pose proof (open_poll_opening_ok i next_id now answer
                    (mkOpening init _ None) gs Hok') as Hf. by rewrite Hp in Hf.
    + destruct Ha as [-> _]. split; [done|]. split; [done|by eauto].
  - pose proof (open_poll_opening_ok inner next_id now answer f gs Hok) as Hf. by rewrite Hp in Hf.
Qed.

Lemma open_run_ok inner next_id st polls gs inner' next_id' st' r :
  registry_ok l inner (open_guards st ++ gs) -> st <> OS_Finished ->
  open_run l inner next_id st polls = Some (inner', next_id', st', r) ->
  registry_ok l inner' (open_guards st' ++ ready_guards r ++ gs).
Proof using Hl.
  intros Hok Hst Hr. revert inner next_id st Hok Hst Hr.
  induction polls as [|[now answer] polls IH]; intros inner next_id st Hok Hst Hr; simpl in Hr.
  { by simplify_eq. }
  destruct (DataChannelOpenFuture_poll _ _ _ _ _ _) as [[[[i n] s] o]|] eqn:Hp; [|done].
  apply (open_poll_ok _ _ _ _ _ gs) in Hp as [Hok' Hfin]; [|done].
  destruct o as [res|]; [by simplify_eq|].
  eapply IH; [exact Hok'| |done]. intros ->. by destruct (proj2 Hfin eq_refl).
Qed.

Lemma open_run_total inner next_id st polls :
  st <> OS_Finished -> is_Some (open_run l inner next_id st polls).
Proof.
  revert inner next_id st. induction polls as [|[now answer] polls IH]; intros inner next_id st Hst;
    simpl; [eauto|].
  destruct (DataChannelOpenFuture_poll _ _ _ _ _ _) as [[[[i n] s] o]|] eqn:Hp.
  2: { destruct st; simpl in Hp; [|done..]. unfold into_opening_future in Hp. by repeat case_match. }
  destruct o as [r|]; [eauto|]. apply IH. intros ->.
  destruct st as [init|f|]; simpl in Hp; [| |done];
    unfold into_opening_future, open_poll_opening in Hp; repeat case_match; simplify_eq/=.
Qed.

End open_lemmas.

(** Waiting for an answer ends at the deadline fixed by the first poll. *)
Section deadline.
Context `{N : NetTypes} (l : DataChannelLimits).

Lemma pending_poll inner next_id now st inner' next_id' st' answer :
  DataChannelOpenFuture_poll l inner next_id now answer st = Some (inner', next_id', st', None) ->
  exists deadline, waiting st' deadline /\ (now < deadline)%Z
    /\ forall d, waiting st d -> d = deadline.
Proof.
  destruct st as [init|f|]; simpl; [| |done].
  - unfold into_opening_future, open_poll_opening, open_stream_with_guard_poll.
    repeat case_match; intros; simplify_eq/=. eexists. split; [by eexists _, _|].
    split; [lia|]. by intros d (f & id & ? & _).
  - unfold open_poll_opening, open_stream_with_guard_poll.
    repeat case_match; intros; simplify_eq/=; (eexists; split; [by eexists _, _|]);
      (split; [lia|]); intros d (f' & id & Hf & Hs); by simplify_eq/=.
Qed.

Lemma waiting_run inner next_id st polls inner' next_id' st' d :
  waiting st d ->
  open_run l inner next_id st polls = Some (inner', next_id', st', None) ->
  Forall (fun p => p.1 < d)%Z polls.
Proof.
  revert inner next_id st. induction polls as [|[now answer] polls IH];
    intros inner next_id st Hw Hr; [done|]. simpl in Hr.
  destruct (DataChannelOpenFuture_poll _ _ _ _ _ _) as [[[[i n] s] [o|]]|] eqn:Hp; [done| |done].
  apply pending_poll in Hp as (d' & Hw' & Hlt & Hd). rewrite <- (Hd d Hw) in *.
  constructor; [done|]. by eapply IH.
Qed.

End deadline.

(** ** Properties *)

(** Opening a channel is quota-neutral on every path: from a registry that
    counts the live guards, any sequence of polls of a new future (with any
    answers and clock readings) ends without panicking in a registry that
    counts those guards plus at most one, held either by the future that is
    still opening or by the channel it returned; if the caller then drops the
    future, exactly the channel's guard remains, and none after a refusal, a
    failed open, a timeout or a cancellation. *)
Lemma open_quota_balanced `{N : NetTypes} (l : DataChannelLimits) (inner : RegistryInner)
    (gs : list ChannelGuard) (next_id : Z) (p : PeerId) (q : StreamProtocol) (timeout : Z)
    (polls : list (Z * option (Result Stream OpenStreamError))) :
  limits_in_range l -> registry_ok l inner gs ->
  exists inner' next_id' st r,
    open_run l inner next_id (DataChannelOpenFuture_new p q timeout) polls
    = Some (inner', next_id', st, r)
    /\ registry_ok l inner' (open_guards st ++ ready_guards r ++ gs)
    /\ registry_ok l (open_future_drop inner' st) (ready_guards r ++ gs).
Proof.
  intros Hl Hok.
  destruct (open_run_total l inner next_id (DataChannelOpenFuture_new p q timeout) polls)
    as [[[[inner' next_id'] st] r] Hr]; [done|].
  exists inner', next_id', st, r. split; [done|].
  apply (open_run_ok l Hl _ _ _ _ gs) in Hr; [|done..]. split; [done|].
  destruct st as [|f|]; simpl in *; [done| |done]. by apply (guard_drop_ok l).
Qed.

(** How an open resolves: refused without any side effect when the outbound
    quota is used up; otherwise a poll answered with a stream returns a channel
    with a fresh identifier that owns the guard, a failed open returns the
    mapped error and a poll at or after the deadline the timeout error, both
    with the registry exactly as before. *)
Lemma open_first_poll `{N : NetTypes} (l : DataChannelLimits) (inner : RegistryInner)
    (gs : list ChannelGuard) (next_id now : Z) (p : PeerId) (q : StreamProtocol) (timeout : Z)
    (answer : option (Result Stream OpenStreamError)) :
  limits_in_range l -> registry_ok l inner gs ->
  exists inner' next_id' st r,
    DataChannelOpenFuture_poll l inner next_id now answer (DataChannelOpenFuture_new p q timeout)
    = Some (inner', next_id', st, r)
    /\ if decide (admits l gs p q Outbound) then
         next_id' = wrap64 (next_id + 1)
         /\ match answer with
            | Some (Ok s) =>
                r = Some (Ok (mkDataChannel next_id p q Outbound s (Some (mkGuard p q Outbound))))
                /\ registry_ok l inner' (mkGuard p q Outbound :: gs)
            | Some (Err e) => r = Some (Err (map_open_stream_error e)) /\ inner' = inner
            | None =>
                if (timeout <=? 0)%Z then r = Some (Err (E_Network Timeout)) /\ inner' = inner
                else r = None /\ registry_ok l inner' (mkGuard p q Outbound :: gs)
            end
       else r = Some (Err (E_DataChannel DC_ResourceLimitExceeded))
            /\ inner' = inner /\ next_id' = next_id.
Proof.
  intros Hl Hok. simpl. unfold into_opening_future. simpl.
  destruct (try_acquire l inner p q Outbound) as [i o] eqn:Ha.
  pose proof (try_acquire_inv l Hl _ _ _ _ _ _ _ Hok Ha) as Hinv.
  destruct o as [g|].
  2: { destruct Hinv as [-> Hno]. eexists _, _, _, _. split; [done|]. by rewrite decide_False. }
  destruct Hinv as (-> & Hadm & Hok').
  assert (guard_drop i (mkGuard p q Outbound) = inner) as Hback
    by (eapply registry_ok_unique; [by apply (guard_drop_ok l)|done]).
  unfold open_poll_opening, open_stream_with_guard_poll. simpl.
  destruct answer as [[s|e]|]; simpl;
    [by eexists _, _, _, _; split; [done|]; rewrite decide_True| |].
  - rewrite Hback. eexists _, _, _, _. split; [done|]. by rewrite decide_True.
  - replace (now + timeout <=? now)%Z with (timeout <=? 0)%Z by lia.
    destruct (timeout <=? 0)%Z; simpl; rewrite ?Hback;
      (eexists _, _, _, _; split; [done|]; by rewrite decide_True).
Qed.

(** C35. An open cannot hang: if a future is still pending after any number of
    polls, every poll took place before the deadline fixed by the first one,
    whatever the other side does. *)
Theorem open_terminates `{N : NetTypes} (l : DataChannelLimits) (inner : RegistryInner)
    (next_id now : Z) (p : PeerId) (q : StreamProtocol) (timeout : Z)
    (answer : option (Result Stream OpenStreamError))
    (polls : list (Z * option (Result Stream OpenStreamError))) inner' next_id' st :
  open_run l inner next_id (DataChannelOpenFuture_new p q timeout) ((now, answer) :: polls)
  = Some (inner', next_id', st, None) ->
  Forall (fun x => x.1 < now + timeout)%Z ((now, answer) :: polls).
Proof.
  intros Hr. cbn [open_run] in Hr.
  destruct (DataChannelOpenFuture_poll _ _ _ _ _ _) as [[[[i n] s] [o|]]|] eqn:Hp; [done| |done].
  pose proof Hp as (d & Hw & Hlt & _)%pending_poll.
  assert (d = now + timeout)%Z as ->.
  { simpl in Hp. unfold into_opening_future, open_poll_opening, open_stream_with_guard_poll in Hp.
    destruct Hw as (f & id & -> & Hs). repeat case_match; simplify_eq/=. done. }
  constructor; [done|]. by eapply waiting_run.
Qed.
