(* ===== verification/UnitTests.v ===== *)
(** * The crate's unit tests, run on the model

    Each [#[test]] function of [core/src] as an executable boolean function, its
    assertions joined by [&&], on the definitions the theorems are about: the
    model is held to the same expectations as the code.  What a test obtains
    from its environment (a random peer, the clock, a parsed address, the
    instants at which the runtime polls a task) is an argument, and the theorem
    at the end holds for all of them. *)
From S2P Require Import Prelude Externals Errors DataChannel PendingMap Config Handle Handler.
From S2P Require Import EventLoop OpenFuture.

Definition is_some {A} (o : option A) : bool := match o with Some _ => true | None => false end.
Definition is_none {A} (o : option A) : bool := negb (is_some o).
Definition eqb {A} `{EqDecision A} (x y : A) : bool := bool_decide (x = y).

(** ** [data_channel.rs] *)

Section data_channel.
Context `{N : NetTypes} (proto : StreamProtocol).

Definition test_channel_id_is_monotonic (counter : Z) : bool :=
  let '(counter, a) := DataChannelId_next counter in
  let '(_, b) := DataChannelId_next counter in
  (a <? b)%Z.

Definition test_limits_default_values : bool :=
  let l := DataChannelLimits_default in
  (max_inbound_per_peer l =? 4)%Z && (max_outbound_per_peer l =? 4)%Z
  && (max_per_protocol l =? 64)%Z.

Definition mk_limits (inbound outbound protocol : Z) : DataChannelLimits :=
  {| max_inbound_per_peer := inbound; max_outbound_per_peer := outbound;
     max_per_protocol := protocol |}.

Definition test_registry_enforces_per_peer_inbound_limit (peer : PeerId) : bool :=
  let limits := mk_limits 2 4 64 in
  let reg := RegistryInner_default in
  let '(reg, g1) := try_acquire limits reg peer proto Inbound in
  let '(reg, g2) := try_acquire limits reg peer proto Inbound in
  let '(reg, g3) := try_acquire limits reg peer proto Inbound in
  (is_some g1 && is_some g2) && is_none g3
  && (let reg := guard_drop_opt reg g1 in
      let '(_, g4) := try_acquire limits reg peer proto Inbound in
      is_some g4).

Definition test_registry_enforces_per_protocol_limit (p1 p2 p3 : PeerId) : bool :=
  let limits := mk_limits 10 10 2 in
  let reg := RegistryInner_default in
  let '(reg, g1) := try_acquire limits reg p1 proto Inbound in
  let '(reg, g2) := try_acquire limits reg p2 proto Inbound in
  let '(_, g3) := try_acquire limits reg p3 proto Inbound in
  (is_some g1 && is_some g2) && is_none g3.

Definition test_registry_enforces_per_peer_outbound_limit (peer : PeerId) : bool :=
  let limits := mk_limits 4 1 64 in
  let reg := RegistryInner_default in
  let '(reg, g1) := try_acquire limits reg peer proto Outbound in
  let '(_, g2) := try_acquire limits reg peer proto Outbound in
  is_some g1 && is_none g2.

Definition test_registry_per_protocol_limit_is_shared_across_directions (peer : PeerId) : bool :=
  let limits := mk_limits 10 10 1 in
  let reg := RegistryInner_default in
  let '(reg, inbound) := try_acquire limits reg peer proto Inbound in
  let '(_, outbound) := try_acquire limits reg peer proto Outbound in
  is_some inbound && is_none outbound.

Definition test_registry_inbound_and_outbound_counts_are_independent (peer : PeerId) : bool :=
  let limits := mk_limits 1 1 64 in
  let reg := RegistryInner_default in
  let '(reg, inb) := try_acquire limits reg peer proto Inbound in
  let '(_, out) := try_acquire limits reg peer proto Outbound in
  is_some inb && is_some out.

Definition test_registry_drop_guard_removes_empty_counters (peer : PeerId) : bool :=
  let reg := RegistryInner_default in
  let '(reg, guard) := try_acquire DataChannelLimits_default reg peer proto Inbound in
  is_some guard
  && (let inner := guard_drop_opt reg guard in
      is_none (inbound_per_peer inner !! peer) && is_none (per_protocol inner !! proto)).

Definition test_registry_zero_limit_rejects_immediately (p1 p2 : PeerId) : bool :=
  let limits := mk_limits 0 0 0 in
  let reg := RegistryInner_default in
  let '(reg, a) := try_acquire limits reg p1 proto Inbound in
  let '(_, b) := try_acquire limits reg p2 proto Outbound in
  is_none a && is_none b.

(** ** [client/data_channel_open.rs]; nobody answers the stream control *)

Definition single_outbound_limits : DataChannelLimits := mk_limits 4 1 64.

Definition test_zero_limit_returns_typed_error (peer : PeerId) (next_id now : Z) : bool :=
  let future := DataChannelOpenFuture_new peer proto (from_secs 1) in
  match DataChannelOpenFuture_poll (mk_limits 0 0 0) RegistryInner_default next_id now None future with
  | Some (_, _, _, Some (Err (E_DataChannel DC_ResourceLimitExceeded))) => true
  | _ => false
  end.

Definition test_future_is_lazy_before_first_poll (peer : PeerId) : bool :=
  let reg := RegistryInner_default in
  let _future := DataChannelOpenFuture_new peer proto (from_secs 1) in
  let '(_, guard) := try_acquire single_outbound_limits reg peer proto Outbound in
  is_some guard.

Definition test_dropping_pending_open_releases_quota (peer : PeerId) (next_id now : Z) : bool :=
  let future := DataChannelOpenFuture_new peer proto (from_secs 60) in
  match DataChannelOpenFuture_poll single_outbound_limits RegistryInner_default next_id now None future with
  | Some (reg, _, future, None) =>
      let '(reg, refused) := try_acquire single_outbound_limits reg peer proto Outbound in
      is_none refused
      && (let reg := open_future_drop reg future in
          let '(_, guard) := try_acquire single_outbound_limits reg peer proto Outbound in
          is_some guard)
  | _ => false
  end.

End data_channel.

(** ** [pending_map.rs], from an empty heap *)

Section pending_map.
Local Notation heap := (gmap nat (gmap Z (PendingEntry string))).

Definition test_insert_and_take (now : Z) : bool :=
  let '(h, map, _) := PendingMap_new (∅ : heap) (from_secs 60) in
  let h := PendingMap_insert h map now 1%Z "hello" in
  let h := PendingMap_insert h map now 2%Z "world" in
  (PendingMap_len h map =? 2)
  && (let '(h, a) := PendingMap_take h map 1%Z in
      eqb a (Some "hello") && (PendingMap_len h map =? 1)
      && eqb (PendingMap_take h map 1%Z).2 None).

Definition test_take_nonexistent_returns_none : bool :=
  let '(h, map, _) := PendingMap_new (∅ : heap) (from_secs 60) in
  let '(h, r) := PendingMap_take h map 999%Z in
  eqb r None && PendingMap_is_empty h map.

Definition test_clone_shares_state (now : Z) : bool :=
  let '(h, map, _) := PendingMap_new (∅ : heap) (from_secs 60) in
  let map2 := PendingMap_clone map in
  let h := PendingMap_insert h map now 1%Z "value" in
  let '(h, r) := PendingMap_take h map2 1%Z in
  eqb r (Some "value") && PendingMap_is_empty h map.

(** The entry is put into the cell directly, 61 seconds old; the purge reads
    the clock [elapsed] later. *)
Definition test_ttl_expiry_cleans_up (now elapsed : Z) : bool :=
  let '(h, map, _) := PendingMap_new (∅ : heap) (from_secs 60) in
  let h := <[pm_inner map := <[1%Z := mkEntry "ephemeral" (now - from_secs 61)%Z]>
                               (pm_lock h (pm_inner map))]> h in
  (PendingMap_len h map =? 1)
  && (let '(h, n) := PendingMap_purge_expired h map (now + elapsed) in
      (n =? 1) && PendingMap_is_empty h map).

(** The yield may let the cleanup task run, [elapsed] after the insertion. *)
Definition test_non_expired_entries_survive_cleanup (now elapsed : Z) (ticked : bool) : bool :=
  let '(h, map, task) := PendingMap_new (∅ : heap) (from_secs 60) in
  let h := PendingMap_insert h map now 1%Z "durable" in
  let h := if ticked then cleanup_tick h task (now + elapsed) else h in
  (PendingMap_len h map =? 1) && eqb (PendingMap_take h map 1%Z).2 (Some "durable").

(** The waiting loop ends after the first of [ticks], the cleanup rounds that
    follow the insertion. *)
Definition test_background_cleanup_uses_configured_interval (now : Z) (ticks : list Z) : bool :=
  let '(h, map, task) := with_cleanup_interval (∅ : heap) 0 1000000 in
  let h := PendingMap_insert h map now 1%Z "ephemeral" in
  let h := foldl (fun h t => cleanup_tick h task t) h ticks in
  PendingMap_is_empty h map.

End pending_map.

(** ** [config.rs] *)

Section config.
Context `{N : NetTypes} (version : string) (any_ip4 any_ip6 : Multiaddr).

Local Definition default_config : NodeConfig := NodeConfig_default version any_ip4 any_ip6.

Definition test_default_values : bool :=
  let config := default_config in
  eqb (protocol_version config) "/swarm-p2p/1.0.0"
  && String.prefix "swarm-p2p/" (agent_version config)
  && (length (listen_addrs config) =? 2)
  && (length (bootstrap_peers config) =? 0)
  && enable_mdns config && enable_relay_client config && enable_dcutr config
  && enable_autonat config
  && (idle_connection_timeout config =? from_secs 60)%Z
  && (ping_interval config =? from_secs 15)%Z
  && (ping_timeout config =? from_secs 10)%Z
  && (kad_query_timeout config =? from_secs 60)%Z
  && negb (kad_server_mode config)
  && eqb (infrastructure_mode config) Off
  && eqb (req_resp_protocol config) "/swarm-p2p/req/1.0.0"
  && (req_resp_timeout config =? from_secs 120)%Z
  && (length (data_channel_protocols config) =? 0)
  && (data_channel_open_timeout config =? from_secs 30)%Z
  && (data_channel_idle_timeout config =? from_secs 300)%Z
  && (max_inbound_per_peer (data_channel_limits config) =? 4)%Z.

Definition test_new_overrides_protocol_and_agent : bool :=
  let config := NodeConfig_new default_config "/myapp/2.0.0" "MyApp/2.0.0" in
  eqb (protocol_version config) "/myapp/2.0.0" && eqb (agent_version config) "MyApp/2.0.0"
  && enable_mdns config.

Definition test_builder_chain (addr : Multiaddr) (data_protocol : StreamProtocol) : bool :=
  let limits := mk_limits 1 2 3 in
  let lan_helper :=
    {| enable_kad_server := false;
       relay_limits :=
         {| max_reservations := 4; max_reservations_per_peer := 1;
            reservation_duration := from_secs 60; max_circuits := 2;
            max_circuits_per_peer := 1; max_circuit_duration := from_secs 120;
            max_circuit_bytes := 1024 |};
       announce_private_addrs := false |} in
  let config := NodeConfig_new default_config "/test/1.0.0" "Test/1.0.0" in
  let config := with_listen_addrs config [addr] in
  let config := with_mdns config false in
  let config := with_relay_client config false in
  let config := with_dcutr config false in
  let config := with_autonat config false in
  let config := with_lan_helper config lan_helper in
  let config := with_req_resp_protocol config "/test/req/1.0.0" in
  let config := with_req_resp_timeout config (from_secs 7) in
  let config := with_data_channel_protocols config [data_protocol] in
  let config := with_data_channel_open_timeout config (from_secs 8) in
  let config := with_data_channel_idle_timeout config (from_secs 9) in
  let config := with_data_channel_limits config limits in
  eqb (listen_addrs config) [addr]
  && negb (enable_mdns config) && negb (enable_relay_client config)
  && negb (enable_dcutr config) && negb (enable_autonat config)
  && eqb (infrastructure_mode config) (LanHelper lan_helper)
  && eqb (req_resp_protocol config) "/test/req/1.0.0"
  && (req_resp_timeout config =? from_secs 7)%Z
  && eqb (data_channel_protocols config) [data_protocol]
  && (data_channel_open_timeout config =? from_secs 8)%Z
  && (data_channel_idle_timeout config =? from_secs 9)%Z
  && (max_inbound_per_peer (data_channel_limits config) =? 1)%Z
  && (max_outbound_per_peer (data_channel_limits config) =? 2)%Z
  && (max_per_protocol (data_channel_limits config) =? 3)%Z.

(** A clone is a copy: assigning one of its fields leaves the original. *)
Definition test_clone_is_independent : bool :=
  let config := default_config in
  let config2 := with_mdns config false in
  enable_mdns config && negb (enable_mdns config2).

Definition test_lan_helper_defaults_are_conservative : bool :=
  let config := LanHelperConfig_default in
  enable_kad_server config && announce_private_addrs config
  && (max_reservations (relay_limits config) =? 16)%Z
  && (max_reservations_per_peer (relay_limits config) =? 2)%Z
  && (max_circuits (relay_limits config) =? 8)%Z
  && (max_circuits_per_peer (relay_limits config) =? 2)%Z
  && (max_circuit_bytes (relay_limits config) =? 64 * 1024 * 1024)%Z.

Definition test_infrastructure_roles_helpers : bool :=
  eqb roles_kad_server {| role_kad_server := true; role_relay_server := false |}
  && eqb roles_relay_server {| role_kad_server := false; role_relay_server := true |}
  && eqb roles_kad_and_relay {| role_kad_server := true; role_relay_server := true |}.

End config.

(** ** [client/future.rs] *)

(** [NeverCompletesCommand]: [run] leaves the handle alone. *)
Inductive NeverCompletesCommand := NeverCompletes.

Section future.
Context `{N : NetTypes} `{!Mpsc} {Sw : Type}.

#[export] Instance NeverCompletes_handler : CommandHandler Sw NeverCompletesCommand unit := {
  run c := mret c;
  on_event := default_on_event;
}.

Definition test_first_poll_sends_command_and_drop_marks_it_cancelled (loc waker : nat) : bool :=
  let tx := ch_new 1 in
  let future := CommandFuture_new NeverCompletes loc in
  match CommandFuture_poll (T := unit) future tx ResultState_default waker with
  | (_, tx, st, None) =>
      match ch_recv tx with
      | Some (command, _) =>
          (task_handle command =? loc) && negb (handle_is_cancelled st)
          && (let st := CommandFuture_drop st in handle_is_cancelled st)
      | None => false
      end
  | _ => false
  end.

Definition test_closed_command_channel_returns_behaviour_error (loc waker : nat) : bool :=
  let tx := ch_drop_rx (ch_new 1) in
  let future := CommandFuture_new NeverCompletes loc in
  match CommandFuture_poll (T := unit) future tx ResultState_default waker with
  | (_, _, _, Some (Err (E_Behaviour _))) => true
  | _ => false
  end.

End future.

(** ** [runtime/event_loop.rs] *)

Definition test_usable_lan_addr_filters_non_routable_addresses `{N : NetTypes}
    (private wildcard loopback link_local public unique_local ipv6_loopback : Multiaddr) : bool :=
  is_usable_lan_addr private && is_usable_lan_addr unique_local
  && negb (is_usable_lan_addr wildcard) && negb (is_usable_lan_addr loopback)
  && negb (is_usable_lan_addr link_local) && negb (is_usable_lan_addr public)
  && negb (is_usable_lan_addr ipv6_loopback).

(** The parsed form of ["/ip4/a.b.c.d/tcp/4001"] and ["/ip6/../tcp/4001"]. *)
Definition parsed_ip4 `{N : NetTypes} (tcp : OtherProto) (a b c d : Z) (addr : Multiaddr) : Prop :=
  ma_iter addr = [PIp4 (mkIpv4 a b c d); POther tcp].
Definition parsed_ip6 `{N : NetTypes} (tcp : OtherProto) (segs : list Z) (addr : Multiaddr) : Prop :=
  ma_iter addr = [PIp6 (mkIpv6 segs); POther tcp].

(** ** Lemmas *)

(** Evaluate registry operations on symbolic peers. *)
Ltac registry_eval :=
  repeat progress
    (unfold try_acquire, guard_drop_opt, guard_drop, counter_release, counter_bump, counter_get,
       single_outbound_limits; simpl;
     rewrite ?lookup_insert_eq, ?lookup_empty, ?lookup_delete_eq).

Section data_channel_tests.
Context `{N : NetTypes} (proto : StreamProtocol).

Lemma data_channel_tests_pass (counter : Z) (p1 p2 p3 : PeerId) :
  (0 <= counter < u64_max)%Z ->
  test_channel_id_is_monotonic counter && test_limits_default_values
  && test_registry_enforces_per_peer_inbound_limit proto p1
  && test_registry_enforces_per_protocol_limit proto p1 p2 p3
  && test_registry_enforces_per_peer_outbound_limit proto p1
  && test_registry_per_protocol_limit_is_shared_across_directions proto p1
  && test_registry_inbound_and_outbound_counts_are_independent proto p1
  && test_registry_drop_guard_removes_empty_counters proto p1
  && test_registry_zero_limit_rejects_immediately proto p1 p2 = true.
Proof.
  intros Hc. rewrite !andb_true_iff. split_and!.
  - apply Z.ltb_lt. rewrite wrap64_small by u64_lia. lia.
  - done.
  - unfold test_registry_enforces_per_peer_inbound_limit. by registry_eval.
  - unfold test_registry_enforces_per_protocol_limit. registry_eval.
    rewrite !lookup_insert, !lookup_empty. repeat case_decide; registry_eval;
      change (2 <=? wrap64 (wrap64 (0 + 1) + 1))%Z with true; by rewrite orb_true_r.
  - unfold test_registry_enforces_per_peer_outbound_limit. by registry_eval.
  - unfold test_registry_per_protocol_limit_is_shared_across_directions. by registry_eval.
  - unfold test_registry_inbound_and_outbound_counts_are_independent. by registry_eval.
  - unfold test_registry_drop_guard_removes_empty_counters. by registry_eval.
  - unfold test_registry_zero_limit_rejects_immediately. by registry_eval.
Qed.

Lemma open_tests_pass (peer : PeerId) (next_id now : Z) :
  test_zero_limit_returns_typed_error proto peer next_id now
  && test_future_is_lazy_before_first_poll proto peer
  && test_dropping_pending_open_releases_quota proto peer next_id now = true.
Proof.
  rewrite !andb_true_iff. split_and!.
  - unfold test_zero_limit_returns_typed_error. simpl. unfold into_opening_future. by registry_eval.
  - unfold test_future_is_lazy_before_first_poll. by registry_eval.
  - unfold test_dropping_pending_open_releases_quota. simpl. unfold into_opening_future.
    registry_eval. unfold open_poll_opening, open_stream_with_guard_poll. simpl.
    replace (now + from_secs 60 <=? now)%Z with false by (symmetry; apply Z.leb_gt; unfold from_secs, NANOS_PER_SEC; lia).
    by registry_eval.
Qed.

End data_channel_tests.

Lemma pending_map_tests_pass (now elapsed_purge elapsed_tick : Z) (ticked : bool) (ticks : list Z) :
  (0 <= elapsed_purge)%Z -> (elapsed_tick < from_secs 60)%Z -> ticks <> [] ->
  test_insert_and_take now && test_take_nonexistent_returns_none && test_clone_shares_state now
  && test_ttl_expiry_cleans_up now elapsed_purge
  && test_non_expired_entries_survive_cleanup now elapsed_tick ticked
  && test_background_cleanup_uses_configured_interval now ticks = true.
Proof.
  unfold from_secs, NANOS_PER_SEC. intros Hp He Ht. rewrite !andb_true_iff. split_and!; [done..| | |].
  - unfold test_ttl_expiry_cleans_up, PendingMap_new, with_cleanup_interval,
      PendingMap_purge_expired, PendingMap_len, PendingMap_is_empty.
    cbn [pm_inner pm_ttl]. rewrite !pm_lock_insert, insert_empty, purge_singleton.
    rewrite decide_False; [by rewrite pm_lock_insert|].
    unfold live, duration_since, sat_sub, from_secs, NANOS_PER_SEC. simpl. lia.
  - unfold test_non_expired_entries_survive_cleanup, PendingMap_new, with_cleanup_interval,
      cleanup_tick, PendingMap_insert, pm_insert, PendingMap_len, PendingMap_take, pm_take.
    cbn [pm_inner pm_ttl ct_cell ct_ttl]. destruct ticked; rewrite !pm_lock_insert, !insert_empty; [|done].
    rewrite purge_singleton, decide_True; [done|].
    unfold live, duration_since, sat_sub, from_secs, NANOS_PER_SEC. simpl. lia.
  - unfold test_background_cleanup_uses_configured_interval, with_cleanup_interval,
      PendingMap_insert, PendingMap_is_empty. cbn [pm_inner pm_ttl].
    destruct ticks as [|t ticks]; [done|]. clear Ht He Hp.
    match goal with |- context [foldl ?f ?h (t :: ticks)] =>
      set (step := f); set (h0 := h); change (foldl step h0 (t :: ticks))
        with (foldl step (step h0 t) ticks) end.
    assert (forall h u, pm_lock (step h u) (fresh (dom (∅ : gmap nat (gmap Z (PendingEntry string))))) = ∅)
      as Hstep by (intros h u; unfold step, cleanup_tick; cbn [ct_cell ct_ttl];
                   rewrite pm_lock_insert; by apply purge_no_lifetime).
    generalize (step h0 t) (Hstep h0 t). induction ticks as [|u ticks IH]; intros h Hh; simpl.
    + by rewrite Hh.
    + apply IH, Hstep.
Qed.

Lemma config_tests_pass `{N : NetTypes} (version : string) (any_ip4 any_ip6 addr : Multiaddr)
    (data_protocol : StreamProtocol) :
  test_default_values version any_ip4 any_ip6
  && test_new_overrides_protocol_and_agent version any_ip4 any_ip6
  && test_builder_chain version any_ip4 any_ip6 addr data_protocol
  && test_clone_is_independent version any_ip4 any_ip6
  && test_lan_helper_defaults_are_conservative && test_infrastructure_roles_helpers = true.
Proof.
  rewrite !andb_true_iff. split_and!; [by destruct version; vm_compute|by vm_compute| |done|by vm_compute|by vm_compute].
  unfold test_builder_chain, eqb. rewrite !andb_true_iff, !bool_decide_eq_true. by split_and!.
Qed.

Lemma future_tests_pass `{N : NetTypes} `{MpscLaws} (loc waker : nat) :
  test_first_poll_sends_command_and_drop_marks_it_cancelled loc waker
  && test_closed_command_channel_returns_behaviour_error loc waker = true.
Proof.
  rewrite andb_true_iff. split.
  - unfold test_first_poll_sends_command_and_drop_marks_it_cancelled.
    set (tx := ch_new 1). destruct (ch_new_spec (CommandTask NeverCompletesCommand) 1) as (Hc & Hn & Ha).
    destruct (ch_try_send_ok _ tx (mkTask NeverCompletes loc)) as (tx' & Hs & Hc' & _);
      [done|unfold tx; rewrite Hc, Hn; simpl; lia|].
    unfold CommandFuture_poll, CommandFuture_send. simpl. rewrite Hs. simpl.
    unfold tx in Hc'. rewrite Hc, app_nil_l in Hc'.
    destruct (ch_recv_cons _ tx' _ _ Hc') as (? & -> & _). simpl. by rewrite Nat.eqb_refl.
  - unfold test_closed_command_channel_returns_behaviour_error, CommandFuture_poll, CommandFuture_send.
    simpl. rewrite ch_try_send_closed; [done|]. apply ch_drop_rx_spec.
Qed.

Lemma lan_addr_test_passes `{N : NetTypes} tcp private wildcard loopback link_local public
    unique_local ipv6_loopback :
  parsed_ip4 tcp 192 168 1 10 private -> parsed_ip4 tcp 0 0 0 0 wildcard ->
  parsed_ip4 tcp 127 0 0 1 loopback -> parsed_ip4 tcp 169 254 1 1 link_local ->
  parsed_ip4 tcp 8 8 8 8 public ->
  parsed_ip6 tcp [0xfd00; 0; 0; 0; 0; 0; 0; 1]%Z unique_local ->
  parsed_ip6 tcp [0; 0; 0; 0; 0; 0; 0; 1]%Z ipv6_loopback ->
  test_usable_lan_addr_filters_non_routable_addresses private wildcard loopback link_local public
    unique_local ipv6_loopback = true.
Proof.
  unfold parsed_ip4, parsed_ip6, test_usable_lan_addr_filters_non_routable_addresses,
    is_usable_lan_addr. intros -> -> -> -> -> -> ->. by vm_compute.
Qed.

(** ** Properties *)

(** C40. The model passes the crate's unit tests, all twenty-seven of them, for
    every environment: any peers and protocol, any clock readings consistent
    with the sleeps of the tests, any moment at which the cleanup task runs, any
    channel that obeys tokio's contract, any parse of the literal addresses. *)
Theorem unit_tests_pass `{N : NetTypes} `{MpscLaws} (proto : StreamProtocol) (p1 p2 p3 : PeerId)
    (counter next_id now purge_after tick_after : Z) (ticked : bool) (ticks : list Z)
    (version : string) (any_ip4 any_ip6 addr : Multiaddr) (loc waker : nat) (tcp : OtherProto)
    (private wildcard loopback link_local public unique_local ipv6_loopback : Multiaddr) :
  (0 <= counter < u64_max)%Z -> (0 <= purge_after)%Z -> (tick_after < from_secs 60)%Z ->
  ticks <> [] ->
  parsed_ip4 tcp 192 168 1 10 private -> parsed_ip4 tcp 0 0 0 0 wildcard ->
  parsed_ip4 tcp 127 0 0 1 loopback -> parsed_ip4 tcp 169 254 1 1 link_local ->
  parsed_ip4 tcp 8 8 8 8 public ->
  parsed_ip6 tcp [0xfd00; 0; 0; 0; 0; 0; 0; 1]%Z unique_local ->
  parsed_ip6 tcp [0; 0; 0; 0; 0; 0; 0; 1]%Z ipv6_loopback ->
  (test_channel_id_is_monotonic counter && test_limits_default_values
   && test_registry_enforces_per_peer_inbound_limit proto p1
   && test_registry_enforces_per_protocol_limit proto p1 p2 p3
   && test_registry_enforces_per_peer_outbound_limit proto p1
   && test_registry_per_protocol_limit_is_shared_across_directions proto p1
   && test_registry_inbound_and_outbound_counts_are_independent proto p1
   && test_registry_drop_guard_removes_empty_counters proto p1
   && test_registry_zero_limit_rejects_immediately proto p1 p2)
  && (test_zero_limit_returns_typed_error proto p1 next_id now
      && test_future_is_lazy_before_first_poll proto p1
      && test_dropping_pending_open_releases_quota proto p1 next_id now)
  && (test_insert_and_take now && test_take_nonexistent_returns_none && test_clone_shares_state now
      && test_ttl_expiry_cleans_up now purge_after
      && test_non_expired_entries_survive_cleanup now tick_after ticked
      && test_background_cleanup_uses_configured_interval now ticks)
  && (test_default_values version any_ip4 any_ip6
      && test_new_overrides_protocol_and_agent version any_ip4 any_ip6
      && test_builder_chain version any_ip4 any_ip6 addr proto
      && test_clone_is_independent version any_ip4 any_ip6
      && test_lan_helper_defaults_are_conservative && test_infrastructure_roles_helpers)
  && (test_first_poll_sends_command_and_drop_marks_it_cancelled loc waker
      && test_closed_command_channel_returns_behaviour_error loc waker)
  && test_usable_lan_addr_filters_non_routable_addresses private wildcard loopback link_local
       public unique_local ipv6_loopback = true.
Proof.
  intros. rewrite data_channel_tests_pass, open_tests_pass, pending_map_tests_pass,
    config_tests_pass, future_tests_pass by done. by eapply lan_addr_test_passes.
Qed.
