(* ===== verification/Client.v ===== *)
(** * The client API ([core/src/client/{mod,kad,req_resp}.rs])

    One definition per method of [NetClient].  A method that queues a command is
    the [CommandFuture] it awaits, on a freshly allocated result handle [loc];
    [send_request_with_options] adds tokio's timeout around it and
    [send_response] first takes the response channel out of the pending map.
    The command queue, the handles, the pending map and the registry are the
    shared state of [EventLoop.Shared] and [Handle]. *)
From S2P Require Import Prelude Externals Errors DataChannel PendingMap Config Handle Handler.
From S2P Require Import BasicCommands KadCommands KadQueries ReqRespCommands Commands EventLoop EventChain.
From S2P Require Import CommandChain Dialing OpenFuture.
From stdpp Require Import pretty.

Section client.
Context `{N : NetTypes}.

(** ** [client/mod.rs] *)

(** The command sender, the stream control and the registry are handles on
    shared state without data of their own: what is counted of a sender is how
    many of its clones are alive. *)
Record NetClient := mkNetClient {
  cl_pending_channels : PendingMap;
  cl_dc_open_timeout : Z;
}.

Definition NetClient_new (pending_channels : PendingMap) (dc_open_timeout : Z) : NetClient :=
  mkNetClient pending_channels dc_open_timeout.

Definition NetClient_clone (senders : nat) (c : NetClient) : nat * NetClient :=
  (S senders, mkNetClient (PendingMap_clone (cl_pending_channels c)) (cl_dc_open_timeout c)).

(** [shutdown] drops the client, its sender with it. *)
Definition NetClient_shutdown (senders : nat) (c : NetClient) : nat := pred senders.

Section receiver.
Context `{!Mpsc}.

Record EventReceiver := mkEventReceiver { event_rx : Chan NodeEvent }.

Definition EventReceiver_new (event_rx : Chan NodeEvent) : EventReceiver :=
  mkEventReceiver event_rx.

(** One poll of [recv]; the event loop holds the only sender. *)
Definition EventReceiver_recv (senders : nat) (r : EventReceiver) :
    EventReceiver * option (option NodeEvent) :=
  let '(rx, x) := ch_poll_recv senders (event_rx r) in (mkEventReceiver rx, x).

End receiver.

Definition nc_dial (loc : nat) (peer_id : PeerId) : CommandFuture AnyCommand :=
  let cmd := {| dial_peer_id := peer_id |} in
  CommandFuture_new (ADial cmd) loc.

Definition nc_is_connected (loc : nat) (peer_id : PeerId) : CommandFuture AnyCommand :=
  let cmd := {| is_connected_peer_id := peer_id |} in
  CommandFuture_new (AIsConnected cmd) loc.

Definition nc_disconnect (loc : nat) (peer_id : PeerId) : CommandFuture AnyCommand :=
  let cmd := {| disconnect_peer_id := peer_id |} in
  CommandFuture_new (ADisconnect cmd) loc.

Definition nc_get_addrs (loc : nat) : CommandFuture AnyCommand :=
  let cmd := mkGetListenAddrs in
  CommandFuture_new (AGetListenAddrs cmd) loc.

Definition nc_add_peer_addrs (loc : nat) (peer_id : PeerId) (addrs : list Multiaddr) :
    CommandFuture AnyCommand :=
  let cmd := {| apa_peer_id := peer_id; apa_addrs := addrs |} in
  CommandFuture_new (AAddPeerAddrs cmd) loc.

Definition nc_add_infrastructure_peer (loc : nat) (peer_id : PeerId) (addrs : list Multiaddr)
    (roles : InfrastructureRoles) : CommandFuture AnyCommand :=
  let cmd := AddInfrastructurePeerCommand_new peer_id addrs roles in
  CommandFuture_new (AAddInfrastructurePeer cmd) loc.

(** [open_data_channel] uses the configured timeout. *)
Definition nc_open_data_channel (dc_open_timeout : Z) (peer_id : PeerId)
    (protocol : StreamProtocol) : OpenState :=
  DataChannelOpenFuture_new peer_id protocol dc_open_timeout.

(** ** [client/kad.rs] *)

Definition nc_bootstrap (loc : nat) : CommandFuture AnyCommand :=
  CommandFuture_new (ABootstrap BootstrapCommand_new) loc.

Definition nc_get_record (loc : nat) (key : RecordKey) : CommandFuture AnyCommand :=
  CommandFuture_new (AGetRecord (GetRecordCommand_new key)) loc.

Definition nc_put_record (loc : nat) (record : KadRecord) : CommandFuture AnyCommand :=
  CommandFuture_new (APutRecord (PutRecordCommand_new record)) loc.

Definition nc_get_providers (loc : nat) (key : RecordKey) : CommandFuture AnyCommand :=
  CommandFuture_new (AGetProviders (GetProvidersCommand_new key)) loc.

Definition nc_get_closest_peers (loc : nat) (key : RecordKey) : CommandFuture AnyCommand :=
  CommandFuture_new (AGetClosestPeers (GetClosestPeersCommand_new key)) loc.

Definition nc_start_provide (loc : nat) (key : RecordKey) : CommandFuture AnyCommand :=
  CommandFuture_new (AStartProvide (StartProvideCommand_new key)) loc.

Definition nc_stop_provide (loc : nat) (key : RecordKey) : CommandFuture AnyCommand :=
  CommandFuture_new (AStopProvide {| stop_key := key |}) loc.

Definition nc_remove_record (loc : nat) (key : RecordKey) : CommandFuture AnyCommand :=
  CommandFuture_new (ARemoveRecord {| remove_key := key |}) loc.

(** ** [client/req_resp.rs] *)

(** The command future with the deadline of [tokio::time::timeout], if any. *)
Record RequestCall := mkRequestCall {
  rc_future : CommandFuture AnyCommand;
  rc_deadline : option Z;
}.

Definition nc_send_request_with_options (loc : nat) (now : Z) (peer_id : PeerId) (request : Req)
    (options : RequestOptions) : RequestCall :=
  let cmd := SendRequestCommand_new peer_id request in
  let fut := CommandFuture_new (ASendRequest cmd) loc in
  mkRequestCall fut ((fun timeout => now + timeout)%Z <$> ro_timeout options).

Definition nc_send_request (loc : nat) (now : Z) (peer_id : PeerId) (request : Req) : RequestCall :=
  nc_send_request_with_options loc now peer_id request RequestOptions_new.

(** One poll of the call: the command future first, the timer second.  When
    the call is ready the command future is dropped, which cancels its handle. *)
Definition request_poll `{Mpsc} (c : RequestCall) (now : Z) (sender : Chan (CommandTask AnyCommand))
    (st : ResultState CmdValue) (cx : nat) :
    RequestCall * Chan (CommandTask AnyCommand) * ResultState CmdValue * option (CResult CmdValue) :=
  let '(fut, sender, st, r) := CommandFuture_poll (rc_future c) sender st cx in
  let c := mkRequestCall fut (rc_deadline c) in
  match r, rc_deadline c with
  | Some result, _ => (c, sender, CommandFuture_drop st, Some result)
  | None, Some deadline =>
      if (deadline <=? now)%Z
      then (c, sender, CommandFuture_drop st, Some (Err (E_Network Timeout)))
      else (c, sender, st, None)
  | None, None => (c, sender, st, None)
  end.

Definition no_pending_channel (pending_id : Z) : Error :=
  E_RequestResponse ("No pending channel for pending_id=" +:+ pretty pending_id
                       +:+ " (expired or already responded)").

(** [send_response] up to its [await]; the pending map loses the channel first. *)
Definition nc_send_response (loc : nat) (pending : gmap Z (PendingEntry ResponseChannel))
    (pending_id : Z) (response : Resp) :
    gmap Z (PendingEntry ResponseChannel) * CResult (CommandFuture AnyCommand) :=
  let '(pending, channel) := pm_take pending_id pending in
  match ok_or channel (no_pending_channel pending_id) with
  | Ok channel =>
      let cmd := SendResponseCommand_new channel response in
      (pending, Ok (CommandFuture_new (ASendResponse cmd) loc))
  | Err e => (pending, Err e)
  end.

End client.

(** ** Lemmas *)

Section client_lemmas.
Context `{N : NetTypes} {Sw : Type} `{!SwarmOps Sw, !HashOrder, !Mpsc}.

Lemma send_response_run (channel : ResponseChannel) (response : Resp) (el : EventLoop Sw AnyCommand)
    (sh : Shared CmdValue) (loc : nat) :
  let '(s, res) := rr_send_response (el_swarm el) channel response in
  exists el',
    handle_command el sh (mkTask (ASendResponse (SendResponseCommand_new channel response)) loc)
    = Some (el', finish_handle loc sh
        (match res with
         | Ok _ => Ok (VUnit tt)
         | Err _ => Err (E_RequestResponse "Failed to send response: channel closed")
         end))
    /\ el_swarm el' = s.
Proof.
  destruct (rr_send_response (el_swarm el) channel response) as [s res] eqn:Hs.
  unfold handle_command. simpl. unfold run_boxed_as, H_map, fmap, H_fmap. simpl.
  unfold SendResponseCommand_run. run_H. rewrite Hs. destruct res; simpl; by eexists.
Qed.

End client_lemmas.

(** ** Properties *)

(** C24. Each inbound request can be answered once, and only the one addressed:
    after the request event, the first [send_response] with its identifier
    takes exactly its channel and the response is given to the swarm with that
    channel; a second [send_response] with the identifier is refused and other
    pending requests keep their channels. *)
Theorem request_answered_once `{N : NetTypes} {Sw} `{!SwarmOps Sw, !HashOrder, !Mpsc}
    (el : EventLoop Sw AnyCommand) (sh : Shared CmdValue) (p : PeerId) (request : Req)
    (channel : ResponseChannel) (response response' : Resp) (loc loc' : nat) :
  exists el1 sh1 id,
    convert_to_node_event el sh (Behaviour (CBE_ReqResp (RR_Request p request channel)))
    = (el1, sh1, Some (InboundRequest p id request))
    /\ let '(pending, r) := nc_send_response loc (sh_pending sh1) id response in
       exists cmd, r = Ok (CommandFuture_new cmd loc)
       /\ (forall id', id' <> id -> pending !! id' = sh_pending sh !! id')
       /\ (exists el2 sh2, handle_command el1 sh1 (mkTask cmd loc) = Some (el2, sh2)
             /\ el_swarm el2 = (rr_send_response (el_swarm el) channel response).1)
       /\ nc_send_response loc' pending id response' = (pending, Err (no_pending_channel id)).
Proof.
  simpl. eexists _, _, _. split; [done|]. unfold nc_send_response, pm_take, pm_insert. simpl.
  rewrite lookup_insert_eq. simpl. eexists. split; [done|]. split_and!.
  - intros id' Hne. by rewrite lookup_delete_ne, lookup_insert_ne.
  - match goal with |- context [handle_command ?e ?s _] =>
      pose proof (send_response_run channel response e s loc) as Hr end.
    simpl in Hr. destruct (rr_send_response (el_swarm el) channel response) as [s res].
    destruct Hr as (el' & -> & Hs). by eexists _, _.
  - by rewrite lookup_delete_eq, delete_delete_eq.
Qed.

(** C37. [send_response] takes the channel before it queues the command, so with
    a full or closed command queue the first poll fails, and the channel is
    gone: no later [send_response] can answer the request. *)
Theorem response_lost_when_queue_full `{N : NetTypes} `{MpscLaws}
    (pending : gmap Z (PendingEntry ResponseChannel)) (id : Z) (e : PendingEntry ResponseChannel)
    (response : Resp) (loc cx : nat) (sender : Chan (CommandTask AnyCommand)) :
  pending !! id = Some e ->
  ch_rx_alive sender = false \/ ch_capacity sender <= length (ch_contents sender) ->
  exists pending' fut,
    nc_send_response loc pending id response = (pending', Ok fut)
    /\ (CommandFuture_poll (T := CmdValue) fut sender ResultState_default cx).2
       = Some (Err (E_Behaviour "command channel closed"))
    /\ (CommandFuture_poll (T := CmdValue) fut sender ResultState_default cx).1.1.2 = sender
    /\ forall loc' response',
         nc_send_response loc' pending' id response' = (pending', Err (no_pending_channel id)).
Proof.
  intros He Hfull. unfold nc_send_response, pm_take. rewrite He. simpl.
  eexists _, _. split; [done|].
  assert (exists err, ch_try_send sender
    (mkTask (ASendResponse (SendResponseCommand_new (value e) response)) loc) = Err err) as [err Hs].
  { destruct (ch_rx_alive sender) eqn:Ha; [|eexists; by apply ch_try_send_closed].
    destruct Hfull as [|Hf]; [done|]. eexists. by apply ch_try_send_full. }
  unfold CommandFuture_poll, CommandFuture_send. simpl. rewrite Hs. split_and!; [done..|].
  intros loc' response'. by rewrite lookup_delete_eq, delete_delete_eq.
Qed.

(** A per-call timeout is honoured and cleans up: a request without an
    answer that is polled at or after its deadline returns the timeout error,
    its handle is cancelled, and the loop's next iteration removes the command;
    before the deadline, or without one, it stays pending and active.  A result
    that is already there wins over the timer. *)
Lemma request_timeout_cancels `{N : NetTypes} {Sw} `{!SwarmOps Sw, !HashOrder, !Mpsc}
    (c : RequestCall) (now : Z) (sender : Chan (CommandTask AnyCommand))
    (sh : Shared CmdValue) (el : EventLoop Sw AnyCommand) (st : ResultState CmdValue) (cx : nat)
    (cmd : AnyCommand) :
  let loc := cf_handle (rc_future c) in
  cf_handler (rc_future c) = None -> rs_cancelled st = false ->
  let '(_, _, st', r) := request_poll c now sender st cx in
  let sh' := sh_set_handles (<[loc := st']> (sh_handles sh)) (sh_woken sh) sh in
  let expired := match rc_deadline c with Some d => (d <=? now)%Z | None => false end in
  r = match rs_result st with
      | Some result => Some result
      | None => if expired then Some (Err (E_Network Timeout)) else None
      end
  /\ (mkTask cmd loc ∈ el_active (retain_active el sh')
      <-> mkTask cmd loc ∈ el_active el /\ r = None).
Proof.
  intros loc Hh Hc. unfold request_poll, CommandFuture_poll, CommandFuture_send. rewrite Hh.
  unfold handle_poll.
  assert (forall st', mkTask cmd loc ∈ el_active (retain_active el
      (sh_set_handles (<[loc := st']> (sh_handles sh)) (sh_woken sh) sh))
    <-> mkTask cmd loc ∈ el_active el /\ rs_cancelled st' = false) as Hret.
  { intros st'. simpl. rewrite list_elem_of_filter. unfold task_is_cancelled. simpl.
    rewrite lookup_insert_eq. unfold handle_is_cancelled. tauto. }
  destruct (rs_result st) as [result|]; cbn [rc_deadline rc_future].
  - split; [done|]. rewrite Hret. simpl. naive_solver.
  - destruct (rc_deadline c) as [d|]; [destruct (d <=? now)%Z|];
      (split; [done|]); rewrite Hret; simpl; rewrite ?Hc; naive_solver.
Qed.
