(* ===== verification/Node.v ===== *)
(** * The node ([core/src/runtime/node.rs]) and the loop of [EventLoop::run]

    [start] wires the parts from the configuration.  The running node is the
    transition system [node_step]: the loop, blocked in [select!] or in
    [event_tx.send(..).await], the swarm producing events, and the application
    that queues commands, cancels calls, receives events and drops clients.
    [select!] takes any ready branch, so every branch is a step of its own. *)
From S2P Require Import Prelude Externals Errors DataChannel PendingMap Config Handle Handler.
From S2P Require Import EventLoop EventChain CommandChain Dialing Discovery.

Definition COMMAND_CHANNEL_SIZE : nat := 32.
Definition EVENT_CHANNEL_SIZE : nat := 64.
Definition DC_INBOUND_CHANNEL_SIZE : nat := 16.

(** ** [start] *)

Section start.
Context `{N : NetTypes} {Sw C V : Type}.
Context `{!SwarmOps Sw, !HashOrder, !Mpsc, !CommandHandler Sw C V, !RelayRequester C}.

(** [accept] registers one inbound protocol with the stream control [Ctl]. *)
Context {Ctl : Type} (accept : Ctl -> StreamProtocol -> Ctl * bool).

(** What [start] leaves running or hands out. *)
Record Node := mkNode {
  node_loop : EventLoop Sw C;
  node_shared : Shared V;
  node_commands : Chan (CommandTask C);
  node_inbound_protocols : list StreamProtocol;
  node_pending_ttl : Z;
  node_cleanup_interval : Z;
  node_open_timeout : Z;
}.

(** The protocols whose registration succeeded, in order; failures are logged. *)
Fixpoint accept_all (ctl : Ctl) (protocols : list StreamProtocol) : list StreamProtocol :=
  match protocols with
  | [] => []
  | proto :: protocols =>
      let '(ctl, ok) := accept ctl proto in
      if ok then proto :: accept_all ctl protocols else accept_all ctl protocols
  end.

(** [start], from the built swarm on. *)
Definition start (swarm : Sw) (ctl : Ctl) (now dc_id : Z) (config : NodeConfig) : CResult Node :=
  let inbound_protocol_streams := accept_all ctl (data_channel_protocols config) in
  let command := ch_new COMMAND_CHANNEL_SIZE in
  let shared := mkShared ∅ [] ∅ now (data_channel_limits config) RegistryInner_default dc_id
                  (ch_new EVENT_CHANNEL_SIZE) (ch_new DC_INBOUND_CHANNEL_SIZE) in
  let event_loop := EventLoop_new swarm (protocol_version config) (enable_relay_client config)
                      (infrastructure_mode config) in
  let '(event_loop, listening) := start_listen event_loop (listen_addrs config) in
  match listening with
  | Err e => Err e
  | Ok _ =>
      let event_loop :=
        match bootstrap_peers config with
        | [] => event_loop
        | peers => connect_bootstrap_peers event_loop peers
        end in
      Ok (mkNode event_loop shared command inbound_protocol_streams
            (req_resp_timeout config) DEFAULT_CLEANUP_INTERVAL (data_channel_open_timeout config))
  end.

End start.
Arguments Node {_} Sw C V {_}.

(** ** The running node *)

Section node.
Context `{N : NetTypes} {Sw C V : Type}.
Context `{!SwarmOps Sw, !SwarmPoll Sw, !HashOrder, !Mpsc, !CommandHandler Sw C V, !RelayRequester C}.

(** Where the loop is: at its top, waiting in [select!], waiting to send an
    event, or returned. *)
Inductive LoopPhase :=
| Iterating
| Selecting
| Sending (evt : NodeEvent)
| Stopped.

(** [nw_senders] counts the live clones of the command sender, [nw_received] is
    what the application has received, [nw_converted] the trace of the events
    the loop decided to send. *)
Record NodeWorld := mkNW {
  nw_phase : LoopPhase;
  nw_loop : EventLoop Sw C;
  nw_shared : Shared V;
  nw_commands : Chan (CommandTask C);
  nw_senders : nat;
  nw_received : list NodeEvent;
  nw_converted : list NodeEvent;
}.

(** The phase after an event has been handled. *)
Definition after_event (o : option NodeEvent) : LoopPhase :=
  match o with Some evt => Sending evt | None => Iterating end.

(** [EventLoop::run]. *)
Inductive loop_step : NodeWorld -> NodeWorld -> Prop :=
(* the retain at the top of the loop *)
| ls_retain el sh q n rcv cv :
    loop_step (mkNW Iterating el sh q n rcv cv) (mkNW Selecting (retain_active el sh) sh q n rcv cv)
(* the branches of select! *)
| ls_command el sh q q' n rcv cv cmd el' sh' :
    ch_recv q = Some (cmd, q') ->
    handle_command el sh cmd = Some (el', sh') ->
    loop_step (mkNW Selecting el sh q n rcv cv) (mkNW Iterating el' sh' q' n rcv cv)
| ls_closed el sh q rcv cv :
    ch_recv q = None ->
    loop_step (mkNW Selecting el sh q 0 rcv cv) (mkNW Stopped el sh q 0 rcv cv)
| ls_event el sh q n rcv cv ev s el' sh' o :
    sw_poll (el_swarm el) (Some ev) s ->
    handle_swarm_event (el_set_swarm s el) sh ev = Some (el', sh', o) ->
    loop_step (mkNW Selecting el sh q n rcv cv)
      (mkNW (after_event o) el' sh' q n rcv (cv ++ option_list o))
| ls_pending el sh q n rcv cv s :
    sw_poll (el_swarm el) None s ->
    loop_step (mkNW Selecting el sh q n rcv cv) (mkNW Selecting (el_set_swarm s el) sh q n rcv cv)
| ls_inbound el sh q n rcv cv proto peer stream :
    loop_step (mkNW Selecting el sh q n rcv cv)
      (mkNW Iterating el (handle_inbound_channel sh proto peer stream) q n rcv cv)
| ls_inbound_end el sh q n rcv cv :
    loop_step (mkNW Selecting el sh q n rcv cv) (mkNW Iterating el sh q n rcv cv)
(* the await of event_tx.send *)
| ls_sent evt el sh q n rcv cv ch :
    ch_try_send (sh_events sh) evt = Ok ch ->
    loop_step (mkNW (Sending evt) el sh q n rcv cv) (mkNW Iterating el (sh_set_events ch sh) q n rcv cv)
| ls_send_closed evt el sh q n rcv cv :
    ch_try_send (sh_events sh) evt = Err TSE_Closed ->
    loop_step (mkNW (Sending evt) el sh q n rcv cv) (mkNW Iterating el sh q n rcv cv).

(** Everything else that happens to the node's shared state, in any phase of the
    loop, without assumptions on who does it: [System] has the actual clients. *)
Inductive app_step : NodeWorld -> NodeWorld -> Prop :=
| as_receive ph el sh q n rcv cv evt ch :
    ch_recv (sh_events sh) = Some (evt, ch) ->
    app_step (mkNW ph el sh q n rcv cv) (mkNW ph el (sh_set_events ch sh) q n (rcv ++ [evt]) cv)
| as_drop_events ph el sh q n rcv cv :
    app_step (mkNW ph el sh q n rcv cv)
      (mkNW ph el (sh_set_events (ch_drop_rx (sh_events sh)) sh) q n rcv cv)
| as_submit ph el sh q n rcv cv cmd q' :
    0 < n -> ch_try_send q cmd = Ok q' ->
    app_step (mkNW ph el sh q n rcv cv) (mkNW ph el sh q' n rcv cv)
| as_handles ph el sh q n rcv cv h w :
    app_step (mkNW ph el sh q n rcv cv) (mkNW ph el (sh_set_handles h w sh) q n rcv cv)
| as_pending ph el sh q n rcv cv m :
    app_step (mkNW ph el sh q n rcv cv) (mkNW ph el (sh_set_pending m sh) q n rcv cv)
| as_registry ph el sh q n rcv cv inner id :
    app_step (mkNW ph el sh q n rcv cv) (mkNW ph el (sh_set_dc inner id sh) q n rcv cv)
| as_inbound ph el sh q n rcv cv ch :
    app_step (mkNW ph el sh q n rcv cv) (mkNW ph el (sh_set_inbound ch sh) q n rcv cv)
| as_time ph el sh q n rcv cv now :
    app_step (mkNW ph el sh q n rcv cv) (mkNW ph el (sh_set_now now sh) q n rcv cv)
| as_clone ph el sh q n rcv cv :
    0 < n -> app_step (mkNW ph el sh q n rcv cv) (mkNW ph el sh q (S n) rcv cv)
| as_drop_client ph el sh q n rcv cv :
    app_step (mkNW ph el sh q (S n) rcv cv) (mkNW ph el sh q n rcv cv).

Inductive node_step (w w' : NodeWorld) : Prop :=
| ns_loop : loop_step w w' -> node_step w w'
| ns_app : app_step w w' -> node_step w w'.

(** Events of the LAN-helper status, which [try_send] may drop. *)
Definition is_status (e : NodeEvent) : bool :=
  match e with LanHelperStatusChanged _ _ => true | _ => false end.

Definition reliable (es : list NodeEvent) : list NodeEvent :=
  filter (fun e => is_status e = false) es.

Definition in_flight (ph : LoopPhase) : list NodeEvent :=
  match ph with Sending evt => [evt] | _ => [] end.

(** While the application keeps its receiver: received, queued and in-flight
    events are, in this order, the converted ones. *)
Definition events_conserved (w : NodeWorld) : Prop :=
  ch_rx_alive (sh_events (nw_shared w)) = true ->
  reliable (nw_received w ++ ch_contents (sh_events (nw_shared w)) ++ in_flight (nw_phase w))
     = nw_converted w.

End node.
Arguments NodeWorld {_} Sw C V {_}.

(** ** Lemmas *)

(** What a successful [try_send] means. *)
Lemma ch_try_send_inv `{MpscLaws} {A} (c c' : Chan A) a :
  ch_try_send c a = Ok c' ->
  ch_rx_alive c = true /\ length (ch_contents c) < ch_capacity c
  /\ ch_contents c' = ch_contents c ++ [a] /\ ch_rx_alive c' = true.
Proof.
  intros Hs. destruct (ch_rx_alive c) eqn:Ha; [|by rewrite ch_try_send_closed in Hs].
  destruct (Nat.le_gt_cases (ch_capacity c) (length (ch_contents c))) as [Hf|Hf].
  { by rewrite ch_try_send_full in Hs. }
  destruct (ch_try_send_ok _ c a Ha Hf) as (c2 & Hc2 & Hcont & _ & Halive).
  rewrite Hc2 in Hs. by simplify_eq.
Qed.

Lemma ch_recv_inv `{MpscLaws} {A} (c c' : Chan A) a :
  ch_recv c = Some (a, c') ->
  ch_contents c = a :: ch_contents c' /\ ch_rx_alive c' = ch_rx_alive c.
Proof.
  intros Hr. destruct (ch_contents c) as [|b l] eqn:Hc; [by rewrite ch_recv_nil in Hr|].
  destruct (ch_recv_cons _ c b l Hc) as (c2 & Hc2 & Hl & _ & Ha). rewrite Hc2 in Hr.
  by simplify_eq.
Qed.

(** A poll of a receiver that yields an element. *)
Lemma poll_recv_inv `{Mpsc} {A} (c c' : Chan A) n x :
  ch_poll_recv n c = (c', Some (Some x)) -> ch_recv c = Some (x, c').
Proof. unfold ch_poll_recv. repeat case_match; intros; by simplify_eq. Qed.

Section events.
Context `{N : NetTypes} {Sw C V : Type}.
Context `{!SwarmOps Sw, !SwarmPoll Sw, !HashOrder, !Mpsc, !MpscLaws}.
Context `{!CommandHandler Sw C V, !RelayRequester C, !Keyed C, !CommandHandlerLaws Sw C V}.
Implicit Types (el : EventLoop Sw C) (sh : Shared V).

Lemma reliable_app es es' : reliable (es ++ es') = reliable es ++ reliable es'.
Proof. apply filter_app. Qed.

Lemma finish_all_events loc sh fin :
  sh_events (foldl (finish_handle loc) sh fin) = sh_events sh.
Proof.
  revert sh. induction fin as [|r fin IH]; intros sh; simpl; [done|]. rewrite IH.
  unfold finish_handle. by destruct (sh_handles sh !! loc).
Qed.

Lemma deliver_all_events s ev l sh : sh_events (foldl (deliver s ev) sh l) = sh_events sh.
Proof.
  revert sh. induction l as [|t l IH]; intros sh; simpl; [done|].
  rewrite IH. apply finish_all_events.
Qed.

Lemma inbound_events sh q p s : sh_events (handle_inbound_channel sh q p s) = sh_events sh.
Proof. unfold handle_inbound_channel. by repeat case_match. Qed.

Lemma handle_command_events el sh cmd el' sh' :
  handle_command el sh cmd = Some (el', sh') -> sh_events sh' = sh_events sh.
Proof.
  unfold handle_command. repeat case_match; intros; simplify_eq; apply finish_all_events.
Qed.

(** The event queue after a conversion: status events may have been added. *)
Definition status_appended (c c' : Chan NodeEvent) : Prop :=
  ch_rx_alive c' = ch_rx_alive c
  /\ exists st, ch_contents c' = ch_contents c ++ st /\ reliable st = [].

Lemma convert_events el sh ev :
  let '(_, sh', o) := convert_to_node_event el sh ev in
  status_appended (sh_events sh) (sh_events sh') /\ reliable (option_list o) = option_list o.
Proof.
  assert (status_appended (sh_events sh) (sh_events sh)) as Hrefl
    by (split; [done|]; exists []; by rewrite app_nil_r).
  destruct ev as [[p [rtt|e]|p info|[]|[]|ps|[]|[]|a sv [u|x]|p [u|x]|]|p n|p n|o e| |a| | |];
    simpl; try (by split); try (by case_match).
  unfold maybe_announce_lan_helper_addr.
  destruct (el_lan_helper el) as [cfg|]; [|by split]. destruct (negb _); [by split|].
  match goal with |- context [if ?b then el_set_advertised ?x ?y else el] =>
    set (el1 := if b then el_set_advertised x y else el) end.
  destruct (ch_try_send _ _) as [ch|] eqn:Hs; (split; [|done]); [|done].
  apply ch_try_send_inv in Hs as (Ha & _ & Hc & Ha'). split; simpl; [congruence|].
  rewrite Hc. by eexists.
Qed.

Lemma handle_swarm_event_events el sh ev el' sh' o :
  handle_swarm_event el sh ev = Some (el', sh', o) ->
  status_appended (sh_events sh) (sh_events sh') /\ reliable (option_list o) = option_list o.
Proof.
  unfold handle_swarm_event.
  destruct (offer_event_spec ev el sh) as (r & active & sh1 & -> & Hc).
  destruct Hc as (visited & rest & _ & _ & Hsh & _).
  assert (sh_events sh1 = sh_events sh) as <- by (rewrite Hsh; apply deliver_all_events).
  clear Hsh.
  destruct r as [ev'|]; intros; simplify_eq.
  - pose proof (convert_events (el_set_active active el) sh1 ev') as Hv.
    destruct (convert_to_node_event _ _ _) as [[el2 sh2] o2]. by simplify_eq.
  - split; [|done]. split; [done|]. exists []. by rewrite app_nil_r.
Qed.

Lemma loop_step_conserved (w w' : NodeWorld Sw C V) :
  loop_step w w' -> events_conserved w -> events_conserved w'.
Proof.
  unfold events_conserved.
  destruct 1 as [|? ? ? ? ? ? ? ? ? ? ? Hc| |? ? ? ? ? ? ? ? ? ? o _ He| | | |? ? ? ? ? ? ? ? Hs|
                 ? el sh ? ? ? ? Hs]; simpl; try done.
  - by rewrite (handle_command_events _ _ _ _ _ Hc).
  - apply handle_swarm_event_events in He as [[Ha (st & Hst & Hno)] Ho].
    rewrite Ha, Hst. intros Hcons Halive. specialize (Hcons Halive).
    rewrite app_nil_r in Hcons. rewrite <- Hcons, <- Ho, !reliable_app, Hno.
    destruct o; simpl; by rewrite ?app_nil_r, <- ?app_assoc.
  - by rewrite inbound_events.
  - apply ch_try_send_inv in Hs as (Ha & _ & Hcont & _).
    intros Hcons _. rewrite Hcont, app_nil_r. by apply Hcons.
  - intros _ Halive. exfalso.
    destruct (Nat.le_gt_cases (ch_capacity (sh_events sh)) (length (ch_contents (sh_events sh))))
      as [Hf|Hf]; [by rewrite ch_try_send_full in Hs|].
    destruct (ch_try_send_ok _ (sh_events sh) evt Halive Hf) as (? & Hok & _). congruence.
Qed.

Lemma app_step_conserved (w w' : NodeWorld Sw C V) :
  app_step w w' -> events_conserved w -> events_conserved w'.
Proof.
  unfold events_conserved.
  destruct 1 as [? ? ? ? ? ? ? ? ? Hr|? ? sh| | | | | | | |]; simpl; try done.
  - apply ch_recv_inv in Hr as [Hcont Ha]. rewrite Ha. intros Hcons Halive.
    rewrite <- (Hcons Halive), Hcont. by rewrite <- !app_assoc.
  - intros _ Halive. destruct (ch_drop_rx_spec _ (sh_events sh)) as (_ & _ & Hd). congruence.
Qed.

Lemma node_step_conserved (w w' : NodeWorld Sw C V) :
  node_step w w' -> events_conserved w -> events_conserved w'.
Proof. intros [?|?]; [by apply loop_step_conserved|by apply app_step_conserved]. Qed.

(** A receiver that is alive has been alive all along. *)
Lemma alive_mono (w w' : NodeWorld Sw C V) :
  node_step w w' -> ch_rx_alive (sh_events (nw_shared w')) = true ->
  ch_rx_alive (sh_events (nw_shared w)) = true.
Proof.
  intros [Hs|Hs].
  - destruct Hs as [|? ? ? ? ? ? ? ? ? ? ? Hc| |? ? ? ? ? ? ? ? ? ? o _ He| | | |? ? ? ? ? ? ? ? Hs|];
      simpl; try done.
    + by rewrite (handle_command_events _ _ _ _ _ Hc).
    + apply handle_swarm_event_events in He as [[-> _] _]. done.
    + by rewrite inbound_events.
    + by apply ch_try_send_inv in Hs as (-> & _).
  - destruct Hs as [? ? ? ? ? ? ? ? ? Hr|? ? sh| | | | | | | |]; simpl; try done.
    + by apply ch_recv_inv in Hr as [_ ->].
    + destruct (ch_drop_rx_spec _ (sh_events sh)) as (_ & _ & ->). done.
Qed.

Lemma alive_mono_rtc (w w' : NodeWorld Sw C V) :
  rtc node_step w w' -> ch_rx_alive (sh_events (nw_shared w')) = true ->
  ch_rx_alive (sh_events (nw_shared w)) = true.
Proof. induction 1; [done|]. eauto using alive_mono. Qed.

End events.

(** The loop is stuck in a send, and its commands wait. *)
Section blocked.
Context `{N : NetTypes} {Sw C V : Type}.
Context `{!SwarmOps Sw, !SwarmPoll Sw, !HashOrder, !Mpsc, !MpscLaws}.
Context `{!CommandHandler Sw C V, !RelayRequester C}.

Definition blocked (w : NodeWorld Sw C V) (evt : NodeEvent) : Prop :=
  nw_phase w = Sending evt /\ ch_rx_alive (sh_events (nw_shared w)) = true
  /\ ch_capacity (sh_events (nw_shared w)) <= length (ch_contents (sh_events (nw_shared w))).

(** The loop itself has no step. *)
Lemma blocked_loop (w w' : NodeWorld Sw C V) evt : blocked w evt -> ~ loop_step w w'.
Proof.
  intros (Hp & Ha & Hf) Hs.
  destruct Hs as [| | | | | | |? ? ? ? ? ? ? ? Hs|? ? ? ? ? ? ? Hs]; simpl in *; simplify_eq.
  - apply ch_try_send_inv in Hs as (_ & Hlt & _). lia.
  - by rewrite ch_try_send_full in Hs.
Qed.

Lemma blocked_step (w w' : NodeWorld Sw C V) evt :
  node_step w w' -> blocked w evt -> ch_rx_alive (sh_events (nw_shared w')) = true ->
  (blocked w' evt /\ nw_loop w' = nw_loop w /\ nw_received w' = nw_received w
   /\ ch_contents (nw_commands w) `prefix_of` ch_contents (nw_commands w'))
  \/ (exists e, nw_received w' = nw_received w ++ [e]).
Proof.
  intros [Hs|Hs] Hb; [by apply (blocked_loop _ w') in Hb|]. unfold blocked in *.
  destruct Hs as [|? ? sh|? ? ? ? ? ? ? ? ? ? Hs| | | | | | |]; simpl in *;
    destruct Hb as (Hp & Ha & Hf); intros Halive; try (left; by split_and!).
  - right. eauto.
  - destruct (ch_drop_rx_spec _ (sh_events sh)) as (_ & _ & Hd). congruence.
  - left. apply ch_try_send_inv in Hs as (_ & _ & Hc & _). rewrite Hc. split_and!; try done.
    by apply prefix_app_r.
Qed.

Lemma received_mono (w w' : NodeWorld Sw C V) :
  node_step w w' -> length (nw_received w) <= length (nw_received w').
Proof. intros [[]|[]]; simpl; rewrite ?length_app; lia. Qed.

Lemma received_mono_rtc (w w' : NodeWorld Sw C V) :
  rtc node_step w w' -> length (nw_received w) <= length (nw_received w').
Proof. induction 1 as [|? ? ? Hs _ IH]; [done|]. apply received_mono in Hs. lia. Qed.

Lemma stopped_step (w w' : NodeWorld Sw C V) :
  node_step w w' ->
  (nw_phase w = Stopped -> nw_senders w = 0 /\ ch_contents (nw_commands w) = []) ->
  nw_phase w' = Stopped -> nw_senders w' = 0 /\ ch_contents (nw_commands w') = [].
Proof.
  intros [Hs|Hs].
  - destruct Hs as [| |? ? q ? ? Hr|? ? ? ? ? ? ? ? ? ? o| | | | |]; simpl; try done.
    + intros _ _. split; [done|].
      destruct (ch_contents q) as [|c l] eqn:Hc; [done|].
      destruct (ch_recv_cons _ q c l Hc) as (? & Hrc & _). congruence.
    + by destruct o.
  - destruct Hs; simpl; try done; intros Hi Hp; destruct (Hi Hp); lia.
Qed.

(** Once stopped, no sender is left and the queue is empty. *)
Lemma stopped_drained (w w' : NodeWorld Sw C V) :
  rtc node_step w w' -> nw_phase w = Iterating -> nw_phase w' = Stopped ->
  nw_senders w' = 0 /\ ch_contents (nw_commands w') = [].
Proof.
  intros Hr Hp. eapply (rtc_invariant node_step
    (fun w => nw_phase w = Stopped -> nw_senders w = 0 /\ ch_contents (nw_commands w) = []));
    [apply stopped_step|exact Hr|congruence].
Qed.

End blocked.

(** Handling is total; a run command becomes the last active one. *)
Section total.
Context `{N : NetTypes} {Sw C V : Type}.
Context `{!SwarmOps Sw, !HashOrder, !Mpsc, !CommandHandler Sw C V, !RelayRequester C}.
Context `{!Keyed C, !CommandHandlerLaws Sw C V}.
Implicit Types (el : EventLoop Sw C) (sh : Shared V).

Lemma handle_swarm_event_total el sh ev : is_Some (handle_swarm_event el sh ev).
Proof.
  destruct (offer_event_spec ev el sh) as (r & active & sh' & Ho & _).
  unfold handle_swarm_event. rewrite Ho. destruct r; eauto.
Qed.

Lemma handle_command_total el sh cmd :
  exists el' sh', handle_command el sh cmd = Some (el', sh')
    /\ task_handle <$> last (el_active el') = Some (task_handle cmd).
Proof.
  unfold handle_command. destruct (run_total (R := V) (task_handler cmd) (el_swarm el))
    as (c & s & fin & -> & _).
  destruct (take_relay_reservation_request c) as [c' req]. eexists _, _. split; [done|].
  simpl. by rewrite last_snoc.
Qed.

(** A handle without an active task is not touched by a visit. *)
Lemma chain_spec_other_handle s ev active active' sh sh' remaining loc :
  chain_spec s ev active active' sh sh' remaining ->
  loc ∉ task_handle <$> active ->
  loc ∉ task_handle <$> active' /\ sh_handles sh' !! loc = sh_handles sh !! loc.
Proof.
  intros (visited & rest & Hp & Hp' & -> & _). rewrite <- Hp, Hp', !fmap_app, !not_elem_of_app.
  intros [Hv Hrest]. split; [split; [|done]|by apply deliver_all_other].
  intros (t' & -> & Ht)%list_elem_of_fmap. apply list_elem_of_omap in Ht as (t & Ht & Hs).
  apply survivor_key in Hs as [_ He]. apply Hv. rewrite He. by apply list_elem_of_fmap_2.
Qed.

End total.

(** The swarm calls of the start-up sequence. *)
Section startup.
Context `{N : NetTypes} {Sw C : Type} `{!SwarmOps Sw}.
Implicit Types (el : EventLoop (Logged Sw) C).

Lemma start_listen_log el addrs :
  exists s, (start_listen el addrs).1 = el_set_swarm s el
    /\ match (start_listen el addrs).2 with
       | Ok _ => lg_calls s = lg_calls (el_swarm el) ++ (CallListenOn <$> addrs)
       | Err e => exists failed before after te, addrs = before ++ failed :: after
            /\ e = E_Listen (transport_error_display te)
            /\ lg_calls s = lg_calls (el_swarm el) ++ (CallListenOn <$> before ++ [failed])
       end.
Proof.
  revert el. induction addrs as [|a addrs IH]; intros el; simpl.
  { exists (el_swarm el). split; [by destruct el|by rewrite app_nil_r]. }
  unfold log_upd_r. destruct (sw_listen_on (lg_swarm (el_swarm el)) a) as [s1 [u|te]]; simpl.
  - destruct (IH (el_set_swarm (log_upd (CallListenOn a) (el_swarm el) s1) el)) as (s & Hs & Hr).
    exists s. rewrite Hs. split; [done|]. destruct (start_listen _ _).2 as [u'|e]; simpl in Hr.
    + by rewrite Hr, <- app_assoc.
    + destruct Hr as (failed & before & after & te & -> & -> & Hr).
      exists failed, (a :: before), after, te. rewrite Hr, <- app_assoc. done.
  - eexists. split; [done|]. by exists a, [], addrs, te.
Qed.

Lemma connect_log el peers :
  let el' := connect_bootstrap_peers el peers in
  lg_calls (el_swarm el')
  = lg_calls (el_swarm el)
    ++ concat ((fun x => [CallKadAddAddress x.1 x.2; CallAddPeerAddress x.1 x.2; CallDial x.1])
                 <$> peers)
  /\ el_active el' = el_active el /\ el_pending_id_counter el' = el_pending_id_counter el
  /\ dom (el_bootstrap_peers el')
     = (if el_enable_relay_client el then list_to_set peers.*1 else ∅) ∪ dom (el_bootstrap_peers el).
Proof.
  unfold connect_bootstrap_peers. revert el.
  induction peers as [|[p a] peers IH]; intros el; simpl.
  { split_and!; [by rewrite app_nil_r|done|done|]. destruct (el_enable_relay_client el); set_solver. }
  destruct (el_enable_relay_client el) eqn:Hr; simpl;
    (match goal with |- context [foldl connect_bootstrap_peer ?e peers] =>
       destruct (IH e) as (-> & -> & -> & ->) end); simpl; rewrite Hr, <- ?app_assoc;
    (split_and!; [done..|]); set_solver.
Qed.

End startup.

(** What a successful [start] leaves behind, whatever it did to the swarm. *)
Section started.
Context `{N : NetTypes} {Sw C V : Type}.
Context `{!SwarmOps Sw, !HashOrder, !Mpsc, !CommandHandler Sw C V, !RelayRequester C}.
Implicit Types (el : EventLoop Sw C).

Lemma start_listen_active el addrs : el_active (start_listen el addrs).1 = el_active el.
Proof.
  revert el. induction addrs as [|a addrs IH]; intros el; simpl; [done|].
  destruct (sw_listen_on (el_swarm el) a) as [s [u|e]]; [|done]. by rewrite IH.
Qed.

Lemma connect_active el peers : el_active (connect_bootstrap_peers el peers) = el_active el.
Proof.
  unfold connect_bootstrap_peers. revert el. induction peers as [|[p a] peers IH]; intros el; [done|].
  simpl. destruct (sw_dial _ p) as [s r]. rewrite IH. simpl. by case_match.
Qed.

Lemma start_inv {Ctl} (accept : Ctl -> StreamProtocol -> Ctl * bool) swarm ctl now dc_id config
    (node : Node Sw C V) :
  start accept swarm ctl now dc_id config = Ok node ->
  el_active (node_loop node) = []
  /\ node_commands node = ch_new COMMAND_CHANNEL_SIZE
  /\ node_shared node
     = mkShared ∅ [] ∅ now (data_channel_limits config) RegistryInner_default dc_id
         (ch_new EVENT_CHANNEL_SIZE) (ch_new DC_INBOUND_CHANNEL_SIZE).
Proof.
  unfold start. set (el0 := EventLoop_new _ _ _ _).
  pose proof (start_listen_active el0 (listen_addrs config)) as Ha.
  destruct (start_listen el0 (listen_addrs config)) as [el1 [u|e]]; [|done].
  intros [= <-]. cbn [node_loop node_shared node_commands]. split; [|done]. simpl in Ha.
  destruct (bootstrap_peers config) as [|p l] eqn:Hb; [done|]. etrans; [apply (connect_active el1 (p :: l))|done].
Qed.

End started.

(** ** Properties *)

(** C7. Front-end events are neither lost, duplicated nor reordered: in every
    state the node and its application can reach while the application holds
    its receiver, what it has received, then what is queued, then what the loop
    is waiting to send, is exactly the sequence of events the loop converted;
    only LAN-helper status events, which are sent with [try_send], are not
    counted on. *)
Theorem events_delivered_in_order `{N : NetTypes} {Sw C V}
    `{!SwarmOps Sw, !SwarmPoll Sw, !HashOrder, !Mpsc, !MpscLaws}
    `{!CommandHandler Sw C V, !RelayRequester C, !Keyed C, !CommandHandlerLaws Sw C V}
    (el : EventLoop Sw C) (sh : Shared V) (q : Chan (CommandTask C)) (n : nat)
    (w : NodeWorld Sw C V) :
  ch_contents (sh_events sh) = [] ->
  rtc node_step (mkNW Iterating el sh q n [] []) w ->
  ch_rx_alive (sh_events (nw_shared w)) = true ->
  reliable (nw_received w ++ ch_contents (sh_events (nw_shared w)) ++ in_flight (nw_phase w))
  = nw_converted w.
Proof.
  intros Hc Hr. eapply (rtc_invariant node_step events_conserved); [|exact Hr|].
  - apply node_step_conserved.
  - intros _. simpl. by rewrite Hc.
Qed.

(** A slow consumer blocks the whole node: once the loop waits to send an
    event into a full queue, nothing the application and its clients do short
    of receiving an event or dropping the receiver lets it handle a command, a
    swarm event or an inbound channel; commands queue up behind it. *)
Lemma full_event_queue_blocks_node `{N : NetTypes} {Sw C V}
    `{!SwarmOps Sw, !SwarmPoll Sw, !HashOrder, !Mpsc, !MpscLaws}
    `{!CommandHandler Sw C V, !RelayRequester C, !Keyed C, !CommandHandlerLaws Sw C V}
    (w w' : NodeWorld Sw C V) (evt : NodeEvent) :
  blocked w evt -> rtc node_step w w' -> nw_received w' = nw_received w ->
  ch_rx_alive (sh_events (nw_shared w')) = true ->
  nw_phase w' = Sending evt /\ nw_loop w' = nw_loop w
  /\ ch_contents (nw_commands w) `prefix_of` ch_contents (nw_commands w').
Proof.
  intros Hb Hr. revert Hb. induction Hr as [w|w w1 w2 Hs Hr IH]; intros Hb Hrec Ha.
  { split_and!; [apply Hb|done|done]. }
  destruct (blocked_step _ _ _ Hs Hb) as [(Hb1 & Hl & Hrc & Hp)|[e He]].
  - by eapply alive_mono_rtc.
  - destruct IH as (Hp2 & Hl2 & Hpre); [done|congruence|done|].
    split_and!; [done|congruence|by etrans].
  - apply received_mono_rtc in Hr. rewrite Hrec, He, length_app in Hr. simpl in Hr. lia.
Qed.

(** The loop never gets stuck by itself, and never panics: at the top it
    goes on; in [select!] the first queued command can be run, and whatever
    event the swarm yields is handled; with no command left and no client the
    loop can return; and a waiting send completes as soon as the event queue
    has room or the receiver is gone. *)
Lemma node_progress `{N : NetTypes} {Sw C V}
    `{!SwarmOps Sw, !SwarmPoll Sw, !HashOrder, !Mpsc, !MpscLaws}
    `{!CommandHandler Sw C V, !RelayRequester C, !Keyed C, !CommandHandlerLaws Sw C V}
    (ph : LoopPhase) (el : EventLoop Sw C) (sh : Shared V) (q : Chan (CommandTask C)) (n : nat)
    (rcv cv : list NodeEvent) :
  let w := mkNW ph el sh q n rcv cv in
  match ph with
  | Iterating => exists el', loop_step w (mkNW Selecting el' sh q n rcv cv)
  | Selecting =>
      (forall ev s, sw_poll (el_swarm el) (Some ev) s ->
         exists el' sh' o, loop_step w (mkNW (after_event o) el' sh' q n rcv (cv ++ option_list o)))
      /\ match ch_contents q with
         | cmd :: cmds =>
             exists el' sh' q', loop_step w (mkNW Iterating el' sh' q' n rcv cv)
               /\ ch_contents q' = cmds
               /\ task_handle <$> last (el_active el') = Some (task_handle cmd)
         | [] => n = 0 -> exists w', loop_step w w' /\ nw_phase w' = Stopped
         end
  | Sending evt =>
      ch_rx_alive (sh_events sh) = false
      \/ length (ch_contents (sh_events sh)) < ch_capacity (sh_events sh) ->
      exists sh', loop_step w (mkNW Iterating el sh' q n rcv cv)
  | Stopped => True
  end.
Proof.
  intros w. destruct ph as [| |evt|]; [eexists; apply ls_retain| | |done].
  - split.
    + intros ev s Hp.
      destruct (handle_swarm_event_total (el_set_swarm s el) sh ev) as [[[el' sh'] o] He].
      exists el', sh', o. by eapply ls_event.
    + destruct (ch_contents q) as [|cmd cmds] eqn:Hq.
      { intros ->. eexists. split; [apply ls_closed; by apply ch_recv_nil|done]. }
      destruct (ch_recv_cons _ q cmd cmds Hq) as (q' & Hr & Hc & _).
      destruct (handle_command_total el sh cmd) as (el' & sh' & Hh & Hlast).
      exists el', sh', q'. split; [by eapply ls_command|done].
  - destruct (ch_rx_alive (sh_events sh)) eqn:Ha.
    + intros [|Hlt]; [done|].
      destruct (ch_try_send_ok _ (sh_events sh) evt Ha Hlt) as (ch & Hch & _).
      eexists. by eapply ls_sent.
    + intros _. eexists. apply ls_send_closed. by apply ch_try_send_closed.
Qed.

(** C29. A cancelled command is forgotten: from the next iteration of the loop
    on it is not active, so whatever event arrives, it is not offered the event
    and its handle is left exactly as it was; all other commands stay. *)
Theorem cancelled_is_forgotten `{N : NetTypes} {Sw C V}
    `{!SwarmOps Sw, !HashOrder, !Mpsc, !CommandHandler Sw C V, !RelayRequester C}
    `{!Keyed C, !CommandHandlerLaws Sw C V}
    (el : EventLoop Sw C) (sh : Shared V) (ev : SwarmEvent) (loc : nat) (st : ResultState V) :
  sh_handles sh !! loc = Some st -> rs_cancelled st = true ->
  (forall t, t ∈ el_active (retain_active el sh)
             <-> t ∈ el_active el /\ task_is_cancelled sh t = false)
  /\ loc ∉ task_handle <$> el_active (retain_active el sh)
  /\ exists el' sh' o, handle_swarm_event (retain_active el sh) sh ev = Some (el', sh', o)
       /\ loc ∉ task_handle <$> el_active el' /\ sh_handles sh' !! loc = Some st.
Proof.
  intros Hst Hc.
  assert (loc ∉ task_handle <$> el_active (retain_active el sh)) as Hnot.
  { intros (t & -> & Ht)%list_elem_of_fmap. simpl in Ht. apply list_elem_of_filter in Ht as [Ht _].
    unfold task_is_cancelled in Ht. rewrite Hst in Ht. unfold handle_is_cancelled in Ht. congruence. }
  split; [intros t; simpl; rewrite list_elem_of_filter; tauto|]. split; [done|].
  set (el1 := retain_active el sh) in *.
  destruct (offer_event_spec ev el1 sh) as (r & active & sh' & Ho & Hch).
  destruct (chain_spec_other_handle _ _ _ _ _ _ _ loc Hch Hnot) as [Hact Hh].
  unfold handle_swarm_event. rewrite Ho.
  destruct r as [ev'|]; [|eexists _, _, _; split; [done|]; by rewrite Hh].
  pose proof (convert_to_node_event_frame (el_set_active active el1) sh' ev') as Hf.
  destruct (convert_to_node_event _ _ _) as [[el2 sh2] o]. destruct Hf as (Ha & Hhd & _).
  exists el2, sh2, o. split; [done|]. by rewrite Ha, Hhd, Hh.
Qed.

(** C32. [start] wires the node as configured.  It listens on every configured
    address in order and, only if all succeed, registers and dials every
    bootstrap peer in order; the first listen failure is returned and no
    bootstrap peer is contacted.  The queues have room for 32 commands, 64
    events and 16 inbound channels; response channels live as long as a request
    may take; bootstrap peers become relay candidates iff the relay client is on. *)
Theorem start_wires_config `{N : NetTypes} {Sw C V}
    `{!SwarmOps Sw, !HashOrder, !Mpsc, !MpscLaws, !CommandHandler Sw C V, !RelayRequester C}
    {Ctl} (accept : Ctl -> StreamProtocol -> Ctl * bool)
    (swarm : Logged Sw) (ctl : Ctl) (now dc_id : Z) (config : NodeConfig) :
  match start (C := C) (V := V) accept swarm ctl now dc_id config with
  | Ok node =>
      lg_calls (el_swarm (node_loop node))
      = lg_calls swarm ++ (CallListenOn <$> listen_addrs config)
        ++ concat ((fun x => [CallKadAddAddress x.1 x.2; CallAddPeerAddress x.1 x.2; CallDial x.1])
                     <$> bootstrap_peers config)
      /\ ch_capacity (node_commands node) = 32 /\ ch_contents (node_commands node) = []
      /\ ch_capacity (sh_events (node_shared node)) = 64
      /\ ch_capacity (sh_inbound (node_shared node)) = 16
      /\ node_pending_ttl node = req_resp_timeout config
      /\ sh_limits (node_shared node) = data_channel_limits config
      /\ el_active (node_loop node) = [] /\ el_pending_id_counter (node_loop node) = 0%Z
      /\ dom (el_bootstrap_peers (node_loop node))
         = (if enable_relay_client config then list_to_set (bootstrap_peers config).*1 else ∅)
  | Err _ =>
      exists failed before after e, listen_addrs config = before ++ failed :: after
        /\ start (C := C) (V := V) accept swarm ctl now dc_id config
           = Err (E_Listen (transport_error_display e))
        /\ lg_calls (el_swarm (start_listen (C := C)
             (EventLoop_new swarm (protocol_version config) (enable_relay_client config)
                (infrastructure_mode config)) (listen_addrs config)).1)
           = lg_calls swarm ++ (CallListenOn <$> before ++ [failed])
  end.
Proof.
  unfold start. set (el0 := EventLoop_new _ _ _ _).
  destruct (start_listen_log el0 (listen_addrs config)) as (s & Hs & Hr).
  destruct (start_listen el0 (listen_addrs config)) as [el1 r] eqn:Hl. simpl in *.
  destruct r as [u|e].
  2: { destruct Hr as (failed & before & after & te & Ha & -> & Hc).
       exists failed, before, after, te. by rewrite Hs. }
  simpl.
  assert (match bootstrap_peers config with [] => el1 | _ :: _ => _ end
          = connect_bootstrap_peers el1 (bootstrap_peers config)) as ->
    by (by destruct (bootstrap_peers config)).
  pose proof (connect_log el1 (bootstrap_peers config)) as (Hcalls & Hact & Hcnt & Hdom).
  rewrite Hcalls, Hact, Hcnt, Hdom, Hs. simpl.
  destruct (ch_new_spec (CommandTask C) COMMAND_CHANNEL_SIZE) as (Hq & Hqc & _).
  destruct (ch_new_spec NodeEvent EVENT_CHANNEL_SIZE) as (_ & Hec & _).
  destruct (ch_new_spec InboundDataChannel DC_INBOUND_CHANNEL_SIZE) as (_ & Hic & _).
  rewrite Hr, <- app_assoc. split_and!; try done. rewrite dom_empty_L.
  destruct (enable_relay_client config); set_solver.
Qed.
