(* ===== verification/System.v ===== *)
(** * A node with its actual clients

    [Node] lets the application do anything to the shared state.  Here the other
    side is the crate's own client code: the clones of [NetClient], their calls
    (a [CommandFuture] per call, polled, timed out or dropped), the data-channel
    opens, the channels the application holds, and the three receivers.  Every
    component is the one of its own file; a step of the system is a step of the
    event loop or one atomic step of one client object.  The two halves of
    [CommandFuture::poll] are separate steps, so the loop may run between them. *)
From S2P Require Import Prelude Externals Errors DataChannel PendingMap Config Handle Handler.
From S2P Require Import BasicCommands KadCommands KadQueries ReqRespCommands Commands.
From S2P Require Import EventLoop EventChain CommandChain Dialing OpenFuture Client Discovery Node.

(** ** Client calls *)

Section calls.
Context `{N : NetTypes}.

Inductive ClientCall :=
| CDial (p : PeerId)
| CIsConnected (p : PeerId)
| CDisconnect (p : PeerId)
| CGetAddrs
| CAddPeerAddrs (p : PeerId) (addrs : list Multiaddr)
| CAddInfrastructurePeer (p : PeerId) (addrs : list Multiaddr) (roles : InfrastructureRoles)
| CBootstrap
| CGetRecord (key : RecordKey)
| CPutRecord (record : KadRecord)
| CGetProviders (key : RecordKey)
| CGetClosestPeers (key : RecordKey)
| CStartProvide (key : RecordKey)
| CStopProvide (key : RecordKey)
| CRemoveRecord (key : RecordKey)
| CSendRequest (p : PeerId) (request : Req) (options : RequestOptions).

(** The future a method awaits; only requests have a deadline. *)
Definition call_future (loc : nat) (now : Z) (c : ClientCall) : RequestCall :=
  match c with
  | CDial p => mkRequestCall (nc_dial loc p) None
  | CIsConnected p => mkRequestCall (nc_is_connected loc p) None
  | CDisconnect p => mkRequestCall (nc_disconnect loc p) None
  | CGetAddrs => mkRequestCall (nc_get_addrs loc) None
  | CAddPeerAddrs p addrs => mkRequestCall (nc_add_peer_addrs loc p addrs) None
  | CAddInfrastructurePeer p addrs roles =>
      mkRequestCall (nc_add_infrastructure_peer loc p addrs roles) None
  | CBootstrap => mkRequestCall (nc_bootstrap loc) None
  | CGetRecord key => mkRequestCall (nc_get_record loc key) None
  | CPutRecord record => mkRequestCall (nc_put_record loc record) None
  | CGetProviders key => mkRequestCall (nc_get_providers loc key) None
  | CGetClosestPeers key => mkRequestCall (nc_get_closest_peers loc key) None
  | CStartProvide key => mkRequestCall (nc_start_provide loc key) None
  | CStopProvide key => mkRequestCall (nc_stop_provide loc key) None
  | CRemoveRecord key => mkRequestCall (nc_remove_record loc key) None
  | CSendRequest p request options => nc_send_request_with_options loc now p request options
  end.

(** A call in progress.  [lc_command] is the command it was made for: the type
    argument of its [CommandFuture]. *)
Record LiveCall := mkLive { lc_command : AnyCommand; lc_call : RequestCall }.

Definition lc_future (lc : LiveCall) : CommandFuture AnyCommand := rc_future (lc_call lc).
Definition lc_set_future (f : CommandFuture AnyCommand) (lc : LiveCall) : LiveCall :=
  mkLive (lc_command lc) (mkRequestCall f (rc_deadline (lc_call lc))).

(** The command of a future that has not been sent. *)
Definition unsent (f : CommandFuture AnyCommand) : option (CommandTask AnyCommand) :=
  (fun c => mkTask c (cf_handle f)) <$> cf_handler f.

(** A new call; [None] does not happen. *)
Definition live_of (c : RequestCall) : option LiveCall :=
  (fun cmd => mkLive cmd c) <$> cf_handler (rc_future c).

End calls.

(** ** The system *)

Section system.
Context `{N : NetTypes} {Sw : Type} `{!SwarmOps Sw, !SwarmPoll Sw, !HashOrder, !Mpsc}.
Local Notation World := (NodeWorld Sw AnyCommand CmdValue).

Definition nw_upd (f : Shared CmdValue -> Shared CmdValue) (w : World) : World :=
  mkNW (nw_phase w) (nw_loop w) (f (nw_shared w)) (nw_commands w) (nw_senders w)
    (nw_received w) (nw_converted w).
Definition nw_set_commands (q : Chan (CommandTask AnyCommand)) (w : World) : World :=
  mkNW (nw_phase w) (nw_loop w) (nw_shared w) q (nw_senders w) (nw_received w) (nw_converted w).
Definition nw_set_senders (n : nat) (w : World) : World :=
  mkNW (nw_phase w) (nw_loop w) (nw_shared w) (nw_commands w) n (nw_received w) (nw_converted w).
Definition nw_push_received (e : NodeEvent) (w : World) : World :=
  mkNW (nw_phase w) (nw_loop w) (nw_shared w) (nw_commands w) (nw_senders w)
    (nw_received w ++ [e]) (nw_converted w).

(** Writing one result cell. *)
Definition sh_set_handle (loc : nat) (st : ResultState CmdValue) (sh : Shared CmdValue) :
    Shared CmdValue := sh_set_handles (<[loc := st]> (sh_handles sh)) (sh_woken sh) sh.

Record System := mkSystem {
  sy_node : World;
  sy_clients : list NetClient;
  sy_calls : gmap nat LiveCall;
  sy_opens : list OpenState;
  sy_channels : list DataChannel;
}.

(** What the application does and observes in a step: it receives an event,
    calls a method, the call returns, it answers a request, or learns that it
    cannot, it begins to open a channel, it polls the opening, or an inbound
    channel arrives. *)
Inductive Label :=
| Tau
| Received (evt : NodeEvent)
| Called (loc : nat) (call : ClientCall)
| Returned (loc : nat) (r : CResult CmdValue)
| Responding (id : Z) (response : Resp)
| Refused (id : Z) (e : Error)
| Opens (p : PeerId) (q : StreamProtocol)
| OpenPolled (r : option (CResult DataChannel))
| Accepted (c : InboundDataChannel).

(** A call that is over: its future, and with it a sender, is dropped. *)
Definition call_done (loc : nat) (st : ResultState CmdValue) (w : World) : World :=
  nw_set_senders (pred (nw_senders w)) (nw_upd (sh_set_handle loc st) w).

(** A call that begins: a clone of the sender and a new result cell. *)
Definition call_begin (loc : nat) (w : World) : World :=
  nw_set_senders (S (nw_senders w)) (nw_upd (sh_set_handle loc ResultState_default) w).

Inductive sys_step : Label -> System -> System -> Prop :=
| sy_loop w w' cl ca op ch :
    loop_step w w' ->
    sys_step Tau (mkSystem w cl ca op ch) (mkSystem w' cl ca op ch)
| sy_time w cl ca op ch now :
    (sh_now (nw_shared w) <= now)%Z ->
    sys_step Tau (mkSystem w cl ca op ch) (mkSystem (nw_upd (sh_set_now now) w) cl ca op ch)
(* the event receiver *)
| sy_receive w cl ca op ch rx evt :
    EventReceiver_recv 1 (EventReceiver_new (sh_events (nw_shared w)))
    = (EventReceiver_new rx, Some (Some evt)) ->
    sys_step (Received evt) (mkSystem w cl ca op ch)
      (mkSystem (nw_push_received evt (nw_upd (sh_set_events rx) w)) cl ca op ch)
| sy_drop_events w cl ca op ch :
    sys_step Tau (mkSystem w cl ca op ch)
      (mkSystem (nw_upd (fun sh => sh_set_events (ch_drop_rx (sh_events sh)) sh) w) cl ca op ch)
(* the cleanup task of the pending map *)
| sy_purge w cl ca op ch ttl :
    sys_step Tau (mkSystem w cl ca op ch)
      (mkSystem (nw_upd (fun sh => sh_set_pending
         (purge_expired_entries (sh_now sh) ttl (sh_pending sh)).1 sh) w) cl ca op ch)
(* a method of a client is called *)
| sy_call w cl ca op ch client loc call lc :
    client ∈ cl -> sh_handles (nw_shared w) !! loc = None ->
    live_of (call_future loc (sh_now (nw_shared w)) call) = Some lc ->
    sys_step (Called loc call) (mkSystem w cl ca op ch)
      (mkSystem (call_begin loc w) cl (<[loc := lc]> ca) op ch)
| sy_respond w cl ca op ch client loc id response pending fut lc :
    client ∈ cl -> sh_handles (nw_shared w) !! loc = None ->
    nc_send_response loc (sh_pending (nw_shared w)) id response = (pending, Ok fut) ->
    live_of (mkRequestCall fut None) = Some lc ->
    sys_step (Responding id response) (mkSystem w cl ca op ch)
      (mkSystem (call_begin loc (nw_upd (sh_set_pending pending) w)) cl (<[loc := lc]> ca) op ch)
| sy_respond_none w cl ca op ch client loc id response pending e :
    client ∈ cl -> nc_send_response loc (sh_pending (nw_shared w)) id response = (pending, Err e) ->
    sys_step (Refused id e) (mkSystem w cl ca op ch)
      (mkSystem (nw_upd (sh_set_pending pending) w) cl ca op ch)
(* the halves of a poll *)
| sy_send w cl ca op ch loc lc f q :
    ca !! loc = Some lc -> is_Some (cf_handler (lc_future lc)) ->
    CommandFuture_send (T := CmdValue) (lc_future lc) (nw_commands w) = (f, q, None) ->
    sys_step Tau (mkSystem w cl ca op ch)
      (mkSystem (nw_set_commands q w) cl (<[loc := lc_set_future f lc]> ca) op ch)
| sy_send_error w cl ca op ch loc lc st f q r :
    ca !! loc = Some lc -> sh_handles (nw_shared w) !! loc = Some st ->
    CommandFuture_send (T := CmdValue) (lc_future lc) (nw_commands w) = (f, q, Some r) ->
    sys_step (Returned loc r) (mkSystem w cl ca op ch)
      (mkSystem (call_done loc (CommandFuture_drop st) w) cl (delete loc ca) op ch)
| sy_poll_pending w cl ca op ch loc lc st waker c q st' :
    ca !! loc = Some lc -> cf_handler (lc_future lc) = None ->
    sh_handles (nw_shared w) !! loc = Some st ->
    request_poll (lc_call lc) (sh_now (nw_shared w)) (nw_commands w) st waker = (c, q, st', None) ->
    sys_step Tau (mkSystem w cl ca op ch)
      (mkSystem (nw_upd (sh_set_handle loc st') w) cl ca op ch)
| sy_poll_ready w cl ca op ch loc lc st waker c q st' r :
    ca !! loc = Some lc -> cf_handler (lc_future lc) = None ->
    sh_handles (nw_shared w) !! loc = Some st ->
    request_poll (lc_call lc) (sh_now (nw_shared w)) (nw_commands w) st waker = (c, q, st', Some r) ->
    sys_step (Returned loc r) (mkSystem w cl ca op ch)
      (mkSystem (call_done loc st' w) cl (delete loc ca) op ch)
| sy_drop w cl ca op ch loc lc st :
    ca !! loc = Some lc -> sh_handles (nw_shared w) !! loc = Some st ->
    sys_step Tau (mkSystem w cl ca op ch)
      (mkSystem (call_done loc (CommandFuture_drop st) w) cl (delete loc ca) op ch)
(* clients come and go *)
| sy_clone w cl ca op ch client n client' :
    client ∈ cl -> NetClient_clone (nw_senders w) client = (n, client') ->
    sys_step Tau (mkSystem w cl ca op ch) (mkSystem (nw_set_senders n w) (client' :: cl) ca op ch)
| sy_shutdown w l1 client l2 ca op ch :
    sys_step Tau (mkSystem w (l1 ++ client :: l2) ca op ch)
      (mkSystem (nw_set_senders (NetClient_shutdown (nw_senders w) client) w) (l1 ++ l2) ca op ch)
(* opening data channels *)
| sy_open w cl ca op ch client p q :
    client ∈ cl ->
    sys_step (Opens p q) (mkSystem w cl ca op ch)
      (mkSystem w cl ca (nc_open_data_channel (cl_dc_open_timeout client) p q :: op) ch)
| sy_poll_open w cl ca l1 st l2 ch answer inner next st' r :
    DataChannelOpenFuture_poll (sh_limits (nw_shared w)) (sh_registry (nw_shared w))
      (sh_next_dc_id (nw_shared w)) (sh_now (nw_shared w)) answer st = Some (inner, next, st', r) ->
    sys_step (OpenPolled r) (mkSystem w cl ca (l1 ++ st :: l2) ch)
      (mkSystem (nw_upd (sh_set_dc inner next) w) cl ca
         (l1 ++ match r with None => [st'] | Some _ => [] end ++ l2)
         (match r with Some (Ok c) => c :: ch | _ => ch end))
| sy_drop_open w cl ca l1 st l2 ch :
    sys_step Tau (mkSystem w cl ca (l1 ++ st :: l2) ch)
      (mkSystem (nw_upd (fun sh => sh_set_dc (open_future_drop (sh_registry sh) st)
         (sh_next_dc_id sh) sh) w) cl ca (l1 ++ l2) ch)
(* the inbound channel receiver and the channels the application holds *)
| sy_accept w cl ca op ch rx c :
    DataChannelReceiver_recv 1 (DataChannelReceiver_new (sh_inbound (nw_shared w)))
    = (DataChannelReceiver_new rx, Some (Some c)) ->
    sys_step (Accepted c) (mkSystem w cl ca op ch)
      (mkSystem (nw_upd (sh_set_inbound rx) w) cl ca op (channel c :: ch))
| sy_drop_receiver w cl ca op ch :
    sys_step Tau (mkSystem w cl ca op ch)
      (mkSystem (nw_upd (fun sh =>
         sh_set_dc (foldl data_channel_drop (sh_registry sh) (channel <$> ch_contents (sh_inbound sh)))
           (sh_next_dc_id sh) (sh_set_inbound (ch_drop_rx (sh_inbound sh)) sh)) w) cl ca op ch)
| sy_close w cl ca op l1 c l2 :
    sys_step Tau (mkSystem w cl ca op (l1 ++ c :: l2))
      (mkSystem (nw_upd (fun sh => sh_set_dc (data_channel_drop (sh_registry sh) c)
         (sh_next_dc_id sh) sh) w) cl ca op (l1 ++ l2))
| sy_into_stream w cl ca op l1 c l2 inner stream :
    into_stream (sh_registry (nw_shared w)) c = (inner, stream) ->
    sys_step Tau (mkSystem w cl ca op (l1 ++ c :: l2))
      (mkSystem (nw_upd (fun sh => sh_set_dc inner (sh_next_dc_id sh) sh) w) cl ca op (l1 ++ l2))
| sy_stream_mut w cl ca op l1 c l2 stream :
    sys_step Tau (mkSystem w cl ca op (l1 ++ c :: l2))
      (mkSystem w cl ca op (l1 ++ (stream_mut c).2 stream :: l2))
(* the counter of channel identifiers is one for the whole process: another
   node in it takes the next one *)
| sy_other_node w cl ca op ch :
    sys_step Tau (mkSystem w cl ca op ch)
      (mkSystem (nw_upd (fun sh => sh_set_dc (sh_registry sh) (DataChannelId_next (sh_next_dc_id sh)).1 sh) w)
         cl ca op ch).

Definition sys_run : relation System := rtc (fun s s' => exists l, sys_step l s s').

(** A run with the labels of its steps. *)
Inductive history (s0 : System) : list Label -> System -> Prop :=
| history_nil : history s0 [] s0
| history_snoc hist lab s s' : history s0 hist s -> sys_step lab s s' -> history s0 (hist ++ [lab]) s'.

(** What [start] returns and spawns. *)
Definition system_of (node : Node Sw AnyCommand CmdValue) : System :=
  mkSystem (mkNW Iterating (node_loop node) (node_shared node) (node_commands node) 1 [] [])
    [NetClient_new (mkPendingMap 0 (node_pending_ttl node)) (node_open_timeout node)] ∅ [] [].

End system.
Arguments System {_} Sw {_}.
