(* ===== verification/Quota.v ===== *)
(** * The data-channel quota of the whole node

    The registry against everything that can hold a guard at the same time: the
    opens in progress, the channels the application holds, and the accepted
    channels that wait in the inbound queue.  The counters are the census of
    these guards in every reachable state of [System]. *)
From S2P Require Import Prelude Externals Errors DataChannel PendingMap Config Handle Handler.
From S2P Require Import Commands EventLoop EventChain CommandChain SwarmIds LoopFrame OpenFuture.
From S2P Require Import Client Node System.

Section quota.
Context `{N : NetTypes} {Sw : Type} `{!SwarmOps Sw, !SwarmPoll Sw, !HashOrder, !Mpsc}.

(** The guards of the channels that wait in the inbound queue. *)
Definition queued_guards {V} (sh : Shared V) : list ChannelGuard :=
  omap dc_guard (channel <$> ch_contents (sh_inbound sh)).

(** Every guard that is alive. *)
Definition held_guards (s : System Sw) : list ChannelGuard :=
  (sy_opens s ≫= open_guards) ++ omap dc_guard (sy_channels s)
  ++ queued_guards (nw_shared (sy_node s)).

Definition quota_ok (l : DataChannelLimits) (s : System Sw) : Prop :=
  sh_limits (nw_shared (sy_node s)) = l
  /\ registry_ok l (sh_registry (nw_shared (sy_node s))) (held_guards s).

End quota.

(** ** Lemmas *)

Section registry.
Context `{N : NetTypes} (l : DataChannelLimits).
Context (Hl : limits_in_range l).

Lemma data_channel_drop_ok inner c gs :
  registry_ok l inner (option_list (dc_guard c) ++ gs) -> registry_ok l (data_channel_drop inner c) gs.
Proof. unfold data_channel_drop. destruct (dc_guard c); simpl; [apply (guard_drop_ok l)|done]. Qed.

Lemma drop_channels_ok cs inner gs :
  registry_ok l inner (omap dc_guard cs ++ gs) ->
  registry_ok l (foldl data_channel_drop inner cs) gs.
Proof.
  revert inner. induction cs as [|c cs IH]; intros inner Hok; simpl in *; [done|].
  apply IH, data_channel_drop_ok. by destruct (dc_guard c).
Qed.

Context `{!Mpsc, !MpscLaws}.

(** The inbound branch of the loop: a refused channel costs nothing, an accepted
    one is counted while it waits, a channel that does not fit is released. *)
Lemma handle_inbound_ok {V} (sh : Shared V) p q s gs :
  sh_limits sh = l -> registry_ok l (sh_registry sh) (gs ++ queued_guards sh) ->
  let sh' := handle_inbound_channel sh q p s in
  sh_limits sh' = l /\ registry_ok l (sh_registry sh') (gs ++ queued_guards sh').
Proof.
  intros Hlim Hok. unfold handle_inbound_channel.
  destruct (try_acquire _ _ _ _ _) as [inner o] eqn:Ha. rewrite Hlim in Ha.
  apply (try_acquire_inv l Hl _ _ _ _ _ _ _ Hok) in Ha. destruct o as [g|]; simpl.
  2: { destruct Ha as [-> _]. done. }
  destruct Ha as (-> & _ & Hok').
  destruct (ch_try_send _ _) as [inbound|e] eqn:Hs; simpl.
  - split; [done|]. apply ch_try_send_inv in Hs as (_ & _ & Hc & _).
    unfold queued_guards in *. simpl. rewrite Hc, fmap_app, omap_app. simpl.
    eapply registry_ok_perm; [|exact Hok']. solve_Permutation.
  - split; [done|]. by apply data_channel_drop_ok.
Qed.

End registry.

Section system.
Context `{N : NetTypes} {Sw : Type}.
Context `{!SwarmOps Sw, !SwarmPoll Sw, !HashOrder, !Mpsc, !MpscLaws}.
Context (l : DataChannelLimits) (Hl : limits_in_range l).

Lemma loop_step_shared (w w' : NodeWorld Sw AnyCommand CmdValue) :
  loop_step w w' ->
  shared_frame (nw_shared w) (nw_shared w')
  \/ exists q p s, nw_shared w' = handle_inbound_channel (nw_shared w) q p s.
Proof.
  destruct 1 as [|? ? ? ? ? ? ? ? ? ? _ Hc| |? ? ? ? ? ? ? ? ? ? ? _ He| |? ? ? ? ? ? q p s| | |];
    simpl; [by left| |by left| |by left|by right; exists q, p, s|by left..].
  - left. by eapply handle_command_frame.
  - left. by eapply handle_swarm_event_frame in He.
Qed.

Lemma loop_step_quota (w w' : NodeWorld Sw AnyCommand CmdValue) gs :
  loop_step w w' ->
  sh_limits (nw_shared w) = l ->
  registry_ok l (sh_registry (nw_shared w)) (gs ++ queued_guards (nw_shared w)) ->
  sh_limits (nw_shared w') = l
  /\ registry_ok l (sh_registry (nw_shared w')) (gs ++ queued_guards (nw_shared w')).
Proof.
  intros [[Hlim Hreg _ Hin _ _]|(q & p & s & ->)]%loop_step_shared Hlimits Hok.
  - unfold queued_guards. by rewrite Hlim, Hreg, Hin.
  - by apply (handle_inbound_ok l Hl).
Qed.

(** Close a goal that is the hypothesis up to the order of the guards. *)
Ltac reorder Hok :=
  eapply registry_ok_perm; [|exact Hok];
  rewrite ?bind_app, ?omap_app; simpl; rewrite ?bind_app, ?omap_app, ?app_nil_r; solve_Permutation.

Lemma omap_guard_cons c (cs : list DataChannel) :
  omap dc_guard (c :: cs) = option_list (dc_guard c) ++ omap dc_guard cs.
Proof. simpl. by destruct (dc_guard c). Qed.

Lemma sys_step_quota lab (s s' : System Sw) :
  sys_step lab s s' -> quota_ok l s -> quota_ok l s'.
Proof.
  unfold quota_ok, held_guards. intros Hs [Hlim Hok].
  destruct Hs as
    [w w' cl ca op ch Hs| | | | | | | | | | | | | | |
     |w cl ca l1 st l2 ch answer inner next st' r Hp|w cl ca l1 st l2 ch|w cl ca op ch rx c Hr
     |w cl ca op ch|w cl ca op l1 c l2|w cl ca op l1 c l2 inner stream Hi|w cl ca op l1 c l2 stream|];
    simpl in *; try done.
  - rewrite app_assoc in Hok. destruct (loop_step_quota w w' _ Hs Hlim Hok) as [? Hok'].
    split; [done|]. by rewrite app_assoc.
  - split; [done|]. rewrite Hlim in Hp.
    apply (open_poll_ok l Hl _ _ _ _ _ ((l1 ≫= open_guards) ++ (l2 ≫= open_guards)
      ++ omap dc_guard ch ++ queued_guards (nw_shared w))) in Hp as [Hok' Hfin].
    2: { reorder Hok. }
    destruct r as [[c|e]|]; simpl in *.
    + rewrite (proj1 Hfin) in Hok' by eauto. destruct (dc_guard c); reorder Hok'.
    + rewrite (proj1 Hfin) in Hok' by eauto. reorder Hok'.
    + reorder Hok'.
  - split; [done|]. destruct st as [i|f|]; simpl in *; [reorder Hok| |reorder Hok].
    apply (guard_drop_ok l). reorder Hok.
  - split; [done|]. unfold DataChannelReceiver_recv in Hr.
    destruct (ch_poll_recv _ _) as [rx' x] eqn:Hp. injection Hr as -> ->.
    apply poll_recv_inv, ch_recv_inv in Hp as [Hp _]. simpl in Hp. unfold queued_guards in *. rewrite Hp in Hok.
    simpl in *. destruct (dc_guard (channel c)); simpl in *; reorder Hok.
  - split; [done|]. unfold queued_guards in *. simpl. destruct (ch_drop_rx_spec _ (sh_inbound (nw_shared w)))
      as (-> & _). simpl. apply (drop_channels_ok l).
    reorder Hok.
  - split; [done|]. apply data_channel_drop_ok. rewrite omap_app, omap_guard_cons in Hok. reorder Hok.
  - split; [done|]. unfold into_stream in Hi. injection Hi as <- <-. apply (data_channel_drop_ok l).
    rewrite omap_app, omap_guard_cons in Hok. reorder Hok.
  - split; [done|]. by rewrite !omap_app in *.
Qed.

End system.

(** ** Properties *)

(** C6. The quota of the whole node: in every state a started node and its
    clients can reach, whatever the interleaving of inbound channels, opens that
    are polled, answered, refused, timed out or dropped, and channels that are
    received, dropped or taken apart, the three counter maps are exactly the
    census of the guards held by opens, channels and the inbound queue, no
    limit of the configuration is exceeded, and once no guard is held the
    registry is empty again. *)
Theorem quota_in_every_state `{N : NetTypes} {Sw}
    `{!SwarmOps Sw, !SwarmPoll Sw, !HashOrder, !Mpsc, !MpscLaws}
    {Ctl} (accept : Ctl -> StreamProtocol -> Ctl * bool) (swarm : Sw) (ctl : Ctl) (now dc_id : Z)
    (config : NodeConfig) (node : Node Sw AnyCommand CmdValue) (s : System Sw) :
  limits_in_range (data_channel_limits config) ->
  start accept swarm ctl now dc_id config = Ok node -> sys_run (system_of node) s ->
  let inner := sh_registry (nw_shared (sy_node s)) in
  registry_ok (data_channel_limits config) inner (held_guards s)
  /\ (held_guards s = [] -> inner = RegistryInner_default).
Proof.
  intros Hl Hst Hr. apply start_inv in Hst as (_ & _ & Hsh).
  assert (quota_ok (data_channel_limits config) s) as [_ Hok].
  { eapply (rtc_invariant _ (quota_ok (data_channel_limits config))); [|exact Hr|].
    - intros a b [lab Hs]. by eapply sys_step_quota.
    - unfold quota_ok, held_guards, queued_guards. simpl. rewrite Hsh. simpl.
      destruct (ch_new_spec InboundDataChannel DC_INBOUND_CHANNEL_SIZE) as (-> & _).
      split; [done|]. by apply registry_ok_empty. }
  split; [done|]. intros Hno. rewrite Hno in Hok.
  eapply registry_ok_unique; [exact Hok|by apply registry_ok_empty].
Qed.
