(* ===== verification/Channels.v ===== *)
(** * The data channels an application is given

    Every channel reaches the application in one of two ways: a poll of
    [open_data_channel] returns it, or [DataChannelReceiver::recv] does.  The
    theorem says, over the whole history of a node with its clients, which
    channels these can be: no identifier is given out twice, each channel names
    the direction, peer and protocol that its quota guard is counted under, and
    the opened ones are among the calls of [open_data_channel], at most one for
    each call. *)
From S2P Require Import Prelude Externals Errors DataChannel PendingMap Config Handle Handler.
From S2P Require Import Commands EventLoop EventChain CommandChain SwarmIds LoopFrame OpenFuture.
From S2P Require Import Client Node System Quota.

Section channels.
Context `{N : NetTypes}.

(** The channel that a step hands to the application. *)
Definition handed (lab : Label) : option DataChannel :=
  match lab with
  | OpenPolled (Some (Ok c)) => Some c
  | Accepted c => Some (channel c)
  | _ => None
  end.
Definition given (hist : list Label) : list DataChannel := omap handed hist.

(** The calls of [open_data_channel], and what the opened channels lead to. *)
Definition open_call (lab : Label) : option (PeerId * StreamProtocol) :=
  match lab with Opens p q => Some (p, q) | _ => None end.
Definition open_calls (hist : list Label) : list (PeerId * StreamProtocol) := omap open_call hist.

Definition outbound_target (c : DataChannel) : option (PeerId * StreamProtocol) :=
  match DataChannel_direction c with
  | Outbound => Some (DataChannel_peer c, DataChannel_protocol c)
  | Inbound => None
  end.

(** The guard is counted under what the channel says of itself. *)
Definition well_guarded (c : DataChannel) : Prop :=
  dc_guard c = Some (mkGuard (DataChannel_peer c) (DataChannel_protocol c) (DataChannel_direction c)).

(** An open in progress: where it leads, and its identifier once it has one. *)
Definition open_target (st : OpenState) : list (PeerId * StreamProtocol) :=
  match st with
  | OS_Init i => [(oi_peer_id i, oi_protocol i)]
  | OS_Opening f => [(oi_peer_id (of_init f), oi_protocol (of_init f))]
  | OS_Finished => []
  end.
Definition open_id (st : OpenState) : list Z :=
  match st with OS_Opening f => option_list (fst <$> of_started f) | _ => [] end.
Definition open_guarded (st : OpenState) : Prop :=
  match st with
  | OS_Opening f => of_guard f = mkGuard (oi_peer_id (of_init f)) (oi_protocol (of_init f)) Outbound
  | _ => True
  end.

(** Either way has its direction. *)
Definition of_direction (d : DataChannelDirection) (c : DataChannel) : Prop :=
  DataChannel_direction c = d /\ well_guarded c.
Definition rightly_handed (lab : Label) : Prop :=
  match lab with
  | OpenPolled (Some (Ok c)) => of_direction Outbound c
  | Accepted c => of_direction Inbound (channel c)
  | _ => True
  end.

(** What a poll hands over. *)
Definition ready_channels (r : option (CResult DataChannel)) : list DataChannel :=
  match r with Some (Ok c) => [c] | _ => [] end.

(** The identifiers a step takes from the counter. *)
Definition issues (next next' : Z) (ids : list Z) : Prop :=
  (ids = [] /\ next' = next) \/ (ids = [next] /\ next' = wrap64 (next + 1)).

Context {Sw : Type} `{!Mpsc}.

Definition queued_channels (s : System Sw) : list DataChannel :=
  channel <$> ch_contents (sh_inbound (nw_shared (sy_node s))).
Definition dc_counter (s : System Sw) : Z := sh_next_dc_id (nw_shared (sy_node s)).

(** Every identifier in use, or used before. *)
Definition known_ids (hist : list Label) (s : System Sw) : list Z :=
  (DataChannel_id <$> given hist) ++ (sy_opens s ≫= open_id) ++ (DataChannel_id <$> queued_channels s).

(** What holds of the channels, wherever they are. *)
Record channels_ok (hist : list Label) (s : System Sw) : Prop := {
  cn_targets : omap outbound_target (given hist) ++ (sy_opens s ≫= open_target) ⊆+ open_calls hist;
  cn_given : Forall rightly_handed hist;
  cn_opens : Forall open_guarded (sy_opens s);
  cn_queued : Forall (of_direction Inbound) (queued_channels s);
}.

(** The counter is ahead of every identifier, as long as it has not wrapped. *)
Definition ids_ok (dc_id : Z) (hist : list Label) (s : System Sw) : Prop :=
  (dc_id + Z.of_nat (length hist) < u64_modulus)%Z ->
  (dc_id <= dc_counter s <= dc_id + Z.of_nat (length hist))%Z
  /\ Forall (fun i => i < dc_counter s)%Z (known_ids hist s) /\ NoDup (known_ids hist s).

End channels.

(** ** One poll of an open *)

Section poll.
Context `{N : NetTypes}.

Lemma open_poll_channel limits inner next now answer st inner' next' st' r :
  DataChannelOpenFuture_poll limits inner next now answer st = Some (inner', next', st', r) ->
  open_guarded st ->
  (is_Some r -> st' = OS_Finished)
  /\ (exists ids, issues next next' ids
       /\ (DataChannel_id <$> ready_channels r) ++ open_id st' ⊆+ open_id st ++ ids)
  /\ omap outbound_target (ready_channels r) ++ open_target st' ⊆+ open_target st
  /\ open_guarded st' /\ Forall (of_direction Outbound) (ready_channels r).
Proof.
  intros Hp Hg. destruct st as [i|[i g [[id dl]|]]|]; [..|done]; simpl in Hp.
  - unfold into_opening_future in Hp. destruct (try_acquire _ _ _ _ _) as [inner1 [g|]] eqn:Ha.
    + assert (g = mkGuard (oi_peer_id i) (oi_protocol i) Outbound) as ->
        by (unfold try_acquire in Ha; case_match; by simplify_eq).
      unfold open_poll_opening, open_stream_with_guard_poll in Hp.
      repeat (case_match; simplify_eq/=);
        (split; [by intros []|]; split; [exists [next]; split; [by right|]|];
         rewrite ?Forall_singleton; split_and?; try done; try apply submseteq_nil_l; try by constructor).
    + simplify_eq/=. split; [done|]. split; [exists []; split; [by left|done]|].
      split_and!; try done; try apply submseteq_nil_l.
  - unfold open_poll_opening, open_stream_with_guard_poll in Hp.
    repeat (case_match; simplify_eq/=);
      (split; [by intros []|]; split; [exists []; split; [by left|]|];
       rewrite ?Forall_singleton; split_and?; try done; try apply submseteq_nil_l; try by f_equal).
  - unfold open_poll_opening, open_stream_with_guard_poll in Hp.
    repeat (case_match; simplify_eq/=);
      (split; [by intros []|]; split; [exists [next]; split; [by right|]|];
       rewrite ?Forall_singleton; split_and?; try done; try apply submseteq_nil_l; try by f_equal).
Qed.

End poll.

(** ** One step of the system *)

Section steps.
Context `{N : NetTypes} {Sw : Type}.
Context `{!SwarmOps Sw, !SwarmPoll Sw, !HashOrder, !Mpsc, !MpscLaws}.

Lemma given_snoc hist lab : given (hist ++ [lab]) = given hist ++ option_list (handed lab).
Proof. unfold given. rewrite omap_app. simpl. by destruct (handed lab). Qed.

Lemma open_calls_snoc hist lab :
  open_calls (hist ++ [lab]) = open_calls hist ++ option_list (open_call lab).
Proof. unfold open_calls. rewrite omap_app. simpl. by destruct (open_call lab). Qed.

Lemma rightly_snoc hist lab :
  Forall rightly_handed (hist ++ [lab]) <-> Forall rightly_handed hist /\ rightly_handed lab.
Proof. by rewrite Forall_app, Forall_singleton. Qed.

(** The ledger: what a step keeps, and the identifiers it adds. *)
Definition ledger (lab : Label) (hist : list Label) (s s' : System Sw) : Prop :=
  channels_ok hist s ->
  channels_ok (hist ++ [lab]) s'
  /\ exists ids, issues (dc_counter s) (dc_counter s') ids
       /\ known_ids (hist ++ [lab]) s' ⊆+ known_ids hist s ++ ids.

(** The steps in which no channel moves. *)
Lemma ledger_quiet lab hist s s' :
  handed lab = None -> open_call lab = None ->
  sy_opens s' = sy_opens s -> queued_channels s' = queued_channels s -> dc_counter s' = dc_counter s ->
  ledger lab hist s s'.
Proof.
  intros Hh Ho Hop Hq Hc [Ht Hg Hf Hqu]. unfold known_ids.
  split; [split|]; rewrite ?given_snoc, ?open_calls_snoc, ?rightly_snoc, ?Hh, ?Ho, ?Hop, ?Hq; simpl;
    rewrite ?app_nil_r; try done.
  { split; [done|]. by destruct lab as [| | | | | | |[[]|]|]. }
  exists []. split; [left; by rewrite Hc|]. by rewrite app_nil_r.
Qed.

(** The inbound branch takes one identifier, or none. *)
Lemma inbound_ledger (sh : Shared CmdValue) q p str :
  let sh' := handle_inbound_channel sh q p str in
  exists ids, issues (sh_next_dc_id sh) (sh_next_dc_id sh') ids
    /\ (ch_contents (sh_inbound sh') = ch_contents (sh_inbound sh)
        \/ exists c, ch_contents (sh_inbound sh') = ch_contents (sh_inbound sh) ++ [c]
             /\ ids = [DataChannel_id (channel c)]
             /\ of_direction Inbound (channel c)).
Proof.
  unfold handle_inbound_channel. destruct (try_acquire _ _ _ _ _) as [inner [g|]] eqn:Ha; simpl.
  - assert (g = mkGuard p q Inbound) as -> by (unfold try_acquire in Ha; case_match; by simplify_eq).
    exists [sh_next_dc_id sh]. destruct (ch_try_send _ _) as [c'|e] eqn:Hs; simpl.
    + split; [by right|]. right. apply ch_try_send_inv in Hs as (_ & _ & -> & _). by eexists.
    + split; [by right|by left].
  - exists []. split; [by left|by left].
Qed.

Lemma loop_ledger (w w' : NodeWorld Sw AnyCommand CmdValue) cl ca op ch hist :
  loop_step w w' -> ledger Tau hist (mkSystem w cl ca op ch) (mkSystem w' cl ca op ch).
Proof.
  intros [[_ _ Hn Hin _ _]|(q & p & str & Hw)]%loop_step_shared.
  - apply ledger_quiet; try done. unfold queued_channels. simpl. by rewrite Hin.
  - destruct (inbound_ledger (nw_shared w) q p str) as (ids & Hids & Hc). rewrite <- Hw in *.
    intros [Ht Hg Hf Hq]. unfold queued_channels, known_ids, dc_counter in *.
    destruct Hc as [Hc|(c & Hc & -> & Hdir)];
      (split; [split|]; unfold queued_channels; rewrite ?given_snoc, ?open_calls_snoc, ?rightly_snoc; simpl in *;
       rewrite ?Hc, ?app_nil_r; try done).
    + exists ids. split; [done|]. apply submseteq_inserts_r. done.
    + rewrite fmap_app, Forall_app. split; [done|]. by apply Forall_singleton.
    + exists [DataChannel_id (channel c)]. split; [done|]. by rewrite !fmap_app, !app_assoc.
Qed.

(** A poll of an open: what it returns is no longer in progress. *)
Lemma poll_ledger (w : NodeWorld Sw AnyCommand CmdValue) cl ca l1 st l2 ch answer inner next st' r hist :
  DataChannelOpenFuture_poll (sh_limits (nw_shared w)) (sh_registry (nw_shared w))
    (sh_next_dc_id (nw_shared w)) (sh_now (nw_shared w)) answer st = Some (inner, next, st', r) ->
  ledger (OpenPolled r) hist (mkSystem w cl ca (l1 ++ st :: l2) ch)
    (mkSystem (nw_upd (sh_set_dc inner next) w) cl ca (l1 ++ match r with None => [st'] | Some _ => [] end ++ l2)
       (match r with Some (Ok c) => c :: ch | _ => ch end)).
Proof.
  intros Hp [Ht Hg Hf Hq]. simpl in *. apply Forall_app in Hf as [Hf1 Hf]. inversion_clear Hf as [|? ? Hst Hf2].
  destruct (open_poll_channel _ _ _ _ _ _ _ _ _ _ Hp Hst) as (Hfin & (ids & Hids & Hsub) & Htgt & Hg' & Hw).
  assert (option_list (handed (OpenPolled r)) = ready_channels r) as Hr by (by destruct r as [[]|]).
  assert (forall {A} (f : OpenState -> list A), f OS_Finished = [] ->
    (l1 ++ match r with None => [st'] | Some _ => [] end ++ l2) ≫= f = (l1 ≫= f) ++ f st' ++ (l2 ≫= f)) as Hb.
  { intros A f Hnil. rewrite !bind_app. destruct r; simpl; [by rewrite Hfin, Hnil by eauto|by rewrite app_nil_r]. }
  split; [split|]; unfold queued_channels in *; rewrite ?given_snoc, ?open_calls_snoc, ?rightly_snoc, ?Hr; simpl;
    rewrite ?app_nil_r; try done.
  - rewrite omap_app, (Hb _ _ eq_refl). rewrite bind_app, bind_cons in Ht. etrans; [|exact Ht].
    rewrite <- app_assoc. apply submseteq_app; [done|].
    transitivity ((omap outbound_target (ready_channels r) ++ open_target st') ++ (l1 ≫= open_target) ++ (l2 ≫= open_target));
      [apply Permutation_submseteq; solve_Permutation|].
    etrans; [by apply submseteq_skips_r|]. apply Permutation_submseteq. solve_Permutation.
  - split; [done|]. destruct r as [[]|]; simpl in *; try done. by rewrite Forall_singleton in Hw.
  - apply Forall_app. split; [done|]. apply Forall_app. split; [|done]. destruct r; repeat constructor; done.
  - exists ids. split; [exact Hids|]. unfold known_ids, queued_channels. rewrite given_snoc, Hr. simpl.
    rewrite fmap_app, (Hb _ _ eq_refl), bind_app, bind_cons.
    set (Q := DataChannel_id <$> (channel <$> _)). set (G := DataChannel_id <$> given hist).
    transitivity (((DataChannel_id <$> ready_channels r) ++ open_id st') ++ G ++ (l1 ≫= open_id) ++ (l2 ≫= open_id) ++ Q);
      [apply Permutation_submseteq; solve_Permutation|].
    etrans; [by apply submseteq_skips_r|]. apply Permutation_submseteq. solve_Permutation.
Qed.

Lemma sys_step_ledger lab hist s s' : sys_step lab s s' -> ledger lab hist s s'.
Proof.
  intros Hs. destruct Hs as
    [w w' cl ca op ch Hs| | | | | | | | | | | | | | |w cl ca op ch client p q
     |w cl ca l1 st l2 ch answer inner next st' r Hp|w cl ca l1 st l2 ch|w cl ca op ch rx c Hr
     |w cl ca op ch| | | |w cl ca op ch]; try (by apply ledger_quiet).
  - by apply loop_ledger.
  - intros [Ht Hg Hf Hq].
    split; [split|]; unfold queued_channels in *; rewrite ?given_snoc, ?open_calls_snoc, ?rightly_snoc; simpl in *;
      rewrite ?app_nil_r; try done.
    + etrans; [|by apply submseteq_app]. apply Permutation_submseteq. solve_Permutation.
    + by constructor.
    + exists []. split; [by left|]. unfold known_ids. rewrite given_snoc. simpl. by rewrite !app_nil_r.
  - by eapply poll_ledger.
  - intros [Ht Hg Hf Hq]. simpl in *.
    split; [split|]; unfold queued_channels in *; rewrite ?given_snoc, ?open_calls_snoc, ?rightly_snoc; simpl in *;
      rewrite ?app_nil_r; try done.
    + etrans; [|exact Ht]. rewrite !bind_app, bind_cons. solve_submseteq.
    + rewrite Forall_app, Forall_cons in Hf. apply Forall_app. tauto.
    + exists []. split; [by left|]. unfold known_ids. rewrite given_snoc. simpl. rewrite !app_nil_r, !bind_app, bind_cons.
      solve_submseteq.
  - unfold DataChannelReceiver_recv in Hr. destruct (ch_poll_recv _ _) as [rx' x] eqn:Hp. injection Hr as -> ->.
    apply poll_recv_inv, ch_recv_inv in Hp as [Hp _]. simpl in Hp.
    intros [Ht Hg Hf Hq]. unfold queued_channels in *. simpl in *. rewrite Hp in Hq. inversion_clear Hq as [|? ? Hd Hq'].
    split; [split|]; unfold queued_channels in *; rewrite ?given_snoc, ?open_calls_snoc, ?rightly_snoc; simpl in *;
      rewrite ?app_nil_r; try done.
    + rewrite omap_app. simpl. unfold outbound_target at 2. rewrite (proj1 Hd). by rewrite app_nil_r.
    + exists []. split; [by left|]. unfold known_ids, queued_channels. rewrite given_snoc. simpl. rewrite Hp, !app_nil_r, fmap_app.
      simpl. apply Permutation_submseteq. solve_Permutation.
  - intros [Ht Hg Hf Hq]. destruct (ch_drop_rx_spec _ (sh_inbound (nw_shared w))) as (Hnil & _).
    split; [split|]; unfold queued_channels in *; rewrite ?given_snoc, ?open_calls_snoc, ?rightly_snoc; simpl in *;
      rewrite ?Hnil, ?app_nil_r; try done.
    exists []. split; [by left|]. unfold known_ids, queued_channels. rewrite given_snoc. simpl. rewrite Hnil, !app_nil_r.
    simpl. solve_submseteq.
  - intros [Ht Hg Hf Hq]. unfold queued_channels in *. simpl in *.
    split; [split|]; unfold queued_channels in *; rewrite ?given_snoc, ?open_calls_snoc, ?rightly_snoc; simpl;
      rewrite ?app_nil_r; try done.
    exists [sh_next_dc_id (nw_shared w)]. split; [by right|]. unfold known_ids. rewrite given_snoc. simpl.
    rewrite app_nil_r. by apply submseteq_inserts_r.
Qed.

(** While the counter has not wrapped, it gives out new identifiers only. *)
Lemma issued_fresh next next' ids known known' :
  issues next next' ids -> known' ⊆+ known ++ ids -> (0 <= next)%Z -> (next + 1 < u64_modulus)%Z ->
  Forall (fun i => i < next)%Z known -> NoDup known ->
  (next <= next' <= next + 1)%Z /\ Forall (fun i => i < next')%Z known' /\ NoDup known'.
Proof.
  intros Hids Hsub Hpos Hmax Hlt Hnd.
  assert ((next <= next' <= next + 1)%Z /\ Forall (fun i => i < next')%Z (known ++ ids) /\ NoDup (known ++ ids))
    as (? & Hlt' & Hnd').
  { destruct Hids as [[-> ->]|[-> ->]]; [rewrite app_nil_r; split_and!; by try lia|].
    rewrite wrap64_small by u64_lia. split; [lia|]. rewrite Forall_app, Forall_singleton, NoDup_app. split_and!.
    - eapply Forall_impl; [exact Hlt|]. simpl. lia.
    - lia.
    - done.
    - intros i Hi ->%list_elem_of_singleton. rewrite Forall_forall in Hlt. specialize (Hlt _ Hi). lia.
    - apply NoDup_singleton. }
  split; [done|]. apply submseteq_Permutation in Hsub as [k Hk]. rewrite Hk in Hlt', Hnd'.
  apply Forall_app in Hlt' as [? _]. by apply NoDup_app in Hnd' as [? _].
Qed.

Lemma sys_step_channels dc_id lab hist s s' :
  (0 <= dc_id)%Z -> sys_step lab s s' ->
  channels_ok hist s /\ ids_ok dc_id hist s -> channels_ok (hist ++ [lab]) s' /\ ids_ok dc_id (hist ++ [lab]) s'.
Proof.
  intros Hpos Hs [Hok Hids]. destruct (sys_step_ledger _ _ _ _ Hs Hok) as (Hok' & ids & Hiss & Hsub).
  split; [done|]. unfold ids_ok in *. rewrite length_app. simpl. intros Hmax.
  destruct Hids as (Hc & Hlt & Hnd); [lia|].
  destruct (issued_fresh _ _ _ _ _ Hiss Hsub) as (? & ? & ?); [lia|lia|done|done|]. split_and!; by try lia.
Qed.

Lemma started_channels {Ctl} (accept : Ctl -> StreamProtocol -> Ctl * bool) (swarm : Sw) (ctl : Ctl)
    (now dc_id : Z) config (node : Node Sw AnyCommand CmdValue) :
  start accept swarm ctl now dc_id config = Ok node ->
  channels_ok [] (system_of node) /\ ids_ok dc_id [] (system_of node).
Proof.
  intros (_ & _ & Hsh)%start_inv.
  assert (queued_channels (system_of node) = []) as Hq.
  { unfold queued_channels. simpl. rewrite Hsh. simpl.
    by destruct (ch_new_spec InboundDataChannel DC_INBOUND_CHANNEL_SIZE) as (-> & _). }
  split; [split; rewrite ?Hq; simpl; by constructor|]. intros _. unfold known_ids, dc_counter. rewrite Hq. simpl.
  rewrite Hsh. simpl. split_and!; [lia..|by constructor|by constructor].
Qed.

End steps.

(** ** Properties *)

(** C18. The channels an application is given are its own, in every run of a
    started node with its clients: what a poll of [open_data_channel] returns is
    outbound, what the inbound receiver returns is inbound, and each is counted
    by the quota under the very peer, protocol and direction it reports; the
    opened channels are, with multiplicity, among the calls of
    [open_data_channel], so that no call gives two channels and none leads to
    another peer or protocol than was asked for; and no identifier is given
    twice, as long as the 64-bit counter has not wrapped. *)
Theorem channels_given_are_asked_for `{N : NetTypes} {Sw}
    `{!SwarmOps Sw, !SwarmPoll Sw, !HashOrder, !Mpsc, !MpscLaws}
    {Ctl} (accept : Ctl -> StreamProtocol -> Ctl * bool) (swarm : Sw) (ctl : Ctl) (now dc_id : Z)
    (config : NodeConfig) (node : Node Sw AnyCommand CmdValue) (hist : list Label) (s : System Sw) :
  (0 <= dc_id)%Z -> start accept swarm ctl now dc_id config = Ok node -> history (system_of node) hist s ->
  Forall rightly_handed hist
  /\ omap outbound_target (given hist) ⊆+ open_calls hist
  /\ ((dc_id + Z.of_nat (length hist) < u64_modulus)%Z -> NoDup (DataChannel_id <$> given hist)).
Proof.
  intros Hpos Hst Hrun.
  assert (channels_ok hist s /\ ids_ok dc_id hist s) as [[Ht Hg _ _] Hids].
  { induction Hrun as [|hist lab s s' _ IH Hs]; [by eapply started_channels|by eapply sys_step_channels]. }
  split; [done|]. split; [etrans; [|exact Ht]; by apply submseteq_inserts_r|].
  intros Hmax. destruct (Hids Hmax) as (_ & _ & Hnd). by apply NoDup_app in Hnd as [? _].
Qed.
