(* ===== verification/Calls.v ===== *)
(** * Client calls in the whole node

    The life of every call of every client, against the running loop: the sender
    count, the result cells, and the types of what callers receive, as
    invariants of [System]; and the proof that [System] refines [Node], so that
    everything shown of [Node] holds of a node with its actual clients. *)
From S2P Require Import Prelude Externals Errors DataChannel PendingMap Config Handle Handler.
From S2P Require Import BasicCommands KadCommands KadQueries ReqRespCommands Commands.
From S2P Require Import EventLoop EventChain CommandChain SwarmIds LoopFrame Dialing OpenFuture.
From S2P Require Import Client Node System.

(** ** One call *)

Section call.
Context `{N : NetTypes} `{!Mpsc}.

(** A new call owns its command, unsent and without an identifier. *)
Definition new_call (loc : nat) (lc : LiveCall) : Prop :=
  lc_future lc = CommandFuture_new (lc_command lc) loc /\ command_key (lc_command lc) = None.

Lemma call_future_new loc now c lc : live_of (call_future loc now c) = Some lc -> new_call loc lc.
Proof. unfold live_of. destruct c; simpl; intros; simplify_eq/=; by split. Qed.

Lemma respond_new loc pending id response pending' fut lc :
  nc_send_response loc pending id response = (pending', Ok fut) ->
  live_of (mkRequestCall fut None) = Some lc -> new_call loc lc.
Proof.
  unfold nc_send_response. unfold live_of.
  destruct (pm_take id pending) as [m [c|]]; simpl; intros; simplify_eq/=.
  by split.
Qed.

(** Sending, on each branch. *)
Lemma send_inv (f f' : CommandFuture AnyCommand) q q' (r : option (CResult CmdValue)) :
  CommandFuture_send f q = (f', q', r) ->
  match cf_handler f with
  | None => f' = f /\ q' = q /\ r = None
  | Some c =>
      f' = mkFuture None (cf_handle f)
      /\ match r with
         | None => ch_try_send q (mkTask c (cf_handle f)) = Ok q'
         | Some r => q' = q /\ r = Err channel_closed_error
         end
  end.
Proof.
  unfold CommandFuture_send. destruct f as [[c|] loc]; simpl; [|by intros; simplify_eq].
  destruct (ch_try_send _ _) eqn:Hs; intros; simplify_eq; by rewrite ?Hs.
Qed.

(** Polling the handle of a call that has been sent. *)
Lemma poll_inv (c c' : RequestCall) now q q' (st st' : ResultState CmdValue) waker r :
  request_poll c now q st waker = (c', q', st', r) -> cf_handler (rc_future c) = None ->
  c' = c /\ q' = q /\ rs_result st' = None
  /\ match r with
     | None => rs_result st = None /\ rs_waker st' = Some waker /\ rs_cancelled st' = rs_cancelled st
     | Some (Ok v) => rs_result st = Some (Ok v)
     | Some (Err e) =>
         rs_result st = Some (Err e) \/ (e = E_Network Timeout /\ is_Some (rc_deadline c))
     end.
Proof.
  unfold request_poll, CommandFuture_poll, CommandFuture_send, handle_poll.
  destruct c as [[h loc] d]; simpl. intros Hp ->. revert Hp.
  destruct st as [[[v|e]|] w b]; simpl; [intros; simplify_eq; eauto 6..|].
  destruct d as [d|]; [destruct (d <=? now)%Z|]; intros; simplify_eq/=; eauto 6.
Qed.

End call.

(** ** The invariant *)

Section invariant.
Context `{N : NetTypes} {Sw : Type} `{!SwarmOps Sw, !SwarmPoll Sw, !HashOrder, !Mpsc}.
Local Notation World := (NodeWorld Sw AnyCommand CmdValue).

Definition cells (w : World) : gset nat := dom (sh_handles (nw_shared w)).

(** The commands of the node: queued, then active. *)
Definition node_tasks (w : World) : list (CommandTask AnyCommand) :=
  ch_contents (nw_commands w) ++ el_active (nw_loop w).

Record calls_ok (s : System Sw) : Prop := {
  co_senders : nw_senders (sy_node s) = length (sy_clients s) + size (sy_calls s);
  co_cells : forall loc lc, sy_calls s !! loc = Some lc ->
    loc ∈ cells (sy_node s) /\ cf_handle (lc_future lc) = loc;
  co_tasks : forall t, t ∈ node_tasks (sy_node s) -> task_handle t ∈ cells (sy_node s);
}.

(** [G loc] is the type of the caller that waits on [loc]. *)
Record typed_ok (G : nat -> CmdValue -> Prop) (s : System Sw) : Prop := {
  ty_tasks : tasks_typed G (node_tasks (sy_node s));
  ty_cells : handles_typed G (nw_shared (sy_node s));
  ty_calls : forall loc lc, sy_calls s !! loc = Some lc ->
    G loc = result_shape (lc_command lc)
    /\ forall c, cf_handler (lc_future lc) = Some c -> c = lc_command lc;
}.

End invariant.

(** ** Lemmas on the loop's steps *)

Section loop.
Context `{N : NetTypes} {Sw : Type}.
Context `{!SwarmOps Sw, !SwarmPoll Sw, !HashOrder, !Mpsc, !MpscLaws}.
Implicit Types (w : NodeWorld Sw AnyCommand CmdValue).

Lemma recv_tasks (q q' : Chan (CommandTask AnyCommand)) t el :
  ch_recv q = Some (t, q') -> ch_contents q ++ el = t :: ch_contents q' ++ el.
Proof. by intros [-> _]%ch_recv_inv. Qed.

Lemma loop_step_cells w w' : loop_step w w' -> cells w' = cells w.
Proof.
  intros Hs. unfold cells.
  destruct Hs as [|? ? ? ? ? ? ? ? ? ? _ Hc| |? ? ? ? ? ? ? ? ? ? ? _ He| |? ? ? ? ? ? q p s| | |]; simpl;
    try done.
  - by eapply handle_command_frame in Hc as [].
  - by eapply handle_swarm_event_frame in He as [].
  - unfold handle_inbound_channel. by repeat case_match.
Qed.

Lemma loop_step_senders w w' : loop_step w w' -> nw_senders w' = nw_senders w.
Proof. by destruct 1. Qed.

(** Every task after a step stands for a task before it: same cell. *)
Lemma loop_step_tasks w w' t' :
  loop_step w w' -> t' ∈ node_tasks w' ->
  exists t, t ∈ node_tasks w /\ task_handle t = task_handle t'.
Proof.
  intros Hs. unfold node_tasks.
  destruct Hs as [|el sh q q' n rcv cv cmd el' sh' Hr Hc| |el sh q n rcv cv ev s el' sh' o _ He| | | | |];
    simpl; intros Hin; try (by exists t').
  - apply elem_of_app in Hin as [Hin|[_ Hin]%list_elem_of_filter]; exists t'; (split; [|done]); set_solver.
  - rewrite (recv_tasks _ _ _ _ Hr). apply handle_command_inv in Hc as (c & s & fin & _ & Hc & _). rewrite Hc in Hin.
    rewrite app_assoc, elem_of_app, list_elem_of_singleton in Hin. destruct Hin as [Hin| ->].
    + exists t'. split; [by right|done].
    + exists cmd. split; [left|done].
  - apply handle_swarm_event_inv in He as (active & sh1 & r & Hch & _ & Ha & _). rewrite Ha in Hin.
    apply elem_of_app in Hin as [Hin|Hin]; [exists t'; split; [set_solver|done]|].
    destruct (chain_spec_sub _ _ _ _ _ _ _ _ Hch Hin) as (t & Ht & _ & Hh).
    exists t. split; [set_solver|done].
Qed.

Lemma loop_step_typed G w w' :
  loop_step w w' -> tasks_typed G (node_tasks w) -> handles_typed G (nw_shared w) ->
  tasks_typed G (node_tasks w') /\ handles_typed G (nw_shared w').
Proof.
  intros Hs. unfold node_tasks.
  destruct Hs as [|el sh q q' n rcv cv cmd el' sh' Hr Hc| |el sh q n rcv cv ev s el' sh' o _ He| |
                  ? ? ? ? ? ? q p s| | |]; simpl; intros Ht Hh; try done.
  - split; [|done]. apply Forall_app in Ht as [Hq Ha]. apply Forall_app. split; [done|].
    rewrite Forall_forall in Ha |- *. intros t [_ Hin]%list_elem_of_filter. by apply Ha.
  - rewrite (recv_tasks _ _ _ _ Hr) in Ht. apply Forall_cons in Ht as [Hcmd Ht].
    apply Forall_app in Ht as [Hq Ha].
    destruct (handle_command_typed G _ _ _ _ _ Hc) as [Ht' Hh']; [by constructor|done|].
    split; [|done]. by apply Forall_app.
  - apply Forall_app in Ht as [Hq Ha].
    destruct (handle_swarm_event_typed G _ _ _ _ _ _ He Ha Hh) as [Ht' Hh'].
    split; [|done]. by apply Forall_app.
  - split; [done|]. unfold handle_inbound_channel. by repeat case_match.
Qed.

End loop.

(** ** Lemmas on the system's steps *)

Section system.
Context `{N : NetTypes} {Sw : Type}.
Context `{!SwarmOps Sw, !SwarmPoll Sw, !HashOrder, !Mpsc, !MpscLaws}.
Implicit Types (w : NodeWorld Sw AnyCommand CmdValue) (s : System Sw).

Lemma cells_fresh w loc : loc ∉ cells w <-> sh_handles (nw_shared w) !! loc = None.
Proof. apply not_elem_of_dom. Qed.

Lemma cells_set w loc st : cells (nw_upd (sh_set_handle loc st) w) = {[loc]} ∪ cells w.
Proof. apply dom_insert_L. Qed.

Lemma cells_begin w loc : cells (call_begin loc w) = {[loc]} ∪ cells w.
Proof. apply dom_insert_L. Qed.

Lemma cells_done w loc st : cells (call_done loc st w) = {[loc]} ∪ cells w.
Proof. apply dom_insert_L. Qed.

Lemma call_begin_ok w cl ca op ch loc lc :
  sh_handles (nw_shared w) !! loc = None -> new_call loc lc ->
  calls_ok (mkSystem w cl ca op ch) ->
  ca !! loc = None /\ calls_ok (mkSystem (call_begin loc w) cl (<[loc := lc]> ca) op ch).
Proof.
  intros Hno%cells_fresh [Hf _] [Hn Hc Ht]. simpl in *.
  assert (ca !! loc = None) as Hca.
  { apply eq_None_not_Some. intros [lc0 Hl]. by apply Hc in Hl as [Hl _]. }
  split; [done|]. split; cbn [sy_node sy_calls sy_clients]; rewrite ?cells_begin.
  - simpl. rewrite map_size_insert_None by done. lia.
  - intros loc' lc' [[<- <-]|[Hne Hl]]%lookup_insert_Some; [rewrite Hf; set_solver|].
    destruct (Hc _ _ Hl). set_solver.
  - intros t Hin. apply Ht in Hin. set_solver.
Qed.

Lemma call_done_ok w cl ca op ch loc lc st :
  ca !! loc = Some lc -> calls_ok (mkSystem w cl ca op ch) ->
  calls_ok (mkSystem (call_done loc st w) cl (delete loc ca) op ch).
Proof.
  intros Hl [Hn Hc Ht]. simpl in *. split; cbn [sy_node sy_calls sy_clients]; rewrite ?cells_done.
  - simpl. rewrite map_size_delete_Some by eauto. assert (size ca <> 0); [|lia].
    apply map_size_non_empty_iff. intros ->. done.
  - intros loc' lc' [Hne Hl']%lookup_delete_Some. destruct (Hc _ _ Hl'). set_solver.
  - intros t Hin. apply Ht in Hin. set_solver.
Qed.

(** What is in the queue after a command has been sent. *)
Lemma send_tasks q q' (c : AnyCommand) loc el :
  ch_try_send q (mkTask c loc) = Ok q' ->
  ch_contents q' ++ el ≡ₚ mkTask c loc :: ch_contents q ++ el.
Proof. intros (_ & _ & -> & _)%ch_try_send_inv. solve_Permutation. Qed.

Lemma sys_step_calls lab s s' : sys_step lab s s' -> calls_ok s -> calls_ok s'.
Proof.
  intros Hs Hok. pose proof Hok as [Hn Hc Ht].
  destruct Hs as
    [w w' cl ca op ch Hs| | | | |w cl ca op ch client loc call lc _ Hno Hl
     |w cl ca op ch client loc id response pending fut lc _ Hno Hr Hl|
     |w cl ca op ch loc lc f q Hl Hh Hsend|w cl ca op ch loc lc st f q r Hl Hst Hsend
     |w cl ca op ch loc lc st waker c q st' Hl Hh Hst Hp| | |
     w cl ca op ch client n client' _ Hcl|w l1 client l2 ca op ch| | | | | | | | |]; simpl in *;
    try (by split); try (by eapply call_done_ok).
  - split; simpl.
    + by rewrite (loop_step_senders _ _ Hs).
    + by rewrite (loop_step_cells _ _ Hs).
    + intros t' Hin. destruct (loop_step_tasks _ _ _ Hs Hin) as (t & Hin' & <-).
      rewrite (loop_step_cells _ _ Hs). auto.
  - apply call_begin_ok; [done|by eapply call_future_new|done].
  - eapply respond_new in Hl; [|exact Hr]. apply (call_begin_ok (nw_upd (sh_set_pending pending) w)); [done|done|by split].
  - apply send_inv in Hsend. destruct (cf_handler (lc_future lc)) as [c|]; [|by destruct Hh].
    destruct Hsend as [-> Hsend]. destruct (Hc _ _ Hl) as [Hcell Heq]. split; simpl.
    + by rewrite map_size_insert_Some.
    + intros loc' lc' [[<- <-]|[Hne Hl']]%lookup_insert_Some; [|by apply Hc]. by split.
    + intros t. unfold node_tasks. simpl. rewrite (send_tasks _ _ _ _ _ Hsend), elem_of_cons.
      intros [->|Hin]; [simpl; by rewrite Heq|by apply Ht].
  - split; cbn [sy_node sy_calls sy_clients]; rewrite ?cells_set; [done| |].
    + intros loc' lc' Hl'. destruct (Hc _ _ Hl'). set_solver.
    + intros t Hin. apply Ht in Hin. set_solver.
  - unfold NetClient_clone in Hcl. simplify_eq. split; simpl; [lia|done|done].
  - split; simpl; [|done|done]. unfold NetClient_shutdown. rewrite Hn, !length_app. simpl. lia.
Qed.

(** A cell that is allocated and that no call waits on stays so. *)
Lemma sys_step_over lab s s' loc :
  sys_step lab s s' -> calls_ok s -> loc ∈ cells (sy_node s) -> sy_calls s !! loc = None ->
  loc ∈ cells (sy_node s') /\ sy_calls s' !! loc = None.
Proof.
  intros Hs Hok. destruct Hs as [w w' ? ? ? ? Hs| | | | |? ? ? ? ? ? loc' ? ? _ Hno
    |? ? ? ? ? ? loc' ? ? ? ? ? _ Hno| |? ? ? ? ? ? ? ? ? Hl| | | | | | | | | | | | | | |];
    cbn [sy_node sy_calls]; rewrite ?cells_begin, ?cells_done, ?cells_set; intros Hin Hnone;
    try (split; [set_solver|]); rewrite ?lookup_delete_None, ?lookup_insert_None; auto.
  - by rewrite (loop_step_cells _ _ Hs).
  - apply cells_fresh in Hno. split; [done|set_solver].
  - apply cells_fresh in Hno. split; [done|set_solver].
  - split; [done|]. congruence.
Qed.

End system.

(** ** The system refines the node *)

Section refinement.
Context `{N : NetTypes} {Sw : Type}.
Context `{!SwarmOps Sw, !SwarmPoll Sw, !HashOrder, !Mpsc, !MpscLaws}.
Implicit Types (w : NodeWorld Sw AnyCommand CmdValue) (s : System Sw).

Lemma app_once w w' : app_step w w' -> rtc app_step w w'.
Proof. apply rtc_once. Qed.

(** Steps of a call, for the node. *)
Lemma call_begin_node w loc : 0 < nw_senders w -> rtc app_step w (call_begin loc w).
Proof.
  destruct w as [ph el sh q n rcv cv]. simpl. intros Hn.
  etrans; [by apply app_once, as_clone|]. by apply app_once, as_handles.
Qed.

Lemma call_done_node w loc st : 0 < nw_senders w -> rtc app_step w (call_done loc st w).
Proof.
  destruct w as [ph el sh q [|n] rcv cv]; simpl; [lia|]. intros _.
  etrans; [by apply app_once, as_drop_client|]. by apply app_once, as_handles.
Qed.

(** Either the loop moves, or the application does. *)
Lemma sys_step_actor lab s s' :
  calls_ok s -> sys_step lab s s' ->
  loop_step (sy_node s) (sy_node s') \/ rtc app_step (sy_node s) (sy_node s').
Proof.
  intros [Hn Hc _] Hs.
  assert (forall loc lc, sy_calls s !! loc = Some lc -> 0 < nw_senders (sy_node s)) as Hcall.
  { intros loc lc Hl. rewrite Hn. assert (size (sy_calls s) <> 0); [|lia].
    apply map_size_non_empty_iff. intros He. by rewrite He in Hl. }
  assert (forall client, client ∈ sy_clients s -> 0 < nw_senders (sy_node s)) as Hclient.
  { intros client Hin. rewrite Hn. destruct (sy_clients s); [by apply elem_of_nil in Hin|]. simpl. lia. }
  destruct Hs as
    [w w' cl ca op ch Hs|w|w cl ca op ch rx evt Hr|w|w|w cl ca op ch client loc call lc Hin
     |w cl ca op ch client loc id response pending fut lc Hin|w
     |w cl ca op ch loc lc f q Hl Hh Hsend|w cl ca op ch loc lc st f q r Hl Hst Hsend
     |w|w cl ca op ch loc lc st waker c q st' r Hl|w cl ca op ch loc lc st Hl
     |w cl ca op ch client n client' Hin Hcl|w l1 client l2 ca op ch
     |w|w|w|w cl ca op ch rx c Hr|w|w|w|w|w];
    simpl in *; try (by left); right; try (eapply call_done_node, Hcall; exact Hl); try done.
  - destruct w. by apply app_once, as_time.
  - destruct w. unfold EventReceiver_recv in Hr. destruct (ch_poll_recv _ _) as [rx' x] eqn:Hp.
    injection Hr as -> ->. apply poll_recv_inv in Hp. by apply app_once, as_receive.
  - destruct w. apply app_once, as_drop_events.
  - destruct w. by apply app_once, as_pending.
  - by eapply call_begin_node, Hclient.
  - etrans; [|eapply call_begin_node; simpl; by eapply Hclient].
    destruct w. by apply app_once, as_pending.
  - destruct w. by apply app_once, as_pending.
  - apply send_inv in Hsend. destruct (cf_handler (lc_future lc)); [|by destruct Hh].
    destruct Hsend as [_ Hsend]. specialize (Hcall _ _ Hl). destruct w. simpl in *.
    by eapply app_once, as_submit.
  - destruct w. by apply app_once, as_handles.
  - unfold NetClient_clone in Hcl. simplify_eq. specialize (Hclient _ Hin). destruct w.
    by apply app_once, as_clone.
  - assert (0 < nw_senders w) as Hpos by (rewrite Hn, length_app; simpl; lia).
    destruct w as [ph el sh q [|n] rcv cv]; simpl in *; [lia|]. apply app_once, as_drop_client.
  - destruct w. by apply app_once, as_registry.
  - destruct w. by apply app_once, as_registry.
  - destruct w. by apply app_once, as_inbound.
  - destruct w. etrans; [by apply app_once, as_inbound|]. by apply app_once, as_registry.
  - destruct w. by apply app_once, as_registry.
  - destruct w. by apply app_once, as_registry.
  - destruct w. by apply app_once, as_registry.
Qed.

Lemma sys_step_node lab s s' :
  calls_ok s -> sys_step lab s s' -> rtc node_step (sy_node s) (sy_node s').
Proof.
  intros Hok [Hs|Hs]%sys_step_actor; [by apply rtc_once, ns_loop| |done].
  eapply (rtc_congruence id); [|exact Hs]. intros. by apply ns_app.
Qed.

End refinement.

(** ** What callers receive *)

Section typed.
Context `{N : NetTypes} {Sw : Type}.
Context `{!SwarmOps Sw, !SwarmPoll Sw, !HashOrder, !Mpsc, !MpscLaws}.
Implicit Types (w : NodeWorld Sw AnyCommand CmdValue) (s : System Sw).

Definition typed_inv (s : System Sw) : Prop := calls_ok s /\ exists G, typed_ok G s.

Lemma set_handle_typed G loc st (sh : Shared CmdValue) :
  handles_typed G sh -> match rs_result st with Some (Ok v) => G loc v | _ => True end ->
  handles_typed G (sh_set_handle loc st sh).
Proof.
  intros Hh Hst loc' st' v. simpl.
  intros [[<- <-]|[_ Hl]]%lookup_insert_Some Hr; [by rewrite Hr in Hst|by eapply Hh].
Qed.

(** A new cell may be given any type. *)
Lemma call_begin_typed G w cl ca op ch loc lc :
  sh_handles (nw_shared w) !! loc = None -> new_call loc lc ->
  calls_ok (mkSystem w cl ca op ch) -> typed_ok G (mkSystem w cl ca op ch) ->
  exists G', typed_ok G' (mkSystem (call_begin loc w) cl (<[loc := lc]> ca) op ch).
Proof.
  intros Hno Hnew Hok [Ht Hh Hc]. simpl in *.
  pose proof (proj2 (cells_fresh w loc) Hno) as Hcell.
  exists (fun l => if decide (l = loc) then result_shape (lc_command lc) else G l). split; simpl.
  - unfold tasks_typed in *. rewrite Forall_forall in Ht |- *. intros t Hin.
    rewrite decide_False; [by apply Ht|]. intros <-. by apply Hcell, (co_tasks _ Hok).
  - apply set_handle_typed; [|done]. intros loc' st' v Hl Hr.
    rewrite decide_False; [by eapply Hh|]. intros ->. congruence.
  - intros loc' lc' [[<- <-]|[Hne Hl]]%lookup_insert_Some.
    + rewrite decide_True by done. split; [done|]. destruct Hnew as [-> _]. simpl. by intros c [= <-].
    + rewrite decide_False by done. by apply Hc.
Qed.

Lemma call_done_typed G w cl ca op ch loc lc st :
  ca !! loc = Some lc -> match rs_result st with Some (Ok v) => G loc v | _ => True end ->
  typed_ok G (mkSystem w cl ca op ch) ->
  typed_ok G (mkSystem (call_done loc st w) cl (delete loc ca) op ch).
Proof.
  intros Hl Hst [Ht Hh Hc]. split; simpl in *; [done| |].
  - by apply set_handle_typed.
  - intros loc' lc' [_ Hl']%lookup_delete_Some. by apply Hc.
Qed.

Lemma stored_typed G loc st (sh : Shared CmdValue) :
  handles_typed G sh -> sh_handles sh !! loc = Some st ->
  match rs_result (CommandFuture_drop st) with Some (Ok v) => G loc v | _ => True end.
Proof. intros Hh Hst. simpl. destruct (rs_result st) as [[v|]|] eqn:Hr; [|done..]. by eapply Hh. Qed.

Lemma sys_step_typed lab s s' : sys_step lab s s' -> typed_inv s -> typed_inv s'.
Proof.
  intros Hs [Hok [G HG]]. split; [by eapply sys_step_calls|]. pose proof HG as [Ht Hh Hc].
  pose proof (fun loc => co_cells s Hok loc) as Hcells.
  destruct Hs as
    [w w' cl ca op ch Hs| | | | |w cl ca op ch client loc call lc _ Hno Hl
     |w cl ca op ch client loc id response pending fut lc _ Hno Hr Hl|
     |w cl ca op ch loc lc f q Hl Hh' Hsend|w cl ca op ch loc lc st f q r Hl Hst Hsend
     |w cl ca op ch loc lc st waker c q st' Hl Hh' Hst Hp
     |w cl ca op ch loc lc st waker c q st' r Hl Hh' Hst Hp|w cl ca op ch loc lc st Hl Hst
     | | | | | | | | | | |]; simpl in *; try (by exists G; split).
  - exists G. destruct (loop_step_typed G _ _ Hs Ht Hh). by split.
  - eapply call_begin_typed; [done|by eapply call_future_new|done|done].
  - eapply respond_new in Hl; [|exact Hr].
    apply (call_begin_typed G (nw_upd (sh_set_pending pending) w)); [done|done| |by split].
    by destruct Hok.
  - exists G. apply send_inv in Hsend. destruct (cf_handler (lc_future lc)) as [c|] eqn:Hf; [|by destruct Hh'].
    destruct Hsend as [-> Hsend]. destruct (Hc _ _ Hl) as [HGl Hcmd]. destruct (Hcells _ _ Hl) as [_ Heq].
    split; simpl; [|done|].
    + unfold tasks_typed, node_tasks in *. simpl. rewrite (send_tasks _ _ _ _ _ Hsend).
      constructor; [|done]. simpl. by rewrite Heq, HGl, (Hcmd c) by done.
    + intros loc' lc' [[<- <-]|[Hne Hl']]%lookup_insert_Some; [|by apply Hc]. by split.
  - exists G. eapply call_done_typed; [done|by eapply stored_typed|done].
  - exists G. eapply poll_inv in Hp as (-> & -> & Hst' & _); [|done].
    split; simpl; [done|apply set_handle_typed; [done|by rewrite Hst']|done].
  - exists G. eapply poll_inv in Hp as (-> & -> & Hst' & _); [|done].
    eapply call_done_typed; [done|by rewrite Hst'|done].
  - exists G. eapply call_done_typed; [done|by eapply stored_typed|done].
Qed.

(** What a step returns has the type of its command: in the source this is a
    matter of [ResultHandle<T>], here it shows that erasing the types with
    [CmdValue] loses nothing. *)
Lemma sys_step_returned loc r s s' lc :
  sys_step (Returned loc r) s s' -> typed_inv s -> sy_calls s !! loc = Some lc ->
  match r with Ok v => result_shape (lc_command lc) v | Err _ => True end.
Proof.
  intros Hs [_ [G [_ Hh Hc]]] Hl. inversion Hs as
    [| | | | | | | | |w cl ca op ch l lc0 st f q r0 Hl0 Hst Hsend|
     |w cl ca op ch l lc0 st waker c q st' r0 Hl0 Hh0 Hst Hp| | | | | | | | | | | |]; subst; simpl in *.
  - apply send_inv in Hsend. destruct (cf_handler _); [|by destruct Hsend as (_ & _ & ?)].
    by destruct Hsend as (_ & _ & ->).
  - assert (lc0 = lc) as -> by congruence.
    eapply poll_inv in Hp as (_ & _ & _ & Hp); [|done]. destruct r as [v|]; [|done].
    destruct (Hc _ _ Hl) as [<- _]. by eapply Hh.
Qed.

End typed.

(** ** Properties *)

Section started.
Context `{N : NetTypes} {Sw : Type}.
Context `{!SwarmOps Sw, !SwarmPoll Sw, !HashOrder, !Mpsc, !MpscLaws}.

Lemma system_of_typed {Ctl} (accept : Ctl -> StreamProtocol -> Ctl * bool) swarm ctl now dc_id config
    (node : Node Sw AnyCommand CmdValue) :
  start accept swarm ctl now dc_id config = Ok node -> typed_inv (system_of node).
Proof.
  intros (Ha & Hq & Hsh)%start_inv.
  destruct (ch_new_spec (CommandTask AnyCommand) COMMAND_CHANNEL_SIZE) as (Hnil & _).
  assert (node_tasks (sy_node (system_of node)) = []) as Hno
    by (unfold node_tasks; simpl; by rewrite Hq, Hnil, Ha).
  split; [split|exists (fun _ _ => True); split]; rewrite ?Hno; try done.
  - by intros t ?%elem_of_nil.
  - by constructor.
Qed.

Lemma sys_run_typed (s s' : System Sw) : sys_run s s' -> typed_inv s -> typed_inv s'.
Proof.
  intros Hr Hi. eapply (rtc_invariant _ typed_inv); [|exact Hr|exact Hi].
  intros a b [lab Hs]. by eapply sys_step_typed.
Qed.

Lemma sys_run_node (s s' : System Sw) :
  sys_run s s' -> typed_inv s -> rtc node_step (sy_node s) (sy_node s').
Proof.
  induction 1 as [s|s s1 s2 [lab Hs] _ IH]; intros Hi; [done|].
  etrans; [eapply sys_step_node; [by apply Hi|exact Hs]|]. by eapply IH, sys_step_typed.
Qed.

End started.

(** C9. The node with its actual clients implements [Node]: whatever the clients
    of a started node do (call, poll, time out, drop, clone, shut down), the
    node makes only steps [Node] allows, so its theorems hold here; the senders
    counted are exactly the clients and the calls in progress; and therefore
    when the loop has stopped there is no client left, no call is waiting, and
    no accepted command has been left in the queue. *)
Theorem system_refines_node `{N : NetTypes} {Sw}
    `{!SwarmOps Sw, !SwarmPoll Sw, !HashOrder, !Mpsc, !MpscLaws}
    {Ctl} (accept : Ctl -> StreamProtocol -> Ctl * bool) (swarm : Sw) (ctl : Ctl) (now dc_id : Z)
    (config : NodeConfig) (node : Node Sw AnyCommand CmdValue) (s : System Sw) :
  start accept swarm ctl now dc_id config = Ok node -> sys_run (system_of node) s ->
  rtc node_step (sy_node (system_of node)) (sy_node s)
  /\ nw_senders (sy_node s) = length (sy_clients s) + size (sy_calls s)
  /\ (nw_phase (sy_node s) = Stopped ->
      sy_clients s = [] /\ sy_calls s = ∅ /\ ch_contents (nw_commands (sy_node s)) = []).
Proof.
  intros Hst Hr. apply system_of_typed in Hst. pose proof (sys_run_node _ _ Hr Hst) as Hn.
  destruct (sys_run_typed _ _ Hr Hst) as [[Hs _ _] _]. split_and!; [done|done|]. intros Hstop.
  destruct (stopped_drained _ _ Hn eq_refl Hstop) as [Hz Hq]. rewrite Hz in Hs.
  split_and!; [by apply nil_length_inv; lia|apply map_size_empty_inv; lia|done].
Qed.
