(* ===== verification/Ownership.v ===== *)
(** * Identifiers in the running node

    The identifiers of the active commands are distinct and were all handed out
    by the swarm, and no command that waits to be run has one: an invariant of
    [System] on libp2p's promise not to reuse identifiers ([SwarmIdLaws]).  So
    the precondition of the owner lemmas of [EventChain] always holds, and each
    answer of the network reaches the call that asked for it. *)
From S2P Require Import Prelude Externals Errors DataChannel PendingMap Config Handle Handler.
From S2P Require Import BasicCommands KadCommands KadQueries ReqRespCommands Commands.
From S2P Require Import EventLoop EventChain CommandChain SwarmIds LoopFrame Dialing Client Node System Calls.

(** ** The invariant *)

Section invariant.
Context `{N : NetTypes} {Sw : Type}.
Context `{!SwarmOps Sw, !SwarmPoll Sw, !HashOrder, !Mpsc, !SwarmIds Sw}.

(** On a list of commands and a swarm. *)
Record keys_ok (swarm : Sw) (active : list (CommandTask AnyCommand)) : Prop := {
  ko_distinct : keys_distinct active;
  ko_issued : forall t k, t ∈ active -> task_key t = Some k -> sw_issued swarm k;
}.

Definition world_keys_ok (w : NodeWorld Sw AnyCommand CmdValue) : Prop :=
  keys_ok (el_swarm (nw_loop w)) (el_active (nw_loop w))
  /\ Forall (fun t => task_key t = None) (ch_contents (nw_commands w)).

Definition system_keys_ok (s : System Sw) : Prop :=
  world_keys_ok (sy_node s)
  /\ forall loc lc c, sy_calls s !! loc = Some lc -> cf_handler (lc_future lc) = Some c ->
       command_key c = None.

End invariant.

(** ** Lemmas *)

Section lemmas.
Context `{N : NetTypes} {Sw : Type}.
Context `{!SwarmOps Sw, !SwarmPoll Sw, !HashOrder, !Mpsc, !MpscLaws, !SwarmIds Sw, !SwarmIdLaws Sw}.
Implicit Types (w : NodeWorld Sw AnyCommand CmdValue) (s : System Sw) (el : EventLoop Sw AnyCommand).

(** Later swarms have issued at least as much. *)
Lemma keys_ok_mono (s1 s2 : Sw) active :
  (forall k, sw_issued s1 k -> sw_issued s2 k) -> keys_ok s1 active -> keys_ok s2 active.
Proof. intros Hm [Hd Hi]. split; [done|]. intros t k Hin Hk. by eapply Hm, Hi. Qed.

Lemma retain_keys_ok (sw : Sw) (P : CommandTask AnyCommand -> Prop) `{!forall t, Decision (P t)} active :
  keys_ok sw active -> keys_ok sw (filter P active).
Proof.
  intros [Hd Hi]. split.
  - unfold keys_distinct in *. eapply sublist_NoDup; [exact Hd|]. clear Hd Hi.
    induction active as [|t l IH]; [done|]. rewrite filter_cons. simpl.
    case_decide; simpl; destruct (task_key t); by try constructor.
  - intros t k [_ Hin]%list_elem_of_filter. by apply Hi.
Qed.

(** A command that was run: no identifier, or one nobody else has. *)
Lemma command_keys_ok el (sh sh' : Shared CmdValue) cmd el' :
  handle_command el sh cmd = Some (el', sh') -> task_key cmd = None ->
  keys_ok (el_swarm el) (el_active el) -> keys_ok (el_swarm el') (el_active el').
Proof.
  intros Hc Hk Hok. pose proof Hok as [Hd Hi].
  destruct (handle_command_spec _ _ _ _ _ Hc Hk) as (c & -> & [[Hn Hops]|(k & s & Hck & Ha & Hops)]).
  - assert (keys_ok (el_swarm el') (el_active el)) as [Hd' Hi'].
    { eapply keys_ok_mono; [|exact Hok]. intros k. by apply issued_ops. }
    split.
    + unfold keys_distinct in *. rewrite omap_app. simpl. unfold task_key at 2. simpl.
      by rewrite Hn, app_nil_r.
    + intros t k [Hin| ->%list_elem_of_singleton]%elem_of_app; [by apply Hi'|].
      unfold task_key. simpl. by rewrite Hn.
  - destruct (issued_alloc _ _ _ Ha) as [Hfresh Hnow].
    assert (forall k, sw_issued (el_swarm el) k -> sw_issued (el_swarm el') k) as Hm.
    { intros k' Hk'. eapply issued_ops; [exact Hops|]. by eapply issued_op, Hk'; eapply alloc_op. }
    destruct (keys_ok_mono _ _ _ Hm Hok) as [Hd' Hi']. split.
    + unfold keys_distinct in *. rewrite omap_app. simpl. unfold task_key at 2. simpl. rewrite Hck.
      apply NoDup_app. split_and!; [done| |apply NoDup_singleton].
      intros k' (t & Hin & Ht)%list_elem_of_omap ->%list_elem_of_singleton. by eapply Hfresh, Hi.
    + intros t k' [Hin| ->%list_elem_of_singleton]%elem_of_app; [by apply Hi'|].
      unfold task_key. simpl. rewrite Hck. intros [= <-]. by eapply issued_ops.
Qed.

Lemma event_keys_ok el (sh sh' : Shared CmdValue) ev el' o :
  handle_swarm_event el sh ev = Some (el', sh', o) ->
  keys_ok (el_swarm el) (el_active el) -> keys_ok (el_swarm el') (el_active el').
Proof.
  intros He Hok. pose proof (handle_swarm_event_ops _ _ _ _ _ _ He) as Hops.
  apply handle_swarm_event_inv in He as (active & sh1 & r & Hch & _ & -> & _).
  eapply keys_ok_mono; [intros k; by apply issued_ops|]. destruct Hok as [Hd Hi]. split.
  - by eapply chain_spec_keys.
  - intros t' k Hin Hk. destruct (chain_spec_sub _ _ _ _ _ _ _ _ Hch Hin) as (t & Ht & Hkey & _).
    eapply Hi; [exact Ht|congruence].
Qed.

Lemma loop_step_keys w w' : loop_step w w' -> world_keys_ok w -> world_keys_ok w'.
Proof.
  unfold world_keys_ok. intros Hs [Hok Hq].
  destruct Hs as [el sh|el sh q q' n rcv cv cmd el' sh' Hr Hc| |el sh q n rcv cv ev s el' sh' o Hp He
    |el sh q n rcv cv s Hp| | | |]; simpl in *; try done.
  - split; [|done]. by apply retain_keys_ok.
  - apply ch_recv_inv in Hr as [Hr _]. rewrite Hr in Hq. apply Forall_cons in Hq as [Hk Hq].
    split; [|done]. by eapply command_keys_ok.
  - split; [|done]. eapply event_keys_ok; [exact He|]. simpl.
    eapply keys_ok_mono, Hok. intros k. by eapply issued_poll.
  - split; [|done]. eapply keys_ok_mono, Hok. intros k. by eapply issued_poll.
Qed.

(** A new call has no identifier. *)
Lemma new_call_keys (ca : gmap nat LiveCall) loc lc :
  new_call loc lc ->
  (forall l lc c, ca !! l = Some lc -> cf_handler (lc_future lc) = Some c -> command_key c = None) ->
  forall l lc' c, <[loc := lc]> ca !! l = Some lc' -> cf_handler (lc_future lc') = Some c ->
    command_key c = None.
Proof.
  intros [Hf Hn] Hca l lc' c [[<- <-]|[_ Hl]]%lookup_insert_Some; [|by eapply Hca].
  rewrite Hf. by intros [= <-].
Qed.

Lemma sys_step_keys lab s s' : sys_step lab s s' -> system_keys_ok s -> system_keys_ok s'.
Proof.
  unfold system_keys_ok. intros Hs [Hw Hc].
  destruct Hs as
    [w w' cl ca op ch Hs| | | | |w cl ca op ch client loc call lc _ Hno Hl
     |w cl ca op ch client loc id response pending fut lc _ Hno Hr Hl|
     |w cl ca op ch loc lc f q Hl Hh Hsend|w cl ca op ch loc lc st f q r Hl|
     |w cl ca op ch loc lc st waker c q st' r Hl|w cl ca op ch loc lc st Hl| | | | | | | | | | |];
    simpl in *; try done;
    try (split; [exact Hw|]; intros l' lc' c' [_ Hl']%lookup_delete_Some; by eapply Hc).
  - split; [by eapply loop_step_keys|done].
  - split; [done|]. eapply new_call_keys; [by eapply call_future_new|done].
  - split; [done|]. eapply new_call_keys; [by eapply respond_new|done].
  - apply send_inv in Hsend. destruct (cf_handler (lc_future lc)) as [c|] eqn:Hf; [|by destruct Hh].
    destruct Hsend as [-> (_ & _ & Hq & _)%ch_try_send_inv]. split.
    + destruct Hw as [Hok Hqk]. split; [done|]. simpl. rewrite Hq. apply Forall_app. split; [done|].
      repeat constructor. unfold task_key. simpl. by eapply Hc.
    + intros l' lc' c' [[<- <-]|[_ Hl']]%lookup_insert_Some; [done|by eapply Hc].
Qed.

Lemma system_of_keys {Ctl} (accept : Ctl -> StreamProtocol -> Ctl * bool) swarm ctl now dc_id config
    (node : Node Sw AnyCommand CmdValue) :
  start accept swarm ctl now dc_id config = Ok node -> system_keys_ok (system_of node).
Proof.
  intros (Ha & Hq & _)%start_inv.
  destruct (ch_new_spec (CommandTask AnyCommand) COMMAND_CHANNEL_SIZE) as (Hnil & _).
  split; [split|done]; simpl.
  - rewrite Ha. split; [constructor|]. by intros t k ?%elem_of_nil.
  - by rewrite Hq, Hnil.
Qed.

Lemma started_keys {Ctl} (accept : Ctl -> StreamProtocol -> Ctl * bool) swarm ctl now dc_id config
    (node : Node Sw AnyCommand CmdValue) (s : System Sw) :
  start accept swarm ctl now dc_id config = Ok node -> sys_run (system_of node) s ->
  keys_ok (el_swarm (nw_loop (sy_node s))) (el_active (nw_loop (sy_node s))).
Proof.
  intros Hst Hr. assert (system_keys_ok s) as [[Hok _] _]; [|done].
  eapply (rtc_invariant _ system_keys_ok); [|exact Hr|by eapply system_of_keys].
  intros a b [lab Hs]. by eapply sys_step_keys.
Qed.

End lemmas.

(** ** Result cells *)

Section cells.
Context `{N : NetTypes} {Sw : Type}.
Context `{!SwarmOps Sw, !SwarmPoll Sw, !HashOrder, !Mpsc, !MpscLaws}.
Implicit Types (w : NodeWorld Sw AnyCommand CmdValue) (s : System Sw).

(** No two commands of the node write the same cell, and none writes the cell
    of a call that has not been sent. *)
Record cells_distinct (s : System Sw) : Prop := {
  cd_tasks : NoDup (task_handle <$> node_tasks (sy_node s));
  cd_unsent : forall loc lc c, sy_calls s !! loc = Some lc -> cf_handler (lc_future lc) = Some c ->
    loc ∉ task_handle <$> node_tasks (sy_node s);
}.

Lemma submseteq_nodup {A} (l k : list A) : l ⊆+ k -> NoDup k -> NoDup l.
Proof. intros [k' ->]%submseteq_Permutation Hk. by apply NoDup_app in Hk as [? _]. Qed.

Lemma survivors_cells (s : Sw) ev (l : list (CommandTask AnyCommand)) :
  task_handle <$> omap (survivor s ev) l ⊆+ task_handle <$> l.
Proof.
  induction l as [|t l IH]; simpl; [done|].
  destruct (survivor s ev t) as [t'|] eqn:Ht; rewrite ?fmap_cons.
  - apply survivor_key in Ht as [_ ->]. by apply submseteq_skip.
  - by apply submseteq_cons.
Qed.

(** The loop writes through no cell it was not given. *)
Lemma loop_step_handles w w' :
  loop_step w w' -> task_handle <$> node_tasks w' ⊆+ task_handle <$> node_tasks w.
Proof.
  intros Hs. unfold node_tasks.
  destruct Hs as [el sh|el sh q q' n rcv cv cmd el' sh' Hr Hc| |el sh q n rcv cv ev s el' sh' o _ He| | | | |];
    simpl; try done.
  - rewrite !fmap_app. apply submseteq_app; [done|]. apply fmap_submseteq, sublist_submseteq, sublist_filter.
  - apply ch_recv_inv in Hr as [-> _]. apply handle_command_inv in Hc as (c & s & fin & _ & -> & _).
    rewrite fmap_app, fmap_app, fmap_app, fmap_cons. simpl.
    assert (forall (l k : list nat) x, l ++ k ++ [x] ≡ₚ (x :: l) ++ k) as -> by (intros; solve_Permutation).
    done.
  - apply handle_swarm_event_inv in He as (active & sh1 & r & (visited & rest & Hp & Hp' & _) & _ & -> & _).
    rewrite !fmap_app. apply submseteq_app; [done|]. simpl in Hp. rewrite Hp', <- Hp, !fmap_app.
    apply submseteq_app; [apply survivors_cells|done].
Qed.

Lemma sys_step_distinct lab s s' :
  sys_step lab s s' -> calls_ok s -> cells_distinct s -> cells_distinct s'.
Proof.
  intros Hs Hok [Hnd Hun].
  destruct Hs as
    [w w' cl ca op ch Hs| | | | |w cl ca op ch client loc call lc _ Hno Hl
     |w cl ca op ch client loc id response pending fut lc _ Hno Hr Hl|
     |w cl ca op ch loc lc f q Hl Hh Hsend|w cl ca op ch loc lc st f q r Hl|
     |w cl ca op ch loc lc st waker c q st' r Hl|w cl ca op ch loc lc st Hl| | | | | | | | | | |];
    simpl in *; try (by split);
    try (split; [exact Hnd|]; simpl; intros l' lc' c' [_ Hl']%lookup_delete_Some; by eapply Hun).
  - pose proof (loop_step_handles _ _ Hs) as Hsub. split; [by eapply submseteq_nodup|].
    intros loc lc c Hl Hf Hin. eapply Hun; [exact Hl|exact Hf|]. by eapply elem_of_submseteq.
  - split; [exact Hnd|]. simpl. intros l' lc' c' [[<- <-]|[_ Hl']]%lookup_insert_Some; [|by eapply Hun].
    intros _ (t & -> & Ht)%list_elem_of_fmap. by apply (cells_fresh w) in Hno; apply Hno, (co_tasks _ Hok).
  - split; [exact Hnd|]. simpl. intros l' lc' c' [[<- <-]|[_ Hl']]%lookup_insert_Some; [|by eapply Hun].
    intros _ (t & -> & Ht)%list_elem_of_fmap. by apply (cells_fresh w) in Hno; apply Hno, (co_tasks _ Hok).
  - apply send_inv in Hsend. destruct (cf_handler (lc_future lc)) as [c|] eqn:Hf; [|by destruct Hh].
    destruct Hsend as [-> Hsend]. destruct (co_cells _ Hok _ _ Hl) as [_ Heq].
    assert (task_handle <$> node_tasks (nw_set_commands q w) ≡ₚ loc :: (task_handle <$> node_tasks w)) as Hp.
    { unfold node_tasks. simpl. rewrite (send_tasks _ _ _ _ _ Hsend), fmap_cons. simpl. by rewrite Heq. }
    assert (loc ∉ task_handle <$> node_tasks w) as Hnew by (eapply Hun; [exact Hl|exact Hf]).
    split; cbn [sy_node sy_calls]; [rewrite Hp; by constructor|].
    intros l' lc' c' [[<- <-]|[Hne Hl']]%lookup_insert_Some Hc'; [done|]. rewrite Hp.
    apply not_elem_of_cons. split; [done|]. by eapply Hun.
Qed.

Lemma started_cells {Ctl} (accept : Ctl -> StreamProtocol -> Ctl * bool) swarm ctl now dc_id config
    (node : Node Sw AnyCommand CmdValue) (s : System Sw) :
  start accept swarm ctl now dc_id config = Ok node -> sys_run (system_of node) s ->
  NoDup (task_handle <$> el_active (nw_loop (sy_node s))).
Proof.
  intros Hst Hr.
  assert (calls_ok s /\ cells_distinct s) as [_ [Hnd _]].
  { eapply (rtc_invariant _ (fun s => calls_ok s /\ cells_distinct s)); [|exact Hr|].
    - intros a b [lab Hs] [Hok Hd]. split; [by eapply sys_step_calls|by eapply sys_step_distinct].
    - split; [by destruct (system_of_typed _ _ _ _ _ _ _ Hst)|]. apply start_inv in Hst as (Ha & Hq & _).
      destruct (ch_new_spec (CommandTask AnyCommand) COMMAND_CHANNEL_SIZE) as (Hnil & _).
      split; [|done]. unfold node_tasks. simpl. rewrite Ha, Hq, Hnil. constructor. }
  unfold node_tasks in Hnd. rewrite fmap_app in Hnd. by apply NoDup_app in Hnd as (_ & _ & ?).
Qed.

End cells.

(** ** Properties *)

(** C4. Each answer of the network reaches the call that asked for it, in every
    state a started node can reach: when the swarm yields an event with an
    identifier, at most one active command waits for that identifier; if there
    is one, its results (and no others) are put into its own result cell; if
    there is none (it was cancelled, say) no cell changes; in both cases the
    front end sees nothing and every command waiting for another identifier
    stays active. *)
Theorem answers_reach_their_owner `{N : NetTypes} {Sw}
    `{!SwarmOps Sw, !SwarmPoll Sw, !HashOrder, !Mpsc, !MpscLaws, !SwarmIds Sw, !SwarmIdLaws Sw}
    {Ctl} (accept : Ctl -> StreamProtocol -> Ctl * bool) (swarm : Sw) (ctl : Ctl) (now dc_id : Z)
    (config : NodeConfig) (node : Node Sw AnyCommand CmdValue) (s : System Sw)
    (ev : SwarmEvent) (k : CKey) (sw : Sw) :
  start accept swarm ctl now dc_id config = Ok node -> sys_run (system_of node) s ->
  let el := nw_loop (sy_node s) in
  let sh := nw_shared (sy_node s) in
  sw_poll (el_swarm el) (Some ev) sw -> event_key ev = Some k ->
  exists active sh',
    handle_swarm_event (el_set_swarm sw el) sh ev
      = Some (el_set_active active (el_set_swarm sw el), sh', None)
    /\ (forall t u, t ∈ el_active el -> u ∈ el_active el ->
          task_key t = Some k -> task_key u = Some k -> t = u)
    /\ (forall t, t ∈ el_active el -> task_key t = Some k -> sh' = deliver sw ev sh t)
    /\ ((forall t, t ∈ el_active el -> task_key t <> Some k) -> sh' = sh)
    /\ (forall u k', u ∈ el_active el -> task_key u = Some k' -> k' <> k -> u ∈ active).
Proof.
  intros Hst Hr el sh Hp He. destruct (started_keys _ _ _ _ _ _ _ _ Hst Hr) as [Hd _].
  fold el in Hd. destruct (offer_event_spec ev (el_set_swarm sw el) sh) as (r & active & sh' & Ho & Hch).
  exists active, sh'. unfold handle_swarm_event. rewrite Ho. simpl in Hch. split_and!.
  - destruct r as [ev'|] eqn:Hev; [|done]. destruct Hch as (? & ? & _ & _ & _ & -> & _).
    by rewrite (convert_identified _ _ _ k).
  - intros t u Ht Hu Hkt Hku. by apply (omap_nodup_inj task_key (el_active el) _ _ k).
  - intros t Ht Hk. by apply (chain_spec_owner _ _ _ _ _ _ _ _ _ Hch Hd He).
  - intros Hno. by apply (chain_spec_unowned _ _ _ _ _ _ _ _ Hch He).
  - intros u k' Hu Huk Hne. by eapply chain_spec_others.
Qed.

(** C25. Connection events resolve the calls that wait for them, all of them and
    only them, in every state a started node can reach: after any event without
    an identifier every dial and disconnect that the event answers has its
    answer in its own cell and is no longer active; every other dial, disconnect,
    query or request stays active with its cell untouched; and the event still
    goes on to the front end. *)
Theorem connection_events_resolve_calls `{N : NetTypes} {Sw}
    `{!SwarmOps Sw, !SwarmPoll Sw, !HashOrder, !Mpsc, !MpscLaws}
    {Ctl} (accept : Ctl -> StreamProtocol -> Ctl * bool) (swarm : Sw) (ctl : Ctl) (now dc_id : Z)
    (config : NodeConfig) (node : Node Sw AnyCommand CmdValue) (s : System Sw)
    (ev : SwarmEvent) (sw : Sw) :
  start accept swarm ctl now dc_id config = Ok node -> sys_run (system_of node) s ->
  event_key ev = None ->
  let el := el_set_swarm sw (nw_loop (sy_node s)) in
  let sh := nw_shared (sy_node s) in
  exists active sh1,
    handle_swarm_event el sh ev = Some (convert_to_node_event (el_set_active active el) sh1 ev)
    /\ forall t, t ∈ el_active el -> awaits_event (task_handler t) ->
         match connection_answer ev (task_handler t) with
         | Some r =>
             task_handle t ∉ task_handle <$> active
             /\ (is_Some (sh_handles sh !! task_handle t) ->
                 rs_result <$> sh_handles sh1 !! task_handle t = Some (Some r))
         | None => t ∈ active /\ sh_handles sh1 !! task_handle t = sh_handles sh !! task_handle t
         end.
Proof.
  intros Hst Hr He el sh. apply unidentified_event_resolves; [|done].
  by eapply (started_cells _ _ _ _ _ _ _ s Hst).
Qed.
