(* ===== verification/Isolation.v ===== *)
(** * Calls do not interfere

    On a [Traced] swarm the concurrent node is compared with a single command:
    whatever a call returns was emitted by its own command in a [life] of its
    own, that is, run once and then fed, in order, some of the events yielded
    afterwards, among them all that carry its identifier.  The theorems of [KadQueries] and [ReqRespCommands] on single
    commands therefore hold of calls. *)
From S2P Require Import Prelude Externals Errors DataChannel PendingMap Config Handle Handler.
From S2P Require Import BasicCommands KadCommands KadQueries ReqRespCommands Commands.
From S2P Require Import EventLoop EventChain CommandChain SwarmIds LoopFrame Trace Client Node System Calls.
From S2P Require Import Ownership.

(** ** The life of one command *)

Section life.
Context `{N : NetTypes} {Sw : Type} `{!SwarmOps Sw, !SwarmPoll Sw, !HashOrder, !Mpsc}.

(** [c] was run, before [T]; of what was yielded from then on until [T], it was
    active during all but the [unseen] events, and was fed a part of the others,
    among them all with its identifier; it is now [c'], still active or not, and
    has emitted [fin]. *)
Definition life (T : Traced Sw) (c c' : AnyCommand) (alive : bool)
    (fin : list (CResult CmdValue)) (unseen : list SwarmEvent) : Prop :=
  exists (s s1 : Traced Sw) c1 fin0 later seen evs rems fin1,
    run c s = Some (c1, s1, fin0)
    /\ tr_log T = tr_log s1 ++ later /\ omap yielded later = seen ++ unseen
    /\ evs `sublist_of` seen
    /\ (forall k, command_key c' = Some k -> filter (own k) evs = filter (own k) seen)
    /\ feed (take_relay_reservation_request c1).1 evs s1 = Some (c', alive, rems, s1, fin1)
    /\ fin = fin0 ++ fin1.

(** [r] is a result of a life of [c]. *)
Definition result_of (T : Traced Sw) (c : AnyCommand) (r : CResult CmdValue) : Prop :=
  exists c' alive fin unseen, life T c c' alive fin unseen /\ r ∈ fin.

(** [O loc] is the command the call on [loc] was made for. *)
Record isolated (O : nat -> AnyCommand) (s : System (Traced Sw)) : Prop := {
  io_fresh : forall loc, command_key (O loc) = None;
  io_queued : forall t, t ∈ ch_contents (nw_commands (sy_node s)) -> task_handler t = O (task_handle t);
  io_active : forall t, t ∈ el_active (nw_loop (sy_node s)) ->
    exists fin, life (el_swarm (nw_loop (sy_node s))) (O (task_handle t)) (task_handler t) true fin [];
  io_cells : forall loc st r, sh_handles (nw_shared (sy_node s)) !! loc = Some st ->
    rs_result st = Some r ->
    result_of (el_swarm (nw_loop (sy_node s))) (O loc) r;
  io_calls : forall loc lc, sy_calls s !! loc = Some lc ->
    O loc = lc_command lc /\ forall c, cf_handler (lc_future lc) = Some c -> c = lc_command lc;
}.

End life.

(** ** Lemmas *)

Section lemmas.
Context `{N : NetTypes} {Sw : Type}.
Context `{!SwarmOps Sw, !SwarmPoll Sw, !HashOrder, !Mpsc, !MpscLaws, !SwarmIds Sw, !SwarmIdLaws Sw}.
Implicit Types (w : NodeWorld (Traced Sw) AnyCommand CmdValue) (s : System (Traced Sw)).
Implicit Types (el : EventLoop (Traced Sw) AnyCommand) (sh : Shared CmdValue).

Lemma life_mono (T T' : Traced Sw) c c' alive fin unseen l :
  tr_log T' = tr_log T ++ l -> life T c c' alive fin unseen ->
  life T' c c' alive fin (unseen ++ omap yielded l).
Proof.
  intros HT (s & s1 & c1 & fin0 & later & seen & evs & rems & fin1 & Hr & Hl & Hy & He & Hk & Hf & ->).
  exists s, s1, c1, fin0, (later ++ l), seen, evs, rems, fin1. split_and!; try done.
  - by rewrite HT, Hl, app_assoc.
  - by rewrite omap_app, Hy, app_assoc.
Qed.

(** Nothing is missed while nothing is yielded. *)
Lemma life_quiet (T T' : Traced Sw) c c' alive fin l :
  tr_log T' = tr_log T ++ l -> omap yielded l = [] -> life T c c' alive fin [] -> life T' c c' alive fin [].
Proof. intros HT Hl Hlife. eapply life_mono in Hlife; [|exact HT]. by rewrite Hl in Hlife. Qed.

Lemma result_of_mono (T T' : Traced Sw) c r : tr_le T T' -> result_of T c r -> result_of T' c r.
Proof.
  intros [l HT] (c' & alive & fin & unseen & Hl & Hr). exists c', alive, fin. eexists.
  split; [by eapply life_mono|done].
Qed.

Lemma answers_everywhere (c : AnyCommand) ev :
  exists c' k r f, forall s : Traced Sw, on_event c ev s = Some (c', (k, r), s, f).
Proof.
  destruct (on_event_answers (Sw := Traced Sw) c ev) as (c' & k & r & f & He & _). by exists c', k, r, f.
Qed.

(** A life goes on with the event just yielded, or without it if it is not its
    own. *)
Lemma life_snoc (T T' : Traced Sw) c c1 fin ev (s s' : Traced Sw) c2 keep rem f :
  tr_log T' = tr_log T ++ [OYield ev] ->
  life T c c1 true fin [] -> on_event c1 ev s = Some (c2, (keep, rem), s', f) ->
  life T' c c2 keep (fin ++ f) [].
Proof.
  intros HT (s0 & s1 & c0 & fin0 & later & seen & evs & rems & fin1 & Hr & Hl & Hy & He & Hk & Hf & ->) Hev.
  destruct (on_event_answers (Sw := Traced Sw) c1 ev) as (c' & k & r & f' & Ha & Hans).
  pose proof (Ha s) as Hs. rewrite Hev in Hs. simplify_eq.
  eexists s0, s1, c0, fin0, (later ++ [OYield ev]), (seen ++ [ev]), (evs ++ [ev]), _, _.
  split_and!; [done|by rewrite HT, Hl, app_assoc| |by apply sublist_app| | |by rewrite app_assoc].
  - rewrite omap_app, Hy, !app_nil_r. done.
  - intros key. rewrite (ea_key _ _ _ _ _ _ Hans). intros Hkey. by rewrite !filter_app, (Hk key Hkey).
  - eapply feed_snoc; [apply answers_everywhere|done|apply Ha].
Qed.

Lemma life_skip (T T' : Traced Sw) c c' alive fin ev :
  tr_log T' = tr_log T ++ [OYield ev] ->
  (event_key ev = None \/ command_key c' <> event_key ev) -> life T c c' alive fin [] -> life T' c c' alive fin [].
Proof.
  intros HT Hne (s0 & s1 & c0 & fin0 & later & seen & evs & rems & fin1 & Hr & Hl & Hy & He & Hk & Hf & ->).
  exists s0, s1, c0, fin0, (later ++ [OYield ev]), (seen ++ [ev]), evs, rems, fin1.
  split_and!; try done; [by rewrite HT, Hl, app_assoc|by rewrite omap_app, Hy, !app_nil_r|by apply sublist_inserts_r|].
  intros k Hkey. rewrite filter_app, (Hk k Hkey), filter_cons_False, filter_nil, app_nil_r; [done|].
  unfold own. destruct Hne; congruence.
Qed.

(** What the loop does with an event, seen from one visited command. *)
Lemma visit_life (T T' : Traced Sw) c t ev (s : Traced Sw) fin :
  tr_log T' = tr_log T ++ [OYield ev] -> life T c (task_handler t) true fin [] ->
  (forall t', survivor s ev t = Some t' -> exists fin', life T' c (task_handler t') true fin' [])
  /\ forall r, r ∈ emitted s ev t -> result_of T' c r.
Proof.
  intros HT Hl. unfold survivor, emitted, answer_of.
  destruct (on_event (task_handler t) ev s) as [[[[c2 [keep rem]] s'] f]|] eqn:He; [|split; [done|]].
  - pose proof (life_snoc _ _ _ _ _ _ _ _ _ _ _ _ HT Hl He) as Hl'. split.
    + intros t'. destruct keep; [|done]. intros. simplify_eq. by eexists.
    + intros r Hr. eexists _, _, _, _. split; [exact Hl'|set_solver].
  - by intros r ?%elem_of_nil.
Qed.

Lemma command_isolated O el el' sh sh' q q' cmd ph ph' n rcv cv cl ca op ch :
  ch_recv q = Some (cmd, q') -> handle_command el sh cmd = Some (el', sh') ->
  isolated O (mkSystem (mkNW ph el sh q n rcv cv) cl ca op ch) ->
  isolated O (mkSystem (mkNW ph' el' sh' q' n rcv cv) cl ca op ch).
Proof.
  intros [Hq _]%ch_recv_inv Hc [Hfr Hqd Hac Hce Hca]. simpl in *. rewrite Hq in Hqd.
  assert (task_handler cmd = O (task_handle cmd)) as Hcmd by (apply Hqd; by left).
  destruct (handle_command_swarm _ _ _ _ _ Hc) as (c & s & fin & Hr & Hact & Hlog%book_log).
  destruct (handle_command_inv _ _ _ _ _ Hc) as (c0 & s0 & fin0 & Hr0 & _ & ->).
  rewrite Hr in Hr0. simplify_eq. rewrite Hcmd in Hr.
  destruct (run_log _ _ _ _ _ Hr) as (l & Hl & Hlogs). rewrite <- Hlog in Hl.
  assert (omap yielded l = []) as Hquiet
    by (by destruct Hlogs as [->|[(? & ? & -> & _)|(? & ? & -> & _)]]).
  assert (life (el_swarm el') (O (task_handle cmd)) (take_relay_reservation_request c0).1 true fin0 [])
    as Hlife.
  { eexists _, s0, c0, fin0, [], [], [], [], []. split; [exact Hr|]. split; [by rewrite app_nil_r|].
    split; [done|]. split; [done|]. split; [done|]. split; [done|by rewrite app_nil_r]. }
  split; simpl; try done.
  - intros t Ht. apply Hqd. by right.
  - intros t. rewrite Hact. intros [Hin| ->%list_elem_of_singleton]%elem_of_app; [|by exists fin0].
    destruct (Hac _ Hin) as [fin Hold]. exists fin. by eapply life_quiet.
  - intros loc st r Hcell Hr'.
    destruct (finish_all_result _ _ _ _ _ _ Hcell Hr') as [(st0 & Hl0 & Hr0)|[-> Hin]].
    + eapply result_of_mono; [by exists l|]. by eapply Hce.
    + by eexists _, _, fin0, _.
Qed.

Lemma event_isolated O el el' sh sh' q ev sw o ph ph' n rcv cv cv' cl ca op ch :
  sw_poll (el_swarm el) (Some ev) sw ->
  handle_swarm_event (el_set_swarm sw el) sh ev = Some (el', sh', o) ->
  keys_distinct (el_active el) ->
  isolated O (mkSystem (mkNW ph el sh q n rcv cv) cl ca op ch) ->
  isolated O (mkSystem (mkNW ph' el' sh' q n rcv cv') cl ca op ch).
Proof.
  intros [_ Htr] He Hdist [Hfr Hqd Hac Hce Hca]. simpl in *.
  pose proof (book_log _ _ (handle_swarm_event_book _ _ _ _ _ _ He)) as Hlog. simpl in Hlog.
  rewrite Htr in Hlog. simpl in Hlog.
  assert (tr_le (el_swarm el) (el_swarm el')) as Hle by (by exists [OYield ev]).
  apply handle_swarm_event_inv in He as (active & sh1 & rm & Hch & _ & Ha & Hh). simpl in Hch.
  destruct Hch as (visited & rest & Hp & Hp' & -> & Hrem).
  assert (forall t, t ∈ visited \/ t ∈ rest -> exists fin,
    life (el_swarm el) (O (task_handle t)) (task_handler t) true fin []) as Hold
    by (intros t Ht; apply Hac; rewrite <- Hp; set_solver).
  split; simpl; try done.
  - intros t'. rewrite Ha, Hp'. intros [(t & Ht & Hs)%list_elem_of_omap|Ht]%elem_of_app.
    + destruct (Hold t) as [fin Hl]; [by left|].
      destruct (visit_life _ _ _ _ ev sw _ Hlog Hl) as [Hsv _].
      apply survivor_key in Hs as Hs'. destruct Hs' as [_ ->]. by apply Hsv.
    + destruct (Hold t') as [fin Hl]; [by right|]. exists fin. eapply life_skip; [exact Hlog| |exact Hl].
      change (command_key (task_handler t')) with (task_key t'). exact (chain_spec_missed sw ev _ _ _ rm t' Hp Hdist Hrem Ht).
  - intros loc st r. rewrite Hh. intros Hl Hr.
    destruct (deliver_all_result _ _ _ _ _ _ _ Hl Hr) as [(st0 & Hl0 & Hr0)|(t & Ht & <- & Hin)].
    + eapply result_of_mono; [exact Hle|]. by eapply Hce.
    + destruct (Hold t) as [fin Hl']; [by left|].
      destruct (visit_life _ _ _ _ ev sw _ Hlog Hl') as [_ Hem]. by apply Hem.
Qed.

Lemma loop_step_isolated O w w' cl ca op ch :
  loop_step w w' -> keys_distinct (el_active (nw_loop w)) ->
  isolated O (mkSystem w cl ca op ch) -> isolated O (mkSystem w' cl ca op ch).
Proof.
  intros Hs Hdist Hi.
  destruct Hs as [el sh q n rcv cv|el sh q q' n rcv cv cmd el' sh' Hr Hc| |el sh q n rcv cv ev s el' sh' o Hp He
    |el sh q n rcv cv s Hp|el sh q n rcv cv pr p st| | |].
  - destruct Hi as [Hfr Hqd Hac Hce Hca]. split; simpl in *; try done.
    intros t [_ Ht]%list_elem_of_filter. by apply Hac.
  - by eapply command_isolated.
  - by destruct Hi.
  - by eapply event_isolated.
  - destruct Hi as [Hfr Hqd Hac Hce Hca]. split; simpl in *; try done.
    + intros t Ht. destruct (Hac t Ht) as [fin Hl]. exists fin. destruct Hp as [_ Hlog].
      by eapply life_quiet.
    + intros loc st r Hl Hr. eapply result_of_mono; [by eapply poll_le|]. by eapply Hce.
  - destruct Hi as [Hfr Hqd Hac Hce Hca]. split; simpl in *; try done.
    assert (sh_handles (handle_inbound_channel sh pr p st) = sh_handles sh) as ->; [|done].
    unfold handle_inbound_channel. by repeat case_match.
  - by destruct Hi.
  - by destruct Hi.
  - by destruct Hi.
Qed.

(** Writing a cell with what it held, or with nothing, and ending a call. *)
Lemma cell_isolated O s s' loc st :
  isolated O s ->
  nw_commands (sy_node s') = nw_commands (sy_node s) -> nw_loop (sy_node s') = nw_loop (sy_node s) ->
  sh_handles (nw_shared (sy_node s')) = <[loc := st]> (sh_handles (nw_shared (sy_node s))) ->
  (forall r, rs_result st = Some r ->
     exists st0, sh_handles (nw_shared (sy_node s)) !! loc = Some st0 /\ rs_result st0 = Some r) ->
  (forall l lc, sy_calls s' !! l = Some lc -> sy_calls s !! l = Some lc) ->
  isolated O s'.
Proof.
  intros [Hfr Hqd Hac Hce Hca] Hq Hl Hh Hst Hc. split; rewrite ?Hq, ?Hl; try done.
  - intros l st1 r. rewrite Hh. intros [[<- <-]|[_ Hl1]]%lookup_insert_Some Hr; [|by eapply Hce].
    destruct (Hst r Hr) as (st0 & Hl0 & Hr0). by eapply Hce.
  - intros l lc Hl1. by apply Hca, Hc.
Qed.

(** A new call. *)
Lemma call_begin_isolated O w cl ca op ch loc lc :
  sh_handles (nw_shared w) !! loc = None -> new_call loc lc ->
  calls_ok (mkSystem w cl ca op ch) -> isolated O (mkSystem w cl ca op ch) ->
  exists O', isolated O' (mkSystem (call_begin loc w) cl (<[loc := lc]> ca) op ch).
Proof.
  intros Hno [Hf Hk] Hok [Hfr Hqd Hac Hce Hca]. simpl in *.
  pose proof (proj2 (cells_fresh w loc) Hno) as Hcell.
  assert (forall t, t ∈ node_tasks w -> task_handle t <> loc) as Hne
    by (intros t Ht <-; by apply Hcell, (co_tasks _ Hok)).
  unfold node_tasks in Hne.
  exists (fun l => if decide (l = loc) then lc_command lc else O l). split; simpl.
  - intros l. by case_decide.
  - intros t Ht. rewrite decide_False; [by apply Hqd|]. apply Hne. set_solver.
  - intros t Ht. rewrite decide_False; [by apply Hac|]. apply Hne. set_solver.
  - intros l st r [[<- <-]|[Hl Hl1]]%lookup_insert_Some Hr; [done|].
    rewrite decide_False by done. by eapply Hce.
  - intros l lc' [[<- <-]|[Hl Hl1]]%lookup_insert_Some.
    + rewrite decide_True by done. split; [done|]. rewrite Hf. simpl. by intros c [= <-].
    + rewrite decide_False by done. by apply Hca.
Qed.

Definition isolated_inv (s : System (Traced Sw)) : Prop :=
  calls_ok s /\ system_keys_ok s /\ exists O, isolated O s.

Lemma sys_step_isolated lab s s' : sys_step lab s s' -> isolated_inv s -> isolated_inv s'.
Proof.
  intros Hs (Hok & Hkeys & O & Hi). split; [by eapply sys_step_calls|]. split; [by eapply sys_step_keys|].
  destruct Hkeys as [[[Hdist _] _] _]. pose proof Hi as [Hfr Hqd Hac Hce Hca].
  pose proof (fun loc => co_cells s Hok loc) as Hcells.
  destruct Hs as
    [w w' cl ca op ch Hs| | | | |w cl ca op ch client loc call lc _ Hno Hl
     |w cl ca op ch client loc id response pending fut lc _ Hno Hr Hl|
     |w cl ca op ch loc lc f q Hl Hh' Hsend|w cl ca op ch loc lc st f q r Hl Hst Hsend
     |w cl ca op ch loc lc st waker c q st' Hl Hh' Hst Hp
     |w cl ca op ch loc lc st waker c q st' r Hl Hh' Hst Hp|w cl ca op ch loc lc st Hl Hst
     | | | | | | | | | | |]; simpl in *; try (by exists O; split).
  - exists O. by eapply loop_step_isolated.
  - eapply call_begin_isolated; [done|by eapply call_future_new|done|done].
  - eapply respond_new in Hl; [|exact Hr].
    apply (call_begin_isolated O (nw_upd (sh_set_pending pending) w)); [done|done| |by split].
    by destruct Hok.
  - exists O. apply send_inv in Hsend. destruct (cf_handler (lc_future lc)) as [c|] eqn:Hf; [|by destruct Hh'].
    destruct Hsend as [-> (_ & _ & Hq & _)%ch_try_send_inv]. destruct (Hca _ _ Hl) as [HO Hcmd].
    destruct (Hcells _ _ Hl) as [_ Heq]. split; simpl; try done.
    + intros t. rewrite Hq. intros [Ht| ->%list_elem_of_singleton]%elem_of_app; [by apply Hqd|].
      simpl. by rewrite Heq, HO, (Hcmd c).
    + intros loc' lc' [[<- <-]|[Hne Hl']]%lookup_insert_Some; [|by apply Hca]. by split.
  - exists O. eapply cell_isolated; [exact Hi|done|done|done|by eauto|].
    simpl. by intros l lc' [_ ?]%lookup_delete_Some.
  - exists O. eapply poll_inv in Hp as (-> & -> & Hst' & _); [|done].
    eapply cell_isolated; [exact Hi|done|done|done|by rewrite Hst'|done].
  - exists O. eapply poll_inv in Hp as (-> & -> & Hst' & _); [|done].
    eapply cell_isolated; [exact Hi|done|done|done|by rewrite Hst'|].
    simpl. by intros l lc' [_ ?]%lookup_delete_Some.
  - exists O. eapply cell_isolated; [exact Hi|done|done|done|by eauto|].
    simpl. by intros l lc' [_ ?]%lookup_delete_Some.
Qed.

Lemma system_of_isolated {Ctl} (accept : Ctl -> StreamProtocol -> Ctl * bool) swarm ctl now dc_id config
    (node : Node (Traced Sw) AnyCommand CmdValue) :
  start accept swarm ctl now dc_id config = Ok node -> isolated_inv (system_of node).
Proof.
  intros Hst. split; [by destruct (system_of_typed _ _ _ _ _ _ _ Hst)|].
  split; [by eapply system_of_keys|].
  apply start_inv in Hst as (Ha & Hq & Hsh).
  destruct (ch_new_spec (CommandTask AnyCommand) COMMAND_CHANNEL_SIZE) as (Hnil & _).
  exists (fun _ => AGetListenAddrs mkGetListenAddrs). split; simpl; rewrite ?Ha, ?Hq, ?Hsh, ?Hnil; try done;
    by intros t ?%elem_of_nil.
Qed.

Lemma sys_run_isolated (s s' : System (Traced Sw)) : sys_run s s' -> isolated_inv s -> isolated_inv s'.
Proof.
  intros Hr Hi. eapply (rtc_invariant _ isolated_inv); [|exact Hr|exact Hi].
  intros a b [lab Hs]. by eapply sys_step_isolated.
Qed.

(** What a step returns. *)
Lemma returned_result loc r s s' lc :
  sys_step (Returned loc r) s s' -> isolated_inv s -> sy_calls s !! loc = Some lc ->
  (r = Err channel_closed_error /\ is_Some (cf_handler (lc_future lc)))
  \/ (r = Err (E_Network Timeout) /\ is_Some (rc_deadline (lc_call lc)))
  \/ result_of (el_swarm (nw_loop (sy_node s))) (lc_command lc) r.
Proof.
  intros Hs (_ & _ & O & [_ _ _ Hce Hca]) Hl. inversion Hs as
    [| | | | | | | | |w cl ca op ch l lc0 st f q r0 Hl0 Hst Hsend|
     |w cl ca op ch l lc0 st waker c q st' r0 Hl0 Hh0 Hst Hp| | | | | | | | | | | |]; subst; simpl in *;
    assert (lc0 = lc) as -> by congruence.
  - left. apply send_inv in Hsend. destruct (cf_handler _); [|by destruct Hsend as (_ & _ & ?)].
    by destruct Hsend as (_ & _ & ->).
  - right. eapply poll_inv in Hp as (_ & _ & _ & Hp); [|done].
    destruct (Hca _ _ Hl) as [<- _]. destruct r as [v|e]; [right; by eapply Hce|].
    destruct Hp as [Hr|[-> ?]]; [right; by eapply Hce|by left].
Qed.

(** What a call of a started node returns. *)
Lemma call_result {Ctl} (accept : Ctl -> StreamProtocol -> Ctl * bool) swarm ctl now dc_id config
    (node : Node (Traced Sw) AnyCommand CmdValue) (s s' : System (Traced Sw)) loc r lc :
  start accept swarm ctl now dc_id config = Ok node -> sys_run (system_of node) s ->
  sys_step (Returned loc r) s s' -> sy_calls s !! loc = Some lc ->
  (r = Err channel_closed_error \/ (r = Err (E_Network Timeout) /\ is_Some (rc_deadline (lc_call lc))))
  \/ result_of (el_swarm (nw_loop (sy_node s))) (lc_command lc) r.
Proof.
  intros Hst Hr Hs Hl.
  destruct (returned_result _ _ _ _ _ Hs (sys_run_isolated _ _ Hr (system_of_isolated _ _ _ _ _ _ _ Hst)) Hl)
    as [[-> _]|[?|?]]; auto.
Qed.

End lemmas.

(** ** A request on its own *)

Section request.
Context `{N : NetTypes} {Sw : Type} `{!SwarmOps Sw, !HashOrder}.

(** A request that has been sent only looks at its own two events, and stays
    as it is. *)
Lemma request_on_event p rid ev (s s' : Traced Sw) c' k rem f :
  on_event (ASendRequest (mkSendRequest p None (Some rid))) ev s = Some (c', (k, rem), s', f) ->
  c' = ASendRequest (mkSendRequest p None (Some rid))
  /\ forall r, r ∈ f ->
       (exists resp, ev = Behaviour (CBE_ReqResp (RR_Response p rid resp)) /\ r = Ok (VResp resp))
       \/ (exists e, ev = Behaviour (CBE_ReqResp (RR_OutboundFailure p rid e))
             /\ r = Err (map_outbound_failure e)).
Proof.
  simpl. unfold on_event_boxed_as, H_map, fmap, H_fmap. simpl. unfold SendRequestCommand_on_event. run_H.
  destruct ev as [[| | |[|p' i r|p' i e|]| | | | | |]| | | | | | | |]; simpl;
    try (intros; simplify_eq/=; split; [done|]; by intros ? ?%elem_of_nil).
  - case_decide as Hd; simpl; intros; simplify_eq/=; (split; [done|]); [|by intros ? ?%elem_of_nil].
    destruct Hd as [[= ->] ->]. intros r' ->%list_elem_of_singleton. left. by exists r.
  - case_decide as Hd; simpl; intros; simplify_eq/=; (split; [done|]); [|by intros ? ?%elem_of_nil].
    destruct Hd as [[= ->] ->]. intros r' ->%list_elem_of_singleton. right. by exists e.
Qed.

Lemma request_life (T : Traced Sw) p req r :
  result_of T (ASendRequest (SendRequestCommand_new p req)) r ->
  exists rid, OAlloc (ISendRequest p req) (KRequest rid) ∈ tr_log T
    /\ ((exists resp, Behaviour (CBE_ReqResp (RR_Response p rid resp)) ∈ tr_events T /\ r = Ok (VResp resp))
        \/ (exists e, Behaviour (CBE_ReqResp (RR_OutboundFailure p rid e)) ∈ tr_events T
              /\ r = Err (map_outbound_failure e))).
Proof.
  intros (c' & alive & fin & unseen & (s & s1 & c1 & fin0 & later & seen & evs & rems & fin1
    & Hr & HT & Hy & Hsub & _ & Hf & ->) & Hin).
  simpl in Hr. unfold run_boxed_as, H_map, fmap, H_fmap in Hr. simpl in Hr. revert Hr.
  unfold SendRequestCommand_run. run_H. intros. simplify_eq/=.
  set (rid := (rr_send_request (tr_swarm s) p req).2) in *.
  eapply feed_result with (P := fun c => c = ASendRequest (mkSendRequest p None (Some rid))) in Hf
    as (c0 & ev & c2 & k & rem & f & -> & Hev & He & Hrf); [| | |done|done].
  - exists rid. split; [rewrite HT; simpl; set_solver|].
    destruct (request_on_event _ _ _ _ _ _ _ _ _ He) as [_ Hres].
    assert (ev ∈ tr_events T) as Hh.
    { unfold tr_events. rewrite HT, omap_app, Hy, !elem_of_app. right. left.
      eapply elem_of_submseteq; [exact Hev|by apply sublist_submseteq]. }
    destruct (Hres _ Hrf) as [(resp & -> & ->)|(e & -> & ->)]; [left|right]; eauto.
  - apply answers_everywhere.
  - intros c ev s0 c2 k -> (rm & f & He). eapply request_on_event; exact He.
Qed.

End request.

(** ** Properties *)

(** C15. Calls do not interfere: in every state a started node and its clients
    reach, under every interleaving of commands, events, polls and drops, what a
    call returns is the error of a command that could not be queued, the timeout
    of a call with a deadline, or a result that its own command emitted in a
    life of its own: run once and fed, alone, in their order, some of the events
    the swarm has yielded since, among them every one with its identifier. *)
Theorem calls_are_isolated `{N : NetTypes} {Sw}
    `{!SwarmOps Sw, !SwarmPoll Sw, !HashOrder, !Mpsc, !MpscLaws, !SwarmIds Sw, !SwarmIdLaws Sw}
    {Ctl} (accept : Ctl -> StreamProtocol -> Ctl * bool) (swarm : Traced Sw) (ctl : Ctl)
    (now dc_id : Z) (config : NodeConfig) (node : Node (Traced Sw) AnyCommand CmdValue)
    (s s' : System (Traced Sw)) (loc : nat) (r : CResult CmdValue) (lc : LiveCall) :
  start accept swarm ctl now dc_id config = Ok node -> sys_run (system_of node) s ->
  sys_step (Returned loc r) s s' -> sy_calls s !! loc = Some lc ->
  (r = Err channel_closed_error /\ is_Some (cf_handler (lc_future lc)))
  \/ (r = Err (E_Network Timeout) /\ is_Some (rc_deadline (lc_call lc)))
  \/ exists c' alive fin unseen,
       life (el_swarm (nw_loop (sy_node s))) (lc_command lc) c' alive fin unseen /\ r ∈ fin.
Proof.
  intros Hst Hr Hs Hl. eapply returned_result; [exact Hs| |exact Hl].
  eapply sys_run_isolated; [exact Hr|by eapply system_of_isolated].
Qed.

(** C16. A response is never given to the wrong caller: what a [send_request]
    call to [p] returns is a response that the swarm reported for [p] under an
    identifier that it had given out for this very peer and request,
    or the normalised failure reported for it, or the local errors of a full or
    closed command queue and of the call's deadline. *)
Theorem responses_match_requests `{N : NetTypes} {Sw}
    `{!SwarmOps Sw, !SwarmPoll Sw, !HashOrder, !Mpsc, !MpscLaws, !SwarmIds Sw, !SwarmIdLaws Sw}
    {Ctl} (accept : Ctl -> StreamProtocol -> Ctl * bool) (swarm : Traced Sw) (ctl : Ctl)
    (now dc_id : Z) (config : NodeConfig) (node : Node (Traced Sw) AnyCommand CmdValue)
    (s s' : System (Traced Sw)) (loc : nat) (r : CResult CmdValue) (lc : LiveCall)
    (p : PeerId) (request : Req) :
  start accept swarm ctl now dc_id config = Ok node -> sys_run (system_of node) s ->
  sys_step (Returned loc r) s s' -> sy_calls s !! loc = Some lc ->
  lc_command lc = ASendRequest (SendRequestCommand_new p request) ->
  let reported ev := Behaviour (CBE_ReqResp ev) ∈ tr_events (el_swarm (nw_loop (sy_node s))) in
  r = Err channel_closed_error
  \/ (r = Err (E_Network Timeout) /\ is_Some (rc_deadline (lc_call lc)))
  \/ exists rid,
       OAlloc (ISendRequest p request) (KRequest rid) ∈ tr_log (el_swarm (nw_loop (sy_node s)))
       /\ ((exists resp, reported (RR_Response p rid resp) /\ r = Ok (VResp resp))
           \/ (exists e, reported (RR_OutboundFailure p rid e) /\ r = Err (map_outbound_failure e))).
Proof.
  intros Hst Hr Hs Hl Hc reported.
  destruct (call_result _ _ _ _ _ _ _ _ _ _ _ _ Hst Hr Hs Hl) as [[->|?]|Hres];
    [by left|by right; left|right; right].
  rewrite Hc in Hres. by eapply request_life.
Qed.
