(* ===== verification/Answers.v ===== *)
(** * What query calls return

    The theorems of [KadQueries] describe a query command on its own.  Here they
    are carried over to the calls of clients in the running node: a query call
    returns exactly the answer computed from the progress events the swarm has
    yielded for the identifier it gave out for this call, up to the event that
    ends the query; none of them is missed and no other event counts. *)
From S2P Require Import Prelude Externals Errors DataChannel PendingMap Config Handle Handler.
From S2P Require Import BasicCommands KadCommands KadQueries ReqRespCommands Commands.
From S2P Require Import EventLoop EventChain CommandChain SwarmIds LoopFrame Trace Client Node System Calls.
From S2P Require Import Isolation.

(** ** The progress of a query *)

Section progress.
Context `{N : NetTypes}.

(** One step of the query [q], for the result type that [sel] selects. *)
Definition progress_of {B} (sel : QueryResult -> option B) (q : QueryId) (ev : SwarmEvent) :
    option (B * QueryStats * bool) :=
  match ev with
  | Behaviour (CBE_Kad (OutboundQueryProgressed id res st step_last)) =>
      if decide (id = q) then (fun b => (b, st, step_last)) <$> sel res else None
  | _ => None
  end.

Definition sel_bootstrap (r : QueryResult) := match r with QR_Bootstrap r => Some r | _ => None end.
Definition sel_closest (r : QueryResult) := match r with QR_GetClosestPeers r => Some r | _ => None end.
Definition sel_providers (r : QueryResult) := match r with QR_GetProviders r => Some r | _ => None end.
Definition sel_record (r : QueryResult) := match r with QR_GetRecord r => Some r | _ => None end.
Definition sel_put (r : QueryResult) := match r with QR_PutRecord r => Some r | _ => None end.
Definition sel_provide (r : QueryResult) := match r with QR_StartProviding r => Some r | _ => None end.

(** [steps] is the whole progress, until [T], of the query that [call] started
    under the identifier [q]. *)
Definition progress_since {S B} (sel : QueryResult -> option B) (call : IdCall) (T : Traced S)
    (q : QueryId) (steps : list (B * QueryStats * bool)) : Prop :=
  exists before after,
    tr_log T = before ++ OAlloc call (KQuery q) :: after
    /\ omap (progress_of sel q) (omap yielded after) = steps.

(** A step that is not the last one. *)
Definition ongoing {A} (x : A) : A * bool := (x, false).

(** A successful one. *)
Definition going {A E} (x : A * QueryStats) : Result A E * QueryStats * bool := ongoing (Ok x.1, x.2).

(** A call that fails on the client's side. *)
Definition local_failure (lc : LiveCall) (r : CResult CmdValue) : Prop :=
  r = Err channel_closed_error \/ (r = Err (E_Network Timeout) /\ is_Some (rc_deadline (lc_call lc))).

Lemma progress_own {B} (sel : QueryResult -> option B) q ev a :
  progress_of sel q ev = Some a -> own (KQuery q) ev.
Proof.
  unfold progress_of. destruct ev as [[| |[id res st l| |]| | | | | | |]| | | | | | | |]; try done.
  case_decide; [by subst|done].
Qed.

Lemma omap_step {A} (f : SwarmEvent -> option A) ev (l : list SwarmEvent) :
  omap f (ev :: l) = match f ev with Some a => a :: omap f l | None => omap f l end.
Proof. done. Qed.

Lemma omap_own {A} (f : SwarmEvent -> option A) k (l : list SwarmEvent) :
  (forall ev a, f ev = Some a -> own k ev) -> omap f l = omap f (filter (own k) l).
Proof.
  intros Hf.   induction l as [|ev l IH]; [done|]. rewrite filter_cons, omap_step. destruct (f ev) as [a|] eqn:He.
  - rewrite decide_True by (by eapply Hf). by rewrite omap_step, He, IH.
  - case_decide; by rewrite ?omap_step, ?He, IH.
Qed.

End progress.

(** ** The two parts of a life *)

Section tail.
Context `{N : NetTypes} {Sw : Type} `{!SwarmOps Sw, !HashOrder}.

(** [c1], as [run] left it, answers [r] to what was yielded from then on. *)
Definition tail (c1 : AnyCommand) (later : list Observation) (r : CResult CmdValue) : Prop :=
  exists (s1 : Traced Sw) seen unseen evs c' alive rems fin1,
    omap yielded later = seen ++ unseen
    /\ (forall k, command_key c' = Some k -> filter (own k) evs = filter (own k) seen)
    /\ feed (take_relay_reservation_request c1).1 evs s1 = Some (c', alive, rems, s1, fin1) /\ r ∈ fin1.

Lemma result_inv (T : Traced Sw) c r :
  result_of T c r ->
  exists (s s1 : Traced Sw) c1 fin0 later, run c s = Some (c1, s1, fin0)
    /\ tr_log T = tr_log s1 ++ later /\ (r ∈ fin0 \/ tail c1 later r).
Proof.
  intros (c' & alive & fin & unseen & (s & s1 & c1 & fin0 & later & seen & evs & rems & fin1
    & Hr & HT & Hy & Hsub & Hk & Hf & ->) & Hin).
  exists s, s1, c1, fin0, later. split; [done|]. split; [done|].
  apply elem_of_app in Hin as [Hin|Hin]; [by left|right].
  by exists s1, seen, unseen, evs, c', alive, rems, fin1.
Qed.

(** A command that ignores every event answers nothing more. *)
Lemma deaf_tail c1 later r :
  (forall ev (s : Traced Sw), on_event c1 ev s = Some (c1, (true, Some ev), s, [])) ->
  (take_relay_reservation_request c1).1 = c1 -> tail c1 later r -> False.
Proof.
  intros Hd Hc1 (s1 & seen & unseen & evs & c' & alive & rems & fin1 & _ & _ & Hf & Hin).
  rewrite Hc1 in Hf. clear Hc1. revert rems fin1 Hf Hin. induction evs as [|ev evs IH]; intros rems fin1 Hf Hin.
  { simpl in Hf. unfold mret, H_ret in Hf. simplify_eq. by apply elem_of_nil in Hin. }
  rewrite (feed_cons _ _ _ _ _ _ _ _ (Hd ev s1)) in Hf.
  destruct (feed c1 evs s1) as [[[[[c2 al] rm] s2] f2]|]; [|done]. simplify_eq. by eapply IH.
Qed.

End tail.

(** ** A command as a machine on its steps *)

Section machine.
Context `{N : NetTypes} {Sw : Type} `{!SwarmOps Sw, !HashOrder}.
Context {X A : Type} (wrap : X -> AnyCommand) (step_of : SwarmEvent -> option A).
Context (adv : X -> A -> X) (answer : X -> A -> option (CResult CmdValue)) (P : X -> Prop).

(** Each of its steps either advances the command or ends it with an answer. *)
Definition machine : Prop := forall x ev (s : Traced Sw), P x ->
  match step_of ev with
  | None => on_event (wrap x) ev s = Some (wrap x, (true, Some ev), s, [])
  | Some a =>
      match answer x a with
      | None => on_event (wrap x) ev s = Some (wrap (adv x a), (true, None), s, []) /\ P (adv x a)
      | Some r => exists c', on_event (wrap x) ev s = Some (c', (false, None), s, [r])
      end
  end.

Fixpoint goes_on (x : X) (l : list A) : Prop :=
  match l with
  | [] => True
  | a :: l => answer x a = None /\ goes_on (adv x a) l
  end.

Lemma machine_feed evs x (s : Traced Sw) c' alive rems fin r :
  machine -> P x -> feed (wrap x) evs s = Some (c', alive, rems, s, fin) -> r ∈ fin ->
  exists l1 a l2, omap step_of evs = l1 ++ a :: l2 /\ goes_on x l1
    /\ answer (foldl adv x l1) a = Some r.
Proof.
  intros Hm. revert x rems fin. induction evs as [|ev evs IH]; intros x rems fin Hx Hf Hr.
  { simpl in Hf. unfold mret, H_ret in Hf. simplify_eq. by apply elem_of_nil in Hr. }
  specialize (Hm x ev s Hx). rewrite omap_step. destruct (step_of ev) as [a|] eqn:Hs.
  - destruct (answer x a) as [r0|] eqn:Ha.
    + destruct Hm as [c0 He]. rewrite (feed_cons _ _ _ _ _ _ _ _ He) in Hf. simplify_eq.
      apply list_elem_of_singleton in Hr as ->. by exists [], a, (omap step_of evs).
    + destruct Hm as [He Hx']. rewrite (feed_cons _ _ _ _ _ _ _ _ He) in Hf.
      destruct (feed (wrap (adv x a)) evs s) as [[[[[c2 al] rm] s2] f2]|] eqn:Hf2; [|done]. simplify_eq.
      destruct (IH _ _ _ Hx' Hf2 Hr) as (l1 & b & l2 & -> & Hg & Hb).
      by exists (a :: l1), b, l2.
  - rewrite (feed_cons _ _ _ _ _ _ _ _ Hm) in Hf.
    destruct (feed (wrap x) evs s) as [[[[[c2 al] rm] s2] f2]|] eqn:Hf2; [|done]. simplify_eq.
    by eapply IH.
Qed.

(** The answer to the complete progress. *)
Lemma machine_tail c1 later r k x :
  machine -> (forall ev a, step_of ev = Some a -> own k ev) -> tail (Sw := Sw) c1 later r ->
  P x -> (take_relay_reservation_request c1).1 = wrap x -> command_key (wrap x) = Some k ->
  exists l1 a l2, omap step_of (omap yielded later) = l1 ++ a :: l2 /\ goes_on x l1
    /\ answer (foldl adv x l1) a = Some r.
Proof.
  intros Hm Hown (s1 & seen & unseen & evs & c' & alive & rems & fin1 & Hy & Hk & Hf & Hin) Hx Hc1 Hkey.
  rewrite Hc1 in Hf. pose proof (feed_key _ _ _ _ _ _ _ Hf) as Hkey'. rewrite Hkey in Hkey'.
  destruct (machine_feed _ _ _ _ _ _ _ _ Hm Hx Hf Hin) as (l1 & a & l2 & Hl & Hg & Ha).
  exists l1, a, (l2 ++ omap step_of unseen). split; [|done].
  rewrite Hy, omap_app, (omap_own step_of k seen Hown), <- (Hk k Hkey'), <- (omap_own step_of k evs Hown), Hl.
  by rewrite <- app_assoc.
Qed.

(** The steps before the end, when only the last step, or an error, ends it. *)
Lemma goes_on_steps {B} (pack : B -> A) (adv' : X -> B -> X) x l :
  (forall x a, answer x a = None -> exists b, a = pack b) -> (forall x b, adv x (pack b) = adv' x b) ->
  goes_on x l -> exists steps, l = pack <$> steps /\ foldl adv x l = foldl adv' x steps.
Proof.
  intros Ha Hadv. revert x. induction l as [|a l IH]; intros x; simpl; [by exists []|].
  intros [Hx Hg]. destruct (IH _ Hg) as (steps & -> & Hf). destruct (Ha _ _ Hx) as [b ->].
  exists (b :: steps). simpl. by rewrite Hf, Hadv.
Qed.

End machine.

(** ** The six queries *)

Section queries.
Context `{N : NetTypes} {Sw : Type} `{!SwarmOps Sw, !HashOrder}.

Definition stats_total (o : option QueryStats) (st : QueryStats) : QueryStats :=
  match o with Some s => qs_merge s st | None => st end.

Lemma stats_total_fold sts st : stats_total (foldl merge_stats None sts) st = total_stats sts st.
Proof.
  pose proof (merge_stats_fold sts st) as Hm. unfold merge_stats in Hm at 1. by injection Hm.
Qed.

(** The answer a step gives, if it ends the query. *)
Definition record_answer (x : GetRecordCommand) (a : Result GetRecordOk KadError * QueryStats * bool) :
    option (CResult CmdValue) :=
  let '(res, st, step_last) := a in
  if step_last then
    Some (result_map VRecord
      match match gr_record x with Some r => Some r | None => record_found res end, res with
      | Some record, _ => Ok (mkRecordResult record (QueryStatsInfo_from (stats_total (gr_stats x) st)))
      | None, Err e => Err (kad_err "GetRecord" e)
      | None, Ok _ => Err (E_Kad "Record not found")
      end)
  else None.

Definition providers_answer (x : GetProvidersCommand) (a : Result GetProvidersOk KadError * QueryStats * bool) :
    option (CResult CmdValue) :=
  match a with
  | (Err e, _, _) => Some (Err (kad_err "GetProviders" e))
  | (Ok ok, st, true) =>
      Some (Ok (VProviders (mkProvidersResult (gp_providers x ++ providers_found ok)
                              (QueryStatsInfo_from (stats_total (gp_stats x) st)))))
  | _ => None
  end.

Definition closest_answer (x : GetClosestPeersCommand) (a : Result (list PeerId) KadError * QueryStats * bool) :
    option (CResult CmdValue) :=
  match a with
  | (Err e, _, _) => Some (Err (kad_err "GetClosestPeers" e))
  | (Ok ps, st, true) =>
      Some (Ok (VClosest (mkClosestResult (gc_peers x ++ ps)
                            (QueryStatsInfo_from (stats_total (gc_stats x) st)))))
  | _ => None
  end.

Definition bootstrap_answer (x : BootstrapCommand) (a : Result (PeerId * Z) KadError * QueryStats * bool) :
    option (CResult CmdValue) :=
  match a with
  | (Err e, _, _) => Some (Err (kad_err "Bootstrap" e))
  | (Ok (_, n), st, true) =>
      Some (Ok (VBootstrap (mkBootstrapResult n (QueryStatsInfo_from (stats_total (bs_stats x) st)))))
  | _ => None
  end.

Definition publish_answer (what : string) (o : option QueryStats) (a : Result unit KadError * QueryStats * bool) :
    option (CResult CmdValue) :=
  let '(res, st, step_last) := a in
  if step_last then
    Some match res with
         | Ok _ => Ok (VStats (QueryStatsInfo_from (stats_total o st)))
         | Err e => Err (kad_err what e)
         end
  else None.

(** Leave the case of an event of this kind of query and of this query. *)
Ltac own_step x ev Hx :=
  simpl; unfold on_event_boxed_as, H_map, fmap, H_fmap; simpl;
  unfold BootstrapCommand_on_event, GetClosestPeersCommand_on_event, GetProvidersCommand_on_event,
    GetRecordCommand_on_event, PutRecordCommand_on_event, StartProvideCommand_on_event,
    GetRecordCommand_conclude; run_H;
  destruct ev as [[| |[id [r|r|r|r|r|r|] st l| |]| | | | | | |]| | | | | | | |]; simpl; try done;
  try (by case_decide);
  rewrite Hx; destruct (decide (id = _)) as [->|Hne];
  [rewrite decide_True by done; simpl; destruct x; simplify_eq/=
  |by rewrite (decide_False (P := Some _ = Some _)) by congruence].

Ltac end_step := simpl; first [by eexists|done].

Lemma record_machine q :
  machine (Sw := Sw) AGetRecord (progress_of sel_record q) (fun x a => gr_adv x a.1) record_answer
    (fun x => gr_query_id x = Some q).
Proof. intros x ev s Hx. own_step x ev Hx. destruct l, r as [[]|], gr_record, gr_stats; end_step. Qed.

Lemma providers_machine q :
  machine (Sw := Sw) AGetProviders (progress_of sel_providers q)
    (fun x a => match a with (Ok ok, st, _) => gp_adv x (ok, st) | _ => x end) providers_answer
    (fun x => gp_query_id x = Some q).
Proof.
  intros x ev s Hx. own_step x ev Hx. unfold gp_adv.
  destruct l, r as [[]|], gp_stats; simpl; rewrite ?app_nil_r; end_step.
Qed.

Lemma closest_machine q :
  machine (Sw := Sw) AGetClosestPeers (progress_of sel_closest q)
    (fun x a => match a with (Ok ok, st, _) => gc_adv x (ok, st) | _ => x end) closest_answer
    (fun x => gc_query_id x = Some q).
Proof. intros x ev s Hx. own_step x ev Hx. destruct l, r, gc_stats; end_step. Qed.

Lemma bootstrap_machine q :
  machine (Sw := Sw) ABootstrap (progress_of sel_bootstrap q)
    (fun x a => match a with (Ok ok, st, _) => bs_adv x (ok, st) | _ => x end) bootstrap_answer
    (fun x => bs_query_id x = Some q).
Proof. intros x ev s Hx. own_step x ev Hx. destruct l, r as [[]|], bs_stats; end_step. Qed.

Lemma put_machine q :
  machine (Sw := Sw) APutRecord (progress_of sel_put q) (fun x a => pr_adv x a.1)
    (fun x => publish_answer "PutRecord" (pr_stats x)) (fun x => pr_query_id x = Some q).
Proof. intros x ev s Hx. own_step x ev Hx. destruct l, r, pr_stats; end_step. Qed.

Lemma provide_machine q :
  machine (Sw := Sw) AStartProvide (progress_of sel_provide q) (fun x a => sp_adv x a.1)
    (fun x => publish_answer "Provide" (sp_stats x)) (fun x => sp_query_id x = Some q).
Proof. intros x ev s Hx. own_step x ev Hx. destruct l, r, sp_stats; end_step. Qed.

(** Each of them, from its call on. *)
Ltac open_result Hres := apply result_inv in Hres as (s & s1 & c1 & fin0 & later & Hr & HT & Hin);
  simpl in Hr; unfold run_boxed_as, H_map, fmap, H_fmap in Hr; simpl in Hr; revert Hr;
  unfold BootstrapCommand_run, GetClosestPeersCommand_run, GetProvidersCommand_run, GetRecordCommand_run,
    PutRecordCommand_run, StartProvideCommand_run; run_H.

(** A command whose query could not be started. *)
Ltac unasked ev :=
  simpl; unfold on_event_boxed_as, H_map, fmap, H_fmap; simpl;
  unfold BootstrapCommand_on_event, PutRecordCommand_on_event, StartProvideCommand_on_event; run_H;
  destruct ev as [[| |[id [r0|r0|r0|r0|r0|r0|] st l| |]| | | | | | |]| | | | | | | |]; simpl; try done;
  by case_decide.

Lemma get_record_result (T : Traced Sw) key r :
  result_of T (AGetRecord (GetRecordCommand_new key)) r ->
  exists q steps res st extra,
    progress_since sel_record (IGetRecord key) T q ((ongoing <$> steps) ++ (res, st, true) :: extra)
    /\ r = result_map VRecord (get_record_answer steps.*1 res (total_stats steps.*2 st)).
Proof.
  intros Hres. open_result Hres. intros. simplify_eq/=. destruct Hin as [Hin|Hin]; [by apply elem_of_nil in Hin|].
  set (q := (kad_get_record (tr_swarm s) key).2) in *.
  eapply (machine_tail _ _ _ _ _ _ _ _ (KQuery q) (mkGetRecord key (Some q) None None) (record_machine q)) in Hin
    as (l1 & a & l2 & Hl & Hg & Ha); [|by apply progress_own|done..].
  apply (goes_on_steps _ _ ongoing gr_adv) in Hg as (steps & -> & Hf);
    [|by intros x [[res st] []]; [|eexists]|done].
  rewrite Hf, gr_fold in Ha. destruct a as [[res st] []]; [|done].
  exists q, steps, res, st, l2. split.
  - eexists _, later. split; [by rewrite HT, <- app_assoc|exact Hl].
  - injection Ha as <-. simpl. rewrite stats_total_fold. unfold get_record_answer.
    rewrite omap_app, head_app. by destruct (head _), res as [[]|].
Qed.

Lemma get_providers_result (T : Traced Sw) key r :
  result_of T (AGetProviders (GetProvidersCommand_new key)) r ->
  exists q steps res st is_last extra,
    progress_since sel_providers (IGetProviders key) T q ((going <$> steps) ++ (res, st, is_last) :: extra)
    /\ r = match res with
           | Ok ok => Ok (VProviders (mkProvidersResult ((steps.*1 ++ [ok]) ≫= providers_found)
                                        (QueryStatsInfo_from (total_stats steps.*2 st))))
           | Err e => Err (kad_err "GetProviders" e)
           end
    /\ (is_ok res = true -> is_last = true).
Proof.
  intros Hres. open_result Hres. intros. simplify_eq/=. destruct Hin as [Hin|Hin]; [by apply elem_of_nil in Hin|].
  set (q := (kad_get_providers (tr_swarm s) key).2) in *.
  eapply (machine_tail _ _ _ _ _ _ _ _ (KQuery q) (mkGetProviders key (Some q) [] None) (providers_machine q))
    in Hin as (l1 & a & l2 & Hl & Hg & Ha); [|by apply progress_own|done..].
  apply (goes_on_steps _ _ going gp_adv) in Hg as (steps & -> & Hf);
    [|by intros x [[[ok|e] st] []]; [|by exists (ok, st)|..]|done].
  rewrite Hf, gp_fold in Ha. destruct a as [[res st] is_last].
  exists q, steps, res, st, is_last, l2. split.
  { eexists _, later. split; [by rewrite HT, <- app_assoc|exact Hl]. }
  destruct res as [ok|e], is_last; simplify_eq/=; (split; [|done]); try done.
  rewrite stats_total_fold, bind_app. simpl. by rewrite app_nil_r.
Qed.

Lemma get_closest_result (T : Traced Sw) key r :
  result_of T (AGetClosestPeers (GetClosestPeersCommand_new key)) r ->
  exists q steps res st is_last extra,
    progress_since sel_closest (IGetClosestPeers key) T q ((going <$> steps) ++ (res, st, is_last) :: extra)
    /\ r = match res with
           | Ok ps => Ok (VClosest (mkClosestResult (concat steps.*1 ++ ps)
                                      (QueryStatsInfo_from (total_stats steps.*2 st))))
           | Err e => Err (kad_err "GetClosestPeers" e)
           end
    /\ (is_ok res = true -> is_last = true).
Proof.
  intros Hres. open_result Hres. intros. simplify_eq/=. destruct Hin as [Hin|Hin]; [by apply elem_of_nil in Hin|].
  set (q := (kad_get_closest_peers (tr_swarm s) key).2) in *.
  eapply (machine_tail _ _ _ _ _ _ _ _ (KQuery q) (mkGetClosestPeers key (Some q) [] None) (closest_machine q))
    in Hin as (l1 & a & l2 & Hl & Hg & Ha); [|by apply progress_own|done..].
  apply (goes_on_steps _ _ going gc_adv) in Hg as (steps & -> & Hf);
    [|by intros x [[[ps|e] st] []]; [|by exists (ps, st)|..]|done].
  rewrite Hf, gc_fold in Ha. destruct a as [[res st] is_last].
  exists q, steps, res, st, is_last, l2. split.
  { eexists _, later. split; [by rewrite HT, <- app_assoc|exact Hl]. }
  destruct res as [ps|e], is_last; simplify_eq/=; (split; [|done]); try done.
  by rewrite stats_total_fold.
Qed.

Lemma bootstrap_result (T : Traced Sw) r :
  result_of T (ABootstrap BootstrapCommand_new) r ->
  r = Err (E_Kad "Bootstrap failed: no known peers")
  \/ exists q steps res st is_last extra,
    progress_since sel_bootstrap IBootstrap T q ((going <$> steps) ++ (res, st, is_last) :: extra)
    /\ r = match res with
           | Ok (_, n) => Ok (VBootstrap (mkBootstrapResult n (QueryStatsInfo_from (total_stats steps.*2 st))))
           | Err e => Err (kad_err "Bootstrap" e)
           end
    /\ (is_ok res = true -> is_last = true).
Proof.
  intros Hres. open_result Hres. destruct (kad_bootstrap (tr_swarm s)) as [s' [q|[]]]; intros; simplify_eq/=;
    destruct Hin as [Hin|Hin]; try (by apply elem_of_nil in Hin).
  - right.
    eapply (machine_tail _ _ _ _ _ _ _ _ (KQuery q) (mkBootstrap (Some q) None) (bootstrap_machine q))
      in Hin as (l1 & a & l2 & Hl & Hg & Ha); [|by apply progress_own|done..].
    apply (goes_on_steps _ _ going bs_adv) in Hg as (steps & -> & Hf);
      [|by intros x [[[[p n]|e] st] []]; [|by exists ((p, n), st)|..]|done].
    rewrite Hf, bs_fold in Ha. destruct a as [[res st] is_last].
    exists q, steps, res, st, is_last, l2. split.
    { eexists _, later. split; [by rewrite HT, <- app_assoc|exact Hl]. }
    destruct res as [[p n]|e], is_last; simplify_eq/=; (split; [|done]); try done.
    by rewrite stats_total_fold.
  - left. by apply list_elem_of_singleton in Hin.
  - exfalso. eapply deaf_tail in Hin; [done|intros ev s0; unasked ev|done].
Qed.

Lemma put_record_result (T : Traced Sw) record r :
  result_of T (APutRecord (PutRecordCommand_new record)) r ->
  (exists e, r = Err (E_Kad ("PutRecord store: " +:+ store_error_display e)))
  \/ exists q steps res st extra,
    progress_since sel_put (IPutRecord record) T q ((ongoing <$> steps) ++ (res, st, true) :: extra)
    /\ r = match res with
           | Ok _ => Ok (VStats (QueryStatsInfo_from (total_stats steps.*2 st)))
           | Err e => Err (kad_err "PutRecord" e)
           end.
Proof.
  intros Hres. open_result Hres. destruct (kad_put_record (tr_swarm s) record) as [s' [q|e]];
    intros; simplify_eq/=; destruct Hin as [Hin|Hin]; try (by apply elem_of_nil in Hin).
  - right.
    eapply (machine_tail _ _ _ _ _ _ _ _ (KQuery q) (mkPutRecord record (Some q) None) (put_machine q))
      in Hin as (l1 & a & l2 & Hl & Hg & Ha); [|by apply progress_own|done..].
    apply (goes_on_steps _ _ ongoing pr_adv) in Hg as (steps & -> & Hf);
      [|by intros x [[res st] []]; [|eexists]|done].
    rewrite Hf, pr_fold in Ha. destruct a as [[res st] []]; simplify_eq/=.
    exists q, steps, res, st, l2. split; [eexists _, later; split; [by rewrite HT, <- app_assoc|exact Hl]|].
    by rewrite stats_total_fold.
  - left. apply list_elem_of_singleton in Hin as ->. by exists e.
  - exfalso. eapply deaf_tail in Hin; [done|intros ev s0; unasked ev|done].
Qed.

Lemma start_provide_result (T : Traced Sw) key r :
  result_of T (AStartProvide (StartProvideCommand_new key)) r ->
  (exists e, r = Err (E_Kad ("StartProviding store: " +:+ store_error_display e)))
  \/ exists q steps res st extra,
    progress_since sel_provide (IStartProviding key) T q ((ongoing <$> steps) ++ (res, st, true) :: extra)
    /\ r = match res with
           | Ok _ => Ok (VStats (QueryStatsInfo_from (total_stats steps.*2 st)))
           | Err e => Err (kad_err "Provide" e)
           end.
Proof.
  intros Hres. open_result Hres. destruct (kad_start_providing (tr_swarm s) key) as [s' [q|e]];
    intros; simplify_eq/=; destruct Hin as [Hin|Hin]; try (by apply elem_of_nil in Hin).
  - right.
    eapply (machine_tail _ _ _ _ _ _ _ _ (KQuery q) (mkStartProvide key (Some q) None) (provide_machine q))
      in Hin as (l1 & a & l2 & Hl & Hg & Ha); [|by apply progress_own|done..].
    apply (goes_on_steps _ _ ongoing sp_adv) in Hg as (steps & -> & Hf);
      [|by intros x [[res st] []]; [|eexists]|done].
    rewrite Hf, sp_fold in Ha. destruct a as [[res st] []]; simplify_eq/=.
    exists q, steps, res, st, l2. split; [eexists _, later; split; [by rewrite HT, <- app_assoc|exact Hl]|].
    by rewrite stats_total_fold.
  - left. apply list_elem_of_singleton in Hin as ->. by exists e.
  - exfalso. eapply deaf_tail in Hin; [done|intros ev s0; unasked ev|done].
Qed.

End queries.

(** ** Properties *)

(** C20. [get_record], end to end through the node: whatever a [get_record] call
    returns, under every interleaving, is a client-side failure or the answer to
    the complete progress of the one query the swarm started for this key and
    this call: the first record any step reported wins; without one the last
    step's error, or "Record not found"; errors of earlier steps never end it. *)
Theorem get_record_call_outcome `{N : NetTypes} {Sw}
    `{!SwarmOps Sw, !SwarmPoll Sw, !HashOrder, !Mpsc, !MpscLaws, !SwarmIds Sw, !SwarmIdLaws Sw}
    {Ctl} (accept : Ctl -> StreamProtocol -> Ctl * bool) (swarm : Traced Sw) (ctl : Ctl)
    (now dc_id : Z) (config : NodeConfig) (node : Node (Traced Sw) AnyCommand CmdValue)
    (s s' : System (Traced Sw)) (loc : nat) (r : CResult CmdValue) (lc : LiveCall) (key : RecordKey) :
  start accept swarm ctl now dc_id config = Ok node -> sys_run (system_of node) s ->
  sys_step (Returned loc r) s s' -> sy_calls s !! loc = Some lc ->
  lc_command lc = AGetRecord (GetRecordCommand_new key) ->
  local_failure lc r
  \/ exists q steps res st extra,
       progress_since sel_record (IGetRecord key) (el_swarm (nw_loop (sy_node s))) q
         ((ongoing <$> steps) ++ (res, st, true) :: extra)
       /\ r = result_map VRecord (get_record_answer steps.*1 res (total_stats steps.*2 st)).
Proof.
  intros Hst Hr Hs Hl Hc.
  destruct (call_result _ _ _ _ _ _ _ _ _ _ _ _ Hst Hr Hs Hl) as [?|Hres]; [by left|right].
  rewrite Hc in Hres. by apply get_record_result.
Qed.

(** C21. [get_providers], end to end through the node: a call returns the
    providers that all the steps of its own query reported, in the order of
    arrival, with the merged statistics, once the last step has arrived; or the
    first error any step reports, at once; or a client-side failure. *)
Theorem get_providers_call_outcome `{N : NetTypes} {Sw}
    `{!SwarmOps Sw, !SwarmPoll Sw, !HashOrder, !Mpsc, !MpscLaws, !SwarmIds Sw, !SwarmIdLaws Sw}
    {Ctl} (accept : Ctl -> StreamProtocol -> Ctl * bool) (swarm : Traced Sw) (ctl : Ctl)
    (now dc_id : Z) (config : NodeConfig) (node : Node (Traced Sw) AnyCommand CmdValue)
    (s s' : System (Traced Sw)) (loc : nat) (r : CResult CmdValue) (lc : LiveCall) (key : RecordKey) :
  start accept swarm ctl now dc_id config = Ok node -> sys_run (system_of node) s ->
  sys_step (Returned loc r) s s' -> sy_calls s !! loc = Some lc ->
  lc_command lc = AGetProviders (GetProvidersCommand_new key) ->
  local_failure lc r
  \/ exists q steps res st is_last extra,
       progress_since sel_providers (IGetProviders key) (el_swarm (nw_loop (sy_node s))) q
         ((going <$> steps) ++ (res, st, is_last) :: extra)
       /\ r = match res with
              | Ok ok => Ok (VProviders (mkProvidersResult ((steps.*1 ++ [ok]) ≫= providers_found)
                                           (QueryStatsInfo_from (total_stats steps.*2 st))))
              | Err e => Err (kad_err "GetProviders" e)
              end
       /\ (is_ok res = true -> is_last = true).
Proof.
  intros Hst Hr Hs Hl Hc.
  destruct (call_result _ _ _ _ _ _ _ _ _ _ _ _ Hst Hr Hs Hl) as [?|Hres]; [by left|right].
  rewrite Hc in Hres. by apply get_providers_result.
Qed.

(** C22. The other queries, end to end through the node.  [bootstrap] and
    [get_closest_peers] end at the first error, even on a step that is not the
    last; without one at the last step, bootstrap with the [num_remaining] of
    that step, [get_closest_peers] with the peers of all the steps in order.
    [put_record] and [start_provide] are decided by the last step alone.  A query
    that could not be started fails with the reason; all return the merged
    statistics of the complete progress of their own query. *)
Theorem other_query_calls_outcome `{N : NetTypes} {Sw}
    `{!SwarmOps Sw, !SwarmPoll Sw, !HashOrder, !Mpsc, !MpscLaws, !SwarmIds Sw, !SwarmIdLaws Sw}
    {Ctl} (accept : Ctl -> StreamProtocol -> Ctl * bool) (swarm : Traced Sw) (ctl : Ctl)
    (now dc_id : Z) (config : NodeConfig) (node : Node (Traced Sw) AnyCommand CmdValue)
    (s s' : System (Traced Sw)) (loc : nat) (r : CResult CmdValue) (lc : LiveCall) :
  start accept swarm ctl now dc_id config = Ok node -> sys_run (system_of node) s ->
  sys_step (Returned loc r) s s' -> sy_calls s !! loc = Some lc ->
  let T := el_swarm (nw_loop (sy_node s)) in
  (lc_command lc = ABootstrap BootstrapCommand_new ->
   local_failure lc r \/ r = Err (E_Kad "Bootstrap failed: no known peers")
   \/ exists q steps res st is_last extra,
        progress_since sel_bootstrap IBootstrap T q ((going <$> steps) ++ (res, st, is_last) :: extra)
        /\ r = match res with
               | Ok (_, n) => Ok (VBootstrap (mkBootstrapResult n (QueryStatsInfo_from (total_stats steps.*2 st))))
               | Err e => Err (kad_err "Bootstrap" e)
               end
        /\ (is_ok res = true -> is_last = true))
  /\ (forall key, lc_command lc = AGetClosestPeers (GetClosestPeersCommand_new key) ->
      local_failure lc r
      \/ exists q steps res st is_last extra,
           progress_since sel_closest (IGetClosestPeers key) T q
             ((going <$> steps) ++ (res, st, is_last) :: extra)
           /\ r = match res with
                  | Ok ps => Ok (VClosest (mkClosestResult (concat steps.*1 ++ ps)
                                             (QueryStatsInfo_from (total_stats steps.*2 st))))
                  | Err e => Err (kad_err "GetClosestPeers" e)
                  end
           /\ (is_ok res = true -> is_last = true))
  /\ (forall record, lc_command lc = APutRecord (PutRecordCommand_new record) ->
      local_failure lc r
      \/ (exists e, r = Err (E_Kad ("PutRecord store: " +:+ store_error_display e)))
      \/ exists q steps res st extra,
           progress_since sel_put (IPutRecord record) T q ((ongoing <$> steps) ++ (res, st, true) :: extra)
           /\ r = match res with
                  | Ok _ => Ok (VStats (QueryStatsInfo_from (total_stats steps.*2 st)))
                  | Err e => Err (kad_err "PutRecord" e)
                  end)
  /\ (forall key, lc_command lc = AStartProvide (StartProvideCommand_new key) ->
      local_failure lc r
      \/ (exists e, r = Err (E_Kad ("StartProviding store: " +:+ store_error_display e)))
      \/ exists q steps res st extra,
           progress_since sel_provide (IStartProviding key) T q ((ongoing <$> steps) ++ (res, st, true) :: extra)
           /\ r = match res with
                  | Ok _ => Ok (VStats (QueryStatsInfo_from (total_stats steps.*2 st)))
                  | Err e => Err (kad_err "Provide" e)
                  end).
Proof.
  intros Hst Hr Hs Hl T.
  destruct (call_result _ _ _ _ _ _ _ _ _ _ _ _ Hst Hr Hs Hl) as [Hlocal|Hres].
  { split_and!; intros; by left. }
  split_and!; intros; simplify_eq; right;
    match goal with Hc : lc_command lc = _ |- _ => rewrite Hc in Hres end.
  - by apply bootstrap_result.
  - by apply get_closest_result.
  - by apply put_record_result.
  - by apply start_provide_result.
Qed.
