(* ===== verification/Provenance.v ===== *)
(** * Where commands, identifiers and answers come from

    Everything a node asks of its swarm is traced back to its own application:
    an identifier was given out for a method of a client, a response was given
    to a [send_response] whose pending id belongs to a request the swarm had
    yielded and the loop had reported. *)
From S2P Require Import Prelude Externals Errors DataChannel PendingMap Config Handle Handler.
From S2P Require Import BasicCommands KadCommands KadQueries ReqRespCommands Commands.
From S2P Require Import EventLoop EventChain CommandChain SwarmIds LoopFrame Trace Client Node System Calls.

Section provenance.
Context `{N : NetTypes} {Sw : Type} `{!SwarmOps Sw, !SwarmPoll Sw, !HashOrder, !Mpsc}.
Implicit Types (hist : list Label) (s : System (Traced Sw)).

Definition swarm_of (s : System (Traced Sw)) : Traced Sw := el_swarm (nw_loop (sy_node s)).

(** The command a method of a client makes. *)
Definition call_command (call : ClientCall) : option AnyCommand :=
  cf_handler (rc_future (call_future 0 0 call)).

(** The request of [p] that came with [ch] is reported as [id]. *)
Definition reported s (p : PeerId) (id : Z) (request : Req) (ch : ResponseChannel) : Prop :=
  Behaviour (CBE_ReqResp (RR_Request p request ch)) ∈ tr_events (swarm_of s)
  /\ InboundRequest p id request ∈ nw_converted (sy_node s).

(** The application called for the command. *)
Definition called hist (c : AnyCommand) : Prop :=
  exists loc call, Called loc call ∈ hist /\ call_command call = Some c.

(** The application answered a request that came with [ch]. *)
Definition answered hist s (ch : ResponseChannel) (resp : Resp) : Prop :=
  exists id p request, Responding id resp ∈ hist /\ reported s p id request ch.

Definition ordered hist s (c : AnyCommand) : Prop :=
  called hist c
  \/ (exists ch resp, c = ASendResponse (SendResponseCommand_new ch resp) /\ answered hist s ch resp).

Definition explained hist s (o : Observation) : Prop :=
  match o with
  | OYield _ => True
  | OAlloc call _ => exists c, called hist c /\ id_call c = Some call
  | OAnswer ch resp => answered hist s ch resp
  end.

(** [hist] accounts for all that the node and its swarm hold. *)
Record accounted hist s : Prop := {
  ac_pending : forall id e, sh_pending (nw_shared (sy_node s)) !! id = Some e ->
    exists p request, reported s p id request (value e);
  ac_queued : forall t, t ∈ ch_contents (nw_commands (sy_node s)) -> ordered hist s (task_handler t);
  ac_calls : forall loc lc c, sy_calls s !! loc = Some lc -> cf_handler (lc_future lc) = Some c ->
    ordered hist s c;
  ac_log : forall o, o ∈ tr_log (swarm_of s) -> explained hist s o;
  ac_converted : forall p id request, InboundRequest p id request ∈ nw_converted (sy_node s) ->
    exists ch, Behaviour (CBE_ReqResp (RR_Request p request ch)) ∈ tr_events (swarm_of s);
}.

End provenance.

(** ** Lemmas *)

Section lemmas.
Context `{N : NetTypes} {Sw : Type}.
Context `{!SwarmOps Sw, !SwarmPoll Sw, !HashOrder, !Mpsc, !MpscLaws}.
Implicit Types (hist : list Label) (s : System (Traced Sw)).
Implicit Types (w : NodeWorld (Traced Sw) AnyCommand CmdValue).

(** What a later state still reports. *)
Definition extends s s' : Prop :=
  tr_le (swarm_of s) (swarm_of s') /\ nw_converted (sy_node s) `prefix_of` nw_converted (sy_node s').

#[export] Instance extends_preorder : PreOrder extends.
Proof.
  split; [by intros s|]. intros s1 s2 s3 [? ?] [? ?]. split; by etrans.
Qed.

Lemma reported_mono s s' p id request ch :
  extends s s' -> reported s p id request ch -> reported s' p id request ch.
Proof.
  intros [[later Hl]%tr_le_events [l Hc]] [Hr Hi]. unfold reported. rewrite Hl, Hc. set_solver.
Qed.

Lemma answered_mono hist lab s s' ch resp :
  extends s s' -> answered hist s ch resp -> answered (hist ++ [lab]) s' ch resp.
Proof.
  intros He (id & p & request & Hr & Hp). exists id, p, request.
  split; [set_solver|by eapply reported_mono].
Qed.

Lemma called_mono hist lab c : called hist c -> called (hist ++ [lab]) c.
Proof. intros (loc & call & Hc & Hcmd). exists loc, call. split; [set_solver|done]. Qed.

Lemma ordered_mono hist lab s s' c : extends s s' -> ordered hist s c -> ordered (hist ++ [lab]) s' c.
Proof.
  intros He [Hc|(ch & resp & -> & Ha)]; [left; by apply called_mono|right].
  exists ch, resp. split; [done|by eapply answered_mono].
Qed.

Lemma explained_mono hist lab s s' o :
  extends s s' -> explained hist s o -> explained (hist ++ [lab]) s' o.
Proof.
  intros He. destruct o as [ev|call k|ch resp]; simpl; [done| |by eapply answered_mono].
  intros (c & Hc & Hk). exists c. split; [by apply called_mono|done].
Qed.

(** The swarm of a node only goes on. *)
Lemma sys_step_le lab s s' : sys_step lab s s' -> tr_le (swarm_of s) (swarm_of s').
Proof.
  intros Hs. destruct Hs as [w w' cl ca op ch Hs| | | | | | | | | | | | | | | | | | | | | | |]; try done.
  destruct Hs as [|el sh q q' n rcv cv cmd el' sh' Hr Hc| |el sh q n rcv cv ev s el' sh' o Hp He
    |el sh q n rcv cv s Hp| | | |]; unfold swarm_of; simpl; try done.
  - destruct (handle_command_swarm _ _ _ _ _ Hc) as (c & s & fin & Hrun & _ & Hb%book_log).
    destruct (run_log _ _ _ _ _ Hrun) as (l & Hl & _). exists l. congruence.
  - etrans; [by eapply poll_le|]. exists []. rewrite app_nil_r.
    apply (book_log _ _ (handle_swarm_event_book _ _ _ _ _ _ He)).
  - by eapply poll_le.
Qed.

(** So does what the loop reports. *)
Lemma sys_step_extends lab s s' : sys_step lab s s' -> extends s s'.
Proof.
  intros Hs. split; [by eapply sys_step_le|].
  destruct Hs as [w w' cl ca op ch Hs| | | | | | | | | | | | | | | | | | | | | | |]; try done.
  destruct Hs; simpl; try done. by eexists.
Qed.

(** A step is accounted for when what it adds is. *)
Lemma accounted_step hist lab s s' :
  accounted hist s -> extends s s' ->
  (forall id e, sh_pending (nw_shared (sy_node s')) !! id = Some e ->
     sh_pending (nw_shared (sy_node s)) !! id = Some e
     \/ exists p request, reported s' p id request (value e)) ->
  (forall t, t ∈ ch_contents (nw_commands (sy_node s')) ->
     t ∈ ch_contents (nw_commands (sy_node s)) \/ ordered (hist ++ [lab]) s' (task_handler t)) ->
  (forall loc lc c, sy_calls s' !! loc = Some lc -> cf_handler (lc_future lc) = Some c ->
     (exists lc0, sy_calls s !! loc = Some lc0 /\ cf_handler (lc_future lc0) = Some c)
     \/ ordered (hist ++ [lab]) s' c) ->
  (forall o, o ∈ tr_log (swarm_of s') -> o ∈ tr_log (swarm_of s) \/ explained (hist ++ [lab]) s' o) ->
  (forall p id request, InboundRequest p id request ∈ nw_converted (sy_node s') ->
     InboundRequest p id request ∈ nw_converted (sy_node s)
     \/ exists ch, Behaviour (CBE_ReqResp (RR_Request p request ch)) ∈ tr_events (swarm_of s')) ->
  accounted (hist ++ [lab]) s'.
Proof.
  intros [Hp Hq Hc Hl Hv] He Hp' Hq' Hc' Hl' Hv'. split.
  - intros id e [Hin|?]%Hp'; [|done]. destruct (Hp _ _ Hin) as (p & request & Hr).
    exists p, request. by eapply reported_mono.
  - intros t [Hin|?]%Hq'; [|done]. eapply ordered_mono; [done|by apply Hq].
  - intros loc lc c Hlc Hf. destruct (Hc' _ _ _ Hlc Hf) as [(lc0 & Hlc0 & Hf0)|?]; [|done].
    eapply ordered_mono; [done|by eapply Hc].
  - intros o [Hin|?]%Hl'; [|done]. eapply explained_mono; [done|by apply Hl].
  - intros p id request [[ch Hin]%Hv|?]%Hv'; [|done]. exists ch.
    destruct He as [[later ->]%tr_le_events _]. set_solver.
Qed.

(** The client side of a step adds nothing, apart from new calls. *)
Lemma accounted_quiet hist lab s s' :
  accounted hist s ->
  nw_loop (sy_node s') = nw_loop (sy_node s) -> nw_converted (sy_node s') = nw_converted (sy_node s) ->
  nw_commands (sy_node s') = nw_commands (sy_node s) ->
  (forall id e, sh_pending (nw_shared (sy_node s')) !! id = Some e ->
     sh_pending (nw_shared (sy_node s)) !! id = Some e) ->
  (forall loc lc c, sy_calls s' !! loc = Some lc -> cf_handler (lc_future lc) = Some c ->
     (exists lc0, sy_calls s !! loc = Some lc0 /\ cf_handler (lc_future lc0) = Some c)
     \/ ordered (hist ++ [lab]) s' c) ->
  accounted (hist ++ [lab]) s'.
Proof.
  intros Ha Hl Hcv Hq Hp Hc. apply (accounted_step hist lab s s'); try done.
  - unfold extends, swarm_of. by rewrite Hl, Hcv.
  - eauto.
  - rewrite Hq. eauto.
  - unfold swarm_of. rewrite Hl. eauto.
  - rewrite Hcv. eauto.
Qed.

Lemma call_future_command loc now call : cf_handler (rc_future (call_future loc now call)) = call_command call.
Proof. by destruct call. Qed.

Lemma live_of_command c lc cmd :
  live_of c = Some lc -> cf_handler (lc_future lc) = Some cmd -> cf_handler (rc_future c) = Some cmd.
Proof. unfold live_of. intros (c0 & _ & ->)%fmap_Some_1. done. Qed.

(** The loop. *)
Lemma command_accounted hist el el' sh sh' q q' cmd n rcv cv cl ca op ch :
  ch_recv q = Some (cmd, q') -> handle_command el sh cmd = Some (el', sh') ->
  accounted hist (mkSystem (mkNW Selecting el sh q n rcv cv) cl ca op ch) ->
  accounted (hist ++ [Tau]) (mkSystem (mkNW Iterating el' sh' q' n rcv cv) cl ca op ch).
Proof.
  intros [Hq _]%ch_recv_inv Hc Ha.
  destruct (handle_command_swarm _ _ _ _ _ Hc) as (c & s & fin & Hr & _ & Hlog%book_log).
  destruct (run_log _ _ _ _ _ Hr) as (l & Hl & Hlogs).
  assert (extends (mkSystem (mkNW Selecting el sh q n rcv cv) cl ca op ch)
            (mkSystem (mkNW Iterating el' sh' q' n rcv cv) cl ca op ch)) as He.
  { split; [|done]. exists l. unfold swarm_of. simpl. congruence. }
  assert (ordered (hist ++ [Tau]) (mkSystem (mkNW Iterating el' sh' q' n rcv cv) cl ca op ch)
            (task_handler cmd)) as Hord.
  { eapply ordered_mono; [exact He|]. apply (ac_queued _ _ Ha). simpl. rewrite Hq. by left. }
  eapply accounted_step; [exact Ha|exact He|..]; simpl; try (by eauto).
  - apply handle_command_inv in Hc as (_ & _ & fin' & _ & _ & ->). rewrite finish_all_pending. eauto.
  - intros t Ht. left. rewrite Hq. by right.
  - intros o. unfold swarm_of. simpl. rewrite Hlog, Hl. intros [?|Ho]%elem_of_app; [by left|right].
    destruct Hlogs as [->|[(call & k & -> & Hid & _)|(rc & resp & -> & Hcmd)]]; [by apply elem_of_nil in Ho|..];
      apply list_elem_of_singleton in Ho as ->; simpl.
    + destruct Hord as [Hcalled|(rc & resp & Hcmd & _)]; [by eexists|]. by rewrite Hcmd in Hid.
    + destruct Hord as [(loc & call & _ & Hcall)|(rc' & resp' & Hcmd' & Hans)].
      * rewrite Hcmd in Hcall. by destruct call.
      * rewrite Hcmd in Hcmd'. by simplify_eq.
Qed.

Lemma event_accounted hist el el' sh sh' q ev sw o n rcv cv cl ca op ch :
  sw_poll (el_swarm el) (Some ev) sw ->
  handle_swarm_event (el_set_swarm sw el) sh ev = Some (el', sh', o) ->
  accounted hist (mkSystem (mkNW Selecting el sh q n rcv cv) cl ca op ch) ->
  accounted (hist ++ [Tau])
    (mkSystem (mkNW (after_event o) el' sh' q n rcv (cv ++ option_list o)) cl ca op ch).
Proof.
  intros [_ Htr] Hh Ha.
  pose proof (book_log _ _ (handle_swarm_event_book _ _ _ _ _ _ Hh)) as Hlog. simpl in Hlog.
  rewrite Htr in Hlog. simpl in Hlog.
  eapply accounted_step; [exact Ha|..]; simpl; try (by eauto).
  - split; simpl; [by exists [OYield ev]|by apply prefix_app_r].
  - intros id e Hid. destruct (handle_swarm_event_pending _ _ _ _ _ _ _ _ Hh Hid)
      as [?|(p & request & -> & ->)]; [by left|right].
    exists p, request. split; simpl; [|set_solver]. unfold tr_events, swarm_of. simpl.
    rewrite Hlog, omap_app. set_solver.
  - intros o'. unfold swarm_of. simpl. rewrite Hlog.
    intros [?| ->%list_elem_of_singleton]%elem_of_app; [by left|by right].
  - intros p id request [?|Ho]%elem_of_app; [by left|right].
    destruct o as [evt|]; simpl in Ho; [|by apply elem_of_nil in Ho].
    apply list_elem_of_singleton in Ho as <-.
    destruct (handle_swarm_event_reports _ _ _ _ _ _ _ _ Hh) as [rc ->]. exists rc.
    unfold tr_events, swarm_of. simpl. rewrite Hlog, omap_app. set_solver.
Qed.

Lemma loop_step_accounted hist w w' cl ca op ch :
  loop_step w w' -> accounted hist (mkSystem w cl ca op ch) ->
  accounted (hist ++ [Tau]) (mkSystem w' cl ca op ch).
Proof.
  intros Hs Ha.
  destruct Hs as [| | | |el sh q n rcv cv s Hp|el sh q n rcv cv pr p st| | |];
    [|by eapply command_accounted| |by eapply event_accounted|..];
    (eapply accounted_step; [exact Ha|..]); simpl; try (by eauto).
  - split; [by eapply poll_le|done].
  - destruct Hp as [_ Hl]. unfold swarm_of. simpl. rewrite Hl, app_nil_r. eauto.
  - unfold handle_inbound_channel. repeat case_match; simpl; eauto.
Qed.

(** Answering takes the channel away, whatever comes of it. *)
Lemma respond_pending loc pending id response pending' r :
  nc_send_response loc pending id response = (pending', r) -> pending' = delete id pending.
Proof. unfold nc_send_response, pm_take. destruct (pending !! id); simpl; intros; by simplify_eq. Qed.

Lemma respond_inv loc pending id response pending' fut :
  nc_send_response loc pending id response = (pending', Ok fut) ->
  exists e, pending !! id = Some e
    /\ cf_handler fut = Some (ASendResponse (SendResponseCommand_new (value e) response)).
Proof. unfold nc_send_response, pm_take. destruct (pending !! id) eqn:He; simpl; intros; simplify_eq. eauto. Qed.

Lemma sys_step_accounted hist lab s s' :
  sys_step lab s s' -> accounted hist s -> accounted (hist ++ [lab]) s'.
Proof.
  intros Hs Ha.
  destruct Hs as
    [w w' cl ca op ch Hs| | | |w cl ca op ch ttl|w cl ca op ch client loc call lc _ Hno Hl
     |w cl ca op ch client loc id response pending fut lc _ Hno Hr Hl
     |w cl ca op ch client loc id response pending e _ Hr
     |w cl ca op ch loc lc f q Hl Hh' Hsend|w cl ca op ch loc lc st f q r Hl Hst Hsend
     |w cl ca op ch loc lc st waker c q st' Hl Hh' Hst Hp
     |w cl ca op ch loc lc st waker c q st' r Hl Hh' Hst Hp|w cl ca op ch loc lc st Hl Hst
     | | | | | | | | | | |]; [by eapply loop_step_accounted|..];
    try (eapply accounted_quiet; [exact Ha|..]; simpl; by eauto);
    try (eapply accounted_quiet; [exact Ha|..]; simpl; try done; first [by eauto|
      by intros l lc' c' [_ ?]%lookup_delete_Some; eauto]).
  - eapply accounted_quiet; [exact Ha|..]; simpl; try (by eauto).
    intros id e [? _]%map_lookup_filter_Some. done.
  - eapply accounted_quiet; [exact Ha|..]; simpl; try (by eauto).
    intros l lc' c [[<- <-]|[_ ?]]%lookup_insert_Some Hc; [right; left|left; by eauto].
    exists loc, call. split; [set_solver|]. erewrite <- call_future_command. by eapply live_of_command.
  - destruct (respond_inv _ _ _ _ _ _ Hr) as (e & He & Hf).
    apply respond_pending in Hr as ->. destruct (ac_pending _ _ Ha _ _ He) as (p & request & Hrep).
    eapply accounted_quiet; [exact Ha|..]; simpl; try (by eauto).
    + by intros id' e' [_ ?]%lookup_delete_Some.
    + intros l lc' c [[<- <-]|[_ ?]]%lookup_insert_Some Hc; [right; right|left; by eauto].
      apply (live_of_command _ _ _ Hl) in Hc. simpl in Hc. rewrite Hf in Hc. simplify_eq.
      exists (value e), response. split; [done|]. exists id, p, request. split; [set_solver|exact Hrep].
  - apply respond_pending in Hr as ->. eapply accounted_quiet; [exact Ha|..]; simpl; try (by eauto).
    by intros id' e' [_ ?]%lookup_delete_Some.
  - apply send_inv in Hsend. destruct (cf_handler (lc_future lc)) as [c|] eqn:Hf; [|by destruct Hh'].
    destruct Hsend as [-> (_ & _ & Hq & _)%ch_try_send_inv].
    pose proof (ac_calls _ _ Ha _ _ _ Hl Hf) as Hord.
    eapply accounted_step; [exact Ha|..]; simpl; try (by eauto).
    + intros t. rewrite Hq. intros [?| ->%list_elem_of_singleton]%elem_of_app; [by left|right].
      simpl. eapply ordered_mono; [|exact Hord]. done.
    + intros l lc' c' [[<- <-]|[_ ?]]%lookup_insert_Some Hc; [done|left; by eauto].
Qed.

(** [start] registers addresses, dials and listens. *)
Lemma start_book {S} `{!SwarmOps S} {Ctl} (accept : Ctl -> StreamProtocol -> Ctl * bool) (swarm : S) ctl now
    dc_id config (node : Node S AnyCommand CmdValue) :
  start accept swarm ctl now dc_id config = Ok node ->
  rtc book_op swarm (el_swarm (node_loop node)).
Proof.
  assert (forall addrs (el : EventLoop S AnyCommand),
    rtc book_op (el_swarm el) (el_swarm (start_listen el addrs).1)) as Hlisten.
  { induction addrs as [|a addrs IH]; intros el; simpl; [done|].
    pose proof (bo_listen_on (el_swarm el) a) as Hop. destruct (sw_listen_on _ _) as [s [u|e]]; simpl.
    - eapply rtc_l; [exact Hop|]. apply (IH (el_set_swarm s el)).
    - by apply rtc_once. }
  assert (forall peers (el : EventLoop S AnyCommand),
    rtc book_op (el_swarm el) (el_swarm (connect_bootstrap_peers el peers))) as Hconnect.
  { unfold connect_bootstrap_peers. induction peers as [|[p a] peers IH]; intros el; simpl; [done|].
    etrans; [|apply IH]. eapply rtc_l; [apply (bo_kad_add_address _ p a)|].
    eapply rtc_l; [apply (bo_add_peer_address _ p a)|].
    pose proof (bo_dial (sw_add_peer_address (kad_add_address (el_swarm el) p a) p a) p) as Hop.
    destruct (sw_dial _ _) as [s r]. apply rtc_once. by case_match. }
  unfold start. set (el0 := EventLoop_new _ _ _ _). specialize (Hlisten (listen_addrs config) el0).
  destruct (start_listen el0 (listen_addrs config)) as [el1 [u|e]]; [|done].
  intros [= <-]. simpl in *. etrans; [exact Hlisten|].
  destruct (bootstrap_peers config); [done|apply (Hconnect (_ :: _) el1)].
Qed.

Lemma system_of_accounted {Ctl} (accept : Ctl -> StreamProtocol -> Ctl * bool) swarm ctl now dc_id config
    (node : Node (Traced Sw) AnyCommand CmdValue) :
  tr_log swarm = [] -> start accept swarm ctl now dc_id config = Ok node ->
  tr_log (swarm_of (system_of node)) = [] /\ accounted [] (system_of node).
Proof.
  intros Hnil Hst. pose proof (book_log _ _ (start_book _ _ _ _ _ _ _ Hst)) as Hlog. rewrite Hnil in Hlog.
  apply start_inv in Hst as (_ & Hq & Hsh).
  destruct (ch_new_spec (CommandTask AnyCommand) COMMAND_CHANNEL_SIZE) as (Hc & _).
  split; [done|]. split; simpl; rewrite ?Hq, ?Hsh, ?Hc; try done; unfold swarm_of; simpl; rewrite ?Hlog;
    first [by intros ? ?%elem_of_nil|by intros ? ? ? ?%elem_of_nil].
Qed.

End lemmas.
