(* ===== verification/Prompted.v ===== *)
(** * What makes a node act

    Every call a node makes on its swarm is traced back to what prompted it: its
    configuration, a method its application called, or an event the swarm
    yielded.  So a node dials nobody, fills nobody's addresses into its tables,
    listens nowhere and sends nothing on its own. *)
From S2P Require Import Prelude Externals Errors DataChannel PendingMap Config Handle Handler.
From S2P Require Import BasicCommands KadCommands KadQueries ReqRespCommands Commands.
From S2P Require Import EventLoop EventChain CommandChain SwarmIds LoopFrame Trace Addresses.
From S2P Require Import Client Node System Calls Provenance.

(** ** Reasons *)

Section reasons.
Context `{N : NetTypes}.

(** What the configuration asks for. *)
Definition configured (config : NodeConfig) (c : SwarmCall) : Prop :=
  match c with
  | CallListenOn a =>
      a ∈ listen_addrs config
      \/ (enable_relay_client config = true
          /\ exists p b, (p, b) ∈ bootstrap_peers config /\ a = relay_circuit_addr p b)
  | CallDial p => p ∈ (bootstrap_peers config).*1
  | CallAddPeerAddress p a | CallKadAddAddress p a => (p, a) ∈ bootstrap_peers config
  | _ => False
  end.

(** What the application asks for when it calls a method. *)
Definition asks (config : NodeConfig) (call : ClientCall) (c : SwarmCall) : Prop :=
  match call, c with
  | CDial p, CallDial q => q = p
  | CDisconnect p, CallDisconnect q => q = p
  | CAddPeerAddrs p addrs, CallAddPeerAddress q a => q = p /\ a ∈ addrs
  | CAddInfrastructurePeer p _ _, CallDial q => q = p
  | CAddInfrastructurePeer p addrs _, CallAddPeerAddress q a => q = p /\ a ∈ addrs
  | CAddInfrastructurePeer p addrs roles, CallKadAddAddress q a =>
      q = p /\ a ∈ addrs /\ role_kad_server roles = true
  | CAddInfrastructurePeer p addrs roles, CallListenOn a =>
      enable_relay_client config = true /\ role_relay_server roles = true
      /\ exists b, b ∈ addrs /\ a = relay_circuit_addr p b
  | CBootstrap, CallKadBootstrap => True
  | CPutRecord r, CallKadPutRecord r' => r' = r
  | CStartProvide k, CallKadStartProviding k' => k' = k
  | CStopProvide k, CallKadStopProviding k' => k' = k
  | CRemoveRecord k, CallKadRemoveRecord k' => k' = k
  | CGetRecord k, CallKadGetRecord k' => k' = k
  | CGetProviders k, CallKadGetProviders k' => k' = k
  | CGetClosestPeers k, CallKadGetClosestPeers k' => k' = k
  | CSendRequest p r _, CallSendRequest q r' => q = p /\ r' = r
  | _, _ => False
  end.

(** What an event of the swarm makes the loop do. *)
Definition prompts (config : NodeConfig) (ev : SwarmEvent) (c : SwarmCall) : Prop :=
  match ev, c with
  | Behaviour (CBE_MdnsDiscovered peers), CallDial p => p ∈ peers.*1
  | Behaviour (CBE_MdnsDiscovered peers), CallAddPeerAddress p a => (p, a) ∈ peers
  | Behaviour (CBE_IdentifyReceived p info), (CallAddPeerAddress q a | CallKadAddAddress q a) =>
      q = p /\ a ∈ info_listen_addrs info /\ info_protocol_version info = protocol_version config
  | Behaviour (CBE_Kad (RoutingUpdated p addrs)), CallAddPeerAddress q a => q = p /\ a ∈ addrs
  | NewListenAddr a, CallAddExternalAddress b =>
      b = a /\ is_usable_lan_addr a = true /\ announces (lan_helper_of (infrastructure_mode config)) = true
  | _, _ => False
  end.

(** Relay addresses the node may reserve on when it meets the relay. *)
Definition relay_wanted (config : NodeConfig) (hist : list Label) (p : PeerId) (a : Multiaddr) : Prop :=
  enable_relay_client config = true
  /\ ((p, a) ∈ bootstrap_peers config
      \/ exists loc addrs roles, Called loc (CAddInfrastructurePeer p addrs roles) ∈ hist
           /\ role_relay_server roles = true /\ a ∈ addrs).

Context {Sw : Type} `{!SwarmOps Sw, !SwarmPoll Sw, !HashOrder, !Mpsc}.

(** Polling is not a call. *)
#[export] Instance Logged_poll : SwarmPoll (Logged Sw) := fun s o s' =>
  sw_poll (lg_swarm s) o (lg_swarm s') /\ lg_calls s' = lg_calls s.

Lemma op_unlogged (s s' : Logged Sw) : swarm_op s s' -> swarm_op (lg_swarm s) (lg_swarm s').
Proof. destruct 1; constructor. Qed.

#[export] Instance Logged_relay_toggle `{!RelayToggle Sw} : RelayToggle (Logged Sw).
Proof.
  split.
  - intros s s' Ho%op_unlogged. exact (relay_client_op _ _ Ho).
  - intros s o s' [Hp _]. exact (relay_client_poll _ _ _ Hp).
Qed.

(** The calls made so far. *)
Definition calls_of (s : Traced (Logged Sw)) : list SwarmCall := lg_calls (tr_swarm s).

(** A call and what prompted it. *)
Definition prompted (config : NodeConfig) (hist : list Label) (s : System (Traced (Logged Sw)))
    (c : SwarmCall) : Prop :=
  configured config c
  \/ (exists loc call, Called loc call ∈ hist /\ asks config call c)
  \/ (exists ch response, c = CallSendResponse ch response /\ answered hist s ch response)
  \/ (exists ev, ev ∈ tr_events (swarm_of s) /\ prompts config ev c).

(** The invariant: besides [accounted], which relates the queued commands to the
    application, what the loop remembers and what it has done. *)
Record explained_calls (config : NodeConfig) (hist : list Label) (s : System (Traced (Logged Sw))) : Prop := {
  xc_accounted : accounted hist s;
  xc_version : el_protocol_version (nw_loop (sy_node s)) = protocol_version config;
  xc_mode : el_lan_helper (nw_loop (sy_node s)) = lan_helper_of (infrastructure_mode config);
  xc_relay_client : sw_relay_client_is_enabled (swarm_of s) = enable_relay_client config;
  xc_relays : forall p addrs a, el_bootstrap_peers (nw_loop (sy_node s)) !! p = Some addrs -> a ∈ addrs ->
    relay_wanted config hist p a;
  xc_calls : forall c, c ∈ calls_of (swarm_of s) -> prompted config hist s c;
}.

End reasons.

(** ** What the calls of a computation are *)

Section within.
Context `{N : NetTypes} {Sw : Type} `{!SwarmOps Sw}.
Implicit Types (s : Traced (Logged Sw)).

(** Only calls that satisfy [P] are added. *)
Definition within (P : SwarmCall -> Prop) s s' : Prop :=
  exists l, calls_of s' = calls_of s ++ l /\ forall c, c ∈ l -> P c.

#[export] Instance within_preorder P : PreOrder (within P).
Proof.
  split.
  - intros s. exists []. rewrite app_nil_r. split; [done|]. by intros c ?%elem_of_nil.
  - intros s1 s2 s3 (l & Hl & HP) (l' & Hl' & HP'). exists (l ++ l'). rewrite Hl', Hl, app_assoc.
    split; [done|]. intros c [?|?]%elem_of_app; auto.
Qed.

Lemma within_call (P : SwarmCall -> Prop) s s' c :
  calls_of s' = calls_of s ++ [c] -> P c -> within P s s'.
Proof. intros Hl HP. exists [c]. split; [done|]. by intros c' ->%list_elem_of_singleton. Qed.

Lemma within_same P s s' : calls_of s' = calls_of s -> within P s s'.
Proof. intros Hl. exists []. rewrite app_nil_r. split; [done|]. by intros c ?%elem_of_nil. Qed.

Lemma within_mono (P Q : SwarmCall -> Prop) s s' :
  within P s s' -> (forall c, P c -> Q c) -> within Q s s'.
Proof. intros (l & Hl & HP) HPQ. exists l. split; [done|]. auto. Qed.

Lemma within_fold P {A} (f : Traced (Logged Sw) -> A -> Traced (Logged Sw)) (l : list A) s :
  (forall s a, a ∈ l -> within P s (f s a)) -> within P s (foldl f s l).
Proof.
  revert s. induction l as [|a l IH]; intros s Hf; simpl; [done|].
  etrans; [apply Hf; by left|]. apply IH. intros s' b Hb. apply Hf. by right.
Qed.

Lemma within_elem P s s' c : within P s s' -> c ∈ calls_of s' -> c ∈ calls_of s \/ P c.
Proof. intros (l & -> & HP) [?|?]%elem_of_app; auto. Qed.

Lemma within_relay P {C} (el : EventLoop (Traced (Logged Sw)) C) p addrs :
  (forall a, a ∈ addrs -> P (CallListenOn (relay_circuit_addr p a))) ->
  exists s, request_relay_reservations el p addrs = el_set_swarm s el /\ within P (el_swarm el) s.
Proof.
  intros HP. unfold request_relay_reservations. revert el HP.
  induction addrs as [|a addrs IH]; intros el HP; simpl; [exists (el_swarm el); by destruct el|].
  edestruct IH as (s & -> & Hs); [intros b Hb; apply HP; by right|].
  exists s. split; [done|]. simpl in Hs. etrans; [|exact Hs].
  eapply within_call; [reflexivity|]. apply HP. by left.
Qed.

End within.

(** One call, of a given kind. *)
Ltac one_call := eapply within_call; [reflexivity|simpl; try done].

(** ** Commands *)

Section commands.
Context `{N : NetTypes} {Sw : Type} `{!SwarmOps Sw, !SwarmPoll Sw, !RelayToggle Sw, !HashOrder, !Mpsc}.
Implicit Types (el : EventLoop (Traced (Logged Sw)) AnyCommand) (sh : Shared CmdValue).

(** What the loop knows from its configuration does not change; what it remembers
    about relays grows by what is [new]. *)
Definition loop_keeps (new : PeerId -> Multiaddr -> Prop) el el' : Prop :=
  el_protocol_version el' = el_protocol_version el
  /\ el_lan_helper el' = el_lan_helper el
  /\ forall p addrs a, el_bootstrap_peers el' !! p = Some addrs -> a ∈ addrs ->
       (exists addrs', el_bootstrap_peers el !! p = Some addrs' /\ a ∈ addrs') \/ new p a.

Lemma loop_keeps_same new el el' :
  el_protocol_version el' = el_protocol_version el -> el_lan_helper el' = el_lan_helper el ->
  el_bootstrap_peers el' = el_bootstrap_peers el -> loop_keeps new el el'.
Proof. intros Hv Hl Hb. split_and!; [done..|]. rewrite Hb. eauto. Qed.

(** The relay addresses of one peer are recorded. *)
Lemma extend_keeps (new : PeerId -> Multiaddr -> Prop) el p addrs :
  (forall a, a ∈ addrs -> new p a) -> loop_keeps new el (bootstrap_extend p addrs el).
Proof.
  intros Hnew. split_and!; [done..|]. simpl. intros q l a [[<- <-]|[_ Hq]]%lookup_insert_Some Ha; [|eauto].
  apply elem_of_app in Ha as [Ha|Ha]; [|by right; apply Hnew].
  destruct (el_bootstrap_peers el !! p) as [l|]; [left; by exists l|by apply elem_of_nil in Ha].
Qed.

Definition wanted_by (config : NodeConfig) (call : ClientCall) (p : PeerId) (a : Multiaddr) : Prop :=
  enable_relay_client config = true
  /\ exists addrs roles, call = CAddInfrastructurePeer p addrs roles
       /\ role_relay_server roles = true /\ a ∈ addrs.

(** A method's command makes the calls the method asks for, and asks for
    reservations on the relay it was given, if the relay client is on. *)
Lemma run_prompted config (call : ClientCall) cmd (s s' : Traced (Logged Sw)) c fin :
  sw_relay_client_is_enabled s = enable_relay_client config ->
  call_command call = Some cmd -> run cmd s = Some (c, s', fin) ->
  within (asks config call) s s'
  /\ forall p addrs, (take_relay_reservation_request c).2 = Some (p, addrs) ->
       enable_relay_client config = true
       /\ exists roles, call = CAddInfrastructurePeer p addrs roles /\ role_relay_server roles = true.
Proof.
  intros Hen. unfold call_command. destruct call; simpl; intros [= <-]; simpl;
    unfold run_boxed_as, H_map, fmap, H_fmap; simpl;
    unfold DialCommand_run, DisconnectCommand_run, IsConnectedCommand_run, GetListenAddrsCommand_run,
      AddPeerAddrsCommand_run, BootstrapCommand_run, GetClosestPeersCommand_run, GetProvidersCommand_run,
      GetRecordCommand_run, PutRecordCommand_run, StartProvideCommand_run, StopProvideCommand_run,
      RemoveRecordCommand_run, SendRequestCommand_run; run_H.
  6: {
    unfold AddInfrastructurePeerCommand_run. run_H. set (s1 := foldl _ s addrs).
    assert (sw_relay_client_is_enabled s1 = enable_relay_client config) as Hen1.
    { rewrite <- Hen. apply relay_client_ops, fold_ops. intros s2 a.
      destruct (role_kad_server roles); [|exact (rtc_once _ _ (so_add_peer_address s2 p a))].
      eapply rtc_l; [exact (so_add_peer_address s2 p a)|].
      exact (rtc_once _ _ (so_kad_add_address (sw_add_peer_address s2 p a) p a)). }
    assert (within (asks config (CAddInfrastructurePeer p addrs roles)) s s1) as Hs1.
    { apply within_fold. intros s2 a Ha. destruct (role_kad_server roles) eqn:Hk; [|by one_call].
      exists [CallAddPeerAddress p a; CallKadAddAddress p a]. split; [unfold calls_of; simpl; by rewrite <- app_assoc|].
      intros c' [->|[->|[]%not_elem_of_nil]%elem_of_cons]%elem_of_cons; by simpl. }
    intros Hr. assert (within (asks config (CAddInfrastructurePeer p addrs roles)) s1 s'
      /\ c = AAddInfrastructurePeer (if role_relay_server roles && sw_relay_client_is_enabled s1
                then mkAddInfrastructurePeer p addrs roles (Some addrs)
                else AddInfrastructurePeerCommand_new p addrs roles)) as [Hs2 ->].
    { clearbody s1. destruct (sw_is_connected (lg_swarm (tr_swarm s1)) p); simpl in Hr; injection Hr as <- <- _;
        (split; [|done]); [done|by one_call]. }
    split; [by etrans|]. clearbody s1.
    destruct (role_relay_server roles) eqn:Hrole; simpl; [|done].
    simpl in Hen1. rewrite Hen1. destruct (enable_relay_client config); simpl; [|done].
    intros ? ? [= <- <-]. split; [done|]. by exists roles. }
  all: intros Hr; repeat (case_match; simpl in Hr); simplify_eq/=; (split; [|done]);
    first [done|by one_call|apply within_fold; intros s2 a Ha; by one_call].
Qed.

(** Running a command, whoever made it. *)
Lemma command_keeps (P : SwarmCall -> Prop) (new : PeerId -> Multiaddr -> Prop) el sh cmd el' sh' :
  (forall c s' fin, run (task_handler cmd) (el_swarm el) = Some (c, s', fin) ->
     within P (el_swarm el) s'
     /\ forall p addrs, (take_relay_reservation_request c).2 = Some (p, addrs) ->
          forall a, a ∈ addrs -> new p a /\ P (CallListenOn (relay_circuit_addr p a))) ->
  handle_command el sh cmd = Some (el', sh') ->
  within P (el_swarm el) (el_swarm el') /\ loop_keeps new el el'.
Proof.
  unfold handle_command. intros Hrun.
  destruct (run (task_handler cmd) (el_swarm el)) as [[[c s'] fin]|]; [|done].
  destruct (Hrun c s' fin eq_refl) as [Hw Hrelay].
  destruct (take_relay_reservation_request c) as [c' req]. intros [= <- _]. simpl in *.
  destruct req as [[p addrs]|]; [|split; [exact Hw|by apply loop_keeps_same]].
  specialize (Hrelay _ _ eq_refl). case_match.
  - destruct (within_relay P (el_set_swarm s' el) p addrs) as (s2 & -> & Hs2); [intros a Ha; by apply Hrelay|].
    split; [etrans; [exact Hw|exact Hs2]|by apply loop_keeps_same].
  - split; [exact Hw|]. destruct (extend_keeps new (el_set_swarm s' el) p addrs) as (Hv & Hl & Hb);
      [intros a Ha; by apply Hrelay|]. by split_and!.
Qed.

Lemma call_keeps config (call : ClientCall) el sh cmd el' sh' :
  sw_relay_client_is_enabled (el_swarm el) = enable_relay_client config ->
  call_command call = Some (task_handler cmd) -> handle_command el sh cmd = Some (el', sh') ->
  within (asks config call) (el_swarm el) (el_swarm el') /\ loop_keeps (wanted_by config call) el el'.
Proof.
  intros Hen Hc. apply command_keeps. intros c s' fin Hr.
  destruct (run_prompted _ _ _ _ _ _ _ Hen Hc Hr) as [Hw Hrelay]. split; [done|].
  intros p addrs Hreq a Ha. destruct (Hrelay _ _ Hreq) as (Hon & roles & -> & Hrole).
  split; [split; [done|by exists addrs, roles]|]. split; [done|]. split; [done|by exists a].
Qed.

Lemma response_keeps ch resp el sh cmd el' sh' :
  task_handler cmd = ASendResponse (SendResponseCommand_new ch resp) ->
  handle_command el sh cmd = Some (el', sh') ->
  within (fun c => c = CallSendResponse ch resp) (el_swarm el) (el_swarm el') /\ loop_keeps (fun _ _ => False) el el'.
Proof.
  intros Hc. apply command_keeps. rewrite Hc. intros c s' fin. simpl. unfold run_boxed_as, H_map, fmap, H_fmap.
  simpl. unfold SendResponseCommand_run. run_H. intros Hr.
  repeat (case_match; simpl in Hr); simplify_eq/=; (split; [by one_call|done]).
Qed.

(** ** Events *)

Context `{!HashOrderLaws}.

(** Why the loop acts on an event that is left to it. *)
Definition event_reason config el ev (c : SwarmCall) : Prop :=
  prompts config ev c
  \/ exists p addrs a, el_bootstrap_peers el !! p = Some addrs /\ a ∈ addrs
       /\ c = CallListenOn (relay_circuit_addr p a).
Definition event_keeps config el ev el' : Prop :=
  within (event_reason config el ev) (el_swarm el) (el_swarm el') /\ loop_keeps (fun _ _ => False) el el'.

Lemma identify_keeps config el p info :
  el_protocol_version el = protocol_version config ->
  event_keeps config el (Behaviour (CBE_IdentifyReceived p info)) (on_identify_received el p info).
Proof.
  intros Hv. unfold event_keeps, on_identify_received. case_decide as Hi; [|split; [done|by apply loop_keeps_same]].
  cbv zeta. set (s1 := foldl _ (el_swarm el) _).
  assert (within (event_reason config el (Behaviour (CBE_IdentifyReceived p info))) (el_swarm el) s1) as Hs1.
  { apply within_fold. intros s a Ha. exists [CallKadAddAddress p a; CallAddPeerAddress p a].
    split; [unfold calls_of; simpl; by rewrite <- app_assoc|].
    assert (info_protocol_version info = protocol_version config) by congruence.
    intros c [->|[->|[]%not_elem_of_nil]%elem_of_cons]%elem_of_cons; by left. }
  clearbody s1. destruct (el_bootstrap_peers (el_set_swarm s1 el) !! p) as [addrs|] eqn:Hb; simpl in Hb;
    [|split; [done|by apply loop_keeps_same]].
  match goal with |- context [request_relay_reservations ?e ?q ?l] => destruct (within_relay
    (event_reason config el (Behaviour (CBE_IdentifyReceived p info))) e q l) as (s2 & -> & Hs2) end.
  { intros a Ha. right. by exists p, addrs, a. }
  split; [etrans; [exact Hs1|exact Hs2]|]. split_and!; [done..|].
  simpl. intros q l a [_ Hq]%lookup_delete_Some Ha. left. by exists l.
Qed.

Lemma routing_keeps config el p addrs :
  event_keeps config el (Behaviour (CBE_Kad (RoutingUpdated p addrs))) (on_routing_updated el p addrs).
Proof.
  split; [|by apply loop_keeps_same]. apply within_fold. intros s a Ha. one_call. by left.
Qed.

Lemma mdns_keeps config el peers :
  event_keeps config el (Behaviour (CBE_MdnsDiscovered peers)) (on_mdns_discovered el peers).
Proof.
  split; [|by apply loop_keeps_same]. unfold on_mdns_discovered. simpl. etrans; apply within_fold.
  - intros s [p a] Hin. one_call. by left.
  - intros s p Hp. case_match; [done|]. one_call. left. simpl.
    by rewrite hs_iter_perm, elem_of_elements, elem_of_list_to_set in Hp.
Qed.

Lemma lan_keeps config el sh a el' sh' :
  el_lan_helper el = lan_helper_of (infrastructure_mode config) ->
  maybe_announce_lan_helper_addr el sh a = (el', sh') -> event_keeps config el (NewListenAddr a) el'.
Proof.
  intros Hm. unfold maybe_announce_lan_helper_addr.
  assert (event_keeps config el (NewListenAddr a) el) as Hsame by (split; [done|by apply loop_keeps_same]).
  destruct (el_lan_helper el) as [cfg|] eqn:Hl; [|by intros [= <- <-]].
  destruct (announce_private_addrs cfg) eqn:Ha; simpl; [|by intros [= <- <-]].
  set (el1 := if _ && _ then _ else _). intros Hs.
  assert (el' = el1) as -> by (by case_match; simplify_eq). clear Hs. unfold el1.
  destruct (is_usable_lan_addr a) eqn:Hu; simpl; [|done]. case_bool_decide; simpl; [done|].
  split; [|by apply loop_keeps_same]. one_call. left. simpl. by rewrite <- Hm.
Qed.

(** What the loop does itself when an event is left to it. *)
Lemma event_prompted config el sh ev el' sh' o :
  el_protocol_version el = protocol_version config ->
  el_lan_helper el = lan_helper_of (infrastructure_mode config) ->
  handle_swarm_event el sh ev = Some (el', sh', o) -> event_keeps config el ev el'.
Proof.
  intros Hv Hm (active & sh1 & r & Hch & He & _)%handle_swarm_event_inv.
  assert (forall ev el1, event_keeps config (el_set_active active el) ev el1 -> event_keeps config el ev el1) as Hset
    by (by intros ev1 el1 [Hw Hk]).
  assert (event_keeps config el ev (el_set_active active el)) as Hsame
    by (split; [done|by apply loop_keeps_same]).
  destruct r as [ev'|]; [|by injection He as -> -> ->].
  assert (ev' = ev) as -> by (by destruct Hch as (? & ? & _ & _ & _ & -> & _)). clear Hch. revert He.
  destruct ev as [[p [rtt|e]|p info|[i r st l|p addrs|]|[]|ps|[]|e|a sv [u|x]|p r|]|p n|p n|q e| |a| | |];
    simpl; try (by intros [= -> -> ->]).
  - intros [= -> -> ->]. by apply Hset, identify_keeps.
  - intros [= -> -> ->]. by apply Hset, routing_keeps.
  - intros [= -> -> ->]. by apply Hset, mdns_keeps.
  - destruct (maybe_announce_lan_helper_addr _ _ _) as [el1 sh2] eqn:Hl. intros [= -> -> ->].
    by eapply Hset, lan_keeps.
Qed.

End commands.

(** ** The start *)

Section started.
Context `{N : NetTypes} {Sw : Type}.
Context `{!SwarmOps Sw, !SwarmPoll Sw, !RelayToggle Sw, !HashOrder, !Mpsc, !MpscLaws}.
Implicit Types (el : EventLoop (Traced (Logged Sw)) AnyCommand).

Lemma start_listen_keeps (P : SwarmCall -> Prop) addrs el :
  (forall a, a ∈ addrs -> P (CallListenOn a)) ->
  within P (el_swarm el) (el_swarm (start_listen el addrs).1)
  /\ loop_keeps (fun _ _ => False) el (start_listen el addrs).1.
Proof.
  revert el. induction addrs as [|a addrs IH]; intros el HP; [split; [done|by apply loop_keeps_same]|].
  cbn [start_listen]. assert (within P (el_swarm el) (sw_listen_on (el_swarm el) a).1) as Hw.
  { one_call. apply HP. by left. }
  destruct (sw_listen_on (el_swarm el) a) as [s [u|e]]; cbn [fst] in *;
    [|split; [exact Hw|by apply loop_keeps_same]].
  destruct (IH (el_set_swarm s el)) as [Hw' Hk]; [intros b Hb; apply HP; by right|].
  split; [etrans; [exact Hw|exact Hw']|exact Hk].
Qed.

Lemma loop_keeps_trans (new : PeerId -> Multiaddr -> Prop) el1 el2 el3 :
  loop_keeps new el1 el2 -> loop_keeps new el2 el3 -> loop_keeps new el1 el3.
Proof.
  intros (Hv & Hl & Hb) (Hv' & Hl' & Hb'). split_and!; [congruence..|].
  intros p addrs a Hp Ha. destruct (Hb' _ _ _ Hp Ha) as [(l & Hq & Ha')|?]; [by eapply Hb|by right].
Qed.

(** Contacting the bootstrap peers: for each entry its address, then a dial. *)
Lemma connect_keeps peers el (P : SwarmCall -> Prop) (new : PeerId -> Multiaddr -> Prop) :
  (forall p a, (p, a) ∈ peers ->
     P (CallKadAddAddress p a) /\ P (CallAddPeerAddress p a) /\ P (CallDial p)
     /\ (el_enable_relay_client el = true -> new p a)) ->
  within P (el_swarm el) (el_swarm (connect_bootstrap_peers el peers))
  /\ loop_keeps new el (connect_bootstrap_peers el peers).
Proof.
  unfold connect_bootstrap_peers. revert el.
  induction peers as [|[p a] peers IH]; intros el HP; simpl; [split; [done|by apply loop_keeps_same]|].
  set (el1 := if el_enable_relay_client el then _ else _).
  destruct (HP p a) as (Hkad & Hbook & Hdial & Hnew); [by left|].
  assert (within P (el_swarm el) (el_swarm el1)) as Hw.
  { exists [CallKadAddAddress p a; CallAddPeerAddress p a; CallDial p]. split.
    - unfold el1. destruct (el_enable_relay_client el); unfold calls_of; simpl; by rewrite <- !app_assoc.
    - intros c [->|[->|[->|[]%not_elem_of_nil]%elem_of_cons]%elem_of_cons]%elem_of_cons; done. }
  assert (loop_keeps new el el1 /\ el_enable_relay_client el1 = el_enable_relay_client el) as [Hk He].
  { unfold el1. destruct (el_enable_relay_client el) eqn:Hrc; (split; [|done]); [|by apply loop_keeps_same].
    match goal with |- loop_keeps _ _ (bootstrap_extend _ _ ?e) =>
      apply (loop_keeps_trans new el e); [by apply loop_keeps_same|] end.
    apply extend_keeps. intros b ->%list_elem_of_singleton. by apply Hnew. }
  clearbody el1. destruct (IH el1) as [Hw' Hk'].
  { intros q b Hin. rewrite He. apply HP. by right. }
  split; [by etrans|by eapply loop_keeps_trans].
Qed.

Lemma start_prompted {Ctl} (accept : Ctl -> StreamProtocol -> Ctl * bool) swarm ctl now dc_id config
    (node : Node (Traced (Logged Sw)) AnyCommand CmdValue) :
  tr_log swarm = [] -> calls_of swarm = [] ->
  sw_relay_client_is_enabled swarm = enable_relay_client config ->
  start accept swarm ctl now dc_id config = Ok node -> explained_calls config [] (system_of node).
Proof.
  intros Hnil Hcalls Hen Hst.
  assert (sw_relay_client_is_enabled (swarm_of (system_of node)) = enable_relay_client config) as Hen'.
  { rewrite <- Hen. by eapply relay_client_ops, book_ops, start_book. }
  destruct (system_of_accounted _ _ _ _ _ _ _ Hnil Hst) as [_ Ha].
  revert Hst. unfold start.
  set (el0 := EventLoop_new swarm (protocol_version config) (enable_relay_client config) (infrastructure_mode config)).
  destruct (start_listen_keeps (configured config) (listen_addrs config) el0) as [Hw (Hv & Hl & Hb)];
    [by left|].
  assert (el_enable_relay_client (start_listen el0 (listen_addrs config)).1 = enable_relay_client config) as Hrc.
  { generalize (listen_addrs config) as addrs. subst el0. clear.
    assert (forall addrs el, el_enable_relay_client (start_listen el addrs).1 = el_enable_relay_client el) as Hk;
      [|intros addrs; apply Hk].
    induction addrs as [|a addrs IH]; intros el; [done|]. cbn [start_listen].
    destruct (sw_listen_on (el_swarm el) a) as [s [u|e]]; [by rewrite IH|done]. }
  destruct (start_listen el0 (listen_addrs config)) as [el1 [u|e]]; [|done]. simpl in *.
  set (el2 := match bootstrap_peers config with [] => el1 | _ => _ end). intros [= <-].
  assert (within (configured config) (el_swarm el1) (el_swarm el2)
          /\ loop_keeps (relay_wanted config []) el1 el2) as [Hw2 (Hv2 & Hl2 & Hb2)].
  { unfold el2. destruct (bootstrap_peers config) as [|x peers] eqn:Hp; [split; [done|by apply loop_keeps_same]|].
    apply (connect_keeps (x :: peers) el1). intros p a Hin. simpl. rewrite Hp.
    split_and!; [done|done|by apply (list_elem_of_fmap_2 fst _ (p, a))|].
    intros Hrel. split; [congruence|]. left. by rewrite Hp. }
  clearbody el2. split; simpl; [done|congruence|congruence|exact Hen'| |].
  - intros p addrs a Hp Hin. destruct (Hb2 _ _ _ Hp Hin) as [(l & Hq & Hin')|?]; [|done].
    by destruct (Hb _ _ _ Hq Hin') as [(l' & Hq' & _)|[]].
  - intros c Hc. left. destruct (within_elem (configured config) swarm (el_swarm el2) c) as [Hin|?];
      [by etrans|done| |done]. rewrite Hcalls in Hin. by apply elem_of_nil in Hin.
Qed.

End started.

(** ** The invariant *)

Section invariant.
Context `{N : NetTypes} {Sw : Type}.
Context `{!SwarmOps Sw, !SwarmPoll Sw, !RelayToggle Sw, !HashOrder, !HashOrderLaws, !Mpsc, !MpscLaws}.
Implicit Types (s : System (Traced (Logged Sw))) (hist : list Label).

Lemma prompted_mono config hist lab s s' c :
  extends s s' -> prompted config hist s c -> prompted config (hist ++ [lab]) s' c.
Proof.
  intros Hx. destruct (tr_le_events _ _ (proj1 Hx)) as [later He].
  intros [?|[(loc & call & Hc & ?)|[(ch & resp & Hr & ?)|(ev & Hev & ?)]]]; [by left|right; left|right; right; left|right; right; right].
  - exists loc, call. set_solver.
  - exists ch, resp. split; [done|by eapply answered_mono].
  - exists ev. rewrite He. set_solver.
Qed.

Lemma relay_wanted_mono config hist lab p a :
  relay_wanted config hist p a -> relay_wanted config (hist ++ [lab]) p a.
Proof.
  intros [Hon [?|(loc & addrs & roles & Hc & ?)]]; (split; [done|]); [by left|right].
  exists loc, addrs, roles. set_solver.
Qed.

(** A wanted reservation explains the listening. *)
Lemma relay_wanted_prompted config hist s p a :
  relay_wanted config hist p a -> prompted config hist s (CallListenOn (relay_circuit_addr p a)).
Proof.
  intros [Hon [Hin|(loc & addrs & roles & Hc & Hrole & Hin)]].
  - left. right. split; [done|]. by exists p, a.
  - right; left. exists loc, (CAddInfrastructurePeer p addrs roles). split; [done|]. split_and!; [done..|by exists a].
Qed.

(** A step is explained when what it adds is. *)
Lemma explained_step config hist lab s s' (P : SwarmCall -> Prop) (new : PeerId -> Multiaddr -> Prop) :
  explained_calls config hist s -> accounted (hist ++ [lab]) s' -> extends s s' ->
  sw_relay_client_is_enabled (swarm_of s') = sw_relay_client_is_enabled (swarm_of s) ->
  within P (swarm_of s) (swarm_of s') -> loop_keeps new (nw_loop (sy_node s)) (nw_loop (sy_node s')) ->
  (forall c, P c -> prompted config (hist ++ [lab]) s' c) ->
  (forall p a, new p a -> relay_wanted config (hist ++ [lab]) p a) ->
  explained_calls config (hist ++ [lab]) s'.
Proof.
  intros [_ Hv Hm Hen Hr Hc] Ha Hle Hen' Hw (Hv' & Hm' & Hb) HP Hnew. split; [done|congruence..| |].
  - intros p addrs a Hp Hin. destruct (Hb _ _ _ Hp Hin) as [(l & Hl & Hin')|?]; [|by apply Hnew].
    by eapply relay_wanted_mono, Hr.
  - intros c [Hin|?]%(within_elem _ _ _ _ Hw); [|by apply HP]. by eapply prompted_mono, Hc.
Qed.

(** What the application does is nothing to the loop. *)
Lemma explained_quiet config hist lab s s' :
  explained_calls config hist s -> accounted (hist ++ [lab]) s' ->
  extends s s' -> nw_loop (sy_node s') = nw_loop (sy_node s) -> explained_calls config (hist ++ [lab]) s'.
Proof.
  intros Hx Ha He Hl. eapply (explained_step _ _ _ _ _ (fun _ => False) (fun _ _ => False)); [done|done|exact He|..];
    unfold swarm_of; rewrite ?Hl; try done. by apply loop_keeps_same.
Qed.

Lemma command_explained config hist s s' sh' cmd :
  explained_calls config hist s -> accounted (hist ++ [Tau]) s' -> extends s s' ->
  sw_relay_client_is_enabled (swarm_of s') = sw_relay_client_is_enabled (swarm_of s) ->
  ordered hist s (task_handler cmd) ->
  handle_command (nw_loop (sy_node s)) (nw_shared (sy_node s)) cmd = Some (nw_loop (sy_node s'), sh') ->
  explained_calls config (hist ++ [Tau]) s'.
Proof.
  intros Hx Ha Hle Hen [(loc & call & Hin & Hcall)|(ch & resp & Hc & Hans)] Hh.
  - destruct (call_keeps config _ _ _ _ _ _ (xc_relay_client _ _ _ Hx) Hcall Hh) as [Hw Hk].
    eapply explained_step; [exact Hx|done|done|done|exact Hw|exact Hk|..].
    + intros c Hc. right; left. exists loc, call. set_solver.
    + intros q a (Hon & addrs & roles & -> & Hrole & Ha'). split; [done|]. right. exists loc, addrs, roles. set_solver.
  - destruct (response_keeps _ _ _ _ _ _ _ Hc Hh) as [Hw Hk].
    eapply explained_step; [exact Hx|done|done|done|exact Hw|exact Hk|..]; [|done].
    intros c ->. right; right; left. exists ch, resp. split; [done|by eapply answered_mono].
Qed.

Lemma event_explained config hist s s' sw sh' o ev :
  explained_calls config hist s -> accounted (hist ++ [Tau]) s' -> extends s s' ->
  sw_relay_client_is_enabled (swarm_of s') = sw_relay_client_is_enabled (swarm_of s) ->
  sw_poll (swarm_of s) (Some ev) sw ->
  handle_swarm_event (el_set_swarm sw (nw_loop (sy_node s))) (nw_shared (sy_node s)) ev
  = Some (nw_loop (sy_node s'), sh', o) ->
  explained_calls config (hist ++ [Tau]) s'.
Proof.
  intros Hx Ha Hle Hen [[_ Hcalls] Hlog] Hh.
  pose proof (book_log _ _ (handle_swarm_event_book _ _ _ _ _ _ Hh)) as Hbook. simpl in Hbook. rewrite Hlog in Hbook.
  destruct (event_prompted config (el_set_swarm sw (nw_loop (sy_node s))) _ _ _ _ _
    (xc_version _ _ _ Hx) (xc_mode _ _ _ Hx) Hh) as [Hw Hk].
  eapply explained_step; [exact Hx|done|exact Hle|exact Hen| | |..].
  - etrans; [apply within_same; exact Hcalls|exact Hw].
  - exact Hk.
  - intros c [Hp|(p & addrs & a & Hp & Hin & ->)].
    + right; right; right. exists ev. split; [|done]. unfold tr_events, swarm_of. rewrite Hbook, omap_app. set_solver.
    + apply relay_wanted_prompted, relay_wanted_mono. by eapply (xc_relays _ _ _ Hx).
  - done.
Qed.

(** What holds of every call on the swarm and of every poll holds of a step. *)
Lemma sys_step_swarm (R : relation (Traced (Logged Sw))) hist lab s s' :
  PreOrder R ->
  (forall t t', swarm_op t t' -> R t t') -> (forall t o t', sw_poll t o t' -> R t t') ->
  sys_step lab s s' -> accounted hist s -> R (swarm_of s) (swarm_of s').
Proof.
  intros HR Hop Hpoll Hs Ha.
  assert (forall t t', rtc swarm_op t t' -> R t t') as Hops.
  { induction 1 as [|t t1 t2 H12 _ IH]; [done|]. etrans; [by apply Hop|done]. }
  destruct Hs as [w w' cl ca op ch Hs| | | | | | | | | | | | | | | | | | | | | | |]; try (reflexivity).
  destruct Hs as [el sh q n rcv cv|el sh q q' n rcv cv cmd el' sh' Hr Hc| |el sh q n rcv cv ev s el' sh' o Hp He
    |el sh q n rcv cv s Hp| | | |]; try (reflexivity).
  - destruct (handle_command_swarm _ _ _ _ _ Hc) as (c & s & fin & Hrun & _ & Hb%book_ops).
    assert (command_key (task_handler cmd) = None) as Hk.
    { apply ch_recv_inv in Hr as [Hq _].
      destruct (ac_queued _ _ Ha cmd) as [(loc & call & _ & Hcmd)|(c' & resp & -> & _)]; [simpl; rewrite Hq; by left| |done].
      destruct call; simpl in Hcmd; by injection Hcmd as <-. }
    transitivity s; [|exact (Hops _ _ Hb)].
    destruct (run_allocates _ _ _ _ _ Hk Hrun) as [[_ Hr']|(k & _ & Hal%alloc_op)]; [exact (Hops _ _ Hr')|exact (Hop _ _ Hal)].
  - apply handle_swarm_event_ops in He. etrans; [exact (Hpoll _ _ _ Hp)|exact (Hops _ _ He)].
  - exact (Hpoll _ _ _ Hp).
Qed.

(** No step switches the relay client, or takes a call back. *)
Lemma sys_step_toggle hist lab s s' :
  sys_step lab s s' -> accounted hist s ->
  sw_relay_client_is_enabled (swarm_of s') = sw_relay_client_is_enabled (swarm_of s).
Proof.
  apply (sys_step_swarm (fun t t' => sw_relay_client_is_enabled t' = sw_relay_client_is_enabled t)).
  - split; [by intros t|]. intros t1 t2 t3 H12 H23. by rewrite H23.
  - apply relay_client_op.
  - apply relay_client_poll.
Qed.

Lemma sys_step_calls_le hist lab s s' :
  sys_step lab s s' -> accounted hist s -> calls_of (swarm_of s) `prefix_of` calls_of (swarm_of s').
Proof.
  apply (sys_step_swarm (fun t t' => calls_of t `prefix_of` calls_of t')).
  - split; [by intros t|]. intros t1 t2 t3 H12 H23. by etrans.
  - intros t t' []; by eexists.
  - intros t o t' [[_ Hc] _]. unfold calls_of. by rewrite Hc.
Qed.

Lemma sys_step_explained config hist lab s s' :
  sys_step lab s s' -> explained_calls config hist s -> explained_calls config (hist ++ [lab]) s'.
Proof.
  intros Hs Hx. pose proof (sys_step_accounted _ _ _ _ Hs (xc_accounted _ _ _ Hx)) as Ha.
  pose proof (sys_step_extends _ _ _ Hs) as Hle.
  pose proof (sys_step_toggle _ _ _ _ Hs (xc_accounted _ _ _ Hx)) as Hen.
  destruct Hs as [w w' cl ca op ch Hs| | | | | | | | | | | | | | | | | | | | | | |]; try (by eapply explained_quiet).
  destruct Hs as [el sh q n rcv cv|el sh q q' n rcv cv cmd el' sh' Hr Hc| |el sh q n rcv cv ev s el' sh' o Hp He
    |el sh q n rcv cv s [[_ Hcalls] Hlog]| | | |]; try (by eapply explained_quiet).
  - eapply (explained_step _ _ _ _ _ (fun _ => False) (fun _ _ => False)); [exact Hx|done|exact Hle|exact Hen|done|..]; try done.
    by apply loop_keeps_same.
  - eapply (command_explained config hist _ _ sh' cmd Hx Ha Hle Hen); [|exact Hc].
    apply (ac_queued _ _ (xc_accounted _ _ _ Hx)). simpl. apply ch_recv_inv in Hr as [-> _]. by left.
  - by eapply (event_explained config hist _ _ s sh' o ev Hx Ha Hle Hen).
  - eapply (explained_step _ _ _ _ _ (fun _ => False) (fun _ _ => False)); [exact Hx|done|exact Hle|exact Hen|..]; try done.
    + by apply within_same.
    + by apply loop_keeps_same.
Qed.

End invariant.

(** ** Properties *)

(** C10. A node does nothing on its own: in every run of a started node with its
    clients, every call the node has made on its swarm, with its arguments, was
    asked for by its configuration (listen addresses, bootstrap peers, their
    relays), or by a method its application called (the same peer, key, record
    or request; a reservation only if the relay client is on), or gives the application's own response on the channel of the
    request it was given for, or was prompted by an event the swarm yielded: an
    mDNS discovery for dialling and registering the discovered peers, an
    identify of a peer of the same protocol version for registering the addresses
    the peer announced, a routing update, or a new usable listen address of a
    LAN helper.  In particular every dial goes to a peer named in one of these. *)
Theorem node_acts_on_request `{N : NetTypes} {Sw}
    `{!SwarmOps Sw, !SwarmPoll Sw, !RelayToggle Sw, !HashOrder, !HashOrderLaws, !Mpsc, !MpscLaws}
    {Ctl} (accept : Ctl -> StreamProtocol -> Ctl * bool) (swarm : Traced (Logged Sw)) (ctl : Ctl)
    (now dc_id : Z) (config : NodeConfig) (node : Node (Traced (Logged Sw)) AnyCommand CmdValue)
    (hist : list Label) (s : System (Traced (Logged Sw))) (c : SwarmCall) :
  tr_log swarm = [] -> calls_of swarm = [] ->
  sw_relay_client_is_enabled swarm = enable_relay_client config ->
  start accept swarm ctl now dc_id config = Ok node ->
  history (system_of node) hist s -> c ∈ calls_of (swarm_of s) ->
  configured config c
  \/ (exists loc call, Called loc call ∈ hist /\ asks config call c)
  \/ (exists ch response id p request, c = CallSendResponse ch response
        /\ Responding id response ∈ hist
        /\ Behaviour (CBE_ReqResp (RR_Request p request ch)) ∈ tr_events (swarm_of s)
        /\ InboundRequest p id request ∈ nw_converted (sy_node s))
  \/ (exists ev, ev ∈ tr_events (swarm_of s) /\ prompts config ev c).
Proof.
  intros Hnil Hcalls Hen Hst Hrun Hc. assert (explained_calls config hist s) as Hx.
  { clear Hc. induction Hrun as [|hist lab s s' _ IH Hs]; [by eapply start_prompted|by eapply sys_step_explained]. }
  destruct (xc_calls _ _ _ Hx _ Hc) as [?|[?|[(ch & resp & -> & id & p & request & Hr & Hev & Hrep)|?]]]; [by left|by right; left| |by do 3 right].
  do 2 right. left. by exists ch, resp, id, p, request.
Qed.
