(* ===== verification/Network.v ===== *)
(** * Nodes joined by a network

    Any number of nodes, each with its clients, whose swarms talk to each other.
    What libp2p does in between is the relation [net_yields]: a swarm reports a
    request only if its peer made it, on a fresh response channel, and a response
    only if the other side answered that channel.  The theorems trace what an
    application receives back, through both event loops, to what the
    application at the other end did. *)
From S2P Require Import Prelude Externals Errors DataChannel PendingMap Config Handle Handler.
From S2P Require Import BasicCommands KadCommands KadQueries ReqRespCommands Commands.
From S2P Require Import EventLoop EventChain CommandChain SwarmIds LoopFrame Trace Client Node System Calls.
From S2P Require Import Isolation Provenance.
From stdpp Require Import functions.

Section network.
Context `{N : NetTypes} {Sw : Type} `{!SwarmOps Sw, !SwarmPoll Sw, !HashOrder, !Mpsc}.

(** A request in transit: whose it is, under which identifier, to whom it was
    delivered and on which channel. *)
Record Exchange := mkExchange {
  ex_from : PeerId;
  ex_to : PeerId;
  ex_id : OutboundRequestId;
  ex_request : Req;
  ex_channel : ResponseChannel;
}.

Record Net := mkNet {
  net_nodes : PeerId -> System (Traced Sw);
  net_exchanges : list Exchange;
  net_history : list (PeerId * Label);
}.

(** What the application of [i] has done and seen. *)
Definition labels_of (i : PeerId) (hist : list (PeerId * Label)) : list Label :=
  omap (fun x => if decide (x.1 = i) then Some x.2 else None) hist.

Definition req_resp_event (ev : SwarmEvent) : bool :=
  match ev with
  | Behaviour (CBE_ReqResp (RR_Request _ _ _)) | Behaviour (CBE_ReqResp (RR_Response _ _ _)) => true
  | _ => false
  end.

(** The events the network lets the swarm of [i] yield, and what is delivered
    with them. *)
Inductive net_yields (net : Net) (i : PeerId) : option SwarmEvent -> list Exchange -> Prop :=
| ny_request p request channel rid :
    OAlloc (ISendRequest i request) (KRequest rid) ∈ tr_log (swarm_of (net_nodes net p)) ->
    (forall x, x ∈ net_exchanges net -> ex_to x = i -> ex_channel x <> channel) ->
    net_yields net i (Some (Behaviour (CBE_ReqResp (RR_Request p request channel))))
      [mkExchange p i rid request channel]
| ny_response x response :
    x ∈ net_exchanges net -> ex_from x = i ->
    OAnswer (ex_channel x) response ∈ tr_log (swarm_of (net_nodes net (ex_to x))) ->
    net_yields net i (Some (Behaviour (CBE_ReqResp (RR_Response (ex_to x) (ex_id x) response)))) []
| ny_other ev : req_resp_event ev = false -> net_yields net i (Some ev) []
| ny_nothing : net_yields net i None [].

(** One node takes one step. *)
Inductive net_step (net : Net) : Net -> Prop :=
| net_step_intro i lab s o l :
    sys_step lab (net_nodes net i) s ->
    tr_events (swarm_of s) = tr_events (swarm_of (net_nodes net i)) ++ option_list o ->
    net_yields net i o l ->
    net_step net (mkNet (<[i := s]> (net_nodes net)) (net_exchanges net ++ l)
                    (net_history net ++ [(i, lab)])).

(** Every node just started, with its own configuration, on a swarm that has
    not given out an identifier. *)
Definition net_started (net : Net) : Prop :=
  net_exchanges net = [] /\ net_history net = []
  /\ forall i, exists (Ctl : Type) (accept : Ctl -> StreamProtocol -> Ctl * bool) swarm ctl now dc_id config node,
       tr_log swarm = [] /\ start accept swarm ctl now dc_id config = Ok node
       /\ net_nodes net i = system_of node.

End network.
Arguments Net {_} Sw {_}.

(** ** The invariant *)

Section invariant.
Context `{N : NetTypes} {Sw : Type}.
Context `{!SwarmOps Sw, !SwarmPoll Sw, !HashOrder, !Mpsc, !MpscLaws, !SwarmIds Sw, !SwarmIdLaws Sw}.
Implicit Types (net : Net Sw) (s : System (Traced Sw)).

(** What each node satisfies on its own. *)
Record node_ok (hist : list Label) s : Prop := {
  nk_isolated : isolated_inv s;
  nk_ids : ids_once (swarm_of s);
  nk_accounted : accounted hist s;
}.

(** What ties the nodes together. *)
Record net_ok net : Prop := {
  no_nodes : forall i, node_ok (labels_of i (net_history net)) (net_nodes net i);
  no_delivered : forall i p request ch,
    Behaviour (CBE_ReqResp (RR_Request p request ch)) ∈ tr_events (swarm_of (net_nodes net i)) ->
    exists rid, mkExchange p i rid request ch ∈ net_exchanges net;
  no_sent : forall x, x ∈ net_exchanges net ->
    OAlloc (ISendRequest (ex_to x) (ex_request x)) (KRequest (ex_id x))
    ∈ tr_log (swarm_of (net_nodes net (ex_from x)));
  no_answered : forall i p rid resp,
    Behaviour (CBE_ReqResp (RR_Response p rid resp)) ∈ tr_events (swarm_of (net_nodes net i)) ->
    exists x, x ∈ net_exchanges net /\ ex_from x = i /\ ex_to x = p /\ ex_id x = rid
      /\ OAnswer (ex_channel x) resp ∈ tr_log (swarm_of (net_nodes net p));
  no_channels : forall x y, x ∈ net_exchanges net -> y ∈ net_exchanges net ->
    ex_to x = ex_to y -> ex_channel x = ex_channel y -> x = y;
}.

(** A command that runs gives out a fresh identifier, or none. *)
Lemma run_ids_once (c c' : AnyCommand) (s s' : Traced Sw) fin :
  command_key c = None -> run c s = Some (c', s', fin) -> ids_once s -> ids_once s'.
Proof.
  intros Hk Hr. destruct (run_allocates c c' s s' fin Hk Hr) as [[Hn Hops]|(k & _ & Ha)];
    [|by eapply alloc_ids_once].
  apply ids_once_mono; [|intros k; by apply issued_ops].
  destruct (run_log _ _ _ _ _ Hr) as (l & Hl%tr_ids_app & [->|[(call & k & _ & _ & Hk')|(ch & r & -> & _)]]);
    [by rewrite Hl, app_nil_r|congruence|by rewrite Hl, app_nil_r].
Qed.

Lemma sys_step_ids lab s s' :
  sys_step lab s s' -> isolated_inv s -> ids_once (swarm_of s) -> ids_once (swarm_of s').
Proof.
  intros Hs (_ & _ & O & Hi). destruct Hs as [w w' cl ca op ch Hs| | | | | | | | | | | | | | | | | | | | | | |];
    try done.
  destruct Hs as [|el sh q q' n rcv cv cmd el' sh' Hr Hc| |el sh q n rcv cv ev s el' sh' o Hp He
    |el sh q n rcv cv s Hp| | | |]; unfold swarm_of; simpl; try done.
  - apply ch_recv_inv in Hr as [Hq _].
    destruct (handle_command_swarm _ _ _ _ _ Hc) as (c & s & fin & Hrun & _ & Hb).
    intros Hids. eapply book_ids_once; [exact Hb|]. eapply run_ids_once; [|exact Hrun|exact Hids].
    rewrite (io_queued _ _ Hi) by (simpl; rewrite Hq; by left). apply (io_fresh _ _ Hi).
  - intros Hids. eapply book_ids_once; [by eapply handle_swarm_event_book|]. by eapply poll_ids_once.
  - by eapply poll_ids_once.
Qed.

Lemma sys_step_node_ok lab hist s s' :
  sys_step lab s s' -> node_ok hist s -> node_ok (hist ++ [lab]) s'.
Proof.
  intros Hs [Hi Hids Ha]. split; [by eapply sys_step_isolated|by eapply sys_step_ids|].
  by eapply sys_step_accounted.
Qed.

Lemma labels_of_snoc i j lab hist :
  labels_of i (hist ++ [(j, lab)]) = labels_of i hist ++ (if decide (j = i) then [lab] else []).
Proof. unfold labels_of. rewrite omap_app. simpl. by case_decide. Qed.

Lemma labels_of_elem i lab hist : lab ∈ labels_of i hist <-> (i, lab) ∈ hist.
Proof.
  unfold labels_of. rewrite list_elem_of_omap. split.
  - intros ([j l] & Hin & Hl). simpl in Hl. case_decide; by simplify_eq.
  - intros Hin. exists (i, lab). split; [done|]. simpl. by rewrite decide_True.
Qed.

Lemma net_step_le net net' :
  net_step net net' -> forall j, tr_le (swarm_of (net_nodes net j)) (swarm_of (net_nodes net' j)).
Proof.
  intros [i lab s o l Hs _ _] j. simpl. destruct (decide (j = i)) as [->|Hne].
  - rewrite fn_lookup_insert. by eapply sys_step_le.
  - by rewrite fn_lookup_insert_ne.
Qed.

(** A new event at [j] is one that the network let through. *)
Lemma net_step_event net i s o l lab j ev :
  tr_events (swarm_of s) = tr_events (swarm_of (net_nodes net i)) ++ option_list o ->
  ev ∈ tr_events (swarm_of (net_nodes (mkNet (<[i := s]> (net_nodes net)) l lab) j)) ->
  ev ∈ tr_events (swarm_of (net_nodes net j)) \/ (j = i /\ o = Some ev).
Proof.
  intros He. simpl. destruct (decide (j = i)) as [->|Hne].
  - rewrite fn_lookup_insert, He. intros [?|Ho]%elem_of_app; [by left|right].
    destruct o; simpl in Ho; [by apply list_elem_of_singleton in Ho as ->|by apply elem_of_nil in Ho].
  - rewrite fn_lookup_insert_ne by done. by left.
Qed.

Lemma net_step_ok net net' : net_step net net' -> net_ok net -> net_ok net'.
Proof.
  intros Hstep [Hn Hd Hs Ha Hc]. pose proof (net_step_le _ _ Hstep) as Hle.
  destruct Hstep as [i lab s o l Hsys Hev Hy].
  assert (forall x, x ∈ l -> exists p request channel rid, x = mkExchange p i rid request channel
    /\ o = Some (Behaviour (CBE_ReqResp (RR_Request p request channel)))
    /\ OAlloc (ISendRequest i request) (KRequest rid) ∈ tr_log (swarm_of (net_nodes net p))
    /\ forall y, y ∈ net_exchanges net -> ex_to y = i -> ex_channel y <> channel) as Hnew.
  { destruct Hy; intros y Hy; [|by apply elem_of_nil in Hy..].
    apply list_elem_of_singleton in Hy as ->. by eexists _, _, _, _. }
  split.
  - intros j. simpl. rewrite labels_of_snoc. destruct (decide (j = i)) as [->|Hne].
    + rewrite fn_lookup_insert, decide_True by done. by eapply sys_step_node_ok.
    + rewrite fn_lookup_insert_ne, decide_False, app_nil_r by congruence. apply Hn.
  - intros j p request ch [Hin|[-> ->]]%(net_step_event _ _ _ _ _ _ _ _ Hev); simpl.
    + destruct (Hd _ _ _ _ Hin) as [rid ?]. exists rid. set_solver.
    + inversion Hy as [? ? ? rid| |ev Hr|]; subst; [|done]. exists rid. set_solver.
  - intros x [Hx|Hx]%elem_of_app; [by eapply tr_le_elem; [apply Hle|apply Hs]|].
    destruct (Hnew _ Hx) as (p & request & channel & rid & -> & _ & Hal & _). by eapply tr_le_elem; [apply Hle|].
  - intros j p rid resp [Hin|[-> ->]]%(net_step_event _ _ _ _ _ _ _ _ Hev).
    + destruct (Ha _ _ _ _ Hin) as (x & Hx & ? & ? & ? & Hans). exists x.
      split_and!; [simpl; set_solver|done..|by eapply tr_le_elem; [apply Hle|]].
    + inversion Hy as [|x ? Hx Hf Hans|ev Hr|]; subst; [|done]. exists x.
      split_and!; [simpl; set_solver|done..|by eapply tr_le_elem; [apply Hle|]].
  - intros x y [Hx|Hx]%elem_of_app [Hy'|Hy']%elem_of_app Hto Hch; [by apply Hc|..].
    + destruct (Hnew _ Hy') as (p & request & channel & rid & -> & _ & _ & Hfresh).
      exfalso. by eapply Hfresh.
    + destruct (Hnew _ Hx) as (p & request & channel & rid & -> & _ & _ & Hfresh).
      exfalso. by eapply (Hfresh y).
    + destruct Hy; [|by apply elem_of_nil in Hx..]. set_solver.
Qed.

Lemma net_started_ok net : net_started net -> net_ok net.
Proof.
  intros (Hx & Hh & Hn).
  assert (forall i, tr_log (swarm_of (net_nodes net i)) = [] /\ node_ok [] (net_nodes net i)) as Hi.
  { intros i. destruct (Hn i) as (Ctl & accept & swarm & ctl & now & dc_id & config & node & Hnil & Hst & ->).
    destruct (system_of_accounted _ _ _ _ _ _ _ Hnil Hst) as [Hlog Hacc]. split; [done|].
    split; [by eapply system_of_isolated| |done].
    unfold ids_once, tr_ids. rewrite Hlog. split; [by constructor|by intros k ?%elem_of_nil]. }
  split; rewrite ?Hx, ?Hh; try (by intros ? ?%elem_of_nil).
  - intros i. apply Hi.
  - intros i p request ch. unfold tr_events. rewrite (proj1 (Hi i)). by intros ?%elem_of_nil.
  - intros i p rid resp. unfold tr_events. rewrite (proj1 (Hi i)). by intros ?%elem_of_nil.
  - by intros x y ?%elem_of_nil.
Qed.

Lemma net_run_ok net net' : rtc net_step net net' -> net_ok net -> net_ok net'.
Proof. apply (rtc_invariant _ net_ok). intros ? ?. apply net_step_ok. Qed.

(** The identifier a node gave out belongs to one request. *)
Lemma exchange_request net x request :
  net_ok net -> x ∈ net_exchanges net ->
  OAlloc (ISendRequest (ex_to x) request) (KRequest (ex_id x)) ∈ tr_log (swarm_of (net_nodes net (ex_from x))) ->
  ex_request x = request.
Proof.
  intros Hok Hx Hal. pose proof (no_sent _ Hok _ Hx) as Hal'.
  pose proof (ids_once_inj _ _ _ _ (nk_ids _ _ (no_nodes _ Hok (ex_from x))) Hal Hal'). congruence.
Qed.

(** What the application at the far end answered on a channel it answered to
    the request that was delivered there. *)
Lemma exchange_answered net x resp :
  net_ok net -> x ∈ net_exchanges net ->
  OAnswer (ex_channel x) resp ∈ tr_log (swarm_of (net_nodes net (ex_to x))) ->
  exists id, (ex_to x, Responding id resp) ∈ net_history net
    /\ InboundRequest (ex_from x) id (ex_request x) ∈ nw_converted (sy_node (net_nodes net (ex_to x))).
Proof.
  intros Hok Hx Hans.
  destruct (ac_log _ _ (nk_accounted _ _ (no_nodes _ Hok (ex_to x))) _ Hans)
    as (id & p & request & Hresp%labels_of_elem & Hrep & Hin).
  destruct (no_delivered _ Hok _ _ _ _ Hrep) as [rid Hy].
  pose proof (no_channels _ Hok _ _ Hx Hy eq_refl eq_refl) as ->. by exists id.
Qed.

End invariant.

(** ** Properties *)

(** C2. Request and response are end to end: in every network of started nodes,
    however their steps interleave, when a [send_request] call of a client of
    [a] to [b] returns a response, then [b]'s node has reported this very
    request of [a] to its application, and it is [b]'s application that gave
    this response, to the pending id of that report. *)
Theorem responses_are_end_to_end `{N : NetTypes} {Sw}
    `{!SwarmOps Sw, !SwarmPoll Sw, !HashOrder, !Mpsc, !MpscLaws, !SwarmIds Sw, !SwarmIdLaws Sw}
    (net0 net : Net Sw) (a b : PeerId) (s' : System (Traced Sw)) (loc : nat) (lc : LiveCall)
    (request : Req) (resp : Resp) :
  net_started net0 -> rtc net_step net0 net ->
  sys_step (Returned loc (Ok (VResp resp))) (net_nodes net a) s' ->
  sy_calls (net_nodes net a) !! loc = Some lc ->
  lc_command lc = ASendRequest (SendRequestCommand_new b request) ->
  exists id, InboundRequest a id request ∈ nw_converted (sy_node (net_nodes net b))
    /\ (b, Responding id resp) ∈ net_history net.
Proof.
  intros Hst Hrun Hs Hl Hc. pose proof (net_run_ok _ _ Hrun (net_started_ok _ Hst)) as Hok.
  destruct (returned_result _ _ _ _ _ Hs (nk_isolated _ _ (no_nodes _ Hok a)) Hl)
    as [[[=] _]|[[[=] _]|Hres]].
  rewrite Hc in Hres. destruct (request_life _ _ _ _ Hres)
    as (rid & Hal & [(resp' & Hev & [= <-])|(e & _ & [=])]).
  destruct (no_answered _ Hok _ _ _ _ Hev) as (x & Hx & <- & <- & <- & Hans).
  pose proof (exchange_request _ _ _ Hok Hx Hal) as <-.
  destruct (exchange_answered _ _ _ Hok Hx Hans) as (id & Hresp & Hrep). by exists id.
Qed.

(** C17. Requests are authentic: whatever request of [a] the node [b] reports to
    its application, some client of [a] has called [send_request] with [b] and
    this very request. *)
Theorem inbound_requests_are_authentic `{N : NetTypes} {Sw}
    `{!SwarmOps Sw, !SwarmPoll Sw, !HashOrder, !Mpsc, !MpscLaws, !SwarmIds Sw, !SwarmIdLaws Sw}
    (net0 net : Net Sw) (a b : PeerId) (id : Z) (request : Req) :
  net_started net0 -> rtc net_step net0 net ->
  InboundRequest a id request ∈ nw_converted (sy_node (net_nodes net b)) ->
  exists loc options, (a, Called loc (CSendRequest b request options)) ∈ net_history net.
Proof.
  intros Hst Hrun Hin. pose proof (net_run_ok _ _ Hrun (net_started_ok _ Hst)) as Hok.
  destruct (ac_converted _ _ (nk_accounted _ _ (no_nodes _ Hok b)) _ _ _ Hin) as [ch Hev].
  destruct (no_delivered _ Hok _ _ _ _ Hev) as [rid Hx].
  pose proof (no_sent _ Hok _ Hx) as Hal. simpl in Hal.
  destruct (ac_log _ _ (nk_accounted _ _ (no_nodes _ Hok a)) _ Hal)
    as (c & (loc & call & Hcall%labels_of_elem & Hcmd) & Hid).
  exists loc. unfold call_command in Hcmd. destruct call; simplify_eq/=. by eexists.
Qed.
