(* ===== verification/Contact.v ===== *)
(** * Why nodes are in contact

    [node_acts_on_request] traces the calls on one swarm back to what prompted
    them.  Here this is composed over a network whose swarms keep to libp2p's
    side of the contract ([grounded]): a swarm discovers peers by mDNS only if its
    behaviour was built with mDNS, a connection is made only after some swarm was
    given a call that can lead to one, and a peer is identified only on a
    connection, and a relay accepts a reservation only from a peer that listens
    through it.  So if any node reports a connection, then some configuration or
    some application of the network wanted contact, and if a relay reports a
    reservation, then it was wanted at the peer it is for. *)
From S2P Require Import Prelude Externals Errors DataChannel PendingMap Config Handle Handler.
From S2P Require Import BasicCommands KadCommands KadQueries ReqRespCommands Commands.
From S2P Require Import EventLoop EventChain CommandChain SwarmIds LoopFrame Trace Client Node System Calls.
From S2P Require Import Isolation Provenance Prompted Network.
From stdpp Require Import functions.

Section contact.
Context `{N : NetTypes}.

(** The calls after which libp2p may dial: a dial, a query or a request to
    somebody, a peer in the routing table (which is refreshed), a reservation. *)
Definition may_connect (c : SwarmCall) : Prop :=
  match c with
  | CallDial _ | CallKadAddAddress _ _ | CallKadBootstrap | CallKadPutRecord _ | CallKadStartProviding _
  | CallKadGetRecord _ | CallKadGetProviders _ | CallKadGetClosestPeers _ | CallSendRequest _ _ => True
  | CallListenOn a => PP2pCircuit ∈ ma_iter a
  | _ => False
  end.

(** The methods with which an application seeks contact. *)
Definition contacts (call : ClientCall) : Prop :=
  match call with
  | CDial _ | CAddInfrastructurePeer _ _ _ | CBootstrap | CPutRecord _ | CStartProvide _ | CGetRecord _
  | CGetProviders _ | CGetClosestPeers _ | CSendRequest _ _ _ => True
  | _ => False
  end.

(** A node wants contact: by its configuration, or by what its application did. *)
Definition wants_contact (config : NodeConfig) (hist : list Label) : Prop :=
  enable_mdns config = true
  \/ bootstrap_peers config <> []
  \/ (exists a, a ∈ listen_addrs config /\ PP2pCircuit ∈ ma_iter a)
  \/ (exists loc call, Called loc call ∈ hist /\ contacts call)
  \/ (exists p q, Opens p q ∈ hist).

(** The events that come of contact, or lead to it. *)
Definition contact_event (ev : SwarmEvent) : Prop :=
  match ev with
  | ConnectionEstablished _ _ | Behaviour (CBE_MdnsDiscovered _) | Behaviour (CBE_IdentifyReceived _ _) => True
  | _ => False
  end.

(** An address at the relay [i]. *)
Definition relayed_by (i : PeerId) (a : Multiaddr) : Prop := PP2p i ∈ ma_iter a /\ PP2pCircuit ∈ ma_iter a.

Context {Sw : Type} `{!SwarmOps Sw, !SwarmPoll Sw, !HashOrder, !Mpsc}.

(** What the loop may report for an event. *)
Definition reports (ev : SwarmEvent) (evt : NodeEvent) : Prop :=
  exists (el el' : EventLoop (Traced (Logged Sw)) AnyCommand) (sh sh' : Shared CmdValue),
    handle_swarm_event el sh ev = Some (el', sh', Some evt).

Context (configs : PeerId -> NodeConfig) (try_from_owned : string -> option StreamProtocol)
        (mdns_init : PeerId -> bool).
Implicit Types (net : Net (Logged Sw)).

(** The behaviour of the swarm of [i]. *)
Definition behaviour_of (i : PeerId) : option CoreBehaviour :=
  CoreBehaviour_new try_from_owned (mdns_init i) (configs i).

(** Some swarm has been given a reason to connect. *)
Definition provoked net : Prop :=
  (exists j c, c ∈ calls_of (swarm_of (net_nodes net j)) /\ may_connect c)
  \/ (exists j p q, (j, Opens p q) ∈ net_history net).

(** What libp2p owes for an event of the swarm of [i]. *)
Definition grounded net (i : PeerId) (ev : SwarmEvent) : Prop :=
  match ev with
  | ConnectionEstablished _ _ => provoked net
  | Behaviour (CBE_MdnsDiscovered _) => exists b, behaviour_of i = Some b /\ cb_mdns b = true
  | Behaviour (CBE_IdentifyReceived p _) =>
      exists n, ConnectionEstablished p n ∈ tr_events (swarm_of (net_nodes net i))
  | Behaviour (CBE_RelayServer (RS_ReservationReqAccepted p _)) =>
      exists a, CallListenOn a ∈ calls_of (swarm_of (net_nodes net p)) /\ relayed_by i a
  | _ => True
  end.

Definition grounded_step net net' : Prop :=
  net_step net net'
  /\ forall i ev, ev ∈ tr_events (swarm_of (net_nodes net' i)) ->
       ev ∈ tr_events (swarm_of (net_nodes net i)) \/ grounded net i ev.

(** Every node just started with its configuration, on a swarm built for it. *)
Definition started_as net : Prop :=
  net_exchanges net = [] /\ net_history net = []
  /\ forall i, exists (Ctl : Type) (accept : Ctl -> StreamProtocol -> Ctl * bool) swarm ctl now dc_id node b,
       tr_log swarm = [] /\ calls_of swarm = []
       /\ behaviour_of i = Some b /\ sw_relay_client_is_enabled swarm = cb_relay_client b
       /\ start accept swarm ctl now dc_id (configs i) = Ok node /\ net_nodes net i = system_of node.

Definition somebody_wants net : Prop :=
  exists j, wants_contact (configs j) (labels_of j (net_history net)).

(** The invariant. *)
Record contact_ok net : Prop := {
  ct_nodes : forall i, explained_calls (configs i) (labels_of i (net_history net)) (net_nodes net i);
  ct_events : forall i ev, ev ∈ tr_events (swarm_of (net_nodes net i)) -> contact_event ev ->
    somebody_wants net;
  ct_reservations : forall i p renewed,
    Behaviour (CBE_RelayServer (RS_ReservationReqAccepted p renewed)) ∈ tr_events (swarm_of (net_nodes net i)) ->
    exists a, CallListenOn a ∈ calls_of (swarm_of (net_nodes net p)) /\ relayed_by i a;
  ct_reports : forall i evt, evt ∈ nw_converted (sy_node (net_nodes net i)) ->
    exists ev, ev ∈ tr_events (swarm_of (net_nodes net i)) /\ reports ev evt;
}.

End contact.

(** ** One node *)

Section node.
Context `{N : NetTypes} {Sw : Type} `{!SwarmOps Sw, !SwarmPoll Sw, !HashOrder, !Mpsc}.
Implicit Types (s : System (Traced (Logged Sw))).

Lemma wants_contact_mono config hist hist' :
  (forall lab, lab ∈ hist -> lab ∈ hist') -> wants_contact config hist -> wants_contact config hist'.
Proof.
  intros Hsub [?|[?|[?|[(loc & call & Hin & ?)|(p & q & Hin)]]]]; [by left|by right; left|by do 2 right; left|..].
  - do 3 right. left. exists loc, call. auto.
  - do 4 right. exists p, q. auto.
Qed.

(** A call that may connect was wanted, or comes of an event of contact. *)
Lemma prompted_contact config hist s c :
  prompted config hist s c -> may_connect c ->
  wants_contact config hist \/ exists ev, ev ∈ tr_events (swarm_of s) /\ contact_event ev.
Proof.
  assert (forall p (a : Multiaddr), (p, a) ∈ bootstrap_peers config -> bootstrap_peers config <> []) as Hboot.
  { intros p a Hin Hnil. rewrite Hnil in Hin. by apply elem_of_nil in Hin. }
  intros [Hc|[(loc & call & Hin & Hc)|[(ch & resp & -> & _)|(ev & Hin & Hc)]]] Hm; [..|done|].
  - left. destruct c; try done; simpl in Hc.
    + right; left. apply list_elem_of_fmap in Hc as ([q a] & _ & Hin). by eapply Hboot.
    + destruct Hc as [Hin|(_ & p & b & Hin & _)]; [do 2 right; left; by exists a|right; left; by eapply Hboot].
    + right; left. by eapply Hboot.
  - left. do 3 right. left. exists loc, call. split; [done|]. by destruct call, c.
  - right. exists ev. split; [done|]. destruct ev as [[]| | | | | | | |]; destruct c; simpl in *; repeat case_match; done.
Qed.


Context `{!MpscLaws}.

(** Whose events are reported as a connection, or as a reservation. *)
Lemma event_reported (ev : SwarmEvent) evt :
  reports (Sw := Sw) ev evt ->
  match evt with
  | PeerConnected p => exists n, ev = ConnectionEstablished p n
  | RelayServerReservationAccepted p renewed =>
      ev = Behaviour (CBE_RelayServer (RS_ReservationReqAccepted p renewed))
  | _ => True
  end.
Proof.
  intros (el & el' & sh & sh' & (active & sh1 & r & Hch & He & _)%handle_swarm_event_inv).
  destruct r as [ev'|]; [|by simplify_eq].
  assert (ev' = ev) as -> by (by destruct Hch as (? & ? & _ & _ & _ & -> & _)). clear Hch. revert He.
  destruct ev as [[q [rtt|e]|q info|[i r st l|q addrs|]|[]|ps|[]|[]|a sv [u|x]|q r|]|q n|q n|o e| |a| | |];
    simpl; repeat case_match; intros; simplify_eq/=; try done; by eexists.
Qed.

Lemma step_reports lab s s' evt :
  sys_step lab s s' -> evt ∈ nw_converted (sy_node s') ->
  evt ∈ nw_converted (sy_node s)
  \/ exists ev, ev ∈ tr_events (swarm_of s') /\ reports (Sw := Sw) ev evt.
Proof.
  intros Hs. destruct Hs as [w w' cl ca op ch Hs| | | | | | | | | | | | | | | | | | | | | | |]; try (by left).
  destruct Hs as [|el sh q q' n rcv cv cmd el' sh' Hr Hc| |el sh q n rcv cv ev sw el' sh' o [_ Hlog] He
    | | | | |]; simpl; try (by left).
  intros [?|Ho]%elem_of_app; [by left|right]. destruct o as [evt'|]; simpl in Ho; [|by apply elem_of_nil in Ho].
  apply list_elem_of_singleton in Ho as ->. pose proof (book_log _ _ (handle_swarm_event_book _ _ _ _ _ _ He)) as Hb.
  exists ev. split; [|by eexists _, _, _, _]. unfold tr_events, swarm_of. simpl in *.
  rewrite Hb, Hlog, omap_app. simpl. set_solver.
Qed.

End node.

(** ** The network *)

Section network.
Context `{N : NetTypes} {Sw : Type}.
Context `{!SwarmOps Sw, !SwarmPoll Sw, !RelayToggle Sw, !HashOrder, !HashOrderLaws, !Mpsc, !MpscLaws}.
Context (configs : PeerId -> NodeConfig) (try_from_owned : string -> option StreamProtocol)
        (mdns_init : PeerId -> bool).
Implicit Types (net : Net (Logged Sw)).

Lemma somebody_wants_mono net net' :
  net_step net net' -> somebody_wants configs net -> somebody_wants configs net'.
Proof.
  intros [i lab s o l _ _ _] [j Hj]. exists j. eapply wants_contact_mono; [|exact Hj].
  intros lab'. simpl. rewrite labels_of_snoc, elem_of_app. by left.
Qed.

(** Whatever was provoked, somebody wanted. *)
Lemma provoked_wanted net : contact_ok configs net -> provoked net -> somebody_wants configs net.
Proof.
  intros [Hn He _] [(j & c & Hc & Hm)|(j & p & q & Hin%labels_of_elem)].
  - destruct (prompted_contact _ _ _ _ (xc_calls _ _ _ (Hn j) _ Hc) Hm) as [?|(ev & Hev & ?)]; [by exists j|eauto].
  - exists j. do 4 right. by exists p, q.
Qed.

Lemma grounded_wanted net i ev :
  contact_ok configs net -> grounded configs try_from_owned mdns_init net i ev -> contact_event ev ->
  somebody_wants configs net.
Proof.
  intros Hok Hg Hev. destruct ev as [[|p info| | |peers| | | | |]| | | | | | | |]; try done; simpl in Hg.
  - destruct Hg as [n Hin]. by eapply (ct_events _ _ Hok).
  - destruct Hg as (b & Hb & Hm). exists i. left.
    pose proof (behaviour_honours_config try_from_owned (mdns_init i) (configs i)) as Hh.
    unfold behaviour_of in Hb. rewrite Hb in Hh. destruct Hh as (_ & _ & _ & _ & Hmd & _). congruence.
  - by apply provoked_wanted.
Qed.

(** The calls on a swarm stay. *)
Lemma net_step_calls net net' j c :
  net_step net net' -> contact_ok configs net ->
  c ∈ calls_of (swarm_of (net_nodes net j)) -> c ∈ calls_of (swarm_of (net_nodes net' j)).
Proof.
  intros [i lab s o l Hs _ _] Hok. simpl. destruct (decide (j = i)) as [->|Hne].
  - rewrite fn_lookup_insert.
    destruct (sys_step_calls_le _ _ _ _ Hs (xc_accounted _ _ _ (ct_nodes _ _ Hok i))) as [k ->]. set_solver.
  - by rewrite fn_lookup_insert_ne.
Qed.

Lemma grounded_step_ok net net' :
  grounded_step configs try_from_owned mdns_init net net' -> contact_ok configs net -> contact_ok configs net'.
Proof.
  intros [Hstep Hgr] Hok. pose proof (somebody_wants_mono _ _ Hstep) as Hmono.
  pose proof (fun j c => net_step_calls _ _ j c Hstep Hok) as Hcalls. split.
  - destruct Hstep as [i lab s o l Hs _ _]. intros j. simpl. rewrite labels_of_snoc. destruct (decide (j = i)) as [->|Hne].
    + rewrite fn_lookup_insert, decide_True by done. eapply sys_step_explained; [exact Hs|apply (ct_nodes _ _ Hok)].
    + rewrite fn_lookup_insert_ne, decide_False, app_nil_r by congruence. apply (ct_nodes _ _ Hok).
  - intros i ev Hin Hc. apply Hmono. destruct (Hgr _ _ Hin); [by eapply (ct_events _ _ Hok)|by eapply grounded_wanted].
  - intros i p renewed Hin. assert (exists a, CallListenOn a ∈ calls_of (swarm_of (net_nodes net p)) /\ relayed_by i a)
      as (a & Ha & ?) by (destruct (Hgr _ _ Hin); [by eapply (ct_reservations _ _ Hok)|done]).
    exists a. split; [by apply Hcalls|done].
  - intros j evt. pose proof (net_step_le _ _ Hstep j) as Hle.
    destruct Hstep as [i lab s o l Hs _ _]. simpl in *. destruct (decide (j = i)) as [->|Hne].
    + rewrite fn_lookup_insert in *. intros [Hin|?]%(step_reports _ _ _ _ Hs); [|done].
      destruct (ct_reports _ _ Hok _ _ Hin) as (ev & Hev & ?). exists ev. split; [|done].
      destruct (tr_le_events _ _ Hle) as [later ->]. set_solver.
    + rewrite fn_lookup_insert_ne by done. apply (ct_reports _ _ Hok).
Qed.

(** A step of one node, with what libp2p owes for it. *)
Lemma grounded_step_intro net i lab s o l :
  sys_step lab (net_nodes net i) s ->
  tr_events (swarm_of s) = tr_events (swarm_of (net_nodes net i)) ++ option_list o ->
  net_yields net i o l -> (forall ev, o = Some ev -> grounded configs try_from_owned mdns_init net i ev) ->
  grounded_step configs try_from_owned mdns_init net
    (mkNet (<[i := s]> (net_nodes net)) (net_exchanges net ++ l) (net_history net ++ [(i, lab)])).
Proof.
  intros Hs Ho Hy Hg. split; [by eapply net_step_intro|]. intros j ev Hin.
  destruct (net_step_event _ _ _ _ _ _ _ _ Ho Hin) as [?|[-> Hev]]; [by left|right; auto].
Qed.

Lemma started_contact net :
  started_as configs try_from_owned mdns_init net -> contact_ok configs net.
Proof.
  intros (_ & Hh & Hn).
  assert (forall i, explained_calls (configs i) [] (net_nodes net i) /\ tr_log (swarm_of (net_nodes net i)) = []
    /\ nw_converted (sy_node (net_nodes net i)) = []) as Hi.
  { intros i. destruct (Hn i) as (Ctl & accept & swarm & ctl & now & dc_id & node & b & Hlog & Hcalls & Hb & Hen & Hst & ->).
    destruct (system_of_accounted _ _ _ _ _ _ _ Hlog Hst) as [Hnil _]. split; [|by split].
    eapply start_prompted; [exact Hlog|exact Hcalls| |exact Hst]. rewrite Hen.
    pose proof (behaviour_honours_config try_from_owned (mdns_init i) (configs i)) as Hhon.
    unfold behaviour_of in Hb. rewrite Hb in Hhon. by destruct Hhon as (_ & _ & _ & -> & _). }
  split; intros i; destruct (Hi i) as (Hx & Hlog & Hcv).
  - by rewrite Hh.
  - intros ev. unfold tr_events. rewrite Hlog. by intros ?%elem_of_nil.
  - intros p renewed. unfold tr_events. rewrite Hlog. by intros ?%elem_of_nil.
  - intros evt. rewrite Hcv. by intros ?%elem_of_nil.
Qed.

Lemma grounded_run_ok net0 net :
  started_as configs try_from_owned mdns_init net0 ->
  rtc (grounded_step configs try_from_owned mdns_init) net0 net -> contact_ok configs net.
Proof.
  intros Hst Hrun. eapply (rtc_invariant _ (contact_ok configs)); [|exact Hrun|by apply started_contact].
  intros ? ?. apply grounded_step_ok.
Qed.

End network.

(** ** Properties *)

(** C11. Nodes are in contact only because somebody wanted it: in a network of
    started nodes, whose swarms were built by [CoreBehaviour::new] for their
    configurations and keep to libp2p's side, however the steps interleave, if
    any node reports a connection to its application, then somewhere in the
    network mDNS is on, a bootstrap peer or a relayed listen address is
    configured, or an application has called one of the methods that contact
    others (dial, an infrastructure peer, a query, a request, a data channel).
    So nodes with mDNS off that are told nothing stay apart. *)
Theorem connections_are_wanted `{N : NetTypes} {Sw}
    `{!SwarmOps Sw, !SwarmPoll Sw, !RelayToggle Sw, !HashOrder, !HashOrderLaws, !Mpsc, !MpscLaws}
    (configs : PeerId -> NodeConfig) (try_from_owned : string -> option StreamProtocol)
    (mdns_init : PeerId -> bool) (net0 net : Net (Logged Sw)) (i p : PeerId) :
  started_as configs try_from_owned mdns_init net0 ->
  rtc (grounded_step configs try_from_owned mdns_init) net0 net ->
  PeerConnected p ∈ nw_converted (sy_node (net_nodes net i)) ->
  exists j, wants_contact (configs j) (labels_of j (net_history net)).
Proof.
  intros Hst Hrun Hin. pose proof (grounded_run_ok _ _ _ _ _ Hst Hrun) as Hok.
  destruct (ct_reports _ _ Hok _ _ Hin) as (ev & Hev & [n ->]%event_reported). by eapply (ct_events _ _ Hok).
Qed.

