(* ===== verification/Deadlock.v ===== *)
(** * A call awaited by the consumer of events

    The loop sends front-end events with [event_tx.send(..).await] into a queue
    of 64.  An application that awaits a call in the task that also receives
    the events can therefore wait forever: the states below are reachable from
    every started node and are never left, unless somebody receives an event,
    drops the receiver or abandons the call. *)
From S2P Require Import Prelude Externals Errors DataChannel PendingMap Config Handle Handler.
From S2P Require Import BasicCommands KadCommands KadQueries ReqRespCommands Commands.
From S2P Require Import EventLoop EventChain CommandChain SwarmIds LoopFrame Client Node System Calls.

Section deadlock.
Context `{N : NetTypes} {Sw : Type}.
Context `{!SwarmOps Sw, !SwarmPoll Sw, !HashOrder, !Mpsc}.

(** A step during which nobody receives an event, drops the event receiver or
    abandons the call [loc]; other tasks and clients are free. *)
Definition patient_step (loc : nat) (s s' : System Sw) : Prop :=
  exists lab, sys_step lab s s'
    /\ (forall evt, lab <> Received evt)
    /\ ch_rx_alive (sh_events (nw_shared (sy_node s'))) = true
    /\ (sy_calls s' !! loc = None -> exists r, lab = Returned loc r).

(** The loop waits for room in the event queue; the call [loc] has been sent,
    has no result and no deadline. *)
Definition dead (loc : nat) (lc : LiveCall) (evt : NodeEvent) (s : System Sw) : Prop :=
  blocked (sy_node s) evt
  /\ sy_calls s !! loc = Some lc
  /\ cf_handler (lc_future lc) = None /\ rc_deadline (lc_call lc) = None
  /\ exists st, sh_handles (nw_shared (sy_node s)) !! loc = Some st /\ rs_result st = None.

End deadlock.

(** ** Lemmas *)

Section lemmas.
Context `{N : NetTypes} {Sw : Type}.
Context `{!SwarmOps Sw, !SwarmPoll Sw, !HashOrder, !Mpsc, !MpscLaws}.
Implicit Types (w : NodeWorld Sw AnyCommand CmdValue) (s : System Sw).

(** The call neither returns nor is its result cell written. *)
Lemma dead_step loc lc evt s s' :
  dead loc lc evt s -> patient_step loc s s' -> dead loc lc evt s'.
Proof.
  intros (Hb & Hl & Hf & Hd & st & Hst & Hr) (lab & Hs & Hlab & Halive & Hkeep). unfold dead.
  destruct Hs as
    [w w' cl ca op ch Hs| | |w| |w cl ca op ch client l call lc' _ Hno
     |w cl ca op ch client l id response pending fut lc' _ Hno|
     |w cl ca op ch l lc' f q Hl' Hh|w cl ca op ch l lc' st' f q r Hl' Hst' Hsend
     |w cl ca op ch l lc' st0 waker c q st' Hl' Hh Hst' Hp
     |w cl ca op ch l lc' st0 waker c q st' r Hl' Hh Hst' Hp|w cl ca op ch l lc' st' Hl'
     | | | | | | | | | | |]; simpl in *; try (by eauto 10).
  - by apply blocked_loop with (w' := w') in Hb.
  - by specialize (Hlab evt0).
  - destruct (ch_drop_rx_spec _ (sh_events (nw_shared w))) as (_ & _ & Hdrop). congruence.
  - assert (l <> loc) by (intros ->; congruence). rewrite !lookup_insert_ne by done. eauto 10.
  - assert (l <> loc) by (intros ->; congruence). rewrite !lookup_insert_ne by done. eauto 10.
  - assert (l <> loc) by (intros ->; simplify_eq; rewrite Hf in Hh; by destruct Hh).
    rewrite !lookup_insert_ne by done. eauto 10.
  - assert (l <> loc).
    { intros ->. simplify_eq. apply send_inv in Hsend. rewrite Hf in Hsend. by destruct Hsend as (_ & _ & ?). }
    rewrite lookup_insert_ne, lookup_delete_ne by done. eauto 10.
  - split_and!; try done. destruct (decide (l = loc)) as [->|Hne].
    + eapply poll_inv in Hp as (_ & _ & Hst2 & _); [|done]. rewrite lookup_insert_eq. eauto.
    + rewrite lookup_insert_ne by done. eauto.
  - assert (l <> loc).
    { intros ->. simplify_eq. eapply poll_inv in Hp as (_ & _ & _ & Hp); [|done].
      destruct r as [v|e]; [congruence|]. destruct Hp as [?|[_ [? ?]]]; congruence. }
    rewrite lookup_insert_ne, lookup_delete_ne by done. eauto 10.
  - assert (l <> loc).
    { intros ->. destruct Hkeep as [r [=]]. apply lookup_delete_eq. }
    rewrite lookup_insert_ne, lookup_delete_ne by done. eauto 10.
Qed.

Lemma dead_forever loc lc evt s s' :
  dead loc lc evt s -> rtc (patient_step loc) s s' -> dead loc lc evt s'.
Proof. intros Hd Hr. induction Hr; eauto using dead_step. Qed.

Lemma dead_silent loc lc evt s s' r : dead loc lc evt s -> ~ sys_step (Returned loc r) s s'.
Proof.
  intros Hd Hs. assert (sy_calls s' !! loc = None /\ ch_rx_alive (sh_events (nw_shared (sy_node s'))) = true)
    as [Hno Halive].
  { destruct Hd as ((_ & Ha & _) & _). inversion Hs; subst; simpl in *; by rewrite lookup_delete_eq. }
  assert (patient_step loc s s') as Hp by (exists (Returned loc r); eauto 6).
  destruct (dead_step _ _ _ _ _ Hd Hp) as (_ & Hl & _). congruence.
Qed.

(** At the top of the loop with [n] queued events and nothing active. *)
Definition waiting (n : nat) (w : NodeWorld Sw AnyCommand CmdValue) : Prop :=
  nw_phase w = Iterating /\ el_active (nw_loop w) = []
  /\ ch_rx_alive (sh_events (nw_shared w)) = true
  /\ ch_capacity (sh_events (nw_shared w)) = EVENT_CHANNEL_SIZE
  /\ length (ch_contents (sh_events (nw_shared w))) = n.

(** A started node is such a state, with room in the command queue. *)
Lemma start_waiting {Ctl} (accept : Ctl -> StreamProtocol -> Ctl * bool) swarm ctl now dc_id config
    (node : Node Sw AnyCommand CmdValue) :
  start accept swarm ctl now dc_id config = Ok node ->
  let w := sy_node (system_of node) in
  waiting 0 w /\ sh_handles (nw_shared w) = ∅ /\ sh_now (nw_shared w) = now
  /\ ch_rx_alive (nw_commands w) = true
  /\ length (ch_contents (nw_commands w)) < ch_capacity (nw_commands w).
Proof.
  intros (Ha & Hq & Hsh)%start_inv. unfold waiting. simpl. rewrite Ha, Hq, Hsh. simpl.
  destruct (ch_new_spec (CommandTask AnyCommand) COMMAND_CHANNEL_SIZE) as (-> & -> & ->).
  destruct (ch_new_spec NodeEvent EVENT_CHANNEL_SIZE) as (-> & -> & ->).
  split_and!; try done. unfold COMMAND_CHANNEL_SIZE. simpl. lia.
Qed.

Context (p : PeerId).

(** The swarm reports something that the loop sends on, before anything else. *)
Lemma event_arrives n w ev evt sw' :
  waiting n w -> sw_poll (el_swarm (nw_loop w)) (Some ev) sw' ->
  (forall el : EventLoop Sw AnyCommand, el_active el = [] ->
     handle_swarm_event el (nw_shared w) ev = Some (el, nw_shared w, Some evt)) ->
  exists w', rtc loop_step w w' /\ nw_phase w' = Sending evt
    /\ el_active (nw_loop w') = [] /\ el_swarm (nw_loop w') = sw'
    /\ nw_shared w' = nw_shared w /\ nw_commands w' = nw_commands w.
Proof.
  destruct w as [ph el sh q k rcv cv]. intros (Hph & Ha & _) Hp Hev. simpl in *. subst ph.
  eexists. split.
  - eapply rtc_l; [apply ls_retain|]. apply rtc_once.
    eapply (ls_event _ _ _ _ _ _ ev sw'); [exact Hp|]. apply Hev. simpl. by rewrite Ha.
  - simpl. rewrite Ha. by split_and!.
Qed.

Lemma event_queued n w ev evt sw' :
  waiting n w -> n < EVENT_CHANNEL_SIZE -> sw_poll (el_swarm (nw_loop w)) (Some ev) sw' ->
  (forall el : EventLoop Sw AnyCommand, el_active el = [] ->
     handle_swarm_event el (nw_shared w) ev = Some (el, nw_shared w, Some evt)) ->
  exists w', rtc loop_step w w' /\ waiting (S n) w' /\ el_swarm (nw_loop w') = sw'
    /\ sh_handles (nw_shared w') = sh_handles (nw_shared w) /\ sh_now (nw_shared w') = sh_now (nw_shared w)
    /\ nw_commands w' = nw_commands w.
Proof.
  intros Hw Hlt Hp Hev. destruct (event_arrives _ _ _ _ _ Hw Hp Hev)
    as ([ph el sh q k rcv cv] & Hr & Hph & Ha & Hsw & Hsh & Hq).
  destruct Hw as (_ & _ & Halive & Hcap & Hlen). simpl in *. subst ph sh.
  destruct (ch_try_send_ok _ _ evt Halive) as (c & Hs & Hc & Hcap' & Ha'); [lia|].
  eexists. split; [eapply rtc_r; [exact Hr|by apply ls_sent]|]. unfold waiting. simpl.
  rewrite Hc, length_app, Hcap', Hlen. simpl. split_and!; try done. lia.
Qed.

(** A connection that stays up and answers its pings. *)
Context (pinging : Sw -> Prop).
Context (Hping : forall sw, pinging sw ->
  exists rtt sw', sw_poll sw (Some (Behaviour (CBE_Ping p (Ok rtt)))) sw' /\ pinging sw').

Lemma queue_fills m n w :
  waiting n w -> n + m = EVENT_CHANNEL_SIZE -> pinging (el_swarm (nw_loop w)) ->
  exists w' evt, rtc loop_step w w' /\ blocked w' evt
    /\ sh_handles (nw_shared w') = sh_handles (nw_shared w) /\ sh_now (nw_shared w') = sh_now (nw_shared w)
    /\ nw_commands w' = nw_commands w.
Proof.
  revert n w. induction m as [|m IH]; intros n w Hw Hn Hpw;
    destruct (Hping _ Hpw) as (rtt & sw' & Hp & Hpw').
  - destruct (event_arrives _ _ _ (PingSuccess p (as_millis_u64 rtt)) _ Hw Hp) as (w' & Hr & Hph & _ & _ & Hsh & Hq).
    { intros el Ha. unfold handle_swarm_event. simpl. rewrite Ha. by destruct el; simpl in *; subst. }
    exists w', (PingSuccess p (as_millis_u64 rtt)). split; [done|].
    unfold blocked. rewrite Hsh. destruct Hw as (_ & _ & Ha & Hc & Hl). split_and!; try done. lia.
  - destruct (event_queued _ _ _ (PingSuccess p (as_millis_u64 rtt)) _ Hw ltac:(lia) Hp)
      as (w1 & Hr1 & Hw1 & Hsw1 & Hh1 & Ht1 & Hq1).
    { intros el Ha. unfold handle_swarm_event. simpl. rewrite Ha. by destruct el; simpl in *; subst. }
    destruct (IH _ _ Hw1) as (w2 & evt & Hr2 & Hb & Hh2 & Ht2 & Hq2); [lia|by rewrite Hsw1|].
    exists w2, evt. split; [by etrans|]. split_and!; [done|congruence..].
Qed.

Lemma call_future_live loc now c :
  exists cmd, live_of (call_future loc now c) = Some (mkLive cmd (call_future loc now c)).
Proof. unfold live_of. destruct c; simpl; by eexists. Qed.

(** A call that is made and sent while the loop is blocked. *)
Lemma call_sent w evt client cl ca op ch call :
  blocked w evt -> client ∈ cl -> sh_handles (nw_shared w) !! 0 = None ->
  ch_rx_alive (nw_commands w) = true ->
  length (ch_contents (nw_commands w)) < ch_capacity (nw_commands w) ->
  exists s lc, sys_run (mkSystem w cl ca op ch) s /\ sy_calls s !! 0 = Some lc
    /\ (rc_deadline (call_future 0 (sh_now (nw_shared w)) call) = None -> dead 0 lc evt s).
Proof.
  intros Hb Hcl Hno Halive Hroom.
  destruct (call_future_live 0 (sh_now (nw_shared w)) call) as [cmd Hlive].
  destruct (call_future_new _ _ _ _ Hlive) as [Hnew _].
  set (f := mkFuture (C := AnyCommand) None 0).
  set (lc := mkLive cmd (call_future 0 (sh_now (nw_shared w)) call)) in *.
  destruct (ch_try_send_ok _ (nw_commands w) (mkTask cmd 0) Halive Hroom) as (q & Hsend & _).
  eexists _, (lc_set_future f lc). split; [|split].
  - eapply rtc_l.
    { exists (Called 0 call). by apply (sy_call _ _ _ _ _ client 0 call lc). }
    apply rtc_once. exists Tau. apply (sy_send _ _ _ _ _ 0 lc f q).
    + apply lookup_insert_eq.
    + by rewrite Hnew.
    + rewrite Hnew. unfold CommandFuture_send. simpl. by rewrite Hsend.
  - apply lookup_insert_eq.
  - intros Hdl. unfold dead. simpl. rewrite !lookup_insert_eq.
    destruct Hb as (Hph & Ha & Hf). split_and!; [done..|by exists ResultState_default].
Qed.

Lemma loop_run w w' cl ca op ch :
  rtc loop_step w w' -> sys_run (mkSystem w cl ca op ch) (mkSystem w' cl ca op ch).
Proof.
  induction 1 as [|w w1 w2 Hs _ IH]; [done|]. eapply rtc_l; [|exact IH]. eexists. by apply sy_loop.
Qed.

End lemmas.

(** ** Properties *)

(** C14. Awaiting a call in the task that receives the events can wait forever.
    Whenever a peer connects to a started node and the connection stays up, so
    that it is pinged again and again, the following state is reachable, for any
    call without a deadline: while the application is busy 65 events arrive (the
    connection and 64 pings), one more than the queue holds, then the
    application makes the call and awaits it; the loop waits for room in the
    event queue, and whatever the swarm, the clock, other clients and other
    calls do, as long as nobody receives an event, drops the event receiver or
    abandons the call, the loop makes no step and the call does not return. *)
Theorem awaiting_consumer_deadlocks `{N : NetTypes} {Sw}
    `{!SwarmOps Sw, !SwarmPoll Sw, !HashOrder, !Mpsc, !MpscLaws}
    {Ctl} (accept : Ctl -> StreamProtocol -> Ctl * bool) (swarm : Sw) (ctl : Ctl) (now dc_id : Z)
    (config : NodeConfig) (node : Node Sw AnyCommand CmdValue) (call : ClientCall) (p : PeerId)
    (pinging : Sw -> Prop) (sw : Sw) :
  start accept swarm ctl now dc_id config = Ok node ->
  sw_poll (el_swarm (node_loop node)) (Some (ConnectionEstablished p 1)) sw -> pinging sw ->
  (forall sw, pinging sw ->
     exists rtt sw', sw_poll sw (Some (Behaviour (CBE_Ping p (Ok rtt)))) sw' /\ pinging sw') ->
  rc_deadline (call_future 0 now call) = None ->
  exists s loc lc,
    sys_run (system_of node) s /\ sy_calls s !! loc = Some lc
    /\ forall s', rtc (patient_step loc) s s' ->
         sy_calls s' !! loc = Some lc
         /\ (forall w, ~ loop_step (sy_node s') w)
         /\ (forall s'' r, ~ sys_step (Returned loc r) s' s'').
Proof.
  intros Hst Hcon Hup Hping Hdl. destruct (start_waiting _ _ _ _ _ _ _ Hst) as (Hw & Hh & Ht & Hr & Hroom).
  destruct (event_queued _ _ _ (PeerConnected p) _ Hw ltac:(unfold EVENT_CHANNEL_SIZE; lia) Hcon)
    as (w1 & Hr1 & Hw1 & Hsw & Hh1 & Ht1 & Hq1).
  { intros el Ha. unfold handle_swarm_event. simpl. rewrite Ha. by destruct el; simpl in *; subst. }
  destruct (queue_fills p pinging Hping 63 1 w1 Hw1 eq_refl) as (w2 & evt & Hr2 & Hb & Hh2 & Ht2 & Hq2);
    [by rewrite Hsw|].
  destruct (call_sent w2 evt (NetClient_new (mkPendingMap 0 (node_pending_ttl node)) (node_open_timeout node))
    (sy_clients (system_of node)) ∅ [] [] call Hb) as (s & lc & Hrun & Hl & Hdead);
    [by left|by rewrite Hh2, Hh1, Hh|by rewrite Hq2, Hq1|by rewrite Hq2, Hq1|].
  exists s, 0, lc. split_and!; [|done|].
  - etrans; [|exact Hrun]. apply loop_run. by etrans.
  - intros s' Hp. apply dead_forever with (lc := lc) (evt := evt) in Hp; [|apply Hdead; by rewrite Ht2, Ht1, Ht].
    split_and!; [by apply Hp| |].
    + intros w. eapply blocked_loop. by apply Hp.
    + intros s'' r. by eapply dead_silent.
Qed.
