(* ===== verification/Drain.v ===== *)
(** * A receiving application is served

    The counterpart of [Deadlock]: as long as the application receives its
    events, the loop can always come back to its top and work off the command
    queue, whatever state it is in. *)
From S2P Require Import Prelude Externals Errors DataChannel PendingMap Config Handle Handler.
From S2P Require Import EventLoop EventChain CommandChain SwarmIds LoopFrame Dialing Discovery Node.

Section drain.
Context `{N : NetTypes} {Sw C V : Type}.
Context `{!SwarmOps Sw, !SwarmPoll Sw, !HashOrder, !Mpsc, !CommandHandler Sw C V, !RelayRequester C}.

(** The loop steps, or the application receives the next event. *)
Inductive serve_step (w : NodeWorld Sw C V) : NodeWorld Sw C V -> Prop :=
| ss_loop w' : loop_step w w' -> serve_step w w'
| ss_receive evt ch :
    ch_recv (sh_events (nw_shared w)) = Some (evt, ch) ->
    serve_step w (mkNW (nw_phase w) (nw_loop w) (sh_set_events ch (nw_shared w)) (nw_commands w)
      (nw_senders w) (nw_received w ++ [evt]) (nw_converted w)).

(** Whether the future that waits on a cell has been dropped. *)
Definition abandoned (sh : Shared V) (loc : nat) : bool :=
  match sh_handles sh !! loc with Some st => rs_cancelled st | None => false end.

(** The cells of the active and of the queued commands, in order. *)
Definition waiting_cells (w : NodeWorld Sw C V) : list nat :=
  (task_handle <$> el_active (nw_loop w)) ++ (task_handle <$> ch_contents (nw_commands w)).

End drain.

(** ** Lemmas *)

Section lemmas.
Context `{N : NetTypes} {Sw C V : Type}.
Context `{!SwarmOps Sw, !SwarmPoll Sw, !HashOrder, !Mpsc, !MpscLaws}.
Context `{!CommandHandler Sw C V, !RelayRequester C, !Keyed C, !CommandHandlerLaws Sw C V}.
Implicit Types (el : EventLoop Sw C) (sh : Shared V).

Lemma retain_cells el sh :
  task_handle <$> el_active (retain_active el sh)
  = filter (fun loc => abandoned sh loc = false) (task_handle <$> el_active el).
Proof.
  simpl. induction (el_active el) as [|t l IH]; [done|]. rewrite fmap_cons, !filter_cons.
  change (task_is_cancelled sh t) with (abandoned sh (task_handle t)).
  case_decide; rewrite ?fmap_cons; [f_equal|]; exact IH.
Qed.

(** Results do not change who has been abandoned. *)
Lemma finish_all_abandoned loc sh fin l :
  abandoned (foldl (finish_handle loc) sh fin) l = abandoned sh l.
Proof.
  revert sh. induction fin as [|r fin IH]; intros sh; simpl; [done|]. rewrite IH.
  unfold abandoned, finish_handle. destruct (sh_handles sh !! loc) as [st|] eqn:Hst; [|done].
  simpl. destruct (decide (l = loc)) as [->|Hne].
  - by rewrite lookup_insert_eq, Hst.
  - by rewrite lookup_insert_ne.
Qed.

Lemma filter_abandoned sh sh' (l : list nat) :
  (forall loc, abandoned sh' loc = abandoned sh loc) ->
  filter (fun loc => abandoned sh' loc = false) l = filter (fun loc => abandoned sh loc = false) l.
Proof. intros Ha. apply list_filter_iff. intros loc. by rewrite Ha. Qed.

Lemma filter_twice {A} (P : A -> Prop) `{!forall x, Decision (P x)} (l : list A) :
  filter P (filter P l) = filter P l.
Proof. induction l as [|x l IH]; [done|]. rewrite filter_cons. case_decide; [|done].
  by rewrite filter_cons_True, IH. Qed.

(** From the top of the loop. *)
Lemma top_drains cmds el sh q n rcv cv :
  ch_contents q = cmds ->
  exists w', rtc serve_step (mkNW Iterating el sh q n rcv cv) w'
    /\ nw_phase w' = Selecting /\ ch_contents (nw_commands w') = []
    /\ (task_handle <$> el_active (nw_loop w'))
       = filter (fun loc => abandoned sh loc = false)
           ((task_handle <$> el_active el) ++ (task_handle <$> cmds)).
Proof.
  revert el sh q. induction cmds as [|cmd cmds IH]; intros el sh q Hq.
  { eexists. split; [apply rtc_once, ss_loop, ls_retain|]. simpl. split_and!; [done|done|].
    by rewrite app_nil_r, <- retain_cells. }
  destruct (ch_recv_cons _ q cmd cmds Hq) as (q' & Hr & Hc & _).
  destruct (handle_command_total (retain_active el sh) sh cmd) as (el' & sh' & Hh & _).
  destruct (handle_command_inv _ _ _ _ _ Hh) as (c & s & fin & _ & Ha & Hsh).
  destruct (IH el' sh' q' Hc) as (w' & Hrun & Hp & Hn & Hact). exists w'. split_and!; [|done|done|].
  - eapply rtc_l; [apply ss_loop, ls_retain|]. eapply rtc_l; [apply ss_loop; by eapply ls_command|done].
  - rewrite Hact, (filter_abandoned sh) by (intros; subst sh'; apply finish_all_abandoned).
    rewrite Ha, fmap_app, retain_cells, !filter_app, filter_twice, <- app_assoc. by rewrite <- filter_app.
Qed.

(** The application empties the event queue. *)
Lemma receive_all es ph el sh q n rcv cv :
  ch_contents (sh_events sh) = es ->
  exists ch, rtc serve_step (mkNW ph el sh q n rcv cv)
      (mkNW ph el (sh_set_events ch sh) q n (rcv ++ es) cv)
    /\ ch_contents ch = [] /\ ch_capacity ch = ch_capacity (sh_events sh)
    /\ ch_rx_alive ch = ch_rx_alive (sh_events sh).
Proof.
  revert sh rcv. induction es as [|e es IH]; intros sh rcv He.
  { exists (sh_events sh). rewrite app_nil_r. split; [by destruct sh|done]. }
  destruct (ch_recv_cons _ _ e es He) as (c & Hr & Hes & Hc & Ha).
  destruct (IH (sh_set_events c sh) (rcv ++ [e]) Hes) as (ch & Hrun & Hn & Hc' & Ha').
  exists ch. split; [|simpl in *; split; [done|split; congruence]].
  eapply rtc_l; [by apply (ss_receive (mkNW ph el sh q n rcv cv) e c)|].
  rewrite <- app_assoc in Hrun. exact Hrun.
Qed.

(** A send that waits for room completes. *)
Lemma send_completes evt el sh q n rcv cv :
  0 < ch_capacity (sh_events sh) ->
  exists sh1 rcv1, rtc serve_step (mkNW (Sending evt) el sh q n rcv cv) (mkNW Iterating el sh1 q n rcv1 cv)
    /\ sh_handles sh1 = sh_handles sh.
Proof.
  intros Hcap. destruct (receive_all _ (Sending evt) el sh q n rcv cv eq_refl)
    as (ch & Hrun & Hn & Hc & Ha).
  destruct (ch_rx_alive ch) eqn:Halive.
  - destruct (ch_try_send_ok _ ch evt Halive) as (ch' & Hs & _); [rewrite Hn, Hc; simpl; lia|].
    eexists _, _. split; [eapply rtc_r; [exact Hrun|by apply ss_loop, ls_sent]|done].
  - eexists _, _. split; [eapply rtc_r; [exact Hrun|]|].
    + apply ss_loop, ls_send_closed. by apply ch_try_send_closed.
    + done.
Qed.

End lemmas.

(** ** Properties *)

(** An application that receives its events is served: from every state in
    which the loop has not returned there is a run of loop steps and event
    receptions alone, without any swarm event, after which the loop waits in
    [select!] with an empty command queue, and the active commands are exactly
    those that were active and those that were queued, in this order, without
    the ones whose caller has gone. *)
Lemma receiving_application_is_served `{N : NetTypes} {Sw C V}
    `{!SwarmOps Sw, !SwarmPoll Sw, !HashOrder, !Mpsc, !MpscLaws}
    `{!CommandHandler Sw C V, !RelayRequester C, !Keyed C, !CommandHandlerLaws Sw C V}
    (w : NodeWorld Sw C V) :
  nw_phase w <> Stopped -> (nw_phase w = Selecting -> ch_contents (nw_commands w) <> []) ->
  0 < ch_capacity (sh_events (nw_shared w)) ->
  exists w', rtc serve_step w w'
    /\ nw_phase w' = Selecting /\ ch_contents (nw_commands w') = []
    /\ (task_handle <$> el_active (nw_loop w'))
       = filter (fun loc => abandoned (nw_shared w) loc = false) (waiting_cells w).
Proof.
  destruct w as [ph el sh q n rcv cv]. unfold waiting_cells. simpl. intros Hp Hsel Hcap.
  destruct ph as [| |evt|]; [by apply top_drains| | |done].
  - destruct (ch_contents q) as [|cmd cmds] eqn:Hq; [by destruct Hsel|].
    destruct (ch_recv_cons _ q cmd cmds Hq) as (q' & Hr & Hc & _).
    destruct (handle_command_total el sh cmd) as (el' & sh' & Hh & _).
    destruct (handle_command_inv _ _ _ _ _ Hh) as (c & s & fin & _ & Ha & Hsh).
    destruct (top_drains cmds el' sh' q' n rcv cv Hc) as (w' & Hrun & Hp' & Hn & Hact).
    exists w'. split_and!; [|done|done|].
    + eapply rtc_l; [apply ss_loop; by eapply ls_command|done].
    + rewrite Hact, (filter_abandoned sh) by (intros; subst sh'; apply finish_all_abandoned).
      by rewrite Ha, fmap_app, <- app_assoc.
  - destruct (send_completes evt el sh q n rcv cv Hcap) as (sh1 & rcv1 & Hr1 & Hh1).
    destruct (top_drains _ el sh1 q n rcv1 cv eq_refl) as (w' & Hrun & Hp' & Hn & Hact).
    exists w'. split_and!; [by etrans|done|done|].
    rewrite Hact. apply filter_abandoned. intros loc. unfold abandoned. by rewrite Hh1.
Qed.
