(* ===== verification/Fairness.v ===== *)
(** * Fair runs

    [Drain] shows that a queued command can be run; here it is run.  A schedule
    is an infinite run of the node; it is fair when the loop is not starved, the
    application does not leave the event queue full for ever, and [select!],
    which picks among its ready branches at random, does not pass over a ready
    command branch for ever.  Fairness is stated as in "taken, or disabled". *)
From S2P Require Import Prelude Externals Errors DataChannel PendingMap Config Handle Handler.
From S2P Require Import EventLoop EventChain CommandChain LoopFrame Node.

Section schedule.
Context `{N : NetTypes} {Sw C V : Type}.
Context `{!SwarmOps Sw, !SwarmPoll Sw, !HashOrder, !Mpsc, !CommandHandler Sw C V, !RelayRequester C}.
Local Notation World := (NodeWorld Sw C V).

(** In each step the loop moves, or the application does any number of things. *)
Definition schedule_ok (r : nat -> World) : Prop := forall i,
  loop_step (r i) (r (S i)) \/ rtc app_step (r i) (r (S i)).

Definition queued (w : World) : list (CommandTask C) := ch_contents (nw_commands w).

(** The event queue takes one more event, or nobody wants events any more. *)
Definition accepts (w : World) : Prop :=
  let ch := sh_events (nw_shared w) in
  ch_rx_alive ch = false \/ length (ch_contents ch) < ch_capacity ch.

(** The loop can go on by itself. *)
Definition loop_ready (w : World) : Prop :=
  match nw_phase w with
  | Iterating => True
  | Sending _ => accepts w
  | Selecting | Stopped => False
  end.

(** The command branch of [select!] is ready. *)
Definition offered (w : World) : Prop := nw_phase w = Selecting /\ queued w <> [].

(** The loop takes [t] out of the queue and runs it. *)
Definition runs (r : nat -> World) (i : nat) (t : CommandTask C) : Prop :=
  nw_phase (r i) = Selecting
  /\ ch_recv (nw_commands (r i)) = Some (t, nw_commands (r (S i)))
  /\ handle_command (nw_loop (r i)) (nw_shared (r i)) t
     = Some (nw_loop (r (S i)), nw_shared (r (S i))).

Record fair (r : nat -> World) : Prop := {
  fair_loop : forall i, exists j, i <= j /\ (loop_step (r j) (r (S j)) \/ ~ loop_ready (r j));
  fair_application : forall i, exists j, i <= j /\ accepts (r j);
  fair_select : forall i,
    (exists j t, i <= j /\ runs r j t) \/ (exists j, i <= j /\ forall k, j <= k -> ~ offered (r k));
}.

End schedule.

(** ** Lemmas *)

Section lemmas.
Context `{N : NetTypes} {Sw C V : Type}.
Context `{!SwarmOps Sw, !SwarmPoll Sw, !HashOrder, !Mpsc, !MpscLaws, !CommandHandler Sw C V, !RelayRequester C}.
Implicit Types (w : NodeWorld Sw C V) (r : nat -> NodeWorld Sw C V).

(** The application keeps the phase, the queued commands and the room. *)
Lemma app_step_keeps w w' :
  app_step w w' ->
  nw_phase w' = nw_phase w /\ (exists new, queued w' = queued w ++ new) /\ (accepts w -> accepts w').
Proof.
  intros Hs. unfold queued, accepts.
  destruct Hs as [ph el sh q n rcv cv evt ch Hr|ph el sh q n rcv cv|ph el sh q n rcv cv cmd q' _ Hs
    | | | | | | |]; simpl; (split; [done|split]); try done;
    try (exists []; by rewrite app_nil_r).
  - destruct (ch_contents (sh_events sh)) as [|x l] eqn:Hc; [by rewrite ch_recv_nil in Hr|].
    destruct (ch_recv_cons _ _ x l Hc) as (c2 & Hc2 & Hl & Hcap & Ha). rewrite Hr in Hc2. injection Hc2 as <- <-.
    rewrite Hl, Hcap, Ha. simpl. intros [?|?]; [by left|right; lia].
  - destruct (ch_drop_rx_spec _ (sh_events sh)) as (_ & _ & Hd). by left.
  - apply ch_try_send_inv in Hs as (_ & _ & Hq & _). by eexists.
Qed.

Lemma app_steps_keep w w' :
  rtc app_step w w' -> nw_phase w' = nw_phase w /\ (exists new, queued w' = queued w ++ new).
Proof.
  induction 1 as [w|w1 w2 w3 (Hp & [n Hn] & _)%app_step_keeps _ [IHp [n' IHn]]].
  - split; [done|]. exists []. by rewrite app_nil_r.
  - split; [congruence|]. exists (n ++ n'). by rewrite IHn, Hn, app_assoc.
Qed.

(** Whatever the application cannot change holds until the loop moves. *)
Lemma until_loop r (Q : NodeWorld Sw C V -> Prop) i j :
  schedule_ok r -> (forall w w', app_step w w' -> Q w -> Q w') -> Q (r i) -> i <= j ->
  (exists m, i <= m < j /\ Q (r m) /\ loop_step (r m) (r (S m))) \/ Q (r j).
Proof.
  intros Hr HQ Hi Hle. induction Hle as [|j Hle [(m & ? & ?)|IH]]; [by right|left; exists m; split; [lia|done]|].
  destruct (Hr j) as [Hs|Hs].
  - left. exists j. split; [lia|done].
  - right. clear -Hs HQ IH. induction Hs; eauto.
Qed.

(** The loop at its top, or waiting with room for its event: it moves on. *)
Lemma loop_moves r i ph q :
  schedule_ok r -> fair r ->
  nw_phase (r i) = ph -> loop_ready (r i) -> (exists new, queued (r i) = q ++ new) ->
  exists m, i <= m /\ nw_phase (r m) = ph /\ (exists new, queued (r m) = q ++ new)
    /\ loop_step (r m) (r (S m)).
Proof.
  intros Hr Hf Hp Hready Hq. destruct (fair_loop _ Hf i) as (j & Hij & Hj).
  destruct (until_loop r (fun w => nw_phase w = ph /\ loop_ready w /\ exists new, queued w = q ++ new) i j)
    as [(m & Hm & (Hpm & _ & Hqm) & Hs)|(Hpj & Hrj & Hqj)]; [done| |done|done|..].
  - intros w w' (Hp' & [new Hnew] & Ha)%app_step_keeps (Hpw & Hrw & [old Hold]). split; [congruence|].
    split; [|exists (old ++ new); by rewrite Hnew, Hold, app_assoc].
    unfold loop_ready in *. rewrite Hp'. destruct (nw_phase w); auto.
  - exists m. split; [lia|done].
  - destruct Hj as [Hj|Hj]; [|done]. by exists j.
Qed.

(** A step either runs the first command or leaves the queue alone, but for new
    commands; with commands in the queue the loop does not stop. *)
Lemma schedule_step r i t l :
  schedule_ok r -> queued (r i) = t :: l -> nw_phase (r i) <> Stopped ->
  nw_phase (r (S i)) <> Stopped
  /\ ((runs r i t /\ queued (r (S i)) = l)
      \/ exists new, queued (r (S i)) = t :: l ++ new).
Proof.
  intros Hr Hq Hp. destruct (Hr i) as [Hs|Hs].
  - unfold runs, queued in *.
    destruct Hs as [el sh q n rcv cv|el sh q q' n rcv cv cmd el' sh' Hrecv Hc|el sh q rcv cv Hrecv
      |el sh q n rcv cv ev s el' sh' o _ _| | | | |]; simpl in *;
      try (split; [done|right; exists []; by rewrite app_nil_r]).
    + split; [done|left]. pose proof (ch_recv_inv _ _ _ Hrecv) as [Hcont _]. rewrite Hcont in Hq.
      by simplify_eq.
    + destruct (ch_recv_cons _ _ _ _ Hq) as (c & Hc & _). by rewrite Hrecv in Hc.
    + split; [by destruct o|right; exists []; by rewrite app_nil_r].
  - apply app_steps_keep in Hs as (-> & [new ->]). split; [done|right]. exists new. by rewrite Hq.
Qed.

(** Between two moments either the first command was run or it still waits. *)
Lemma waits_or_runs r i j t l :
  schedule_ok r -> queued (r i) = t :: l -> nw_phase (r i) <> Stopped -> i <= j ->
  (exists k, i <= k < j /\ runs r k t /\ (exists new, queued (r (S k)) = l ++ new)
     /\ nw_phase (r (S k)) <> Stopped)
  \/ (nw_phase (r j) <> Stopped /\ exists new, queued (r j) = t :: l ++ new).
Proof.
  intros Hr Hq Hp Hle. induction Hle as [|j Hle [(k & ? & ?)|(Hpj & new & Hqj)]].
  - right. split; [done|]. exists []. by rewrite app_nil_r.
  - left. exists k. split; [lia|done].
  - destruct (schedule_step r j t (l ++ new) Hr Hqj Hpj) as (Hp' & [[Hrun Hq']|[new' Hq']]).
    + left. exists j. split; [lia|]. split; [done|]. by split; [exists new|].
    + right. split; [done|]. exists (new ++ new'). by rewrite Hq', app_assoc.
Qed.

(** The loop comes back to [select!]. *)
Lemma top_selects r i q :
  schedule_ok r -> fair r -> nw_phase (r i) = Iterating -> (exists new, queued (r i) = q ++ new) ->
  exists j, i <= j /\ nw_phase (r j) = Selecting.
Proof.
  intros Hr Hf Hp Hq. destruct (loop_moves r i Iterating q Hr Hf Hp) as (m & Hm & Hpm & _ & Hs);
    [unfold loop_ready; by rewrite Hp|done|].
  exists (S m). split; [lia|]. by destruct Hs.
Qed.

Lemma selects_again r i t l :
  schedule_ok r -> fair r -> queued (r i) = t :: l -> nw_phase (r i) <> Stopped ->
  exists j, i <= j /\ nw_phase (r j) = Selecting.
Proof.
  intros Hr Hf Hq Hp. destruct (nw_phase (r i)) as [| |evt|] eqn:Hph; [|by exists i| |done].
  - eapply (top_selects r i []); [done|done|done|by eexists].
  - destruct (fair_application _ Hf i) as (j & Hij & Hacc).
    assert (forall m, i <= m -> nw_phase (r m) = Sending evt ->
      loop_step (r m) (r (S m)) -> exists j, i <= j /\ nw_phase (r j) = Selecting) as Hsent.
    { intros m Hm Hpm Hs. destruct (top_selects r (S m) [] Hr Hf) as (k & Hk & Hsel);
        [by destruct Hs|by eexists|exists k; split; [lia|done]]. }
    destruct (until_loop r (fun w => nw_phase w = Sending evt) i j) as [(m & Hm & Hpm & Hs)|Hpj];
      [done|by intros w w' (-> & _)%app_step_keeps|done|done|by apply (Hsent m); [lia|..]|].
    destruct (loop_moves r j (Sending evt) [] Hr Hf Hpj) as (m & Hm & Hpm & _ & Hs);
      [unfold loop_ready; by rewrite Hpj|by eexists|]. apply (Hsent m); [lia|done|done].
Qed.

(** The first command of the queue is run. *)
Lemma first_runs r i t l :
  schedule_ok r -> fair r -> queued (r i) = t :: l -> nw_phase (r i) <> Stopped ->
  exists k, i <= k /\ runs r k t /\ (exists new, queued (r (S k)) = l ++ new)
    /\ nw_phase (r (S k)) <> Stopped.
Proof.
  intros Hr Hf Hq Hp.
  destruct (fair_select _ Hf i) as [(j & u & Hij & Hrun)|(j & Hij & Hno)].
  - destruct (waits_or_runs r i j t l Hr Hq Hp Hij) as [(k & ? & ?)|(Hpj & new & Hqj)];
      [exists k; split; [lia|done]|].
    pose proof Hrun as (Hsel & Hrecv & _). pose proof (ch_recv_inv _ _ _ Hrecv) as [Hc _].
    pose proof Hqj as Hqj'. unfold queued in Hqj'. rewrite Hc in Hqj'. injection Hqj' as <- Hl.
    destruct (schedule_step r j u (l ++ new) Hr Hqj Hpj) as (Hp' & _).
    exists j. split; [done|]. split; [done|]. by split; [exists new|].
  - destruct (waits_or_runs r i j t l Hr Hq Hp Hij) as [(k & ? & ?)|(Hpj & new & Hqj)];
      [exists k; split; [lia|done]|].
    destruct (selects_again r j t _ Hr Hf Hqj Hpj) as (k & Hjk & Hsel).
    destruct (waits_or_runs r j k t _ Hr Hqj Hpj Hjk) as [(k' & Hk' & Hrun & [new' Hq'] & Hp')|(_ & new' & Hqk)].
    + exists k'. split; [lia|]. split; [done|]. split; [|done]. exists (new ++ new'). by rewrite Hq', app_assoc.
    + exfalso. apply (Hno k Hjk). split; [done|]. by rewrite Hqk.
Qed.

(** And so is every other one. *)
Lemma queued_is_run r i t :
  schedule_ok r -> fair r -> nw_phase (r i) <> Stopped -> t ∈ queued (r i) ->
  exists k, i <= k /\ runs r k t.
Proof.
  intros Hr Hf Hp (before & after & Hq)%list_elem_of_split. revert i after Hp Hq.
  induction before as [|u before IH]; intros i after Hp Hq.
  - destruct (first_runs r i t after Hr Hf Hq Hp) as (k & ? & ? & _). by exists k.
  - destruct (first_runs r i u _ Hr Hf Hq Hp) as (k & Hik & _ & [new Hq'] & Hp').
    rewrite <- app_assoc in Hq'. destruct (IH (S k) _ Hp' Hq') as (k' & ? & ?).
    exists k'. split; [lia|done].
Qed.

End lemmas.
