(* ===== verification/Returns.v ===== *)
(** * Calls return

    Liveness for the clients: in every fair infinite run of the node with its
    clients, a call whose command answers as soon as it is run, and a call that
    has a timeout, returns, unless its caller drops it.  A run is fair when the
    loop, the application and [select!] are ([Fairness]), the executor polls the
    calls that are due, and the clock goes on. *)
From S2P Require Import Prelude Externals Errors DataChannel PendingMap Config Handle Handler.
From S2P Require Import BasicCommands KadCommands KadQueries ReqRespCommands Commands.
From S2P Require Import EventLoop EventChain CommandChain SwarmIds LoopFrame Dialing OpenFuture.
From S2P Require Import Client Node System Calls Fairness.

Section runs.
Context `{N : NetTypes} {Sw : Type} `{!SwarmOps Sw, !SwarmPoll Sw, !HashOrder, !Mpsc}.

(** The commands that answer in [run], on every branch. *)
Definition immediate (c : AnyCommand) : bool :=
  match c with
  | AIsConnected _ | AGetListenAddrs _ | AAddPeerAddrs _ | AAddInfrastructurePeer _
  | AStopProvide _ | ARemoveRecord _ | ASendResponse _ => true
  | _ => false
  end.

(** An infinite run of the node with its clients. *)
Record Run := mkRun {
  state_at : nat -> System Sw;
  label_at : nat -> Label;
}.

Definition run_ok (r : Run) : Prop := forall i, sys_step (label_at r i) (state_at r i) (state_at r (S i)).

(** The future of the call on [loc] is polled: it sends its command, or looks
    into its result cell. *)
Inductive polls (loc : nat) (s s' : System Sw) : Prop :=
| polls_send lc f q r :
    sy_calls s !! loc = Some lc -> is_Some (cf_handler (lc_future lc)) ->
    CommandFuture_send (T := CmdValue) (lc_future lc) (nw_commands (sy_node s)) = (f, q, r) ->
    sy_calls s' !! loc = match r with None => Some (lc_set_future f lc) | Some _ => None end ->
    polls loc s s'
| polls_handle lc st waker c q st' r :
    sy_calls s !! loc = Some lc -> cf_handler (lc_future lc) = None ->
    sh_handles (nw_shared (sy_node s)) !! loc = Some st ->
    request_poll (lc_call lc) (sh_now (nw_shared (sy_node s))) (nw_commands (sy_node s)) st waker
    = (c, q, st', r) ->
    sy_calls s' !! loc = match r with None => Some lc | Some _ => None end ->
    polls loc s s'.

(** The call has been sent; its result waits in its cell. *)
Definition sent (s : System Sw) (loc : nat) (lc : LiveCall) : Prop :=
  sy_calls s !! loc = Some lc /\ cf_handler (lc_future lc) = None.
Definition has_result (sh : Shared CmdValue) (loc : nat) : Prop :=
  exists st, sh_handles sh !! loc = Some st /\ is_Some (rs_result st).

(** A call is due when it has its answer, or when its time has come.  The
    executor has a reason to poll it when it is due, the waker or the timer
    having fired, and when it has not been polled yet. *)
Definition due (s : System Sw) (loc : nat) (lc : LiveCall) : Prop :=
  has_result (nw_shared (sy_node s)) loc
  \/ exists d, rc_deadline (lc_call lc) = Some d /\ (d <= sh_now (nw_shared (sy_node s)))%Z.
Definition ready (s : System Sw) (loc : nat) : Prop :=
  exists lc, sy_calls s !! loc = Some lc /\ (is_Some (cf_handler (lc_future lc)) \/ due s loc lc).

Record fair_run (r : Run) : Prop := {
  fr_node : fair (fun i => sy_node (state_at r i));
  fr_polled : forall loc i, exists j, i <= j
    /\ (polls loc (state_at r j) (state_at r (S j)) \/ ~ ready (state_at r j) loc);
  fr_clock : forall t, exists i, (t <= sh_now (nw_shared (sy_node (state_at r i))))%Z;
}.

(** The call on [loc] returns in step [i], or its caller drops it. *)
Definition returns (r : Run) (i loc : nat) : Prop := exists res, label_at r i = Returned loc res.
Definition dropped (r : Run) (i loc : nat) : Prop :=
  label_at r i = Tau /\ is_Some (sy_calls (state_at r i) !! loc)
  /\ sy_calls (state_at r (S i)) !! loc = None.

(** A call that has been sent and answers at once is queued, or answered. *)
Definition served_ok (s : System Sw) : Prop := forall loc lc,
  sent s loc lc -> immediate (lc_command lc) = true ->
  mkTask (lc_command lc) loc ∈ queued (sy_node s) \/ has_result (nw_shared (sy_node s)) loc.

End runs.
Arguments Run {_} Sw {_}.

(** ** The loop *)

Section loop.
Context `{N : NetTypes} {Sw : Type}.
Context `{!SwarmOps Sw, !SwarmPoll Sw, !HashOrder, !Mpsc, !MpscLaws}.
Implicit Types (w : NodeWorld Sw AnyCommand CmdValue) (sh : Shared CmdValue).

Lemma immediate_answers c (sw : Sw) c' s' fin :
  immediate c = true -> run c sw = Some (c', s', fin) -> fin <> [].
Proof.
  destruct c as [c|c|c|c|c|c|c|c|c|c|c|c|c|c|c|c]; try done; intros _; simpl;
    unfold run_boxed_as, H_map, fmap, H_fmap; simpl;
    unfold IsConnectedCommand_run, GetListenAddrsCommand_run, AddPeerAddrsCommand_run,
      AddInfrastructurePeerCommand_run, StopProvideCommand_run, RemoveRecordCommand_run,
      SendResponseCommand_run; run_H; intros Hr; repeat (case_match; simpl in Hr); by simplify_eq/=.
Qed.

(** What holds of a cell, and of a cell with one more result, holds until
    somebody else writes the cell. *)
Section cell.
Context (Q : ResultState CmdValue -> Prop) (HQ : forall st r, Q st -> Q (finish_state st r)).

Definition cell_is sh (loc : nat) : Prop := exists st, sh_handles sh !! loc = Some st /\ Q st.

Lemma finish_all_cell loc' sh (fin : list (CResult CmdValue)) loc :
  cell_is sh loc -> cell_is (foldl (finish_handle loc') sh fin) loc.
Proof.
  intros (st & Hst & Hq). unfold cell_is. rewrite finish_all_lookup, Hst. case_decide; [|by exists st].
  eexists. split; [done|]. clear Hst. revert st Hq. induction fin as [|r fin IH]; intros st Hq; simpl; auto.
Qed.

Lemma deliver_all_cell (s : Sw) ev (l : list (CommandTask AnyCommand)) sh loc :
  cell_is sh loc -> cell_is (foldl (deliver s ev) sh l) loc.
Proof. revert sh. induction l as [|t l IH]; intros sh Hr; simpl; [done|]. by apply IH, finish_all_cell. Qed.

Lemma loop_step_cell w w' loc : loop_step w w' -> cell_is (nw_shared w) loc -> cell_is (nw_shared w') loc.
Proof.
  intros Hs. destruct Hs as [|? ? ? ? ? ? ? ? ? ? _ Hc| |? ? ? ? ? ? ? ? ? ? ? _ He| |? ? ? ? ? ? q p s| | |];
    simpl; try done.
  - apply handle_command_inv in Hc as (c & s & fin & _ & _ & ->). apply finish_all_cell.
  - apply handle_swarm_event_inv in He as (active & sh1 & r & Hch & _ & _ & Hh).
    destruct Hch as (visited & rest & _ & _ & -> & _). intros Hr. unfold cell_is. rewrite Hh.
    by apply deliver_all_cell.
  - unfold handle_inbound_channel, cell_is. by repeat case_match.
Qed.

End cell.

(** Results stay until they are taken. *)
Lemma finish_all_keeps loc' sh (fin : list (CResult CmdValue)) loc :
  has_result sh loc -> has_result (foldl (finish_handle loc') sh fin) loc.
Proof. apply (finish_all_cell (fun st => is_Some (rs_result st))). intros st r _. by eexists. Qed.

Lemma deliver_all_keeps (s : Sw) ev (l : list (CommandTask AnyCommand)) sh loc :
  has_result sh loc -> has_result (foldl (deliver s ev) sh l) loc.
Proof. apply (deliver_all_cell (fun st => is_Some (rs_result st))). intros st r _. by eexists. Qed.

Lemma loop_step_keeps w w' loc :
  loop_step w w' -> has_result (nw_shared w) loc -> has_result (nw_shared w') loc.
Proof. apply (loop_step_cell (fun st => is_Some (rs_result st))). intros st r _. by eexists. Qed.

Lemma finish_all_answers loc sh (fin : list (CResult CmdValue)) :
  is_Some (sh_handles sh !! loc) -> fin <> [] -> has_result (foldl (finish_handle loc) sh fin) loc.
Proof.
  destruct fin as [|r fin]; [done|]. intros [st Hst] _. simpl. apply finish_all_keeps.
  unfold finish_handle. rewrite Hst. eexists. simpl. rewrite lookup_insert_eq. eauto.
Qed.

(** The queue is worked off. *)
Lemma task_step w w' t :
  loop_step w w' \/ rtc app_step w w' -> t ∈ queued w ->
  t ∈ queued w' \/ handle_command (nw_loop w) (nw_shared w) t = Some (nw_loop w', nw_shared w').
Proof.
  intros [Hs|(_ & new & ->)%app_steps_keep] Hin; [|set_solver]. unfold queued in *.
  destruct Hs as [|el sh q q' n rcv cv cmd el' sh' Hr Hc| | | | | | |]; simpl in *; try by left.
  apply ch_recv_inv in Hr as [Hq _]. rewrite Hq in Hin. apply elem_of_cons in Hin as [->|Hin]; [by right|by left].
Qed.

Lemma ran_result el sh c loc (el' : EventLoop Sw AnyCommand) sh' :
  handle_command el sh (mkTask c loc) = Some (el', sh') -> immediate c = true ->
  is_Some (sh_handles sh !! loc) -> has_result sh' loc.
Proof.
  intros (c' & s & fin & Hr & _ & ->)%handle_command_inv Hi Hc. apply finish_all_answers; [done|].
  by eapply immediate_answers.
Qed.

End loop.

(** ** The system *)

Section system.
Context `{N : NetTypes} {Sw : Type}.
Context `{!SwarmOps Sw, !SwarmPoll Sw, !HashOrder, !Mpsc, !MpscLaws}.
Implicit Types (s : System Sw) (r : Run Sw).

(** The same call, perhaps sent by now. *)
Definition same_call (lc lc' : LiveCall) : Prop :=
  lc_command lc' = lc_command lc /\ rc_deadline (lc_call lc') = rc_deadline (lc_call lc).

#[export] Instance same_call_preorder : PreOrder same_call.
Proof. unfold same_call. split; [by intros lc|]. intros lc1 lc2 lc3 [] []. split; congruence. Qed.

(** The call is still there: what it was, and no less far. *)
Definition goes_on s s' (loc : nat) (lc : LiveCall) : Prop :=
  exists lc', sy_calls s' !! loc = Some lc' /\ same_call lc lc'
    /\ (has_result (nw_shared (sy_node s)) loc -> has_result (nw_shared (sy_node s')) loc)
    /\ match cf_handler (lc_future lc) with
       | None => cf_handler (lc_future lc') = None
       | Some c => cf_handler (lc_future lc') = Some c \/ mkTask (lc_command lc) loc ∈ queued (sy_node s')
       end.

Lemma goes_on_same s s' loc lc :
  sy_calls s' !! loc = Some lc ->
  (has_result (nw_shared (sy_node s)) loc -> has_result (nw_shared (sy_node s')) loc) ->
  goes_on s s' loc lc.
Proof.
  intros Hl Hk. exists lc. split_and!; [done..|]. destruct (cf_handler _); [by left|done].
Qed.

(** Another cell is written. *)
Lemma set_handle_keeps (sh : Shared CmdValue) loc loc' st :
  loc' <> loc -> has_result sh loc -> has_result (sh_set_handle loc' st sh) loc.
Proof. intros Hne (st' & Hst & Hr). exists st'. split; [|done]. simpl. by rewrite lookup_insert_ne. Qed.

(** What becomes of a call in one step of anyone. *)
Lemma live_step lab s s' loc lc :
  sys_step lab s s' -> typed_inv s -> sy_calls s !! loc = Some lc ->
  (sy_calls s' !! loc = None /\ (lab = Tau \/ exists res, lab = Returned loc res)) \/ goes_on s s' loc lc.
Proof.
  intros Hs [[_ Hc _] [G [_ _ Hty]]] Hl.
  pose proof (proj1 (Hc _ _ Hl)) as Hcell.
  assert (forall loc' st, loc' <> loc -> has_result (nw_shared (sy_node s)) loc ->
    has_result (sh_set_handle loc' st (nw_shared (sy_node s))) loc) as Hset
    by (intros; by apply set_handle_keeps).
  destruct Hs as
    [w w' cl ca op ch Hs| | | | |w cl ca op ch client loc' call lc' _ Hno _
     |w cl ca op ch client loc' id response pending fut lc' _ Hno _ _|
     |w cl ca op ch loc' lc' f q Hl' Hh Hsend|w cl ca op ch loc' lc' st f q r Hl' _ _
     |w cl ca op ch loc' lc' st waker c q st' Hl' Hh Hst Hp
     |w cl ca op ch loc' lc' st waker c q st' r Hl' _ _ _
     |w cl ca op ch loc' lc' st Hl' _| | | | | | | | | | |]; simpl in *;
    try (right; by apply goes_on_same);
    try (destruct (decide (loc' = loc)) as [->|Hne];
         [left; split; [simpl; apply lookup_delete_eq|eauto]
         |right; apply goes_on_same; [simpl; by rewrite lookup_delete_ne|by apply Hset]]).
  - right. apply goes_on_same; [done|]. by apply loop_step_keeps.
  - rewrite <- cells_fresh in Hno. assert (loc' <> loc) by (by intros ->). right.
    apply goes_on_same; [simpl; by rewrite lookup_insert_ne|by apply Hset].
  - rewrite <- cells_fresh in Hno. assert (loc' <> loc) by (by intros ->). right.
    apply goes_on_same; [simpl; by rewrite lookup_insert_ne|]. simpl. intros Hr. by apply set_handle_keeps.
  - right. destruct (decide (loc' = loc)) as [->|Hne];
      [|apply goes_on_same; [simpl; by rewrite lookup_insert_ne|done]].
    replace lc' with lc in * by congruence. apply send_inv in Hsend. destruct (Hty _ _ Hl) as [_ Hcmd].
    destruct (cf_handler (lc_future lc)) as [c|] eqn:Hf; [|by destruct Hh].
    destruct Hsend as [-> (_ & _ & Hq & _)%ch_try_send_inv].
    eexists. split; [simpl; apply lookup_insert_eq|]. split; [by split|]. split; [done|]. rewrite Hf. right.
    unfold queued. simpl. rewrite Hq, (proj2 (Hc _ _ Hl)), (Hcmd c eq_refl). set_solver.
  - right. apply goes_on_same; [done|]. simpl. destruct (decide (loc' = loc)) as [->|]; [|by apply Hset].
    apply poll_inv in Hp as (_ & _ & _ & Hnone & _); [|done]. intros (st1 & Hst1 & [x Hx]). congruence.
Qed.

(** The clock does not go back. *)
Lemma sys_step_clock lab s s' :
  sys_step lab s s' -> (sh_now (nw_shared (sy_node s)) <= sh_now (nw_shared (sy_node s')))%Z.
Proof.
  intros Hs. destruct Hs as [w w' cl ca op ch Hs| | | | | | | | | | | | | | | | | | | | | | |]; simpl; try done.
  destruct Hs as [|? ? ? ? ? ? ? ? ? ? _ Hc| |? ? ? ? ? ? ? ? ? ? ? _ He| |? ? ? ? ? ? q p st| | |]; simpl; try done.
  - apply handle_command_frame in Hc as [_ _ _ _ -> _]. done.
  - apply handle_swarm_event_frame in He as [_ _ _ _ -> _]. done.
  - unfold handle_inbound_channel. by repeat case_match.
Qed.

(** A poll after the deadline does not leave the call pending. *)
Lemma poll_late (c c' : RequestCall) now q q' (st st' : ResultState CmdValue) wk d :
  request_poll c now q st wk = (c', q', st', None) -> cf_handler (rc_future c) = None ->
  rc_deadline c = Some d -> ~ (d <= now)%Z.
Proof.
  unfold request_poll, CommandFuture_poll, CommandFuture_send, handle_poll.
  destruct c as [[h loc] dl]. simpl. intros Hp -> ->. revert Hp.
  destruct (rs_result st); simpl; [by intros; simplify_eq|]. destruct (d <=? now)%Z eqn:Hd; [done|].
  intros _. by apply Z.leb_gt in Hd; lia.
Qed.

(** A call that appears has not been sent. *)
Lemma new_step lab s s' loc lc :
  sys_step lab s s' -> sy_calls s !! loc = None -> sy_calls s' !! loc = Some lc ->
  is_Some (cf_handler (lc_future lc)).
Proof.
  intros Hs Hl. destruct Hs as
    [| | | | |w cl ca op ch client loc' call lc' _ _ Hl'
     |w cl ca op ch client loc' id response pending fut lc' _ _ Hr Hl'|
     |w cl ca op ch loc' lc' f q Hl' _ _| | | | | | | | | | | | | | |]; simpl in *; try congruence;
    try (rewrite lookup_delete_Some; intros [_ ?]; congruence);
    rewrite lookup_insert_Some; intros [[<- <-]|[_ ?]]; try congruence.
  - apply call_future_new in Hl' as [-> _]. by eexists.
  - eapply respond_new in Hl' as [-> _]; [|exact Hr]. by eexists.
Qed.

Lemma sys_step_served lab s s' :
  sys_step lab s s' -> typed_inv s -> served_ok s -> served_ok s'.
Proof.
  intros Hs Hi Hsv loc lc' [Hl' Hsent] Him.
  destruct (sy_calls s !! loc) as [lc|] eqn:Hl;
    [|destruct (new_step _ _ _ _ _ Hs Hl Hl') as [c Hc]; congruence].
  destruct (live_step _ _ _ _ _ Hs Hi Hl) as [[Hno _]|(lc1 & Hl1 & [Hcmd _] & Hkeep & Hgo)]; [congruence|].
  simplify_eq. rewrite Hcmd in Him |- *.
  destruct (cf_handler (lc_future lc)) as [c|] eqn:Hf.
  { destruct Hgo as [Hgo|Hgo]; [congruence|by left]. }
  destruct (Hsv loc lc) as [Hq|Hr]; [by split|done| |right; by apply Hkeep].
  destruct (task_step _ _ _ (sys_step_actor _ _ _ (proj1 Hi) Hs) Hq) as [?|Hc]; [by left|right].
  eapply ran_result; [exact Hc|done|]. destruct Hi as [[_ Hcell _] _].
  apply elem_of_dom, (proj1 (Hcell _ _ Hl)).
Qed.

End system.

(** ** Runs *)

Section liveness.
Context `{N : NetTypes} {Sw : Type}.
Context `{!SwarmOps Sw, !SwarmPoll Sw, !HashOrder, !Mpsc, !MpscLaws}.
Context (r : Run Sw) (s0 : System Sw).
Context (Hinit : typed_inv s0) (Hserved : served_ok s0).
Context (Hfresh : nw_phase (sy_node s0) = Iterating).
Context (Hstart : sys_run s0 (state_at r 0)) (Hr : run_ok r) (Hf : fair_run r).

Lemma run_reaches i : sys_run s0 (state_at r i).
Proof.
  induction i as [|i IH]; [done|]. eapply rtc_r; [exact IH|]. eexists. apply Hr.
Qed.

Lemma run_typed i : typed_inv (state_at r i).
Proof. eapply sys_run_typed; [apply run_reaches|done]. Qed.

Lemma run_served i : served_ok (state_at r i).
Proof.
  cut (typed_inv (state_at r i) /\ served_ok (state_at r i)); [by intros []|].
  eapply (rtc_invariant _ (fun s => typed_inv s /\ served_ok s)); [|apply run_reaches|by split].
  intros s s' [lab Hs] [Ht Hsv]. split; [by eapply sys_step_typed|by eapply sys_step_served].
Qed.

Lemma run_actor i :
  loop_step (sy_node (state_at r i)) (sy_node (state_at r (S i)))
  \/ rtc app_step (sy_node (state_at r i)) (sy_node (state_at r (S i))).
Proof. eapply sys_step_actor; [apply run_typed|apply Hr]. Qed.

(** As long as a call is alive the loop has not stopped. *)
Lemma live_runs i loc lc :
  sy_calls (state_at r i) !! loc = Some lc -> nw_phase (sy_node (state_at r i)) <> Stopped.
Proof.
  intros Hl Hp. pose proof (sys_run_node _ _ (run_reaches i) Hinit) as Hn.
  destruct (stopped_drained _ _ Hn Hfresh Hp) as [Hz _].
  destruct (run_typed i) as [[Hc _ _] _]. rewrite Hz in Hc.
  assert (size (sy_calls (state_at r i)) <> 0); [|lia].
  apply map_size_non_empty_iff. intros He. by rewrite He in Hl.
Qed.

(** The call is over by some step from [i] on. *)
Definition ends (i loc : nat) : Prop := exists j, i <= j /\ (returns r j loc \/ dropped r j loc).

Lemma ends_later i j loc : i <= j -> ends j loc -> ends i loc.
Proof. intros Hij (k & Hk & ?). exists k. split; [lia|done]. Qed.

Lemma gone_ends i loc lc :
  sy_calls (state_at r i) !! loc = Some lc -> sy_calls (state_at r (S i)) !! loc = None -> ends i loc.
Proof.
  intros Hl Hno. exists i. split; [lia|].
  destruct (live_step _ _ _ _ _ (Hr i) (run_typed i) Hl) as [[_ [Ht|Hres]]|(lc' & Hl' & _)].
  - right. split; [done|]. by split; [eexists|].
  - by left.
  - congruence.
Qed.

(** One step of a call that is alive, and many. *)
Definition waits (i loc : nat) (lc0 : LiveCall) : Prop :=
  exists lc, sy_calls (state_at r i) !! loc = Some lc /\ same_call lc0 lc.
Definition waits_sent (i loc : nat) (lc0 : LiveCall) : Prop :=
  exists lc, sent (state_at r i) loc lc /\ same_call lc0 lc.

Lemma waits_stays i j loc lc0 :
  waits i loc lc0 -> i <= j ->
  ends i loc
  \/ waits j loc lc0
     /\ (has_result (nw_shared (sy_node (state_at r i))) loc -> has_result (nw_shared (sy_node (state_at r j))) loc).
Proof.
  intros Hw Hij. induction Hij as [|j Hij [He|[(lc & Hl & Hc) Hk]]]; [by right|by left|].
  destruct (live_step _ _ _ _ _ (Hr j) (run_typed j) Hl) as [[Hno _]|(lc' & Hl' & Hc' & Hk' & _)].
  - left. eapply ends_later; [exact Hij|by eapply gone_ends].
  - right. split; [|by auto]. exists lc'. split; [done|by etrans].
Qed.

Lemma sent_stays i j loc lc0 : waits_sent i loc lc0 -> i <= j -> ends i loc \/ waits_sent j loc lc0.
Proof.
  intros Hw Hij. induction Hij as [|j Hij [He|(lc & [Hl Hs] & Hc)]]; [by right|by left|].
  destruct (live_step _ _ _ _ _ (Hr j) (run_typed j) Hl) as [[Hno _]|(lc' & Hl' & Hc' & _ & Hgo)].
  - left. eapply ends_later; [exact Hij|by eapply gone_ends].
  - rewrite Hs in Hgo. right. exists lc'. split; [done|by etrans].
Qed.

Lemma sent_waits i loc lc0 : waits_sent i loc lc0 -> waits i loc lc0.
Proof. intros (lc & [? _] & ?). by exists lc. Qed.

(** A call that is polled in step [j] either ends or is sent afterwards. *)
Lemma polled_sent j loc lc :
  sy_calls (state_at r j) !! loc = Some lc -> polls loc (state_at r j) (state_at r (S j)) ->
  ends j loc \/ waits_sent j loc lc \/ waits_sent (S j) loc lc.
Proof.
  intros Hl Hp. destruct Hp as [lc' f q o Hl' Hh Hs Hnext|lc' st wk c' q st' o Hl' Hh _ _ _]; simplify_eq.
  - destruct o as [res|]; [left; by eapply gone_ends|]. right; right.
    eexists. split; [split; [exact Hnext|]|done].
    apply send_inv in Hs. destruct (cf_handler (lc_future lc)); [|by destruct Hh].
    by destruct Hs as [-> _].
  - right; left. by exists lc.
Qed.

(** First it is sent. *)
Lemma gets_sent i loc lc0 : waits i loc lc0 -> ends i loc \/ exists j, i <= j /\ waits_sent j loc lc0.
Proof.
  intros Hw. destruct (fr_polled _ Hf loc i) as (j & Hij & Hj).
  destruct (waits_stays _ _ _ _ Hw Hij) as [?|[(lc & Hl & Hsame) _]]; [by left|].
  assert (forall k, waits_sent k loc lc -> waits_sent k loc lc0) as Htrans.
  { intros k (lck & ? & ?). exists lck. split; [done|by etrans]. }
  destruct Hj as [Hp|Hno].
  - destruct (polled_sent _ _ _ Hl Hp) as [He|[Hs|Hs]].
    + left. by eapply ends_later.
    + right. exists j. split; [done|by apply Htrans].
    + right. exists (S j). split; [lia|by apply Htrans].
  - right. exists j. split; [done|]. exists lc. split; [|done]. split; [done|].
    apply eq_None_not_Some. intros Hh. apply Hno. exists lc. split; [done|by left].
Qed.

(** Then it is run, and answered. *)
Lemma gets_answered i loc lc0 :
  waits_sent i loc lc0 -> immediate (lc_command lc0) = true ->
  ends i loc \/ exists j, i <= j /\ waits_sent j loc lc0 /\ due (state_at r j) loc lc0.
Proof.
  intros Hw Him. pose proof Hw as (lc & [Hl Hs] & [Hcmd _]). rewrite <- Hcmd in Him.
  destruct (run_served i loc lc) as [Hq|Ha]; [by split|done| |right; exists i; split_and!; [done..|by left]].
  destruct (queued_is_run (fun i => sy_node (state_at r i)) i (mkTask (lc_command lc) loc))
    as (k & Hik & _ & _ & Hc); [exact run_actor|apply Hf|by eapply live_runs|done|].
  destruct (sent_stays i (S k) loc lc0 Hw) as [?|Hw']; [lia|by left|].
  destruct (sent_stays i k loc lc0 Hw) as [?|(lck & [Hlk _] & _)]; [lia|by left|].
  right. exists (S k). split; [lia|]. split; [done|]. left. eapply ran_result; [exact Hc|done|].
  destruct (run_typed k) as [[_ Hcell _] _]. apply elem_of_dom, (proj1 (Hcell _ _ Hlk)).
Qed.

Lemma clock_on i j :
  i <= j -> (sh_now (nw_shared (sy_node (state_at r i))) <= sh_now (nw_shared (sy_node (state_at r j))))%Z.
Proof.
  intros Hij. induction Hij as [|j _ IH]; [done|]. etrans; [exact IH|]. eapply sys_step_clock, Hr.
Qed.

(** Or its time comes. *)
Lemma gets_late i loc lc0 :
  waits_sent i loc lc0 -> is_Some (rc_deadline (lc_call lc0)) ->
  ends i loc \/ exists j, i <= j /\ waits_sent j loc lc0 /\ due (state_at r j) loc lc0.
Proof.
  intros Hw [d Hd]. destruct (fr_clock _ Hf d) as [k Hk].
  destruct (sent_stays i (Nat.max i k) loc lc0 Hw) as [?|Hw']; [lia|by left|].
  right. exists (Nat.max i k). split; [lia|]. split; [done|]. right. exists d. split; [done|].
  etrans; [exact Hk|]. apply clock_on. lia.
Qed.

(** Or the loop has an answer for it. *)
Lemma gets_result i m loc lc0 :
  waits i loc lc0 -> i <= m -> has_result (nw_shared (sy_node (state_at r m))) loc ->
  ends i loc \/ exists j, i <= j /\ waits_sent j loc lc0 /\ due (state_at r j) loc lc0.
Proof.
  intros Hw Him Ha. destruct (waits_stays _ _ _ _ Hw Him) as [?|[Hwm _]]; [by left|].
  destruct (gets_sent _ _ _ Hwm) as [?|(j & Hmj & Hwj)]; [left; by eapply ends_later|].
  destruct (waits_stays _ _ _ _ Hwm Hmj) as [?|[_ Hk]]; [left; by eapply ends_later|].
  right. exists j. split; [lia|]. split; [done|]. left. by apply Hk.
Qed.

(** A call that is due stays so, and ends when it is polled. *)
Lemma due_stays i j loc lc0 :
  waits_sent i loc lc0 -> due (state_at r i) loc lc0 -> i <= j ->
  ends i loc \/ exists lc, sent (state_at r j) loc lc /\ due (state_at r j) loc lc.
Proof.
  intros Hw Hdue Hij. destruct (sent_stays _ _ _ _ Hw Hij) as [?|(lc & Hs & [_ Hd])]; [by left|].
  destruct (waits_stays _ _ _ _ (sent_waits _ _ _ Hw) Hij) as [?|[_ Hk]]; [by left|right].
  exists lc. split; [done|]. destruct Hdue as [Ha|(d & Hd0 & Hle)]; [left; by apply Hk|right].
  exists d. split; [congruence|]. etrans; [exact Hle|by apply clock_on].
Qed.

Lemma due_ends i loc lc0 : waits_sent i loc lc0 -> due (state_at r i) loc lc0 -> ends i loc.
Proof.
  intros Hw Hdue. destruct (fr_polled _ Hf loc i) as (j & Hij & Hj).
  destruct (due_stays _ _ _ _ Hw Hdue Hij) as [?|(lc & [Hl Hs] & Hd)]; [done|].
  eapply ends_later; [exact Hij|].
  destruct Hj as [Hp|Hno]; [|exfalso; apply Hno; exists lc; split; [done|by right]].
  destruct Hp as [lc' f q o Hl' Hh _ _|lc' st wk c' q st' o Hl' _ Hst Hpoll Hnext]; simplify_eq.
  - rewrite Hs in Hh. by destruct Hh.
  - destruct o as [o|]; [by eapply gone_ends|]. exfalso. destruct Hd as [(st1 & Hst1 & [res Hres])|(d & Hd & Hle)].
    + apply poll_inv in Hpoll as (_ & _ & _ & Hno & _); [congruence|done].
    + by eapply poll_late.
Qed.

Lemma call_ends i loc lc :
  sy_calls (state_at r i) !! loc = Some lc ->
  immediate (lc_command lc) = true \/ is_Some (rc_deadline (lc_call lc))
  \/ (exists m, i <= m /\ has_result (nw_shared (sy_node (state_at r m))) loc) ->
  ends i loc.
Proof.
  intros Hl Hc. assert (waits i loc lc) as Hwi by (by exists lc).
  assert (ends i loc \/ exists k, i <= k /\ waits_sent k loc lc /\ due (state_at r k) loc lc)
    as [?|(k & Hik & Hwk & Hd)]; [|done|eapply ends_later; [exact Hik|by eapply due_ends]].
  destruct Hc as [Hc|[Hc|(m & Him & Ha)]]; [| |by eapply gets_result];
    (destruct (gets_sent i loc lc Hwi) as [?|(j & Hij & Hw)]; [by left|]);
    [destruct (gets_answered _ _ _ Hw Hc) as [?|(k & ? & ?)]|destruct (gets_late _ _ _ Hw Hc) as [?|(k & ? & ?)]];
    try (left; by eapply ends_later); right; exists k; (split; [lia|done]).
Qed.

End liveness.

(** ** Properties *)

(** C13. Calls return: in every fair infinite run of a started node with its
    clients, whatever else the clients, the application and the swarm do, a call
    that is alive at any moment returns later, unless its own caller drops it, if
    it calls [is_connected], [get_addrs], [add_peer_addrs],
    [add_infrastructure_peer], [stop_provide], [remove_record] or
    [send_response]; or if it has a timeout; or if the loop puts a result into
    its cell sooner or later. *)
Theorem calls_return `{N : NetTypes} {Sw}
    `{!SwarmOps Sw, !SwarmPoll Sw, !HashOrder, !Mpsc, !MpscLaws}
    {Ctl} (accept : Ctl -> StreamProtocol -> Ctl * bool) (swarm : Sw) (ctl : Ctl) (now dc_id : Z)
    (config : NodeConfig) (node : Node Sw AnyCommand CmdValue) (r : Run Sw) (i loc : nat) (lc : LiveCall) :
  start accept swarm ctl now dc_id config = Ok node -> sys_run (system_of node) (state_at r 0) ->
  run_ok r -> fair_run r ->
  sy_calls (state_at r i) !! loc = Some lc ->
  immediate (lc_command lc) = true \/ is_Some (rc_deadline (lc_call lc))
  \/ (exists m, i <= m /\ has_result (nw_shared (sy_node (state_at r m))) loc) ->
  exists j, i <= j /\ (returns r j loc \/ dropped r j loc).
Proof.
  intros Hst Hr0 Hr Hf. apply (call_ends r (system_of node)); [by eapply system_of_typed| |done..].
  by intros ? ? [? _].
Qed.
