(* ===== verification/Answered.v ===== *)
(** * Every call returns

    The calls that wait for the network: dials, disconnects, Kademlia queries and
    requests.  From the moment the loop runs its command until its result is in
    its cell such a call has a command on the active list, which the chain of
    [EventChain], the [retain] and the other clients leave there; so in a fair run
    in which libp2p concludes what it has begun, the call returns. *)
From S2P Require Import Prelude Externals Errors DataChannel PendingMap Config Handle Handler.
From S2P Require Import BasicCommands KadCommands KadQueries ReqRespCommands Commands.
From S2P Require Import EventLoop EventChain CommandChain SwarmIds LoopFrame Dialing OpenFuture.
From S2P Require Import Client Node System Calls Ownership Fairness Returns.

(** ** What libp2p promises *)

Section concludes.
Context `{N : NetTypes}.

(** The last event of what a command has begun: the outcome of the dial, the end
    of the last connection, the last step of the query, the response to the
    request or its failure. *)
Definition concludes (c : AnyCommand) (ev : SwarmEvent) : Prop :=
  match c, ev with
  | ADial c, ConnectionEstablished q _ => q = dial_peer_id c
  | ADial c, OutgoingConnectionError (Some q) _ => q = dial_peer_id c
  | ADisconnect c, ConnectionClosed q n => q = disconnect_peer_id c /\ n = 0%Z
  | ABootstrap c, Behaviour (CBE_Kad (OutboundQueryProgressed id (QR_Bootstrap _) _ last)) =>
      bs_query_id c = Some id /\ last = true
  | AGetClosestPeers c, Behaviour (CBE_Kad (OutboundQueryProgressed id (QR_GetClosestPeers _) _ last)) =>
      gc_query_id c = Some id /\ last = true
  | AGetProviders c, Behaviour (CBE_Kad (OutboundQueryProgressed id (QR_GetProviders _) _ last)) =>
      gp_query_id c = Some id /\ last = true
  | AGetRecord c, Behaviour (CBE_Kad (OutboundQueryProgressed id (QR_GetRecord _) _ last)) =>
      gr_query_id c = Some id /\ last = true
  | APutRecord c, Behaviour (CBE_Kad (OutboundQueryProgressed id (QR_PutRecord _) _ last)) =>
      pr_query_id c = Some id /\ last = true
  | AStartProvide c, Behaviour (CBE_Kad (OutboundQueryProgressed id (QR_StartProviding _) _ last)) =>
      sp_query_id c = Some id /\ last = true
  | ASendRequest c, Behaviour (CBE_ReqResp (RR_Response q id _)) =>
      sr_request_id c = Some id /\ q = sr_peer_id c
  | ASendRequest c, Behaviour (CBE_ReqResp (RR_OutboundFailure q id _)) =>
      sr_request_id c = Some id /\ q = sr_peer_id c
  | _, _ => False
  end.

Context {Sw : Type} `{!SwarmOps Sw, !SwarmPoll Sw, !HashOrder, !Mpsc}.

(** The loop takes [ev] out of the swarm and handles it. *)
Definition takes_event (ev : SwarmEvent) (w w' : NodeWorld Sw AnyCommand CmdValue) : Prop :=
  exists s o, sw_poll (el_swarm (nw_loop w)) (Some ev) s
    /\ handle_swarm_event (el_set_swarm s (nw_loop w)) (nw_shared w) ev = Some (nw_loop w', nw_shared w', o).

(** The call on [loc] has a command on the active list that waits for an event. *)
Definition waiting (s : System Sw) (loc : nat) : Prop :=
  exists t, t ∈ el_active (nw_loop (sy_node s)) /\ task_handle t = loc /\ awaits_event (task_handler t).

(** Step [j] of the run hands such a command its last event. *)
Definition concluded (r : Run Sw) (j loc : nat) : Prop :=
  exists ev t, takes_event ev (sy_node (state_at r j)) (sy_node (state_at r (S j)))
    /\ t ∈ el_active (nw_loop (sy_node (state_at r j))) /\ task_handle t = loc
    /\ concludes (task_handler t) ev.

(** The swarm concludes what it has begun for the call on [loc]. *)
Definition network_answers (r : Run Sw) (loc : nat) : Prop := forall i,
  waiting (state_at r i) loc ->
  exists j, i <= j /\ (concluded r j loc \/ ~ waiting (state_at r j) loc).

(** A call that is alive has not been cancelled. *)
Definition live_cells (s : System Sw) : Prop := forall loc lc, sy_calls s !! loc = Some lc ->
  cell_is (fun st => rs_cancelled st = false) (nw_shared (sy_node s)) loc.

(** A call that has been sent is queued, or waits for an event, or is answered. *)
Definition tracked (s : System Sw) : Prop := forall loc lc, sent s loc lc ->
  (exists t, t ∈ queued (sy_node s) /\ task_handle t = loc)
  \/ waiting s loc \/ has_result (nw_shared (sy_node s)) loc.

End concludes.

(** ** Commands *)

Section commands.
Context `{N : NetTypes} {Sw : Type} `{!SwarmOps Sw, !HashOrder}.

(** A command that runs without an answer waits for an event. *)
Lemma run_waits (c c' : AnyCommand) (s s' : Sw) fin :
  run c s = Some (c', s', fin) -> fin = [] -> awaits_event c'.
Proof.
  intros Hr ->. destruct (immediate c) eqn:Hi; [by apply immediate_answers in Hr|].
  unfold awaits_event. revert Hr. destruct c as [c|c|c|c|c|c|c|c|c|c|c|c|c|c|c|c]; try discriminate Hi;
    simpl; unfold run_boxed_as, H_map, fmap, H_fmap; simpl;
    unfold DialCommand_run, DisconnectCommand_run, BootstrapCommand_run, GetClosestPeersCommand_run,
      GetProvidersCommand_run, GetRecordCommand_run, PutRecordCommand_run, StartProvideCommand_run,
      SendRequestCommand_run; run_H; intros Hr; repeat (case_match; simpl in Hr); simplify_eq/=;
    eauto; left; by eexists.
Qed.

Lemma take_relay_waits (c : AnyCommand) :
  awaits_event c -> awaits_event (take_relay_reservation_request c).1.
Proof.
  destruct c as [c|c|c|c|c|c|c|c|c|c|c|c|c|c|c|c]; try done. unfold awaits_event.
  intros [[k Hk]|[[d Hd]|[d Hd]]]; done.
Qed.

(** An event of its own leaves it waiting, or answers it. *)
Lemma own_event_waits (c c' : AnyCommand) ev k keep rem (s s' : Sw) fin :
  command_key c = Some k -> event_key ev = Some k ->
  on_event c ev s = Some (c', (keep, rem), s', fin) -> keep = false -> fin <> [].
Proof.
  intros Hk He Ho ->. revert Ho.
  destruct c as [c|c|c|c|c|c|c|c|c|c|c|c|c|c|c|c]; try discriminate Hk; simpl;
    unfold on_event_boxed_as, H_map, fmap, H_fmap; simpl;
    unfold BootstrapCommand_on_event, GetClosestPeersCommand_on_event, GetProvidersCommand_on_event,
      GetRecordCommand_on_event, GetRecordCommand_conclude, PutRecordCommand_on_event,
      StartProvideCommand_on_event, SendRequestCommand_on_event;
    destruct ev as [[| |[id [r|r|r|r|r|r|] st last| |]|[|p i r|p i e|]| | | | | |]| | | | | | | |];
    try discriminate He; run_H; intros Ho; repeat (case_match; simpl in Ho); by simplify_eq/=.
Qed.

Lemma event_waits (c c' : AnyCommand) ev keep rem (s s' : Sw) fin :
  awaits_event c -> on_event c ev s = Some (c', (keep, rem), s', fin) ->
  if keep then awaits_event c' else fin <> [].
Proof.
  intros Hw Ho. destruct (event_key ev) as [k|] eqn:He.
  - destruct (decide (command_key c = Some k)) as [Hk|Hk].
    + destruct keep; [|by eapply own_event_waits].
      destruct (on_event_answers (Sw := Sw) (R := CmdValue) c ev) as (c1 & k1 & r1 & f1 & H1 & Ha).
      rewrite (H1 s) in Ho. simplify_eq. left. rewrite (ea_key _ _ _ _ _ _ Ha). by eexists.
    + destruct (foreign_silent (Sw := Sw) (V := CmdValue) c ev k He Hk) as (keep' & Hs & Hkeep).
      rewrite (Hs s) in Ho. injection Ho as <- <- <- <- <-. destruct Hw as [Hw|[[d ->]|[d ->]]].
      * rewrite Hkeep by done. by left.
      * assert (keep' = true) as ->; [|right; left; eauto]. specialize (Hs s). simpl in Hs.
        unfold on_event_boxed_as, H_map, fmap, H_fmap in Hs. rewrite (proj2 (dial_answers d ev s)) in Hs.
        destruct ev; try discriminate He; by simplify_eq.
      * assert (keep' = true) as ->; [|right; right; eauto]. specialize (Hs s). simpl in Hs.
        unfold on_event_boxed_as, H_map, fmap, H_fmap in Hs. simpl in Hs.
        destruct ev; try discriminate He; unfold DisconnectCommand_on_event in Hs; by simplify_eq/=.
  - rewrite (unidentified_answer c ev s Hw He) in Ho. by case_match; simplify_eq.
Qed.

(** The last event answers it. *)
Lemma concludes_key (c : AnyCommand) ev : concludes c ev -> event_key ev = command_key c.
Proof.
  destruct c as [c|c|c|c|c|c|c|c|c|c|c|c|c|c|c|c];
    destruct ev as [[| |[id [r|r|r|r|r|r|] st last| |]|[|p i r|p i e|]| | | | | |]|q n|q n|[q|] e| | | | |];
    try done; simpl; intros [Hid _];
    unfold command_key, AnyCommand_keyed, command_key, BootstrapCommand_keyed,
      GetClosestPeersCommand_keyed, GetProvidersCommand_keyed, GetRecordCommand_keyed,
      PutRecordCommand_keyed, StartProvideCommand_keyed, SendRequestCommand_keyed; by rewrite Hid.
Qed.

Lemma conclusion_answers (c c' : AnyCommand) ev keep rem (s s' : Sw) fin :
  concludes c ev -> on_event c ev s = Some (c', (keep, rem), s', fin) -> fin <> [].
Proof.
  destruct c as [c|c|c|c|c|c|c|c|c|c|c|c|c|c|c|c];
    destruct ev as [[| |[id [r|r|r|r|r|r|] st last| |]|[|p i r|p i e|]| | | | | |]|q n|q n|[q|] e| | | | |];
    try done; simpl; unfold on_event_boxed_as, H_map, fmap, H_fmap; simpl;
    unfold DialCommand_on_event, DisconnectCommand_on_event, BootstrapCommand_on_event,
      GetClosestPeersCommand_on_event, GetProvidersCommand_on_event,
      GetRecordCommand_on_event, GetRecordCommand_conclude, PutRecordCommand_on_event,
      StartProvideCommand_on_event, SendRequestCommand_on_event;
    intros Hc; try destruct Hc as [Hid ->]; try subst q; run_H;
    rewrite ?decide_True by done; simpl; intros Ho; repeat (case_match; simpl in Ho); by simplify_eq/=.
Qed.

End commands.

(** ** The active list *)

Section chain.
Context `{N : NetTypes} {Sw : Type} `{!SwarmOps Sw, !HashOrder, !Mpsc}.
Implicit Types (t : CommandTask AnyCommand) (sh : Shared CmdValue).

(** Who answers an event it is shown has its result. *)
Lemma visited_answered (s : Sw) ev t l sh :
  t ∈ l -> is_Some (sh_handles sh !! task_handle t) -> emitted (V := CmdValue) s ev t <> [] ->
  has_result (foldl (deliver s ev) sh l) (task_handle t).
Proof.
  intros (l1 & l2 & ->)%list_elem_of_split [st Hst] He. rewrite foldl_app. simpl. apply deliver_all_keeps.
  unfold deliver at 1. apply finish_all_answers; [|done].
  destruct (deliver_all_cell (fun _ => True) ltac:(done) s ev l1 sh (task_handle t)) as (st' & -> & _);
    [by exists st|by eexists].
Qed.

(** A command that waits goes on waiting, or is answered. *)
Lemma chain_waits (s : Sw) ev active active' sh sh' remaining t :
  chain_spec s ev active active' sh sh' remaining ->
  t ∈ active -> awaits_event (task_handler t) -> is_Some (sh_handles sh !! task_handle t) ->
  (exists t', t' ∈ active' /\ task_handle t' = task_handle t /\ awaits_event (task_handler t'))
  \/ has_result sh' (task_handle t).
Proof.
  intros (visited & rest & Hp & Hp' & -> & _) Hin Hw Hc. rewrite <- Hp in Hin.
  apply elem_of_app in Hin as [Hin|Hin]; [|left; exists t; rewrite Hp'; set_solver].
  destruct (answer_of_spec (V := CmdValue) t ev) as (c' & keep & rem & fin & Ho & Ha & _).
  pose proof (event_waits _ _ _ _ _ _ _ _ Hw (Ho s)) as Hk. destruct keep.
  - left. exists (mkTask c' (task_handle t)). split_and!; [|done|done]. rewrite Hp'.
    apply elem_of_app. left. apply list_elem_of_omap. exists t. split; [done|]. unfold survivor. by rewrite Ha.
  - right. apply visited_answered; [done|done|]. unfold emitted. by rewrite Ha.
Qed.

(** A command that is shown its last event is answered. *)
Lemma chain_concludes (s : Sw) ev active active' sh sh' remaining t :
  chain_spec s ev active active' sh sh' remaining -> keys_distinct active ->
  t ∈ active -> concludes (task_handler t) ev -> is_Some (sh_handles sh !! task_handle t) ->
  has_result sh' (task_handle t).
Proof.
  intros (visited & rest & Hp & _ & -> & Hrem) Hd Hin Hc Hcell.
  assert (t ∈ visited) as Hv.
  { rewrite <- Hp in Hin. apply elem_of_app in Hin as [|Hin]; [done|exfalso].
    destruct (chain_spec_missed (V := CmdValue) s ev active visited rest remaining t Hp Hd Hrem Hin) as [He|Hne].
    - destruct remaining as [ev'|]; [destruct Hrem as (_ & -> & _); by apply elem_of_nil in Hin|].
      destruct Hrem as (before & u & _ & _ & (k & Hk & _)%(consumes_key (V := CmdValue))). congruence.
    - apply Hne. symmetry. by apply concludes_key. }
  apply visited_answered; [done..|]. unfold emitted.
  destruct (answer_of_spec (V := CmdValue) t ev) as (c' & keep & rem & fin & Ho & Ha & _). rewrite Ha.
  exact (conclusion_answers _ _ _ _ _ _ _ _ Hc (Ho s)).
Qed.

End chain.

(** ** The system *)

Section system.
Context `{N : NetTypes} {Sw : Type}.
Context `{!SwarmOps Sw, !SwarmPoll Sw, !HashOrder, !Mpsc, !MpscLaws, !SwarmIds Sw, !SwarmIdLaws Sw}.
Implicit Types (s : System Sw) (w : NodeWorld Sw AnyCommand CmdValue).

Local Notation uncancelled := (fun st : ResultState CmdValue => rs_cancelled st = false).

Lemma live_cell s loc lc :
  live_cells s -> sy_calls s !! loc = Some lc ->
  exists st, sh_handles (nw_shared (sy_node s)) !! loc = Some st /\ rs_cancelled st = false.
Proof. intros Hc Hl. exact (Hc _ _ Hl). Qed.

(** Only its own caller cancels a call, and then it is over. *)
Lemma sys_step_live_cells lab s s' : sys_step lab s s' -> live_cells s -> live_cells s'.
Proof.
  intros Hs Hc loc lc. unfold live_cells in Hc.
  assert (forall w loc' st, uncancelled st \/ loc' <> loc -> cell_is uncancelled (nw_shared w) loc \/ loc' = loc ->
    cell_is uncancelled (sh_set_handle loc' st (nw_shared w)) loc) as Hset.
  { intros w loc' st Hst Hcell. unfold cell_is. simpl. destruct (decide (loc' = loc)) as [->|Hne].
    - rewrite lookup_insert_eq. exists st. by destruct Hst.
    - rewrite lookup_insert_ne by done. by destruct Hcell. }
  destruct Hs as
    [w w' cl ca op ch Hs| | | | |w cl ca op ch client loc' call lc' _ Hno _
     |w cl ca op ch client loc' id response pending fut lc' _ Hno _ _|
     |w cl ca op ch loc' lc' f q Hl' Hh Hsend|w cl ca op ch loc' lc' st f q r Hl' _ _
     |w cl ca op ch loc' lc' st waker c q st' Hl' Hh Hst Hp
     |w cl ca op ch loc' lc' st waker c q st' r Hl' _ _ _
     |w cl ca op ch loc' lc' st Hl' _| | | | | | | | | | |];
    cbn [sy_node sy_calls nw_shared nw_upd nw_set_senders nw_set_commands nw_push_received call_begin call_done]
      in *; try (by intros Hl; exact (Hc _ _ Hl)).
  - intros Hl. apply (loop_step_cell uncancelled ltac:(done) _ _ _ Hs). by eapply Hc.
  - intros [[<- <-]|[Hne Hl]]%lookup_insert_Some; (apply Hset; [by (left + right)|]); [by right|left; by eapply Hc].
  - intros [[<- <-]|[Hne Hl]]%lookup_insert_Some; (apply (Hset (nw_upd (sh_set_pending pending) w)); [by (left + right)|]);
      [by right|left; by eapply Hc].
  - intros [[<- <-]|[Hne Hl]]%lookup_insert_Some; by eapply Hc.
  - intros [Hne Hl]%lookup_delete_Some. apply Hset; [by right|left; by eapply Hc].
  - intros Hl. apply Hset; [|left; by eapply Hc]. destruct (decide (loc' = loc)) as [->|]; [left|by right].
    apply poll_inv in Hp as (_ & _ & _ & _ & _ & ->); [|done].
    destruct (Hc _ _ Hl) as (st1 & Hst1 & Hu). congruence.
  - intros [Hne Hl]%lookup_delete_Some. apply Hset; [by right|left; by eapply Hc].
  - intros [Hne Hl]%lookup_delete_Some. apply Hset; [by right|left; by eapply Hc].
Qed.

(** What the application does is nothing to the active list. *)
Lemma app_steps_loop w w' : rtc app_step w w' -> nw_loop w' = nw_loop w.
Proof. induction 1 as [w|w1 w2 w3 Hs _ IH]; [done|]. rewrite IH. by destruct Hs. Qed.

(** One step of anyone: a call that waits goes on waiting, or is answered. *)
Lemma sys_step_waiting lab s s' loc lc :
  sys_step lab s s' -> calls_ok s -> live_cells s -> sy_calls s !! loc = Some lc -> waiting s loc ->
  waiting s' loc \/ has_result (nw_shared (sy_node s')) loc.
Proof.
  intros Hs Hok Hc Hl (t & Ht & <- & Hw). destruct (Hc _ _ Hl) as (st & Hst & Hu).
  destruct (sys_step_actor _ _ _ Hok Hs) as [Hstep|Happ];
    [|left; exists t; by rewrite (app_steps_loop _ _ Happ)].
  unfold waiting. destruct Hstep as [el sh|el sh q q' n rcv cv cmd el' sh' _ Hh| |el sh q n rcv cv ev s1 el' sh' o _ He
    | | | | |]; simpl in *; try (left; by exists t).
  - left. exists t. split_and!; [|done|done]. apply list_elem_of_filter. split; [|done].
    unfold task_is_cancelled. by rewrite Hst.
  - left. apply handle_command_inv in Hh as (c & s2 & fin & _ & -> & _). exists t. set_solver.
  - apply handle_swarm_event_inv in He as (active & sh1 & r & Hch & _ & -> & Hsh).
    destruct (chain_waits _ _ _ _ _ _ _ t Hch Ht Hw) as [?|Hr]; [by eexists|by left|right].
    unfold has_result. by rewrite Hsh.
Qed.

(** And one that is shown its last event is answered. *)
Lemma concluded_answered (r : Run Sw) j loc lc :
  system_keys_ok (state_at r j) -> calls_ok (state_at r j) ->
  sy_calls (state_at r j) !! loc = Some lc -> concluded r j loc ->
  has_result (nw_shared (sy_node (state_at r (S j)))) loc.
Proof.
  intros [[[Hd _] _] _] Hok Hl (ev & t & (s & o & _ & He) & Ht & <- & Hc).
  apply handle_swarm_event_inv in He as (active & sh1 & rem & Hch & _ & _ & Hsh).
  unfold has_result. rewrite Hsh. apply (chain_concludes _ _ _ _ _ _ _ _ Hch Hd Ht Hc).
  apply elem_of_dom, (proj1 (co_cells _ Hok _ _ Hl)).
Qed.

(** A command that is run waits, or is answered. *)
Lemma ran_tracked el sh t (el' : EventLoop Sw AnyCommand) sh' :
  handle_command el sh t = Some (el', sh') -> is_Some (sh_handles sh !! task_handle t) ->
  (exists t', t' ∈ el_active el' /\ task_handle t' = task_handle t /\ awaits_event (task_handler t'))
  \/ has_result sh' (task_handle t).
Proof.
  intros (c & s & fin & Hr & Ha & ->)%handle_command_inv Hc. destruct fin as [|r fin].
  - left. eexists. split; [rewrite Ha; apply elem_of_app; right; by left|]. split; [done|].
    apply take_relay_waits. by eapply run_waits.
  - right. by apply finish_all_answers.
Qed.

Lemma sys_step_tracked lab s s' :
  sys_step lab s s' -> typed_inv s -> live_cells s -> tracked s -> tracked s'.
Proof.
  intros Hs Hi Hc Htr loc lc' [Hl' Hsent].
  destruct (sy_calls s !! loc) as [lc|] eqn:Hl;
    [|destruct (new_step _ _ _ _ _ Hs Hl Hl') as [c Hn]; congruence].
  destruct (live_step _ _ _ _ _ Hs Hi Hl) as [[Hno _]|(lc1 & Hl1 & _ & Hkeep & Hgo)]; [congruence|].
  simplify_eq. destruct (cf_handler (lc_future lc)) as [c|] eqn:Hf.
  { destruct Hgo as [Hgo|Hgo]; [congruence|left]. by eexists. }
  destruct (Htr loc lc) as [(t & Hq & <-)|[Hw|Hr]]; [by split| | |right; right; by apply Hkeep].
  - destruct (task_step _ _ _ (sys_step_actor _ _ _ (proj1 Hi) Hs) Hq) as [?|Hh]; [left; by exists t|right].
    eapply ran_tracked; [exact Hh|]. apply elem_of_dom. destruct Hi as [Hok _]. apply (proj1 (co_cells _ Hok _ _ Hl)).
  - right. eapply sys_step_waiting; [exact Hs|apply Hi|done|exact Hl|done].
Qed.

End system.

(** ** Runs *)

Section liveness.
Context `{N : NetTypes} {Sw : Type}.
Context `{!SwarmOps Sw, !SwarmPoll Sw, !HashOrder, !Mpsc, !MpscLaws, !SwarmIds Sw, !SwarmIdLaws Sw}.
Context (r : Run Sw) (s0 : System Sw).
Context (Hinit : typed_inv s0) (Hkeys : system_keys_ok s0) (Hcells : live_cells s0) (Htracked : tracked s0).
Context (Hserved : served_ok s0) (Hfresh : nw_phase (sy_node s0) = Iterating).
Context (Hstart : sys_run s0 (state_at r 0)) (Hr : run_ok r) (Hf : fair_run r).

Record live_inv (s : System Sw) : Prop := {
  li_typed : typed_inv s;
  li_keys : system_keys_ok s;
  li_cells : live_cells s;
  li_tracked : tracked s;
}.

Lemma run_live i : live_inv (state_at r i).
Proof.
  assert (sys_run s0 (state_at r i)) as Hrun by (by eapply run_reaches).
  eapply (rtc_invariant _ live_inv); [|exact Hrun|by split].
  intros s s' [lab Hs] [Ht Hk Hc Htr]. split.
  - by eapply sys_step_typed.
  - by eapply sys_step_keys.
  - by eapply sys_step_live_cells.
  - by eapply sys_step_tracked.
Qed.

Lemma run_calls_ok i : calls_ok (state_at r i).
Proof. by destruct (run_live i) as [[? _] _ _ _]. Qed.

(** From one step to the next, and from one moment to any later one. *)
Lemma waiting_stays i j loc lc :
  sy_calls (state_at r i) !! loc = Some lc -> waiting (state_at r i) loc -> i <= j ->
  ends r i loc
  \/ (exists m, i <= m /\ has_result (nw_shared (sy_node (state_at r m))) loc)
  \/ (waiting (state_at r j) loc /\ is_Some (sy_calls (state_at r j) !! loc)).
Proof.
  intros Hl Hw Hij. induction Hij as [|j Hij [He|[Hm|[Hwj [lcj Hlj]]]]];
    [right; right; split; [done|by eexists]|by left|by right; left|].
  destruct (run_live j) as [Ht _ Hc _].
  destruct (sys_step_waiting _ _ _ _ _ (Hr j) (proj1 Ht) Hc Hlj Hwj) as [Hw'|Hres].
  - destruct (sy_calls (state_at r (S j)) !! loc) as [lc'|] eqn:Hl'; [by eauto|].
    left. eapply ends_later; [exact Hij|]. by eapply (gone_ends r s0).
  - right; left. exists (S j). split; [lia|done].
Qed.

(** The swarm's last word is put into the cell. *)
Lemma waiting_answered i loc lc :
  network_answers r loc -> sy_calls (state_at r i) !! loc = Some lc -> waiting (state_at r i) loc ->
  ends r i loc \/ exists m, i <= m /\ has_result (nw_shared (sy_node (state_at r m))) loc.
Proof.
  intros Hn Hl Hw. destruct (Hn i Hw) as (j & Hij & Hj).
  destruct (waiting_stays _ _ _ _ Hl Hw Hij) as [?|[?|[Hwj [lcj Hlj]]]]; [by left|by right|].
  destruct Hj as [Hj|Hj]; [|done]. right. exists (S j). split; [lia|]. destruct (run_live j) as [[Hok _] Hk _ _].
  by eapply concluded_answered.
Qed.

(** A call that has been sent gets its answer. *)
Lemma sent_answered i loc lc :
  network_answers r loc -> sent (state_at r i) loc lc ->
  ends r i loc \/ exists m, i <= m /\ has_result (nw_shared (sy_node (state_at r m))) loc.
Proof.
  intros Hn [Hl Hs]. pose proof (run_live i) as [_ _ _ Htr].
  destruct (Htr loc lc) as [(t & Hq & Ht)|[Hw|Hres]]; [by split| |by eapply waiting_answered|right; eauto].
  destruct (queued_is_run (fun i => sy_node (state_at r i)) i t) as (k & Hik & _ & _ & Hh);
    [exact (run_actor r s0 Hinit Hstart Hr)|apply Hf|by eapply (live_runs r s0)|done|].
  assert (forall m, i <= m -> ends r i loc \/ exists lc, sy_calls (state_at r m) !! loc = Some lc) as Hlive.
  { intros m Him. destruct (waits_stays r s0 Hinit Hstart Hr i m loc lc) as [?|[(lc' & ? & _) _]];
      [by exists lc|done|by left|right; by eexists]. }
  destruct (Hlive k Hik) as [?|[lck Hlk]]; [by left|].
  destruct (Hlive (S k)) as [?|[lck' Hlk']]; [lia|by left|].
  destruct (ran_tracked _ _ _ _ _ Hh) as [(t' & Ht' & Hloc & Hwt)|Hres].
  - rewrite Ht. apply elem_of_dom, (proj1 (co_cells _ (run_calls_ok k) _ _ Hlk)).
  - destruct (waiting_answered (S k) loc lck') as [He|(m & Hm & Hres)]; [done|done| | |].
    + exists t'. split; [done|]. split; [congruence|done].
    + left. eapply ends_later; [|exact He]. lia.
    + right. exists m. split; [lia|done].
  - right. exists (S k). split; [lia|]. by rewrite Ht in Hres.
Qed.

Lemma answered_ends i loc lc :
  sy_calls (state_at r i) !! loc = Some lc -> network_answers r loc -> ends r i loc.
Proof.
  intros Hl Hn. assert (waits r i loc lc) as Hwi by (by exists lc).
  destruct (gets_sent r s0 Hinit Hstart Hr Hf i loc lc Hwi) as [?|(j & Hij & lc' & Hs & _)]; [done|].
  eapply ends_later; [exact Hij|]. destruct (sent_answered j loc lc' Hn Hs) as [?|Hres]; [done|].
  eapply (call_ends r s0); [done..|apply Hs|by right; right].
Qed.

End liveness.

(** ** Properties *)

(** C3. Every call returns: in every fair infinite run of a started node with its
    clients, in which libp2p concludes what it has begun for a call (a dial with
    an established connection or an error, a disconnect with the end of the last
    connection, a query with its last step, a request with its response or its
    failure), the call returns, whatever method it calls, unless its caller drops
    it.  The command is neither lost in the queue nor dropped from the active
    list, and the conclusion reaches it however many other commands wait. *)
Theorem every_call_returns `{N : NetTypes} {Sw}
    `{!SwarmOps Sw, !SwarmPoll Sw, !HashOrder, !Mpsc, !MpscLaws, !SwarmIds Sw, !SwarmIdLaws Sw}
    {Ctl} (accept : Ctl -> StreamProtocol -> Ctl * bool) (swarm : Sw) (ctl : Ctl) (now dc_id : Z)
    (config : NodeConfig) (node : Node Sw AnyCommand CmdValue) (r : Run Sw) (i loc : nat) (lc : LiveCall) :
  start accept swarm ctl now dc_id config = Ok node -> sys_run (system_of node) (state_at r 0) ->
  run_ok r -> fair_run r -> network_answers r loc ->
  sy_calls (state_at r i) !! loc = Some lc ->
  exists j, i <= j /\ (returns r j loc \/ dropped r j loc).
Proof.
  intros Hst Hr0 Hr Hf Hn Hl. eapply (answered_ends r (system_of node)); [|..|exact Hl|done]; try done.
  - by eapply system_of_typed.
  - by eapply system_of_keys.
  - by intros ? ? [? _].
  - by intros ? ? [? _].
Qed.
