(* ===== verification/Bootstrap.v ===== *)
(** * The bootstrap and relay server ([bootstrap/src])

    The command line and its validation, the identity file, the behaviour of
    the server and the start of its swarm.  The multiaddress parser, the key
    encoding and the file system's failures are parameters. *)
From S2P Require Import Prelude Externals Errors DataChannel PendingMap Config Handle Handler EventLoop.
From stdpp Require Import pretty.

(** ** [behaviour.rs] *)

Record BootRelayLimits := mkBootRelayLimits {
  b_max_reservations : Z;
  b_max_reservations_per_peer : Z;
  b_reservation_duration : Z;
  b_max_circuits : Z;
  b_max_circuits_per_peer : Z;
  b_max_circuit_duration : Z;
  b_max_circuit_bytes : Z;
}.

Definition DEFAULT_MAX_RESERVATIONS : Z := 128.
Definition DEFAULT_MAX_RESERVATIONS_PER_PEER : Z := 4.
Definition DEFAULT_RESERVATION_DURATION_SECS : Z := 3600.
Definition DEFAULT_MAX_CIRCUITS : Z := 16.
Definition DEFAULT_MAX_CIRCUITS_PER_PEER : Z := 4.
Definition DEFAULT_MAX_CIRCUIT_DURATION_SECS : Z := 3600.
Definition DEFAULT_MAX_CIRCUIT_BYTES : Z := 1024 * 1024 * 512.

Definition BootRelayLimits_default : BootRelayLimits :=
  {| b_max_reservations := DEFAULT_MAX_RESERVATIONS;
     b_max_reservations_per_peer := DEFAULT_MAX_RESERVATIONS_PER_PEER;
     b_reservation_duration := from_secs DEFAULT_RESERVATION_DURATION_SECS;
     b_max_circuits := DEFAULT_MAX_CIRCUITS;
     b_max_circuits_per_peer := DEFAULT_MAX_CIRCUITS_PER_PEER;
     b_max_circuit_duration := from_secs DEFAULT_MAX_CIRCUIT_DURATION_SECS;
     b_max_circuit_bytes := DEFAULT_MAX_CIRCUIT_BYTES |}.

(** What each behaviour of the server is created with; AutoNAT has no
    parameter, and the relay's rate limiters keep their library defaults. *)
Record BootstrapBehaviour := mkBootstrapBehaviour {
  bb_ping : Z * Z;
  bb_identify : string * string * bool * Z;
  bb_kad : KadConfig;
  bb_kad_mode : option KadMode;
  bb_relay : BootRelayLimits;
}.

(** [version] is [CARGO_PKG_VERSION]. *)
Definition BootstrapBehaviour_new (version : string) (relay_limits : BootRelayLimits) :
    BootstrapBehaviour :=
  let ping := (from_secs 15, from_secs 10) in
  let identify := ("/swarmdrop/1.0.0", "swarm-bootstrap/" +:+ version, true, 1000%Z) in
  let kad_config :=
    mkKadConfig (from_secs 60) (Some (from_secs 7200)) 20
      (Some (from_secs 3600)) (Some (from_secs 7200)) in
  let relay_config :=
    {| b_max_reservations := b_max_reservations relay_limits;
       b_max_reservations_per_peer := b_max_reservations_per_peer relay_limits;
       b_reservation_duration := b_reservation_duration relay_limits;
       b_max_circuits := b_max_circuits relay_limits;
       b_max_circuits_per_peer := b_max_circuits_per_peer relay_limits;
       b_max_circuit_bytes := b_max_circuit_bytes relay_limits;
       b_max_circuit_duration := b_max_circuit_duration relay_limits |} in
  mkBootstrapBehaviour ping identify kad_config (Some KadServer) relay_config.

(** The protocol version a peer reads in the server's identify message. *)
Definition bb_protocol_version (b : BootstrapBehaviour) : string := (bb_identify b).1.1.1.

(** ** [util/identity.rs] *)

Section identity.
Context {Path Keypair Bytes : Type} `{Countable Path}.
(** protobuf encoding and decoding of a key pair *)
Context (to_protobuf_encoding : Keypair -> option Bytes).
Context (from_protobuf_encoding : Bytes -> option Keypair).
(** [std::fs::write] creates or truncates the file before it writes, so it can
    fail with the file untouched ([WriteFailed None]) or with other contents
    left in it ([WriteFailed (Some leftover)]). *)
Inductive WriteOutcome := Written | WriteFailed (leftover : option Bytes).

(** what the file system does, and whether the target is a unix *)
Context (readable chmod_ok : Path -> bool) (write : Path -> Bytes -> WriteOutcome) (unix : bool).

Record File := mkFile { file_bytes : Bytes; file_mode : Z }.

(** [0o600]: read and written by the owner only *)
Definition owner_only : Z := 6 * 8 * 8.

Inductive IdentityError := IE_Read | IE_Decode | IE_Encode | IE_Write | IE_Permissions.

(** [umask_mode] is the mode of a newly created file. *)
Definition load_or_generate_keypair (umask_mode : Z) (generated : Keypair) (path : Path)
    (fs : gmap Path File) : gmap Path File * Result Keypair IdentityError :=
  match fs !! path with
  | Some file =>
      (fs, if readable path then ok_or (from_protobuf_encoding (file_bytes file)) IE_Decode
           else Err IE_Read)
  | None =>
      match to_protobuf_encoding generated with
      | None => (fs, Err IE_Encode)
      | Some bytes =>
          match write path bytes with
          | WriteFailed None => (fs, Err IE_Write)
          | WriteFailed (Some leftover) => (<[path := mkFile leftover umask_mode]> fs, Err IE_Write)
          | Written =>
              let fs := <[path := mkFile bytes umask_mode]> fs in
              if unix then
                if chmod_ok path then (<[path := mkFile bytes owner_only]> fs, Ok generated)
                else (fs, Err IE_Permissions)
              else (fs, Ok generated)
          end
      end
  end.

(** ** [main.rs] *)

Context {Multiaddr : Type} (parse : string -> option Multiaddr).
Context (current_exe : option Path) (parent : Path -> option Path) (join : Path -> string -> Path)
        (path_from : string -> Path).

Definition resolve_key_file (key_file : option Path) : Path :=
  match key_file with
  | Some p => p
  | None =>
      match current_exe ≫= parent with
      | Some p => join p "identity.key"
      | None => path_from "identity.key"
      end
  end.

(** The arguments of [Command::Run], ports and limits already parsed by clap. *)
Record RunArgs := mkRunArgs {
  tcp_port : Z;
  quic_port : Z;
  key_file : option Path;
  listen_addr : string;
  idle_timeout : Z;
  external_ip : option string;
  arg_max_reservations : Z;
  arg_max_reservations_per_peer : Z;
  arg_reservation_duration_secs : Z;
  arg_max_circuits : Z;
  arg_max_circuits_per_peer : Z;
  arg_max_circuit_duration_secs : Z;
  arg_max_circuit_bytes : Z;
}.

Definition RunArgs_default : RunArgs :=
  {| tcp_port := 4001; quic_port := 4001; key_file := None; listen_addr := "0.0.0.0";
     idle_timeout := 120; external_ip := None;
     arg_max_reservations := DEFAULT_MAX_RESERVATIONS;
     arg_max_reservations_per_peer := DEFAULT_MAX_RESERVATIONS_PER_PEER;
     arg_reservation_duration_secs := DEFAULT_RESERVATION_DURATION_SECS;
     arg_max_circuits := DEFAULT_MAX_CIRCUITS;
     arg_max_circuits_per_peer := DEFAULT_MAX_CIRCUITS_PER_PEER;
     arg_max_circuit_duration_secs := DEFAULT_MAX_CIRCUIT_DURATION_SECS;
     arg_max_circuit_bytes := DEFAULT_MAX_CIRCUIT_BYTES |}.

Inductive MainError := ME_Identity (e : IdentityError) | ME_Parse (s : string) | ME_CircuitDuration.

Definition u32_max : Z := 4294967295.

(** [format!("/ip4/{}/tcp/{}", ..)] and [format!("/ip4/{}/udp/{}/quic-v1", ..)]. *)
Definition tcp_string (ip : string) (port : Z) : string := "/ip4/" +:+ ip +:+ "/tcp/" +:+ pretty port.
Definition quic_string (ip : string) (port : Z) : string :=
  "/ip4/" +:+ ip +:+ "/udp/" +:+ pretty port +:+ "/quic-v1".

Definition parse_addr (s : string) : Result Multiaddr MainError := ok_or (parse s) (ME_Parse s).

(** The arguments of [swarm_bootstrap::run]. *)
Record RunConfig := mkRunConfig {
  run_keypair : Keypair;
  run_tcp_addr : Multiaddr;
  run_quic_addr : Multiaddr;
  run_idle_timeout : Z;
  run_external_addrs : list Multiaddr;
  run_relay_limits : BootRelayLimits;
}.

Definition relay_limits_of (args : RunArgs) : BootRelayLimits :=
  {| b_max_reservations := arg_max_reservations args;
     b_max_reservations_per_peer := arg_max_reservations_per_peer args;
     b_reservation_duration := from_secs (arg_reservation_duration_secs args);
     b_max_circuits := arg_max_circuits args;
     b_max_circuits_per_peer := arg_max_circuits_per_peer args;
     b_max_circuit_duration := from_secs (arg_max_circuit_duration_secs args);
     b_max_circuit_bytes := arg_max_circuit_bytes args |}.

Open Scope swarm_scope.

(** What [main] checks between loading the key and starting the runtime. *)
Definition run_config (args : RunArgs) (keypair : Keypair) : Result RunConfig MainError :=
  try tcp_addr <- parse_addr (tcp_string (listen_addr args) (tcp_port args)) ;;
  try quic_addr <- parse_addr (quic_string (listen_addr args) (quic_port args)) ;;
  try external_addrs <-
    (match external_ip args with
     | Some ip =>
         try a <- parse_addr (tcp_string ip (tcp_port args)) ;;
         try b <- parse_addr (quic_string ip (quic_port args)) ;;
         Ok [a; b]
     | None => Ok []
     end) ;;
  if (arg_max_circuit_duration_secs args <=? u32_max)%Z
  then Ok (mkRunConfig keypair tcp_addr quic_addr (from_secs (idle_timeout args))
             external_addrs (relay_limits_of args))
  else Err ME_CircuitDuration.

Definition main_run (umask_mode : Z) (generated : Keypair) (args : RunArgs) (fs : gmap Path File) :
    gmap Path File * Result RunConfig MainError :=
  let path := resolve_key_file (key_file args) in
  let '(fs, keypair) := load_or_generate_keypair umask_mode generated path fs in
  (fs, try keypair <- result_map_err ME_Identity keypair ;; run_config args keypair).

(** [Command] of the command line, and what [main] does with it: it prints a
    peer identifier, or it runs the server. *)
Context {Id : Type} (to_peer_id : Keypair -> Id).

Inductive Command :=
| CmdPeerId (key_file : option Path)
| CmdRun (args : RunArgs).

Inductive MainAction := MA_Print (id : Id) | MA_Run (config : RunConfig).

Definition main (umask_mode : Z) (generated : Keypair) (cmd : Command) (fs : gmap Path File) :
    gmap Path File * Result MainAction MainError :=
  match cmd with
  | CmdPeerId key_file =>
      let path := resolve_key_file key_file in
      let '(fs, keypair) := load_or_generate_keypair umask_mode generated path fs in
      (fs, try keypair <- result_map_err ME_Identity keypair ;; Ok (MA_Print (to_peer_id keypair)))
  | CmdRun args =>
      let '(fs, config) := main_run umask_mode generated args fs in
      (fs, result_map MA_Run config)
  end.

Close Scope swarm_scope.

End identity.
Arguments File : clear implicits.
Arguments WriteOutcome : clear implicits.

(** ** [lib.rs], the set-up of [run] *)

Section run.
Context `{N : NetTypes} {Sw : Type} `{!SwarmOps Sw}.

(** [run] up to its event loop: two listeners, then the external addresses. *)
Definition boot_setup (swarm : Sw) (tcp_addr quic_addr : Multiaddr)
    (external_addrs : list Multiaddr) : Sw * Result unit TransportError :=
  let '(swarm, r) := sw_listen_on swarm tcp_addr in
  match r with
  | Err e => (swarm, Err e)
  | Ok _ =>
      let '(swarm, r) := sw_listen_on swarm quic_addr in
      match r with
      | Err e => (swarm, Err e)
      | Ok _ => (foldl sw_add_external_address swarm external_addrs, Ok tt)
      end
  end.

End run.

(** ** Lemmas *)

Section identity_lemmas.
Context {Path Keypair Bytes : Type} `{Countable Path}.
Context (enc : Keypair -> option Bytes) (dec : Bytes -> option Keypair).
Context (readable chmod_ok : Path -> bool) (write : Path -> Bytes -> WriteOutcome Bytes) (unix : bool).
Context (roundtrip : forall k b, enc k = Some b -> dec b = Some k).

(** A key pair that was returned once is returned again, from the same file. *)
Lemma load_again (mode mode' : Z) (k k' kp : Keypair) (path : Path) (fs fs1 : gmap Path (File Bytes)) :
  readable path = true ->
  load_or_generate_keypair enc dec readable chmod_ok write unix mode k path fs = (fs1, Ok kp) ->
  load_or_generate_keypair enc dec readable chmod_ok write unix mode' k' path fs1 = (fs1, Ok kp).
Proof using roundtrip.
  intros Hr. unfold load_or_generate_keypair. destruct (fs !! path) as [f|] eqn:Hf.
  - rewrite Hr. intros [= <- He]. by rewrite Hf, He.
  - destruct (enc k) as [b|] eqn:Hb; [|done]. destruct (write path b) as [|[]]; [|done..].
    destruct unix; [destruct (chmod_ok path); [|done]|]; intros; simplify_eq;
      rewrite lookup_insert_eq, ?Hr; simpl; by rewrite (roundtrip _ _ Hb).
Qed.

End identity_lemmas.

Lemma run_config_keypair {Path Keypair Multiaddr : Type} (parse : string -> option Multiaddr)
    (args : RunArgs (Path := Path)) (k : Keypair) c :
  run_config parse args k = Ok c -> run_keypair c = k.
Proof.
  unfold run_config. intros Hc. destruct (parse_addr parse _); simpl in Hc; [|done].
  destruct (parse_addr parse _); simpl in Hc; [|done].
  destruct (match external_ip args with Some _ => _ | None => _ end); simpl in Hc; [|done].
  case_match; by simplify_eq.
Qed.

(** ** Properties *)

(** C39. The node keeps its identity: if the first start returns a key pair, or
    fails only in restricting the file's permissions, then every later start on
    the same file returns that key pair and changes nothing, whatever it would
    have generated; and on a unix a file this function creates successfully is
    readable by its owner only (mode 0600).  A start that fails otherwise keeps
    an existing file, and if there was none and the write failed midway it
    leaves the rest of the file system as it was. *)
Theorem identity_is_stable {Path Keypair Bytes} `{Countable Path}
    (enc : Keypair -> option Bytes) (dec : Bytes -> option Keypair)
    (readable chmod_ok : Path -> bool) (write : Path -> Bytes -> WriteOutcome Bytes) (unix : bool)
    (roundtrip : forall k b, enc k = Some b -> dec b = Some k)
    (mode mode' : Z) (k k' : Keypair) (path : Path) (fs : gmap Path (File Bytes)) :
  readable path = true ->
  let start := load_or_generate_keypair enc dec readable chmod_ok write unix in
  let '(fs1, r1) := start mode k path fs in
  let '(fs2, r2) := start mode' k' path fs1 in
  match r1 with
  | Ok kp => r2 = Ok kp /\ fs2 = fs1
             /\ (fs !! path = None -> unix = true -> file_mode <$> fs1 !! path = Some owner_only)
  | Err IE_Permissions => r2 = Ok k /\ fs2 = fs1
  | Err IE_Write => fs !! path = None /\ delete path fs1 = fs
  | Err _ => fs1 = fs
  end.
Proof.
  intros Hr start. unfold start, load_or_generate_keypair. destruct (fs !! path) as [f|] eqn:Hf.
  - rewrite !Hr, Hf. by destruct (dec (file_bytes f)).
  - destruct (enc k) as [b|] eqn:Hb; [|by repeat case_match].
    destruct (write path b) as [|[leftover|]].
    + destruct unix; [destruct (chmod_ok path)|]; simpl;
        rewrite !lookup_insert_eq, ?Hr; simpl; by rewrite (roundtrip _ _ Hb).
    + repeat case_match; simplify_eq; (split; [done|]); by rewrite delete_insert_id.
    + repeat case_match; simplify_eq; (split; [done|]); by apply delete_id.
Qed.

(** What the server starts with: it starts only if all its addresses parse
    and the circuit duration fits in 32 bits; then the listen addresses, the
    external addresses (none without an external IP), the idle timeout and the
    seven relay limits are exactly those of the command line, also in the
    relay's configuration.  The identity is created before this validation. *)
Lemma run_config_validated {Path Keypair Multiaddr : Type}
    (parse : string -> option Multiaddr) (version : string)
    (args : RunArgs (Path := Path)) (k : Keypair) :
  match run_config parse args k with
  | Ok c =>
      (arg_max_circuit_duration_secs args <= u32_max)%Z
      /\ parse (tcp_string (listen_addr args) (tcp_port args)) = Some (run_tcp_addr c)
      /\ parse (quic_string (listen_addr args) (quic_port args)) = Some (run_quic_addr c)
      /\ Some <$> run_external_addrs c
         = match external_ip args with
           | Some ip => [parse (tcp_string ip (tcp_port args)); parse (quic_string ip (quic_port args))]
           | None => []
           end
      /\ run_idle_timeout c = from_secs (idle_timeout args)
      /\ bb_relay (BootstrapBehaviour_new version (run_relay_limits c)) = relay_limits_of args
      /\ run_keypair c = k
  | Err ME_CircuitDuration => (u32_max < arg_max_circuit_duration_secs args)%Z
  | Err (ME_Parse s) => parse s = None
  | Err (ME_Identity _) => False
  end.
Proof.
  unfold run_config, parse_addr.
  destruct (parse (tcp_string (listen_addr args) _)) as [ta|] eqn:Ht; simpl; [|done].
  destruct (parse (quic_string (listen_addr args) _)) as [qa|] eqn:Hq; simpl; [|done].
  destruct (external_ip args) as [ip|]; simpl.
  - destruct (parse (tcp_string ip _)) as [a|] eqn:Ha; simpl; [|done].
    destruct (parse (quic_string ip _)) as [b|] eqn:Hb; simpl; [|done].
    destruct (Z.leb_spec (arg_max_circuit_duration_secs args) u32_max); simpl; [|lia].
    by split_and!.
  - destruct (Z.leb_spec (arg_max_circuit_duration_secs args) u32_max); simpl; [|lia].
    by split_and!.
Qed.

(** A node with the default configuration never recognises the bootstrap
    server: their protocol versions differ, so the server's identify changes
    nothing: it is not added to the routing table, and no relay reservation is
    requested although the server is a configured bootstrap peer. *)
Lemma default_node_ignores_bootstrap `{N : NetTypes} {Sw C V} `{!SwarmOps Sw, !HashOrder, !Mpsc}
    (el : EventLoop Sw C) (sh : Shared V) (version version' : string) (a4 a6 : Multiaddr)
    (limits : BootRelayLimits) (p : PeerId) (info : IdentifyInfo) :
  el_protocol_version el = protocol_version (NodeConfig_default version a4 a6) ->
  info_protocol_version info = bb_protocol_version (BootstrapBehaviour_new version' limits) ->
  (convert_to_node_event el sh (Behaviour (CBE_IdentifyReceived p info))).1 = (el, sh).
Proof.
  intros Hel Hinfo. simpl in *. unfold on_identify_received.
  rewrite decide_False; [done|]. rewrite Hel, Hinfo. by vm_compute.
Qed.

(** The two commands agree on the identity: if [peer-id] prints an
    identifier, then [run] with the same key-file argument never fails on the
    key file, leaves it as it is, and if its arguments are valid starts the
    server under exactly that identifier. *)
Lemma peer_id_command_agrees {Path Keypair Bytes Multiaddr Id : Type} `{Countable Path}
    (enc : Keypair -> option Bytes) (dec : Bytes -> option Keypair)
    (readable chmod_ok : Path -> bool) (write : Path -> Bytes -> WriteOutcome Bytes) (unix : bool)
    (roundtrip : forall k b, enc k = Some b -> dec b = Some k)
    (parse : string -> option Multiaddr) (current_exe : option Path) (parent : Path -> option Path)
    (join : Path -> string -> Path) (path_from : string -> Path) (to_peer_id : Keypair -> Id)
    (mode mode' : Z) (k k' : Keypair) (args : RunArgs) (fs fs1 : gmap Path (File Bytes)) (id : Id) :
  let exec := main enc dec readable chmod_ok write unix parse current_exe parent join path_from
                to_peer_id in
  readable (resolve_key_file current_exe parent join path_from (key_file args)) = true ->
  exec mode k (CmdPeerId (key_file args)) fs = (fs1, Ok (MA_Print id)) ->
  (exec mode' k' (CmdRun args) fs1).1 = fs1
  /\ match (exec mode' k' (CmdRun args) fs1).2 with
     | Ok (MA_Run c) => to_peer_id (run_keypair c) = id
     | Ok (MA_Print _) => False
     | Err (ME_Identity _) => False
     | Err _ => True
     end.
Proof.
  intros exec Hr. unfold exec, main, main_run.
  set (path := resolve_key_file _ _ _ _ _) in *.
  destruct (load_or_generate_keypair _ _ _ _ _ _ mode k path fs) as [fs0 [kp|e]] eqn:Hl;
    simpl; [|done]. intros. simplify_eq.
  rewrite (load_again enc dec readable chmod_ok write unix roundtrip _ mode' _ k' _ _ _ _ Hr Hl).
  simpl. split; [done|].
  destruct (run_config parse args kp) as [c|e] eqn:Hc; simpl.
  - by rewrite (run_config_keypair _ _ _ _ Hc).
  - destruct e; [|done..]. pose proof Hc as Hbad. exfalso. revert Hbad.
    unfold run_config, parse_addr, ok_or. repeat (case_match; simpl; try done).
Qed.
