(* ===== verification/BootServer.v ===== *)
(** * The running bootstrap server ([bootstrap/src/lib.rs], [util/signal.rs])

    [run] after the swarm has been built: the set-up, then a [select!] between
    the swarm's next event and the shutdown signal.  One iteration of the loop
    is one [BootPoll]: what each branch would answer, and which one tokio polls
    first.  The only effect of [handle_event] is the line it logs, so lines are
    values here. *)
From S2P Require Import Prelude Externals Errors DataChannel PendingMap Config Handle Handler EventLoop.
From S2P Require Import EventChain NodeEvents Bootstrap.

(** ** [util/signal.rs] *)

(** The SIGTERM handler is installed by the first poll. *)
Inductive ShutdownState := SS_Start | SS_Waiting.

(** One poll of [shutdown_signal]: [ctrl_c] and [sigterm] tell what the two
    futures answer; any answer ends the wait, an [Err] of [ctrl_c] included.
    [None] is the panic of a failed installation. *)
Definition shutdown_signal_poll (unix install_ok : bool) (st : ShutdownState)
    (ctrl_c : option (Result unit unit)) (sigterm : bool) : option (ShutdownState * bool) :=
  let ctrl_c_ready := match ctrl_c with Some _ => true | None => false end in
  if unix then
    match st with
    | SS_Start => if install_ok then Some (SS_Waiting, ctrl_c_ready || sigterm) else None
    | SS_Waiting => Some (SS_Waiting, ctrl_c_ready || sigterm)
    end
  else Some (SS_Waiting, ctrl_c_ready).

Section server.
Context `{N : NetTypes}.

(** ** Events of the server's behaviour *)

Inductive BootIdentifyEvent :=
| BI_Received (peer_id : PeerId) (info : IdentifyInfo)
| BI_Other.

Record AutonatServerEvent := mkAutonatServer {
  an_tested_addr : Multiaddr;
  an_client : PeerId;
  an_result : Result unit string;
}.

Inductive BootstrapBehaviourEvent :=
| BBE_Ping
| BBE_Identify (e : BootIdentifyEvent)
| BBE_Kad (e : KadEvent)
| BBE_Relay (e : RelayServerEvent)
| BBE_Autonat (e : AutonatServerEvent).

Inductive BootSwarmEvent :=
| BSE_NewListenAddr (address : Multiaddr)
| BSE_ConnectionEstablished (peer_id : PeerId) (num_established : Z)
| BSE_ConnectionClosed (peer_id : PeerId) (num_established : Z)
| BSE_Behaviour (e : BootstrapBehaviourEvent)
| BSE_IncomingConnection
| BSE_OutgoingConnectionError
| BSE_IncomingConnectionError
| BSE_Other.

(** ** Log lines: the level, and the interpolated values of the message *)

Inductive BootMessage :=
| BM_RelayLimits (limits : BootRelayLimits)
| BM_AddedExternal (addr : Multiaddr)
| BM_Started
| BM_ShuttingDown
| BM_Listening (addr : Multiaddr)
| BM_PeerConnected (peer_id : PeerId)
| BM_PeerDisconnected (peer_id : PeerId)
| BM_Identified (peer_id : PeerId) (agent_version protocol_version : string)
| BM_KadRoutingUpdated (peer : PeerId)
| BM_Kad (e : KadEvent)
| BM_Relay (e : RelayServerEvent)
| BM_AutoNat (tested_addr : Multiaddr) (client : PeerId) (result : Result unit string)
| BM_Connection (event : BootSwarmEvent).

Inductive LogLine := Info (m : BootMessage) | Debug (m : BootMessage).

(** ** [handle_event] *)

Definition handle_event (event : BootSwarmEvent) : list LogLine :=
  match event with
  | BSE_NewListenAddr address => [Info (BM_Listening address)]
  | BSE_ConnectionEstablished peer_id num_established =>
      if (num_established =? 1)%Z then [Info (BM_PeerConnected peer_id)] else []
  | BSE_ConnectionClosed peer_id num_established =>
      if (num_established =? 0)%Z then [Info (BM_PeerDisconnected peer_id)] else []
  | BSE_Behaviour (BBE_Identify (BI_Received peer_id info)) =>
      [Info (BM_Identified peer_id (info_agent_version info) (info_protocol_version info))]
  | BSE_Behaviour (BBE_Kad (RoutingUpdated peer _)) => [Info (BM_KadRoutingUpdated peer)]
  | BSE_Behaviour (BBE_Kad event) => [Debug (BM_Kad event)]
  | BSE_Behaviour (BBE_Relay event) => [Info (BM_Relay event)]
  | BSE_Behaviour (BBE_Autonat event) =>
      [Info (BM_AutoNat (an_tested_addr event) (an_client event) (an_result event))]
  | BSE_IncomingConnection | BSE_OutgoingConnectionError | BSE_IncomingConnectionError =>
      [Debug (BM_Connection event)]
  | _ => []
  end.

(** ** The loop of [run] *)

Record BootPoll := mkBootPoll {
  bp_event : option BootSwarmEvent;
  bp_ctrl_c : option (Result unit unit);
  bp_sigterm : bool;
  bp_events_first : bool;
}.

Section loop.
Context (unix install_ok : bool).

(** One iteration: the event it handles, if any, and whether it breaks. *)
Definition select_step (st : ShutdownState) (p : BootPoll) :
    option (ShutdownState * option BootSwarmEvent * bool) :=
  match bp_event p with
  | Some ev =>
      if bp_events_first p then Some (st, Some ev, false)
      else
        match shutdown_signal_poll unix install_ok st (bp_ctrl_c p) (bp_sigterm p) with
        | Some (st, true) => Some (st, None, true)
        | Some (st, false) => Some (st, Some ev, false)
        | None => None
        end
  | None =>
      match shutdown_signal_poll unix install_ok st (bp_ctrl_c p) (bp_sigterm p) with
      | Some (st, stop) => Some (st, None, stop)
      | None => None
      end
  end.

(** The lines logged, and whether the loop has been left. *)
Fixpoint serve (st : ShutdownState) (polls : list BootPoll) : option (list LogLine * bool) :=
  match polls with
  | [] => Some ([], false)
  | p :: polls =>
      match select_step st p with
      | None => None
      | Some (_, _, true) => Some ([Info BM_ShuttingDown], true)
      | Some (st, ev, false) =>
          match serve st polls with
          | Some (log, stopped) =>
              Some (match ev with Some ev => handle_event ev ++ log | None => log end, stopped)
          | None => None
          end
      end
  end.

End loop.

(** ** [run] *)

Inductive ServerError (B : Type) := SE_Build (e : B) | SE_Listen (e : TransportError).
Arguments SE_Build {B} _.
Arguments SE_Listen {B} _.

(** [built] is the outcome of the [SwarmBuilder] chain.  Result: the swarm, the
    log, and what [run] has returned, if it has. *)
Definition server_run {Sw B : Type} `{!SwarmOps Sw} (unix install_ok : bool) (built : Result Sw B)
    (tcp_addr quic_addr : Multiaddr) (external_addrs : list Multiaddr)
    (relay_limits : BootRelayLimits) (polls : list BootPoll) :
    option (option Sw * list LogLine * option (Result unit (ServerError B))) :=
  match built with
  | Err e => Some (None, [], Some (Err (SE_Build e)))
  | Ok swarm =>
      let '(swarm, r) := boot_setup swarm tcp_addr quic_addr external_addrs in
      match r with
      | Err e => Some (Some swarm, [], Some (Err (SE_Listen e)))
      | Ok _ =>
          let log := Info (BM_RelayLimits relay_limits)
                     :: ((fun a => Info (BM_AddedExternal a)) <$> external_addrs)
                     ++ [Info BM_Started] in
          match serve unix install_ok SS_Start polls with
          | Some (lines, stopped) =>
              Some (Some swarm, log ++ lines, if stopped then Some (Ok tt) else None)
          | None => None
          end
      end
  end.

(** ** Specification *)

(** The signal as an iteration sees it, and whether the iteration obeys it. *)
Definition signalled (unix : bool) (p : BootPoll) : bool :=
  match bp_ctrl_c p with Some _ => true | None => unix && bp_sigterm p end.

Definition stops (unix : bool) (p : BootPoll) : bool :=
  signalled unix p && match bp_event p with Some _ => negb (bp_events_first p) | None => true end.

(** The iterations before the one that breaks. *)
Fixpoint before_stop (unix : bool) (polls : list BootPoll) : list BootPoll :=
  match polls with
  | [] => []
  | p :: polls => if stops unix p then [] else p :: before_stop unix polls
  end.

(** The connection events of the server as those of the node. *)
Definition conn_of (ev : BootSwarmEvent) : SwarmEvent :=
  match ev with
  | BSE_ConnectionEstablished p n => ConnectionEstablished p n
  | BSE_ConnectionClosed p n => ConnectionClosed p n
  | _ => SE_Other
  end.

Definition line_view (l : LogLine) : option NodeEvent :=
  match l with
  | Info (BM_PeerConnected p) => Some (PeerConnected p)
  | Info (BM_PeerDisconnected p) => Some (PeerDisconnected p)
  | _ => None
  end.

End server.
Arguments SE_Build {_ B} _.
Arguments SE_Listen {_ B} _.

(** ** Lemmas *)

Section server_lemmas.
Context `{N : NetTypes}.

Lemma shutdown_signal_poll_spec unix st p :
  shutdown_signal_poll unix true st (bp_ctrl_c p) (bp_sigterm p)
  = Some (SS_Waiting, signalled unix p).
Proof.
  unfold shutdown_signal_poll, signalled.
  by destruct unix, st, (bp_ctrl_c p), (bp_sigterm p).
Qed.

Lemma select_step_spec unix st p :
  exists st', select_step unix true st p
              = Some (st', if stops unix p then None else bp_event p, stops unix p).
Proof.
  unfold select_step, stops. rewrite shutdown_signal_poll_spec.
  destruct (bp_event p), (bp_events_first p), (signalled unix p); eauto.
Qed.

Lemma serve_spec unix st polls :
  serve unix true st polls
  = Some (concat (handle_event <$> omap bp_event (before_stop unix polls))
            ++ (if existsb (stops unix) polls then [Info BM_ShuttingDown] else []),
          existsb (stops unix) polls).
Proof.
  revert st. induction polls as [|p polls IH]; intros st; [done|]. simpl.
  destruct (select_step_spec unix st p) as [st' ->].
  destruct (stops unix p); [done|]. rewrite IH. simpl.
  destruct (bp_event p); simpl; [|done]. by rewrite <- app_assoc.
Qed.

Lemma handle_event_view ev v :
  view_exec v (omap line_view (handle_event ev)) = view_exec v (option_list (conn_event (conn_of ev))).
Proof.
  destruct ev as [a|p n|p n|[| [p i|]|[]|e|e]| | | |]; simpl; try done; by case_match.
Qed.

Lemma log_view m m' v evs :
  conn_exec m (conn_of <$> evs) = Some m' -> view_of m v ->
  exists v', view_exec v (omap line_view (concat (handle_event <$> evs))) = Some v' /\ view_of m' v'.
Proof.
  revert m v. induction evs as [|ev evs IH]; intros m v Hm Hv; simpl in Hm.
  { simplify_eq. by exists v. }
  destruct (conn_next m (conn_of ev)) as [m1|] eqn:Hm1; [|done]. simpl in Hm.
  destruct (view_simulates _ _ _ _ Hv Hm1) as (v1 & Hv1 & Hof).
  destruct (IH _ _ Hm Hof) as (v' & Hv' & Hof'). exists v'. split; [|done].
  simpl. rewrite omap_app, view_exec_app, handle_event_view, Hv1. exact Hv'.
Qed.

End server_lemmas.

(** ** Properties *)

(** C38. The server serves until it is told to stop: a failed build or listen is
    returned and nothing is served; otherwise every event taken before the first
    iteration that looks at an arrived signal is handled once, in order, then
    the loop ends with [Ok] and nothing later is handled; a signal is obeyed at
    the latest in the first iteration in which no event is ready.  Replaying
    the connect and disconnect lines of the log yields exactly the peers that
    have a connection. *)
Theorem server_serves_until_signal `{N : NetTypes} {Sw B} `{!SwarmOps Sw} (unix : bool)
    (built : Result Sw B) (tcp_addr quic_addr : Multiaddr) (external_addrs : list Multiaddr)
    (limits : BootRelayLimits) (polls : list BootPoll) :
  let run := server_run unix true built tcp_addr quic_addr external_addrs limits polls in
  match built with
  | Err e => run = Some (None, [], Some (Err (SE_Build e)))
  | Ok swarm =>
      let '(swarm, r) := boot_setup swarm tcp_addr quic_addr external_addrs in
      match r with
      | Err e => run = Some (Some swarm, [], Some (Err (SE_Listen e)))
      | Ok _ =>
          let handled := omap bp_event (before_stop unix polls) in
          let stopped := existsb (stops unix) polls in
          exists log,
            run = Some (Some swarm, log, if stopped then Some (Ok tt) else None)
            /\ log = Info (BM_RelayLimits limits)
                     :: ((fun a => Info (BM_AddedExternal a)) <$> external_addrs)
                     ++ [Info BM_Started] ++ concat (handle_event <$> handled)
                     ++ (if stopped then [Info BM_ShuttingDown] else [])
            /\ (forall p, p ∈ polls -> signalled unix p = true ->
                  bp_event p = None \/ bp_events_first p = false -> stopped = true)
            /\ (forall m, conn_exec ∅ (conn_of <$> handled) = Some m ->
                  exists v, view_exec ∅ (omap line_view log) = Some v
                    /\ forall p, p ∈ v <-> (0 < counter_get m p)%Z)
      end
  end.
Proof.
  unfold server_run. destruct built as [swarm|e]; [|done].
  destruct (boot_setup swarm tcp_addr quic_addr external_addrs) as [s [u|e]]; [|done].
  rewrite serve_spec. eexists. split; [done|]. split; [by rewrite app_comm_cons, <- app_assoc|]. split.
  - intros p Hp Hs He. apply existsb_exists. exists p. split; [by apply list_elem_of_In|].
    unfold stops. rewrite Hs. simpl. destruct He as [-> | ->]; [done|]. by destruct (bp_event p).
  - intros m Hm. destruct (log_view ∅ m ∅ _ Hm) as (v & Hv & Hof).
    { intros p. unfold counter_get. rewrite lookup_empty. simpl. split; [lia|set_solver by lia]. }
    exists v. split; [|apply Hof].
    assert (forall l, omap line_view ((fun a : Multiaddr => Info (BM_AddedExternal a)) <$> l) = [])
      as Hext by (induction l; [done|simpl; done]).
    simpl. rewrite !omap_app, Hext. simpl. rewrite view_exec_app, Hv. simpl.
    by destruct (existsb _ _).
Qed.
