(* ===== verification/Concrete.v ===== *)
(** * A concrete instance of the external interfaces

    Small executable instances of the classes of [Externals], used only by the
    witnesses: peers, protocols and identifiers are integers, a multiaddress is
    its list of components, a swarm is a record of what it has been told. *)
From S2P Require Import Prelude Externals Errors Handler SwarmIds.

Definition protocol_enc {P O} (p : Protocol P O) :
    (Z * Z * Z * Z) + (list Z + (P + (unit + O))) :=
  match p with
  | PIp4 ip => inl (octet_a ip, octet_b ip, octet_c ip, octet_d ip)
  | PIp6 ip => inr (inl (segments ip))
  | PP2p x => inr (inr (inl x))
  | PP2pCircuit => inr (inr (inr (inl tt)))
  | POther o => inr (inr (inr (inr o)))
  end.

Definition protocol_dec {P O}
    (x : (Z * Z * Z * Z) + (list Z + (P + (unit + O)))) : Protocol P O :=
  match x with
  | inl (a, b, c, d) => PIp4 (mkIpv4 a b c d)
  | inr (inl l) => PIp6 (mkIpv6 l)
  | inr (inr (inl x)) => PP2p x
  | inr (inr (inr (inl _))) => PP2pCircuit
  | inr (inr (inr (inr o))) => POther o
  end.

#[export] Instance Protocol_eq_dec {P O} `{EqDecision P, EqDecision O} :
  EqDecision (Protocol P O).
Proof. solve_decision. Defined.

#[export] Instance Protocol_countable {P O} `{Countable P, Countable O} :
  Countable (Protocol P O).
Proof. apply (inj_countable' protocol_enc protocol_dec). by intros [[]|[]| | |]. Defined.

(** ** Types *)

Definition Addr : Type := list (Protocol Z Z).

#[export] Instance Addr_eq_dec : EqDecision Addr := _.
#[export] Instance Addr_countable : Countable Addr := _.

(** Any total order will do; this one compares the codes. *)
Definition addr_le (a b : Addr) : Prop := (encode a <= encode b)%positive.

#[export] Instance addr_le_dec : RelDecision addr_le.
Proof. intros a b. unfold addr_le. apply _. Defined.

Record Stats := { st_requests : Z; st_successes : Z; st_failures : Z }.

Definition stats_merge (a b : Stats) : Stats :=
  {| st_requests := st_requests a + st_requests b;
     st_successes := st_successes a + st_successes b;
     st_failures := st_failures a + st_failures b |}.

#[export] Instance concrete_types : NetTypes := {
  PeerId := Z;
  peer_display _ := "peer";
  StreamProtocol := Z;
  proto_display _ := "/proto";
  OtherProto := Z;
  Multiaddr := Addr;
  ma_iter a := a;
  ma_with a p := a ++ [p];
  ma_le := addr_le;
  Stream := Z;
  Req := string;
  Resp := string;
  ResponseChannel := Z;
  OutboundRequestId := Z;
  QueryId := Z;
  RecordKey := Z;
  KadRecord := Z;
  QueryStats := Stats;
  qs_merge := stats_merge;
  qs_duration _ := None;
  qs_num_requests := st_requests;
  qs_num_successes := st_successes;
  qs_num_failures := st_failures;
  DialError := string;
  dial_error_display e := e;
  TransportError := string;
  transport_error_display e := e;
  KadError := string;
  kad_error_debug e := e;
  StoreError := string;
  store_error_display e := e;
  DcutrError := string;
  dcutr_error_display e := e;
  RelayStatus := string;
  relay_status_debug e := e;
  IoError := string;
  io_error_display e := e;
}.

(** ** A swarm *)

Record ToySwarm := {
  ts_connected : list Z;
  ts_undialable : list Z;
  ts_book : list (Z * Addr);
  ts_kad : list (Z * Addr);
  ts_listeners : list Addr;
  ts_external : list Addr;
  ts_relay_client : bool;
  ts_relay_server : bool;
  ts_next_id : Z;
  ts_closed_channels : list Z;
}.

Definition toy_swarm : ToySwarm :=
  {| ts_connected := []; ts_undialable := []; ts_book := []; ts_kad := [];
     ts_listeners := []; ts_external := []; ts_relay_client := true;
     ts_relay_server := false; ts_next_id := 0; ts_closed_channels := [] |}.

Definition ts_with_connected (l : list Z) (s : ToySwarm) : ToySwarm :=
  {| ts_connected := l; ts_undialable := ts_undialable s; ts_book := ts_book s;
     ts_kad := ts_kad s; ts_listeners := ts_listeners s; ts_external := ts_external s;
     ts_relay_client := ts_relay_client s; ts_relay_server := ts_relay_server s;
     ts_next_id := ts_next_id s; ts_closed_channels := ts_closed_channels s |}.

Definition ts_with_undialable (l : list Z) (s : ToySwarm) : ToySwarm :=
  {| ts_connected := ts_connected s; ts_undialable := l; ts_book := ts_book s;
     ts_kad := ts_kad s; ts_listeners := ts_listeners s; ts_external := ts_external s;
     ts_relay_client := ts_relay_client s; ts_relay_server := ts_relay_server s;
     ts_next_id := ts_next_id s; ts_closed_channels := ts_closed_channels s |}.

Definition ts_with_book (l : list (Z * Addr)) (s : ToySwarm) : ToySwarm :=
  {| ts_connected := ts_connected s; ts_undialable := ts_undialable s; ts_book := l;
     ts_kad := ts_kad s; ts_listeners := ts_listeners s; ts_external := ts_external s;
     ts_relay_client := ts_relay_client s; ts_relay_server := ts_relay_server s;
     ts_next_id := ts_next_id s; ts_closed_channels := ts_closed_channels s |}.

Definition ts_with_kad (l : list (Z * Addr)) (s : ToySwarm) : ToySwarm :=
  {| ts_connected := ts_connected s; ts_undialable := ts_undialable s;
     ts_book := ts_book s; ts_kad := l; ts_listeners := ts_listeners s;
     ts_external := ts_external s; ts_relay_client := ts_relay_client s;
     ts_relay_server := ts_relay_server s; ts_next_id := ts_next_id s;
     ts_closed_channels := ts_closed_channels s |}.

Definition ts_with_addrs (l e : list Addr) (s : ToySwarm) : ToySwarm :=
  {| ts_connected := ts_connected s; ts_undialable := ts_undialable s;
     ts_book := ts_book s; ts_kad := ts_kad s; ts_listeners := l; ts_external := e;
     ts_relay_client := ts_relay_client s; ts_relay_server := ts_relay_server s;
     ts_next_id := ts_next_id s; ts_closed_channels := ts_closed_channels s |}.

(** Allocates the next query or request identifier. *)
Definition ts_fresh (s : ToySwarm) : ToySwarm * Z :=
  ({| ts_connected := ts_connected s; ts_undialable := ts_undialable s;
      ts_book := ts_book s; ts_kad := ts_kad s; ts_listeners := ts_listeners s;
      ts_external := ts_external s; ts_relay_client := ts_relay_client s;
      ts_relay_server := ts_relay_server s; ts_next_id := ts_next_id s + 1;
      ts_closed_channels := ts_closed_channels s |}, ts_next_id s).

#[export] Instance toy_swarm_ops : SwarmOps ToySwarm := {
  sw_is_connected s p := bool_decide (p ∈ ts_connected s);
  sw_dial s p := (s, if bool_decide (p ∈ ts_undialable s) then Err "no addresses" else Ok tt);
  sw_disconnect_peer_id s p :=
    (s, if bool_decide (p ∈ ts_connected s) then Ok tt else Err tt);
  sw_listeners := ts_listeners;
  sw_external_addresses := ts_external;
  sw_add_peer_address s p a := ts_with_book (ts_book s ++ [(p, a)]) s;
  sw_add_external_address s a := ts_with_addrs (ts_listeners s) (ts_external s ++ [a]) s;
  sw_listen_on s a := (ts_with_addrs (ts_listeners s ++ [a]) (ts_external s) s, Ok tt);
  sw_relay_client_is_enabled := ts_relay_client;
  sw_relay_server_is_enabled := ts_relay_server;
  kad_add_address s p a := ts_with_kad (ts_kad s ++ [(p, a)]) s;
  kad_bootstrap s :=
    match ts_kad s with
    | [] => (s, Err tt)
    | _ => let '(s', q) := ts_fresh s in (s', Ok q)
    end;
  kad_put_record s _ := let '(s', q) := ts_fresh s in (s', Ok q);
  kad_start_providing s _ := let '(s', q) := ts_fresh s in (s', Ok q);
  kad_stop_providing s _ := s;
  kad_remove_record s _ := s;
  kad_get_record s _ := ts_fresh s;
  kad_get_providers s _ := ts_fresh s;
  kad_get_closest_peers s _ := ts_fresh s;
  rr_send_request s _ _ := ts_fresh s;
  rr_send_response s c r :=
    (s, if bool_decide (c ∈ ts_closed_channels s) then Err r else Ok tt);
}.

(** The toy swarm may yield any event; connection events update its record. *)
Definition toy_next (s : ToySwarm) (o : option SwarmEvent) : ToySwarm :=
  match o with
  | Some (ConnectionEstablished p _) => ts_with_connected (p :: ts_connected s) s
  | Some (ConnectionClosed p n) =>
      if (n =? 0)%Z then ts_with_connected (filter (fun q => q <> p) (ts_connected s)) s else s
  | _ => s
  end.

#[export] Instance toy_swarm_poll : SwarmPoll ToySwarm := fun s o s' => s' = toy_next s o.

(** Identifiers are handed out in increasing order. *)
#[export] Instance toy_swarm_ids : SwarmIds ToySwarm := fun s k =>
  match k with KQuery id | KRequest id => (id < ts_next_id s)%Z end.

#[export] Instance concrete_hash_order : HashOrder := elements.

(** ** A queue *)

Record Queue (A : Type) := mkQueue { q_items : list A; q_cap : nat; q_alive : bool }.
Arguments mkQueue {A} _ _ _.
Arguments q_items {A} _.
Arguments q_cap {A} _.
Arguments q_alive {A} _.

Definition q_try_send {A} (c : Queue A) (a : A) : Result (Queue A) TrySendError :=
  if q_alive c then
    if length (q_items c) <? q_cap c
    then Ok (mkQueue (q_items c ++ [a]) (q_cap c) true)
    else Err TSE_Full
  else Err TSE_Closed.

Definition q_recv {A} (c : Queue A) : option (A * Queue A) :=
  match q_items c with
  | [] => None
  | a :: l => Some (a, mkQueue l (q_cap c) (q_alive c))
  end.

#[export] Instance concrete_mpsc : Mpsc := {
  Chan := Queue;
  ch_new A n := mkQueue [] n true;
  ch_try_send A := q_try_send;
  ch_recv A := q_recv;
  ch_drop_rx A c := mkQueue [] (q_cap c) false;
  ch_contents A := q_items;
  ch_capacity A := q_cap;
  ch_rx_alive A := q_alive;
}.

(** ** The laws hold of the instances *)

#[export] Instance addr_le_total : TotalOrder addr_le.
Proof.
  unfold addr_le. split; [split; [split|]|].
  - intros a. reflexivity.
  - intros a b c Hab Hbc. by etrans.
  - intros a b Hab Hba. apply (inj encode). lia.
  - intros a b. unfold strict.
    destruct (Pos.lt_total (encode a) (encode b)) as [H|[H|H]];
      [left; lia | right; left; by apply (inj encode) | right; right; lia].
Qed.

#[export] Instance concrete_multiaddr_laws : MultiaddrLaws.
Proof. split; [done | exact addr_le_total]. Qed.

#[export] Instance toy_relay_toggle : RelayToggle ToySwarm.
Proof.
  split.
  - intros s s' Hop. destruct Hop; simpl; try done. by destruct (ts_kad s).
  - intros s o s' ->. unfold toy_next. by repeat case_match.
Qed.

#[export] Instance toy_swarm_laws : SwarmLaws ToySwarm.
Proof. by split. Qed.

Lemma toy_issued_mono (s s' : ToySwarm) k :
  (ts_next_id s <= ts_next_id s')%Z -> sw_issued s k -> sw_issued s' k.
Proof. destruct k; unfold sw_issued; simpl; lia. Qed.

#[export] Instance toy_swarm_id_laws : SwarmIdLaws ToySwarm.
Proof.
  split.
  - intros s s' k Hop. apply toy_issued_mono. destruct Hop; simpl; try lia.
    destruct (ts_kad s); simpl; lia.
  - intros s o s' k Hp. apply toy_issued_mono.
    unfold sw_poll, toy_swarm_poll, toy_next in Hp. subst s'. repeat case_match; simpl; lia.
  - intros s s' k Ha. destruct Ha as [s' id Ha| | | | | |]; simpl in *; unfold ts_fresh in *;
      [destruct (ts_kad s)| | | | | |]; simplify_eq; unfold sw_issued; simpl; lia.
Qed.

#[export] Instance concrete_hash_laws : HashOrderLaws.
Proof. by intros X. Qed.

#[export] Instance concrete_mpsc_laws : MpscLaws.
Proof.
  split; simpl.
  - done.
  - intros A c a Hc. unfold q_try_send. by rewrite Hc.
  - intros A c a Hc Hl. unfold q_try_send. rewrite Hc.
    by replace (_ <? _) with false by (symmetry; apply Nat.ltb_ge; lia).
  - intros A c a Hc Hl. unfold q_try_send. rewrite Hc.
    replace (_ <? _) with true by (symmetry; apply Nat.ltb_lt; lia). eauto.
  - intros A c Hc. unfold q_recv. by rewrite Hc.
  - intros A c a l Hc. unfold q_recv. rewrite Hc. eauto.
  - done.
Qed.
