(* ===== verification/Simulator.v ===== *)
(** * Executing networks

    An executable counterpart of [sys_step] and [net_step] on the types and the
    swarm of [Concrete]: [sim] makes one chosen step of one node, [net_sim] a
    list of choices on a network.  Both are sound, so that a run is found by
    evaluation. *)
From S2P Require Import Prelude Externals Errors DataChannel PendingMap Config Handle Handler.
From S2P Require Import BasicCommands KadCommands KadQueries ReqRespCommands Commands.
From S2P Require Import EventLoop EventChain CommandChain SwarmIds LoopFrame Trace OpenFuture Client Node System.
From S2P Require Import Calls Isolation Provenance Network Concrete.
From stdpp Require Import functions.

Notation ToySystem := (System (Traced ToySwarm)).

(** ** One node *)

(** The choices: which step, and what comes from outside. *)
Inductive Act :=
| DoRetain
| DoCommand
| DoEvent (ev : SwarmEvent)
| DoInbound (proto : StreamProtocol) (peer : PeerId) (stream : Stream)
| DoSent
| DoReceive
| DoTime (now : Z)
| DoCall (loc : nat) (call : ClientCall)
| DoRespond (loc : nat) (id : Z) (response : Resp)
| DoSend (loc : nat)
| DoPoll (loc waker : nat)
| DoOpen (p : PeerId) (proto : StreamProtocol)
| DoPollOpen (answer : option (Result Stream OpenStreamError))
| DoAccept
| DoClose
| DoOtherNode.

Definition toy_yield (s : Traced ToySwarm) (ev : SwarmEvent) : Traced ToySwarm :=
  mkTraced (toy_next (tr_swarm s) (Some ev)) (tr_log s ++ [OYield ev]).

Definition sim (a : Act) (s : ToySystem) : option (Label * ToySystem) :=
  let '(mkSystem w cl ca op ch) := s in
  let '(mkNW ph el sh q n rcv cv) := w in
  match a with
  | DoRetain =>
      match ph with
      | Iterating => Some (Tau, mkSystem (mkNW Selecting (retain_active el sh) sh q n rcv cv) cl ca op ch)
      | _ => None
      end
  | DoCommand =>
      match ph, ch_recv q with
      | Selecting, Some (cmd, q') =>
          match handle_command el sh cmd with
          | Some (el', sh') => Some (Tau, mkSystem (mkNW Iterating el' sh' q' n rcv cv) cl ca op ch)
          | None => None
          end
      | _, _ => None
      end
  | DoEvent ev =>
      match ph with
      | Selecting =>
          match handle_swarm_event (el_set_swarm (toy_yield (el_swarm el) ev) el) sh ev with
          | Some (el', sh', o) =>
              Some (Tau, mkSystem (mkNW (after_event o) el' sh' q n rcv (cv ++ option_list o)) cl ca op ch)
          | None => None
          end
      | _ => None
      end
  | DoInbound proto peer stream =>
      match ph with
      | Selecting =>
          Some (Tau, mkSystem (mkNW Iterating el (handle_inbound_channel sh proto peer stream) q n rcv cv)
                       cl ca op ch)
      | _ => None
      end
  | DoSent =>
      match ph with
      | Sending evt =>
          match ch_try_send (sh_events sh) evt with
          | Ok c => Some (Tau, mkSystem (mkNW Iterating el (sh_set_events c sh) q n rcv cv) cl ca op ch)
          | Err _ => None
          end
      | _ => None
      end
  | DoReceive =>
      match EventReceiver_recv 1 (EventReceiver_new (sh_events sh)) with
      | (rx, Some (Some evt)) =>
          Some (Received evt,
                mkSystem (nw_push_received evt (nw_upd (sh_set_events (event_rx rx)) w)) cl ca op ch)
      | _ => None
      end
  | DoTime now =>
      if (sh_now sh <=? now)%Z then Some (Tau, mkSystem (nw_upd (sh_set_now now) w) cl ca op ch) else None
  | DoCall loc call =>
      match cl, sh_handles sh !! loc, live_of (call_future loc (sh_now sh) call) with
      | _ :: _, None, Some lc =>
          Some (Called loc call, mkSystem (call_begin loc w) cl (<[loc := lc]> ca) op ch)
      | _, _, _ => None
      end
  | DoRespond loc id response =>
      match cl, sh_handles sh !! loc, nc_send_response loc (sh_pending sh) id response with
      | _ :: _, None, (pending, Ok fut) =>
          match live_of (mkRequestCall fut None) with
          | Some lc =>
              Some (Responding id response,
                    mkSystem (call_begin loc (nw_upd (sh_set_pending pending) w)) cl (<[loc := lc]> ca) op ch)
          | None => None
          end
      | _ :: _, _, (pending, Err e) =>
          Some (Refused id e, mkSystem (nw_upd (sh_set_pending pending) w) cl ca op ch)
      | _, _, _ => None
      end
  | DoSend loc =>
      match ca !! loc with
      | Some lc =>
          match cf_handler (lc_future lc), CommandFuture_send (T := CmdValue) (lc_future lc) q with
          | Some _, (f, q', None) =>
              Some (Tau, mkSystem (nw_set_commands q' w) cl (<[loc := lc_set_future f lc]> ca) op ch)
          | _, _ => None
          end
      | None => None
      end
  | DoPoll loc waker =>
      match ca !! loc, sh_handles sh !! loc with
      | Some lc, Some st =>
          match cf_handler (lc_future lc), request_poll (lc_call lc) (sh_now sh) q st waker with
          | None, (_, _, st', None) =>
              Some (Tau, mkSystem (nw_upd (sh_set_handle loc st') w) cl ca op ch)
          | None, (_, _, st', Some r) =>
              Some (Returned loc r, mkSystem (call_done loc st' w) cl (delete loc ca) op ch)
          | Some _, _ => None
          end
      | _, _ => None
      end
  | DoOpen p proto =>
      match cl with
      | client :: _ =>
          Some (Opens p proto, mkSystem w cl ca (nc_open_data_channel (cl_dc_open_timeout client) p proto :: op) ch)
      | [] => None
      end
  | DoPollOpen answer =>
      match op with
      | st :: op =>
          match DataChannelOpenFuture_poll (sh_limits sh) (sh_registry sh) (sh_next_dc_id sh) (sh_now sh)
                  answer st with
          | Some (inner, next, st', r) =>
              Some (OpenPolled r,
                    mkSystem (nw_upd (sh_set_dc inner next) w) cl ca
                      (match r with None => [st'] | Some _ => [] end ++ op)
                      (match r with Some (Ok c) => c :: ch | _ => ch end))
          | None => None
          end
      | [] => None
      end
  | DoAccept =>
      match DataChannelReceiver_recv 1 (DataChannelReceiver_new (sh_inbound sh)) with
      | (rx, Some (Some c)) =>
          Some (Accepted c, mkSystem (nw_upd (sh_set_inbound (dcr_rx rx)) w) cl ca op (channel c :: ch))
      | _ => None
      end
  | DoClose =>
      match ch with
      | c :: ch =>
          Some (Tau, mkSystem (nw_upd (fun sh => sh_set_dc (data_channel_drop (sh_registry sh) c)
                                                   (sh_next_dc_id sh) sh) w) cl ca op ch)
      | [] => None
      end
  | DoOtherNode =>
      Some (Tau, mkSystem (nw_upd (fun sh => sh_set_dc (sh_registry sh)
                                               (DataChannelId_next (sh_next_dc_id sh)).1 sh) w) cl ca op ch)
  end.

Lemma sim_sound a (s s' : ToySystem) lab : sim a s = Some (lab, s') -> sys_step lab s s'.
Proof.
  destruct s as [[ph el sh q n rcv cv] cl ca op ch].
  destruct a; simpl; intros Hs; repeat (case_match; simplify_eq/=).
  all: try (by econstructor; econstructor).
  all: try (injection Hs as <- <-; exact (sy_other_node (mkNW ph el sh q n rcv cv) cl ca op ch)).
  all: try (apply sy_time; by apply Z.leb_le).
  all: try (by eapply sy_call; [left|..]).
  all: try (by eapply sy_respond; [left|..]).
  all: try (by eapply sy_respond_none; [left|..]).
  all: try (by eapply sy_send; [done|by eexists|..]).
  all: try (by eapply sy_poll_pending).
  all: try (by eapply sy_poll_ready).
  all: try (by eapply (sy_poll_open _ _ _ [] _ _ _ _ _ _ _ (Some (Ok _)))).
  all: try (by eapply (sy_poll_open _ _ _ [] _ _ _ _ _ _ _ (Some (Err _)))).
  all: try (by eapply (sy_poll_open _ _ _ [] _ _ _ _ _ _ _ None)).
  all: try (by apply (sy_close _ _ _ _ [])).
  - apply sy_loop. by eapply (ls_event _ _ _ _ _ _ ev (toy_yield (el_swarm el) ev)).
  - match goal with He : _ = (?e, Some (Some _)) |- _ => destruct e as [rx] end. by apply sy_receive.
  - match goal with He : _ = (?e, Some (Some _)) |- _ => destruct e as [rx] end. by apply sy_accept.
Qed.

(** A list of choices, as far as they are possible. *)
Fixpoint sim_all (s : ToySystem) (l : list Act) : ToySystem :=
  match l with
  | [] => s
  | a :: l => match sim a s with Some (_, s) => sim_all s l | None => s end
  end.

Lemma sim_all_sound l (s : ToySystem) : sys_run (Sw := Traced ToySwarm) s (sim_all s l).
Proof.
  revert s. induction l as [|a l IH]; intros s; simpl; [done|].
  destruct (sim a s) as [[lab s1]|] eqn:Ha; [|done]. apply sim_sound in Ha.
  eapply rtc_l; [by eexists|apply IH].
Qed.

(** The labels of these choices. *)
Fixpoint sim_labels (s : ToySystem) (l : list Act) : list Label :=
  match l with
  | [] => []
  | a :: l => match sim a s with Some (lab, s) => lab :: sim_labels s l | None => [] end
  end.

Lemma sim_history s0 hist l (s : ToySystem) :
  history (Sw := Traced ToySwarm) s0 hist s -> history s0 (hist ++ sim_labels s l) (sim_all s l).
Proof.
  revert s hist. induction l as [|a l IH]; intros s hist Hh; simpl; [by rewrite app_nil_r|].
  destruct (sim a s) as [[lab s1]|] eqn:Ha; [|by rewrite app_nil_r].
  rewrite cons_middle, app_assoc. apply IH. eapply history_snoc; [exact Hh|]. by eapply sim_sound.
Qed.

(** A choice that is possible, by its label. *)
Lemma sim_label a (s : ToySystem) lab :
  fst <$> sim a s = Some lab -> exists s', sys_step (Sw := Traced ToySwarm) lab s s'.
Proof. intros ([lab' s'] & Hs & ->)%fmap_Some. exists s'. by eapply sim_sound. Qed.

(** ** Several nodes *)

(** A step of one node, or the delivery of a request or of a response; the
    numbers point at the log entries and the exchange that justify it.  The
    relay [i] grants a reservation to [p] if [p] listens through it. *)
Inductive NetAct :=
| Local (i : Z) (a : Act)
| GrantReservation (i p : Z)
| DeliverRequest (i p : Z) (entry : nat) (ch : Z)
| DeliverResponse (i : Z) (exchange entry : nat).

Definition local_act (a : Act) : bool :=
  match a with DoEvent ev => negb (req_resp_event ev) | _ => true end.

Definition listens_through (i : Z) (a : Addr) : bool :=
  existsb (fun x => bool_decide (x = PP2p i)) a && existsb (fun x => bool_decide (x = PP2pCircuit)) a.

Definition net_put (net : Net ToySwarm) (i : Z) (l : list Exchange) (r : option (Label * ToySystem)) :
    option (Net ToySwarm) :=
  match r with
  | Some (lab, s) =>
      Some (mkNet (<[(i : PeerId) := s]> (net_nodes net)) (net_exchanges net ++ l)
              (net_history net ++ [((i : PeerId), lab)]))
  | None => None
  end.

Definition net_act (net : Net ToySwarm) (a : NetAct) : option (Net ToySwarm) :=
  match a with
  | Local i a => if local_act a then net_put net i [] (sim a (net_nodes net i)) else None
  | GrantReservation i p =>
      if existsb (listens_through i) (ts_listeners (tr_swarm (swarm_of (net_nodes net p))))
      then net_put net i []
             (sim (DoEvent (Behaviour (CBE_RelayServer (RS_ReservationReqAccepted (p : PeerId) false))))
                (net_nodes net i))
      else None
  | DeliverRequest i p entry ch =>
      match tr_log (swarm_of (net_nodes net p)) !! entry with
      | Some (OAlloc (ISendRequest i' request) (KRequest rid)) =>
          if bool_decide (i' = i) && forallb (fun x => negb (bool_decide (ex_channel x = ch))) (net_exchanges net)
          then net_put net i [mkExchange p i rid request ch]
                 (sim (DoEvent (Behaviour (CBE_ReqResp (RR_Request (p : PeerId) request (ch : ResponseChannel)))))
                    (net_nodes net i))
          else None
      | _ => None
      end
  | DeliverResponse i exchange entry =>
      match net_exchanges net !! exchange with
      | Some x =>
          match tr_log (swarm_of (net_nodes net (ex_to x))) !! entry with
          | Some (OAnswer ch response) =>
              if bool_decide (ex_from x = i) && bool_decide (ex_channel x = ch)
              then net_put net i []
                     (sim (DoEvent (Behaviour (CBE_ReqResp (RR_Response (ex_to x) (ex_id x) response))))
                        (net_nodes net i))
              else None
          | _ => None
          end
      | None => None
      end
  end.

Fixpoint net_sim (net : Net ToySwarm) (l : list NetAct) : option (Net ToySwarm) :=
  match l with
  | [] => Some net
  | a :: l => match net_act net a with Some net => net_sim net l | None => None end
  end.

(** A step yields the event it was given, and otherwise nothing. *)
Lemma sim_yields a (s s' : ToySystem) lab :
  sim a s = Some (lab, s') ->
  tr_events (swarm_of s')
  = tr_events (swarm_of s) ++ match a with DoEvent ev => [ev] | _ => [] end.
Proof.
  intros Hs. destruct s as [[ph el sh q n rcv cv] cl ca op ch].
  destruct a; simpl in Hs; repeat (case_match; simplify_eq/=);
    rewrite ?app_nil_r; unfold swarm_of; simpl; try done.
  - match goal with He : handle_command _ _ _ = Some _ |- _ => rename He into Hc end.
    destruct (handle_command_swarm _ _ _ _ _ Hc) as (cmd' & sw & fin & Hr & _ & Hb%book_events).
    rewrite Hb. destruct (run_log _ _ _ _ _ Hr) as (l & Hl%tr_events_app & Hlogs). rewrite Hl.
    by destruct Hlogs as [->|[(? & ? & -> & _)|(? & ? & -> & _)]]; rewrite app_nil_r.
  - match goal with He : handle_swarm_event _ _ _ = Some _ |- _ => rename He into Hc end.
    apply handle_swarm_event_book, book_events in Hc. rewrite Hc. simpl.
    unfold toy_yield, tr_events. simpl. by rewrite omap_app.
  - by injection Hs as <- <-.
Qed.

Lemma net_put_sound net net' i l a o :
  net_put net i l (sim a (net_nodes net i)) = Some net' ->
  match a with DoEvent ev => [ev] | _ => [] end = option_list o -> net_yields net i o l ->
  net_step net net'.
Proof.
  unfold net_put. destruct (sim a (net_nodes net i)) as [[lab s]|] eqn:Hs; [|done].
  intros [= <-] Ho Hy. refine (net_step_intro net i lab s o l (sim_sound _ _ _ _ Hs) _ Hy).
  rewrite <- Ho. by eapply sim_yields.
Qed.

Lemma net_act_sound net net' a : net_act net a = Some net' -> net_step net net'.
Proof.
  destruct a as [i a|i p|i p entry ch|i exchange entry]; simpl.
  - destruct (local_act a) eqn:Hl; [|done]. intros Hp.
    destruct a; try (eapply (net_put_sound _ _ _ _ _ None); [exact Hp|done|constructor]).
    eapply (net_put_sound _ _ _ _ _ (Some ev)); [exact Hp|done|]. constructor. simpl in Hl.
    by apply negb_true_iff.
  - destruct (existsb _ _); [|done]. intros Hp.
    eapply (net_put_sound _ _ _ _ _ (Some _)); [exact Hp|done|by constructor].
  - destruct (tr_log _ !! entry) as [[|[] []|]|] eqn:He; try done.
    apply list_elem_of_lookup_2 in He. destruct (_ && _) eqn:Hc; [|done]. intros Hp.
    apply andb_true_iff in Hc as [->%bool_decide_eq_true Hf].
    eapply (net_put_sound _ _ _ _ _ (Some _)); [exact Hp|done|]. eapply ny_request; [exact He|].
    intros x Hx _. rewrite forallb_forall in Hf. specialize (Hf x). rewrite <- list_elem_of_In in Hf.
    by apply Hf, negb_true_iff, bool_decide_eq_false in Hx.
  - destruct (net_exchanges net !! exchange) as [x|] eqn:Hx; [|done].
    destruct (tr_log _ !! entry) as [[| |ch response]|] eqn:He; try done.
    apply list_elem_of_lookup_2 in He, Hx. destruct (_ && _) eqn:Hc; [|done]. intros Hp.
    apply andb_true_iff in Hc as [Hi%bool_decide_eq_true Hch%bool_decide_eq_true].
    eapply (net_put_sound _ _ _ _ _ (Some _)); [exact Hp|done|]. by eapply ny_response; rewrite ?Hch.
Qed.

Lemma net_sim_sound net net' l : net_sim net l = Some net' -> rtc net_step net net'.
Proof.
  revert net. induction l as [|a l IH]; intros net Hs; simpl in Hs; [by simplify_eq|].
  destruct (net_act net a) as [net1|] eqn:Ha; [|done].
  eapply rtc_l; [by eapply net_act_sound|by apply IH].
Qed.

(** The network after a run, or as it was. *)
Definition net_after (net : Net ToySwarm) (l : list NetAct) : Net ToySwarm :=
  match net_sim net l with Some net => net | None => net end.

Lemma net_after_run net l : rtc net_step net (net_after net l).
Proof. unfold net_after. destruct (net_sim net l) eqn:Hs; [by eapply net_sim_sound|done]. Qed.
