(* ===== verification/IntegrationTests.v ===== *)
(** * The integration tests, run on networks of the model

    The tests of [core/tests/req_resp.rs], [data_channel.rs], [kad.rs] and
    [infrastructure.rs] as scripts of the network of [Network]: each node is what
    [start] returns for the test's configuration, each step is one of the crate's,
    and what the applications observe, and the addresses the nodes listen on, are
    compared with what the test asserts.  The swarm is the toy one, so it is the
    crate's side of the tests that is run: libp2p's part (a connection is made, a
    stream is negotiated, a query makes progress) is a choice of the script, and a
    reservation is granted only to a peer that listens through the relay.

    These are executed scenarios, examples of single runs.  That nodes with mDNS
    off do not connect by themselves, the remaining test of [req_resp.rs], is a
    statement about all runs: [connections_are_wanted] in [Contact]. *)
From S2P Require Import Prelude Externals Errors DataChannel PendingMap Config Handle Handler.
From S2P Require Import BasicCommands KadCommands KadQueries ReqRespCommands Commands.
From S2P Require Import EventLoop EventChain CommandChain SwarmIds LoopFrame Trace OpenFuture Client Node System.
From S2P Require Import Calls Isolation Provenance Network Concrete Simulator.
From stdpp Require Import functions.

(** ** The configurations *)

Section configs.
Context `{N : NetTypes}.

(** [common::explicit_dial_config]; [d] is [NodeConfig::default()], [addr] the
    parse of ["/ip4/127.0.0.1/tcp/0"]. *)
Definition explicit_dial_config (d : NodeConfig) (addr : Multiaddr) : NodeConfig :=
  let c := NodeConfig_new d "/test/1.0.0" "test/1.0.0" in
  let c := with_listen_addrs c [addr] in
  let c := with_mdns c false in
  let c := with_relay_client c false in
  let c := with_dcutr c false in
  let c := with_autonat c false in
  with_kad_server_mode c true.

(** [data_channel::dc_config]. *)
Definition dc_config (d : NodeConfig) (addr : Multiaddr) (proto : StreamProtocol) : NodeConfig :=
  with_data_channel_protocols (explicit_dial_config d addr) [proto].

(** The [limited_a] of the quota tests. *)
Definition limited_config (d : NodeConfig) (addr : Multiaddr) (proto : StreamProtocol) : NodeConfig :=
  with_data_channel_limits (dc_config d addr proto)
    {| max_inbound_per_peer := 4; max_outbound_per_peer := 1; max_per_protocol := 64 |}.

(** [infrastructure::helper_config] and [client_config]. *)
Definition helper_config (d : NodeConfig) (addr : Multiaddr) : NodeConfig :=
  with_lan_helper (explicit_dial_config d addr) LanHelperConfig_default.

Definition client_config (d : NodeConfig) (addr : Multiaddr) (relay_client : bool) : NodeConfig :=
  let c := NodeConfig_new d "/test/1.0.0" "test/1.0.0" in
  let c := with_listen_addrs c [addr] in
  let c := with_mdns c false in
  let c := with_relay_client c relay_client in
  let c := with_dcutr c false in
  let c := with_autonat c false in
  with_kad_server_mode c true.

(** [kad::kad_config] and [kad_config_with_bootstrap], which assigns two fields. *)
Definition kad_config (d : NodeConfig) (addr : Multiaddr) : NodeConfig :=
  let c := NodeConfig_new d "/test/1.0.0" "test/1.0.0" in
  let c := with_listen_addrs c [addr] in
  let c := with_mdns c false in
  let c := with_relay_client c false in
  let c := with_dcutr c false in
  let c := with_autonat c false in
  with_kad_server_mode c true.

Definition set_kad_query_timeout (c : NodeConfig) (timeout : Z) : NodeConfig :=
  let '(mkNodeConfig pv av la bp md rc dc an it pi pt _ ks im rp rt ps ot it' dl) := c in
  mkNodeConfig pv av la bp md rc dc an it pi pt timeout ks im rp rt ps ot it' dl.

Definition kad_config_with_bootstrap (d : NodeConfig) (addr : Multiaddr)
    (boot_peer : PeerId) (boot_addr : Multiaddr) : NodeConfig :=
  set_kad_query_timeout (with_bootstrap_peers (kad_config d addr) [(boot_peer, boot_addr)]) (from_secs 5).

End configs.

(** ** The nodes *)

Definition peer_a : @PeerId concrete_types := 1%Z.
Definition peer_b : @PeerId concrete_types := 2%Z.

(** The bootstrap node and the LAN helper of the later tests. *)
Definition peer_s : @PeerId concrete_types := 3%Z.

(** The addresses the nodes end up listening on. *)
Definition loopback : @Multiaddr concrete_types := [PIp4 (mkIpv4 127 0 0 1); POther 0%Z].
Definition addr_a : @Multiaddr concrete_types := [PIp4 (mkIpv4 127 0 0 1); POther 4001%Z].
Definition addr_b : @Multiaddr concrete_types := [PIp4 (mkIpv4 127 0 0 1); POther 4002%Z].
Definition addr_s : @Multiaddr concrete_types := [PIp4 (mkIpv4 127 0 0 1); POther 4003%Z].

Definition DATA_PROTO : @StreamProtocol concrete_types := 1%Z.
Definition bad_proto : @StreamProtocol concrete_types := 9%Z.

Definition default_config : NodeConfig := NodeConfig_default "0.1.0" loopback loopback.
Definition plain : NodeConfig := explicit_dial_config default_config loopback.
Definition with_channels : NodeConfig := dc_config default_config loopback DATA_PROTO.
Definition limited : NodeConfig := limited_config default_config loopback DATA_PROTO.

(** A protocol is accepted once. *)
Definition accept_once (ctl : list Z) (p : @StreamProtocol concrete_types) : list Z * bool :=
  (p :: ctl, bool_decide (p ∉ ctl)).

(** The toy swarm with the relay toggles of the behaviour that [CoreBehaviour::new]
    makes of the configuration. *)
Definition test_swarm (config : NodeConfig) : Traced ToySwarm :=
  match CoreBehaviour_new (fun _ => Some 0%Z) true config with
  | Some b =>
      mkTraced
        {| ts_connected := []; ts_undialable := []; ts_book := []; ts_kad := []; ts_listeners := [];
           ts_external := []; ts_relay_client := cb_relay_client b;
           ts_relay_server := bool_decide (is_Some (cb_relay_server b));
           ts_next_id := 0; ts_closed_channels := [] |} []
  | None => mkTraced toy_swarm []
  end.

(** [start]; the second branch is not reached on the configurations here. *)
Definition test_node (config : NodeConfig) : Node (Traced ToySwarm) AnyCommand CmdValue :=
  match start accept_once (test_swarm config) [] 0 0 config with
  | Ok node => node
  | Err _ => mkNode (EventLoop_new (test_swarm config) "" false Off)
               (mkShared ∅ [] ∅ 0 DataChannelLimits_default RegistryInner_default 0
                  (ch_new 0) (ch_new 0)) (ch_new 0) [] 0 0 0
  end.

(** Whether [start] succeeds. *)
Definition starts (config : NodeConfig) : bool :=
  match start (C := AnyCommand) (V := CmdValue) accept_once (test_swarm config) [] 0 0 config with
  | Ok _ => true
  | Err _ => false
  end.

(** The nodes of a test; of a two-node test, where everyone but [peer_a] runs the
    second configuration; and those of the Kademlia test. *)
Definition test_net (config : PeerId -> NodeConfig) : Net ToySwarm :=
  mkNet (fun i => system_of (test_node (config i))) [] [].

Definition pair_of (config_a config_b : NodeConfig) (i : @PeerId concrete_types) : NodeConfig :=
  if decide (i = peer_a) then config_a else config_b.

Definition around_s (config_s config : NodeConfig) (i : @PeerId concrete_types) : NodeConfig :=
  if decide (i = peer_s) then config_s else config.

Definition helper : NodeConfig := helper_config default_config loopback.
Definition relay_user (relay_client : bool) : NodeConfig := client_config default_config loopback relay_client.
Definition boot_node : NodeConfig := kad_config default_config loopback.
Definition kad_node : NodeConfig := kad_config_with_bootstrap default_config loopback peer_s addr_s.

(** ** Scripts *)

Definition steps (i : Z) (l : list Act) : list NetAct := Local i <$> l.

(** The loop takes an event and sends on what it makes of it; the application
    receives it. *)
Definition reports (i : Z) (ev : SwarmEvent) : list NetAct :=
  steps i [DoRetain; DoEvent ev; DoSent; DoReceive].

(** A call whose command needs no answer of the network. *)
Definition awaits (i : Z) (loc : nat) (call : ClientCall) : list NetAct :=
  steps i [DoCall loc call; DoSend loc; DoRetain; DoCommand; DoPoll loc 0].

(** A call that is sent and run. *)
Definition begins (i : Z) (loc : nat) (call : ClientCall) : list NetAct :=
  steps i [DoCall loc call; DoSend loc; DoRetain; DoCommand].

(** [wait_for_listen_addr] on both sides, then [connect_by_explicit_dial]; the
    first round of [retry_dial_until_connected] finds no connection and dials. *)
Definition listen_both : list NetAct :=
  reports peer_a (NewListenAddr addr_a) ++ reports peer_b (NewListenAddr addr_b).

Definition connect_by_explicit_dial : list NetAct :=
  awaits peer_a 0 (CAddPeerAddrs peer_b [addr_b])
  ++ awaits peer_b 0 (CAddPeerAddrs peer_a [addr_a])
  ++ awaits peer_a 1 (CIsConnected peer_b)
  ++ awaits peer_a 2 (CAddPeerAddrs peer_b [addr_b])
  ++ begins peer_a 3 (CDial peer_b)
  ++ reports peer_a (ConnectionEstablished peer_b 1)
  ++ reports peer_b (ConnectionEstablished peer_a 1)
  ++ steps peer_a [DoPoll 3 0]
  ++ awaits peer_a 4 (CIsConnected peer_b)
  ++ awaits peer_b 1 (CIsConnected peer_a).

Definition connected_pair : list NetAct := listen_both ++ connect_by_explicit_dial.

(** What the applications see of it. *)
Definition connected_pair_seen : list (Z * Label) :=
  [(peer_a, Received (Listening addr_a)); (peer_b, Received (Listening addr_b));
   (peer_a, Returned 0 (Ok (VUnit tt))); (peer_b, Returned 0 (Ok (VUnit tt)));
   (peer_a, Returned 1 (Ok (VBool false))); (peer_a, Returned 2 (Ok (VUnit tt)));
   (peer_a, Received (PeerConnected peer_b)); (peer_b, Received (PeerConnected peer_a));
   (peer_a, Returned 3 (Ok (VUnit tt)));
   (peer_a, Returned 4 (Ok (VBool true))); (peer_b, Returned 1 (Ok (VBool true)))].

(** The observations of a run. *)
Definition visible (x : Z * Label) : bool :=
  match x.2 with Tau | Called _ _ | Opens _ _ | OpenPolled None => false | _ => true end.

(** The addresses a node listens on. *)
Definition listening (net : Net ToySwarm) (i : @PeerId concrete_types) : list Addr :=
  ts_listeners (tr_swarm (swarm_of (net_nodes net i))).

(** A test: its nodes, its run, what is observed in the end, and where the nodes
    then listen. *)
Record Test := mkTest {
  t_config : @PeerId concrete_types -> NodeConfig;
  t_script : list NetAct;
  t_seen : list (Z * Label);
  t_listen : list (@PeerId concrete_types * list Addr);
}.

Definition observed (t : Test) : option (list (Z * Label) * list (list Addr)) :=
  (fun net => (filter (fun x => Is_true (visible x)) (net_history net),
               (fun x => listening net x.1) <$> t_listen t))
    <$> net_sim (test_net (t_config t)) (t_script t).

(** There is a run of the nodes in which this is observed. *)
Definition passes (t : Test) : Prop :=
  net_started (test_net (t_config t))
  /\ exists net, rtc net_step (test_net (t_config t)) net
       /\ filter (fun x => Is_true (visible x)) (net_history net) = t_seen t
       /\ (fun x => listening net x.1) <$> t_listen t = (t_listen t).*2.

(** A test of two nodes, which listen where they were told to. *)
Definition pair_test (config_a config_b : NodeConfig) (script : list NetAct) (seen : list (Z * Label)) : Test :=
  mkTest (pair_of config_a config_b) script seen [(peer_a, [loopback]); (peer_b, [loopback])].

(** ** [req_resp.rs] *)

(** A request travels to [peer_b], which reports it. *)
Definition request_delivered (loc : nat) (request : string) (options : RequestOptions) : list NetAct :=
  begins peer_a loc (CSendRequest peer_b request options)
  ++ steps peer_b [DoRetain] ++ [DeliverRequest peer_b peer_a 2 70]
  ++ steps peer_b [DoSent; DoReceive].

Definition dual_node_full_flow (request response : string) : Test :=
  pair_test plain plain
    (connected_pair ++ request_delivered 5 request RequestOptions_new
     ++ steps peer_b [DoRespond 2 0 response; DoSend 2; DoRetain; DoCommand; DoPoll 2 0]
     ++ steps peer_a [DoRetain] ++ [DeliverResponse peer_a 0 3] ++ steps peer_a [DoPoll 5 0])
    (connected_pair_seen
     ++ [(peer_b, Received (InboundRequest peer_a 0 request)); (peer_b, Responding 0 response);
         (peer_b, Returned 2 (Ok (VUnit tt))); (peer_a, Returned 5 (Ok (VResp response)))]).

Definition send_response_returns_error_when_pending_id_is_missing (response : string) : Test :=
  pair_test plain plain (steps peer_a [DoRespond 0 999 response])
    [(peer_a, Refused 999 (no_pending_channel 999))].

Definition send_request_per_call_timeout_returns_typed_error (request : string) : Test :=
  pair_test plain plain
    (connected_pair
     ++ request_delivered 5 request (ro_with_timeout RequestOptions_new 100_000_000)
     ++ steps peer_a [DoPoll 5 0; DoTime 100_000_000; DoPoll 5 0])
    (connected_pair_seen
     ++ [(peer_b, Received (InboundRequest peer_a 0 request));
         (peer_a, Returned 5 (Err (E_Network Timeout)))]).

(** ** [data_channel.rs] *)

(** The channel numbered [id] as [peer_a] opens it, and as [peer_b] accepts it. *)
Definition outbound (id stream : Z) : DataChannel :=
  DataChannel_new id peer_b DATA_PROTO Outbound stream (Some (mkGuard peer_b DATA_PROTO Outbound)).
Definition inbound (id stream : Z) : DataChannel :=
  DataChannel_new id peer_a DATA_PROTO Inbound stream (Some (mkGuard peer_a DATA_PROTO Inbound)).

(** Both nodes of a test are in one process, so they share the counter of
    identifiers: what one takes, the other skips. *)
Definition took_id (i : Z) : list NetAct := steps (if decide (i = peer_a) then peer_b else peer_a) [DoOtherNode].

(** [open_data_channel], answered with a stream or with a failure. *)
Definition opens (proto : Z) (answer : Result Stream OpenStreamError) : list NetAct :=
  steps peer_a [DoOpen peer_b proto; DoPollOpen None] ++ took_id peer_a
  ++ steps peer_a [DoPollOpen (Some answer)].

(** The far end gets the stream and hands it to [dc_rx_b]. *)
Definition accepts_stream (stream : Z) : list NetAct :=
  steps peer_b [DoRetain; DoInbound DATA_PROTO peer_a stream; DoAccept] ++ took_id peer_b.

(** Opening and accepting; the bytes then exchanged are the stream's own. *)
Definition dual_node_data_channel_roundtrip : Test :=
  pair_test with_channels with_channels
    (connected_pair ++ opens DATA_PROTO (Ok 33%Z) ++ accepts_stream 33)
    (connected_pair_seen
     ++ [(peer_a, OpenPolled (Some (Ok (outbound 0 33))));
         (peer_b, Accepted {| channel := inbound 1 33 |})]).

Definition open_unsupported_protocol_fails_with_typed_error : Test :=
  pair_test with_channels with_channels
    (connected_pair ++ opens bad_proto (Err (OSE_UnsupportedProtocol bad_proto)))
    (connected_pair_seen
     ++ [(peer_a, OpenPolled (Some (Err (E_DataChannel DC_UnsupportedProtocol))))]).

Definition outbound_limit_rejects_second_active_channel_and_releases_after_drop : Test :=
  pair_test limited with_channels
    (connected_pair ++ opens DATA_PROTO (Ok 33%Z) ++ accepts_stream 33
     ++ steps peer_a [DoOpen peer_b DATA_PROTO; DoPollOpen None]
     ++ steps peer_a [DoClose] ++ steps peer_b [DoClose]
     ++ opens DATA_PROTO (Ok 34%Z))
    (connected_pair_seen
     ++ [(peer_a, OpenPolled (Some (Ok (outbound 0 33))));
         (peer_b, Accepted {| channel := inbound 1 33 |});
         (peer_a, OpenPolled (Some (Err (E_DataChannel DC_ResourceLimitExceeded))));
         (peer_a, OpenPolled (Some (Ok (outbound 2 34))))]).

Definition outbound_quota_is_released_after_open_failure : Test :=
  pair_test limited with_channels
    (connected_pair ++ opens bad_proto (Err (OSE_UnsupportedProtocol bad_proto))
     ++ opens DATA_PROTO (Ok 33%Z) ++ accepts_stream 33)
    (connected_pair_seen
     ++ [(peer_a, OpenPolled (Some (Err (E_DataChannel DC_UnsupportedProtocol))));
         (peer_a, OpenPolled (Some (Ok (outbound 1 33))));
         (peer_b, Accepted {| channel := inbound 2 33 |})]).

(** ** [infrastructure.rs] *)

(** What identify tells about a node of the tests. *)
Definition identifies (p : @PeerId concrete_types) (addr : @Multiaddr concrete_types) : SwarmEvent :=
  Behaviour (CBE_IdentifyReceived p
    {| info_protocol_version := "/test/1.0.0"; info_agent_version := "test/1.0.0";
       info_listen_addrs := [addr]; info_protocols := [] |}).
Definition identified (p : @PeerId concrete_types) (addr : @Multiaddr concrete_types) : NodeEvent :=
  IdentifyReceived p "test/1.0.0" "/test/1.0.0" [addr] [].

(** [start_helper_and_client]: the helper also reports its LAN status. *)
Definition start_helper_and_client : list NetAct :=
  reports peer_s (NewListenAddr addr_s) ++ steps peer_s [DoReceive] ++ reports peer_a (NewListenAddr addr_a).

(** [retry_register_infrastructure_until_connected], with two rounds; meanwhile
    the connection is made and the two identify each other. *)
Definition register_infrastructure : list NetAct :=
  awaits peer_a 0 (CIsConnected peer_s)
  ++ awaits peer_a 1 (CAddInfrastructurePeer peer_s [addr_s] roles_kad_and_relay)
  ++ reports peer_a (ConnectionEstablished peer_s 1) ++ reports peer_s (ConnectionEstablished peer_a 1)
  ++ awaits peer_a 2 (CIsConnected peer_s)
  ++ reports peer_a (identifies peer_s addr_s) ++ reports peer_s (identifies peer_a addr_a).

Definition registered_seen : list (Z * Label) :=
  [(peer_s, Received (LanHelperStatusChanged true [])); (peer_s, Received (Listening addr_s));
   (peer_a, Received (Listening addr_a));
   (peer_a, Returned 0 (Ok (VBool false))); (peer_a, Returned 1 (Ok (VUnit tt)));
   (peer_a, Received (PeerConnected peer_s)); (peer_s, Received (PeerConnected peer_a));
   (peer_a, Returned 2 (Ok (VBool true)));
   (peer_a, Received (identified peer_s addr_s)); (peer_s, Received (identified peer_a addr_a))].

(** The client listens on a circuit of the helper, which is to ask for the
    reservation; the helper's relay grants it. *)
Definition dynamic_infrastructure_peer_requests_relay_reservation : Test :=
  mkTest (around_s helper (relay_user true))
    (start_helper_and_client ++ register_infrastructure
     ++ steps peer_s [DoRetain] ++ [GrantReservation peer_s peer_a] ++ steps peer_s [DoSent; DoReceive])
    (registered_seen ++ [(peer_s, Received (RelayServerReservationAccepted peer_a false))])
    [(peer_a, [loopback; addr_s ++ [PP2p peer_s; PP2pCircuit]]); (peer_s, [loopback])].

(** Without the relay client it does not, and nothing is reported for 300 ms. *)
Definition dynamic_infrastructure_peer_skips_reservation_when_relay_client_disabled : Test :=
  mkTest (around_s helper (relay_user false))
    (start_helper_and_client ++ register_infrastructure ++ steps peer_a [DoTime 300_000_000])
    registered_seen
    [(peer_a, [loopback]); (peer_s, [loopback])].

(** ** [kad.rs] *)

(** One step of a query. *)
Definition query_step (i id : Z) (res : QueryResult) (st : QueryStats) (last : bool) : list NetAct :=
  steps i [DoRetain; DoEvent (Behaviour (CBE_Kad (OutboundQueryProgressed id res st last)))].

(** A node joins: it listens, the connection to the bootstrap node is made, both
    identify each other. *)
Definition joins (i : Z) (addr : Addr) : list NetAct :=
  reports i (NewListenAddr addr)
  ++ reports i (ConnectionEstablished peer_s 1) ++ reports peer_s (ConnectionEstablished i 1)
  ++ reports i (identifies peer_s addr_s) ++ reports peer_s (identifies i addr).

Definition joined_seen (i : Z) (addr : Addr) : list (Z * Label) :=
  [(i, Received (Listening addr)); (i, Received (PeerConnected peer_s)); (peer_s, Received (PeerConnected i));
   (i, Received (identified peer_s addr_s)); (peer_s, Received (identified i addr))].

(** Stages 4 to 8 of the test; [st] are the statistics libp2p reports. *)
Definition kad_bootstraps (st : QueryStats) : list NetAct :=
  begins peer_a 0 CBootstrap ++ begins peer_b 0 CBootstrap
  ++ query_step peer_a 0 (QR_Bootstrap (Ok (peer_s, 0%Z))) st true
  ++ query_step peer_b 0 (QR_Bootstrap (Ok (peer_s, 0%Z))) st true
  ++ steps peer_a [DoPoll 0 0] ++ steps peer_b [DoPoll 0 0]
  ++ reports peer_a (ConnectionEstablished peer_b 1) ++ reports peer_b (ConnectionEstablished peer_a 1)
  ++ reports peer_a (identifies peer_b addr_b) ++ reports peer_b (identifies peer_a addr_a).

Definition kad_record (st : QueryStats) (key : RecordKey) (record : KadRecord) : list NetAct :=
  begins peer_a 1 (CPutRecord record)
  ++ query_step peer_a 1 (QR_PutRecord (Ok tt)) st true ++ steps peer_a [DoPoll 1 0]
  ++ begins peer_b 1 (CGetRecord key)
  ++ query_step peer_b 1 (QR_GetRecord (Ok (FoundRecord (Some peer_a) record))) st false
  ++ query_step peer_b 1 (QR_GetRecord (Ok GR_FinishedWithNoAdditionalRecord)) st true
  ++ steps peer_b [DoPoll 1 0].

Definition kad_provide (st : QueryStats) (key : RecordKey) : list NetAct :=
  begins peer_a 2 (CStartProvide key)
  ++ query_step peer_a 2 (QR_StartProviding (Ok tt)) st true ++ steps peer_a [DoPoll 2 0]
  ++ begins peer_b 2 (CGetProviders key)
  ++ query_step peer_b 2 (QR_GetProviders (Ok (FoundProviders {[ peer_a ]}))) st false
  ++ query_step peer_b 2 (QR_GetProviders (Ok (GP_FinishedWithNoAdditionalRecord [peer_s]))) st true
  ++ steps peer_b [DoPoll 2 0].

Definition kad_closest (st : QueryStats) (key : RecordKey) : list NetAct :=
  begins peer_a 3 (CGetClosestPeers key)
  ++ query_step peer_a 3 (QR_GetClosestPeers (Ok [peer_s; peer_b])) st true ++ steps peer_a [DoPoll 3 0].

Definition three_node_kad_flow (st : QueryStats) (key provide_key closest_key : RecordKey) (record : KadRecord) :
    Test :=
  mkTest (around_s boot_node kad_node)
    (reports peer_s (NewListenAddr addr_s) ++ joins peer_a addr_a ++ joins peer_b addr_b
     ++ kad_bootstraps st ++ kad_record st key record ++ kad_provide st provide_key ++ kad_closest st closest_key
     ++ awaits peer_a 4 (CStopProvide provide_key) ++ awaits peer_a 5 (CRemoveRecord key))
    ([(peer_s, Received (Listening addr_s))] ++ joined_seen peer_a addr_a ++ joined_seen peer_b addr_b
     ++ [(peer_a, Returned 0 (Ok (VBootstrap (mkBootstrapResult 0 (QueryStatsInfo_from st)))));
         (peer_b, Returned 0 (Ok (VBootstrap (mkBootstrapResult 0 (QueryStatsInfo_from st)))));
         (peer_a, Received (PeerConnected peer_b)); (peer_b, Received (PeerConnected peer_a));
         (peer_a, Received (identified peer_b addr_b)); (peer_b, Received (identified peer_a addr_a));
         (peer_a, Returned 1 (Ok (VStats (QueryStatsInfo_from st))));
         (peer_b, Returned 1 (Ok (VRecord (mkRecordResult record (QueryStatsInfo_from (qs_merge st st))))));
         (peer_a, Returned 2 (Ok (VStats (QueryStatsInfo_from st))));
         (peer_b, Returned 2 (Ok (VProviders (mkProvidersResult [peer_a] (QueryStatsInfo_from (qs_merge st st))))));
         (peer_a, Returned 3 (Ok (VClosest (mkClosestResult [peer_s; peer_b] (QueryStatsInfo_from st)))));
         (peer_a, Returned 4 (Ok (VUnit tt))); (peer_a, Returned 5 (Ok (VUnit tt)))])
    [(peer_a, [loopback]); (peer_b, [loopback]); (peer_s, [loopback])].

(** ** Lemmas *)

Lemma test_net_started config : (forall i, starts (config i) = true) -> net_started (test_net config).
Proof.
  intros Hs. split_and!; [done|done|]. intros i. simpl. specialize (Hs i). unfold starts in Hs.
  destruct (start _ _ _ _ _ (config i)) as [node|] eqn:Hst; [|done].
  exists (list Z), accept_once, (test_swarm (config i)), [], 0%Z, 0%Z, (config i), node.
  unfold test_node, test_swarm in *. rewrite Hst. repeat split; try done; by destruct (CoreBehaviour_new _ _ _).
Qed.

Lemma pair_started config_a config_b :
  starts config_a = true -> starts config_b = true -> net_started (test_net (pair_of config_a config_b)).
Proof. intros Ha Hb. apply test_net_started. intros i. unfold pair_of. by case_decide. Qed.
Lemma around_started config_s config :
  starts config_s = true -> starts config = true -> net_started (test_net (around_s config_s config)).
Proof. intros Ha Hb. apply test_net_started. intros i. unfold around_s. by case_decide. Qed.

Lemma observed_passes t :
  net_started (test_net (t_config t)) -> observed t = Some (t_seen t, (t_listen t).*2) -> passes t.
Proof.
  intros Hst Ho. split; [done|]. apply fmap_Some in Ho as (net & Hrun & Hs). exists net.
  injection Hs as Hseen Hl. by split; [eapply net_sim_sound|].
Qed.

Lemma plain_started : net_started (test_net (pair_of plain plain)).
Proof. apply pair_started; vm_cast_no_check (eq_refl true). Qed.
Lemma channels_started : net_started (test_net (pair_of with_channels with_channels)).
Proof. apply pair_started; vm_cast_no_check (eq_refl true). Qed.
Lemma limited_started : net_started (test_net (pair_of limited with_channels)).
Proof. apply pair_started; vm_cast_no_check (eq_refl true). Qed.
Lemma helper_started relay : net_started (test_net (around_s helper (relay_user relay))).
Proof. apply around_started; [|destruct relay]; vm_cast_no_check (eq_refl true). Qed.
Lemma kad_started : net_started (test_net (around_s boot_node kad_node)).
Proof. apply around_started; vm_cast_no_check (eq_refl true). Qed.

(** A run that is evaluated by the kernel alone. *)
Ltac evaluate :=
  match goal with |- _ = ?r => vm_cast_no_check (eq_refl r) end.

(** ** Properties *)

(** The scenarios of the integration tests are runs of the model: started with the
    tests' configurations, the nodes have a run in which the applications observe
    exactly what the test expects, in this order, for every request, response,
    record and key, and statistics; and at its end the nodes listen where the test
    needs them to: on a circuit of the relay exactly if the relay client is on.
    That libp2p always lets them run this way is not claimed.  What the tests say
    of all runs is proved elsewhere: that nodes with mDNS off do not connect by
    themselves, and that reservations are wanted, in [Contact]. *)
Lemma integration_scenarios (request response : string) (st : QueryStats)
    (key provide_key closest_key : RecordKey) (record : KadRecord) :
  Forall passes
    [dual_node_full_flow request response;
     send_response_returns_error_when_pending_id_is_missing response;
     send_request_per_call_timeout_returns_typed_error request;
     dual_node_data_channel_roundtrip;
     open_unsupported_protocol_fails_with_typed_error;
     outbound_limit_rejects_second_active_channel_and_releases_after_drop;
     outbound_quota_is_released_after_open_failure;
     dynamic_infrastructure_peer_requests_relay_reservation;
     dynamic_infrastructure_peer_skips_reservation_when_relay_client_disabled;
     three_node_kad_flow st key provide_key closest_key record].
Proof.
  repeat apply Forall_cons_2; try apply Forall_nil_2;
    (apply observed_passes;
     [first [exact plain_started|exact channels_started|exact limited_started
            |exact (helper_started _)|exact kad_started]|evaluate]).
Qed.
