(* ===== verification/Witnesses.v ===== *)
(** * Witnesses

    For each property with hypotheses, an instance on the concrete types and
    swarm of [Concrete] in which they all hold. *)
From S2P Require Import Prelude Externals Concrete Errors DataChannel PendingMap Config Handle Handler.
From S2P Require Import BasicCommands KadCommands KadQueries ReqRespCommands Commands.
From S2P Require Import EventLoop EventChain CommandChain NodeEvents Discovery Addresses Dialing.
From S2P Require Import SwarmIds LoopFrame Trace OpenFuture UnitTests Client Node System Quota Channels Calls Ownership Isolation.
From S2P Require Import Answers Provenance Prompted Network Contact Deadlock Drain Fairness Returns Answered Bootstrap BootServer.
From S2P Require Import Simulator IntegrationTests.
From stdpp Require Import functions.

(** ** Concrete inputs *)

Definition w_peer : @PeerId concrete_types := 7%Z.
Definition w_query : @QueryId concrete_types := 5%Z.
Definition w_key : @RecordKey concrete_types := 1%Z.
Definition w_proto : @StreamProtocol concrete_types := 1%Z.
Definition w_stream : @Stream concrete_types := 3%Z.
Definition w_record_value : @KadRecord concrete_types := 1%Z.
Definition w_chan1 : @ResponseChannel concrete_types := 11%Z.
Definition w_chan2 : @ResponseChannel concrete_types := 12%Z.

Definition w_limits : DataChannelLimits := DataChannelLimits_default.

Definition w_el : EventLoop ToySwarm AnyCommand := EventLoop_new toy_swarm "/app/1" true Off.

Definition w_sh : Shared CmdValue :=
  mkShared ∅ [] ∅ 0 w_limits RegistryInner_default 0 (ch_new 64) (ch_new 16).

(** A [get_record] query with identifier 5, waiting on handle 0. *)
Definition w_task : CommandTask AnyCommand :=
  mkTask (AGetRecord (mkGetRecord w_key (Some w_query) None None)) 0.

Definition w_el1 : EventLoop ToySwarm AnyCommand := el_set_active [w_task] w_el.

Definition w_stats : QueryStats := {| st_requests := 3; st_successes := 2; st_failures := 1 |}.

Definition w_event : SwarmEvent :=
  progress w_query (QR_GetRecord (Ok GR_FinishedWithNoAdditionalRecord)) w_stats true.

Definition w_sh1 : Shared CmdValue :=
  sh_set_handles {[0 := ResultState_default]} [] w_sh.

Lemma w_limits_range : limits_in_range w_limits.
Proof. unfold limits_in_range, in_u64, u64_max, u64_modulus. simpl. lia. Defined.

(** ** Event loop *)

Lemma handle_swarm_event_refines_witness :
  exists active sh' remaining,
    chain_spec (el_swarm w_el1) w_event (el_active w_el1) active w_sh1 sh' remaining
    /\ handle_swarm_event w_el1 w_sh1 w_event
       = Some match remaining with
              | None => (el_set_active active w_el1, sh', None)
              | Some ev => convert_to_node_event (el_set_active active w_el1) sh' ev
              end.
Proof. exact (handle_swarm_event_refines w_el1 w_sh1 w_event). Defined.

Definition w_trace : list (EventLoop ToySwarm AnyCommand * Shared CmdValue * SwarmEvent) :=
  [(w_el1, w_sh1, ConnectionEstablished w_peer 1);
   (w_el, w_sh, ConnectionEstablished w_peer 2);
   (w_el1, w_sh1, ConnectionClosed w_peer 1)].

Lemma connection_view_witness :
  exists v, view_exec ∅ (omap (fun x => out_of x.1.1 x.1.2 x.2) w_trace) = Some v
    /\ forall p, p ∈ v <-> (0 < counter_get
         (<[w_peer := 1%Z]> (<[w_peer := 2%Z]> (<[w_peer := 1%Z]> ∅))) p)%Z.
Proof. apply (connection_view w_trace). reflexivity. Defined.

Lemma pending_ids_fresh_witness :
  let '(el', sh', ids) := inbound_requests w_el w_sh [w_chan1; w_chan2] in
  NoDup ids
  /\ forall i id ch, ids !! i = Some id -> [w_chan1; w_chan2] !! i = Some ch ->
       id = (el_pending_id_counter w_el + Z.of_nat i)%Z
       /\ (pm_take id (sh_pending sh')).2 = Some ch.
Proof.
  apply (pending_ids_fresh w_el w_sh).
  - simpl. lia.
  - simpl. unfold u64_max, u64_modulus. lia.
Defined.

(** ** Data channels *)

Lemma try_acquire_refines_witness :
  let '(inner', o) :=
    try_acquire w_limits RegistryInner_default w_peer w_proto Inbound in
  if decide (admits w_limits [] w_peer w_proto Inbound)
  then o = Some (mkGuard w_peer w_proto Inbound)
       /\ registry_ok w_limits inner' [mkGuard w_peer w_proto Inbound]
  else o = None /\ inner' = RegistryInner_default.
Proof.
  apply (try_acquire_refines w_limits RegistryInner_default []);
    [exact w_limits_range | exact (registry_ok_empty w_limits w_limits_range)].
Defined.

Lemma into_stream_defeats_limit_witness :
  rtc (stream_step w_limits) (RegistryInner_default, [], [])
    (RegistryInner_default, [], replicate 100 (w_peer, w_stream)).
Proof.
  apply (into_stream_defeats_limit w_limits w_peer w_proto w_stream 100);
    [exact w_limits_range | reflexivity | reflexivity].
Defined.

Lemma inbound_channel_handover_witness :
  let sh' := handle_inbound_channel w_sh w_proto w_peer w_stream in
  let g := mkGuard w_peer w_proto Inbound in
  if decide (admits (sh_limits w_sh) [] w_peer w_proto Inbound) then
    sh_next_dc_id sh' = wrap64 (0 + 1)
    /\ if ch_rx_alive (sh_inbound w_sh)
           && (length (ch_contents (sh_inbound w_sh)) <? ch_capacity (sh_inbound w_sh))
       then ch_contents (sh_inbound sh')
            = ch_contents (sh_inbound w_sh)
              ++ [{| channel := mkDataChannel 0 w_peer w_proto Inbound
                                  w_stream (Some g) |}]
            /\ registry_ok (sh_limits w_sh) (sh_registry sh') [g]
       else sh_inbound sh' = sh_inbound w_sh /\ sh_registry sh' = sh_registry w_sh
  else sh' = w_sh.
Proof.
  apply (inbound_channel_handover w_sh []);
    [exact w_limits_range | exact (registry_ok_empty w_limits w_limits_range)].
Defined.

Lemma open_terminates_witness :
  Forall (fun x => x.1 < 0 + 30)%Z
    [(0%Z, None); (10%Z, (None : option (Result Stream OpenStreamError)))].
Proof.
  eapply (open_terminates w_limits RegistryInner_default 0 0 w_peer w_proto 30).
  reflexivity.
Defined.

(** ** Discovery and addresses *)

Definition w_addr : @Multiaddr concrete_types := [PIp4 (mkIpv4 192 168 1 10); POther 4001%Z].

Definition w_log : Logged ToySwarm := mkLogged toy_swarm [].

Lemma mdns_registers_then_dials_witness :
  let el : EventLoop (Logged ToySwarm) AnyCommand := EventLoop_new w_log "/app/1" true Off in
  exists s dials,
    convert_to_node_event el w_sh (Behaviour (CBE_MdnsDiscovered [(w_peer, w_addr); (w_peer, [])]))
    = (el_set_swarm s el, w_sh, Some (PeersDiscovered [(w_peer, w_addr); (w_peer, [])]))
    /\ lg_calls s = lg_calls (el_swarm el)
         ++ ((fun x => CallAddPeerAddress x.1 x.2) <$> [(w_peer, w_addr); (w_peer, [])])
         ++ (CallDial <$> dials)
    /\ NoDup dials
    /\ forall p, p ∈ dials <->
         p ∈ [(w_peer, w_addr); (w_peer, [])].*1 /\ sw_is_connected (el_swarm el) p = false.
Proof.
  intros el. exact (mdns_registers_then_dials el w_sh [(w_peer, w_addr); (w_peer, [])]).
Defined.

Lemma add_infrastructure_peer_outcome_witness :
  let el : EventLoop (Logged ToySwarm) AddInfrastructurePeerCommand :=
    EventLoop_new w_log "/app/1" true Off in
  let sh : Shared unit :=
    mkShared ∅ [] ∅ 0 w_limits RegistryInner_default 0 (ch_new 64) (ch_new 16) in
  let roles := {| role_kad_server := true; role_relay_server := true |} in
  exists el',
    handle_command el sh (mkTask (AddInfrastructurePeerCommand_new w_peer [w_addr] roles) 0)
    = Some (el', finish_handle 0 sh (Ok tt))
    /\ lg_calls (el_swarm el')
       = [CallAddPeerAddress w_peer w_addr; CallKadAddAddress w_peer w_addr; CallDial w_peer]
    /\ el_bootstrap_peers el' = {[w_peer := [w_addr]]}.
Proof.
  intros el sh roles. exact (add_infrastructure_peer_outcome el sh w_peer [w_addr] roles 0).
Defined.

Lemma usable_lan_addr_ranges_witness :
  (is_usable_lan_addr w_addr = true <-> Exists lan_component (ma_iter w_addr))
  /\ (is_usable_lan_addr w_addr = true -> is_usable_lan_addr (ma_with w_addr PP2pCircuit) = true).
Proof.
  apply (usable_lan_addr_ranges w_addr PP2pCircuit).
  constructor; [vm_compute; repeat split; done|]. constructor; [done|constructor].
Defined.

(** ** Queries *)

(** The steps of a query arriving among foreign events. *)
Definition w_foreign : SwarmEvent := ConnectionEstablished w_peer 1.

Definition w_q0 : @QueryId concrete_types := 0%Z.

Definition w_providers : GetProvidersOk := FoundProviders {[w_peer]}.

Definition w_record : Result GetRecordOk (@KadError concrete_types) :=
  Err ("timeout" : @KadError concrete_types).

(** ** Handles, clients and the pending map *)

Definition w_queue : Chan (CommandTask AnyCommand) := ch_new 32.

Definition w_queue1 : Chan (CommandTask AnyCommand) := mkQueue [w_task] 32 true.

Definition w_full_queue : Chan (CommandTask AnyCommand) := mkQueue [w_task] 1 true.

(** A future whose command has been queued and answered while it was idle. *)
Lemma no_lost_wakeup_witness :
  exists w, fw_scheduled w = true
    /\ exists w', rtc (future_step (C := AnyCommand) 9) w w' /\ fw_phase w' = Done (Ok true).
Proof.
  set (t := mkTask (AGetListenAddrs mkGetListenAddrs) 0).
  exists (mkFW (mkFuture None 0) Idle (mkResultState (Some (Ok true)) None false)
            w_queue [t] true).
  apply (no_lost_wakeup 9 (AGetListenAddrs mkGetListenAddrs) 0 w_queue); [|reflexivity..].
  eapply rtc_l; [apply fs_poll_send; reflexivity|].
  eapply rtc_l; [apply fs_poll_pending; reflexivity|].
  eapply rtc_l; [apply fs_recv; reflexivity|].
  eapply rtc_l; [apply (fs_finish _ _ _ _ _ _ _ t (Ok true));
                 [by apply list_elem_of_singleton|reflexivity|reflexivity]|].
  reflexivity.
Defined.

Lemma retention_bound_witness :
  (0 <= 9 - 0 <= 60 + 10)%Z.
Proof.
  apply (retention_bound 60 10 0 [OpInsert 1 10; OpAdvance 9]
           (mkPM (<[1 := mkEntry 10 0%Z]> ∅) 9 0) 1 (mkEntry 10 0%Z)).
  - done.
  - done.
  - vm_compute. reflexivity.
  - apply lookup_insert_eq.
Defined.

Lemma response_lost_when_queue_full_witness :
  exists pending' fut,
    nc_send_response 0 {[4%Z := mkEntry w_chan1 0%Z]} 4 "hello" = (pending', Ok fut)
    /\ (CommandFuture_poll (T := CmdValue) fut w_full_queue ResultState_default 9).2
       = Some (Err (E_Behaviour "command channel closed"))
    /\ (CommandFuture_poll (T := CmdValue) fut w_full_queue ResultState_default 9).1.1.2 = w_full_queue
    /\ forall loc' response',
         nc_send_response loc' pending' 4 response' = (pending', Err (no_pending_channel 4)).
Proof.
  apply (response_lost_when_queue_full {[4%Z := mkEntry w_chan1 0%Z]} 4 (mkEntry w_chan1 0%Z)
           ("hello" : @Resp concrete_types) 0 9 w_full_queue).
  - apply lookup_singleton_eq.
  - right. simpl. lia.
Defined.

(** ** The node *)

Definition w_world (q : Chan (CommandTask AnyCommand)) (n : nat) : NodeWorld ToySwarm AnyCommand CmdValue :=
  mkNW Selecting w_el w_sh q n [] [].

(** The swarm after the connection, and the loop with it. *)
Definition w_swarm_conn : ToySwarm := ts_with_connected [w_peer] toy_swarm.
Definition w_el_conn : EventLoop ToySwarm AnyCommand := el_set_swarm w_swarm_conn w_el.

(** After a first connection the event is on its way to the application. *)
Definition w_world_sending : NodeWorld ToySwarm AnyCommand CmdValue :=
  mkNW (Sending (PeerConnected w_peer)) w_el_conn w_sh w_queue 1 [] [PeerConnected w_peer].

Lemma events_delivered_in_order_witness :
  reliable (nw_received w_world_sending ++ ch_contents (sh_events (nw_shared w_world_sending))
            ++ in_flight (nw_phase w_world_sending))
  = nw_converted w_world_sending.
Proof.
  apply (events_delivered_in_order w_el w_sh w_queue 1); [reflexivity| |reflexivity].
  eapply rtc_l; [apply ns_loop; apply ls_retain|]. apply rtc_once. apply ns_loop.
  exact (ls_event w_el w_sh w_queue 1 [] [] w_foreign w_swarm_conn w_el_conn w_sh
           (Some (PeerConnected w_peer)) eq_refl eq_refl).
Defined.

Lemma cancelled_is_forgotten_witness :
  let sh := sh_set_handles {[0 := mkResultState None None true]} [] w_sh in
  let st := mkResultState (T := CmdValue) None None true in
  (forall t, t ∈ el_active (retain_active w_el1 sh)
             <-> t ∈ el_active w_el1 /\ task_is_cancelled sh t = false)
  /\ 0 ∉ task_handle <$> el_active (retain_active w_el1 sh)
  /\ exists el' sh' o, handle_swarm_event (retain_active w_el1 sh) sh w_event = Some (el', sh', o)
       /\ 0 ∉ task_handle <$> el_active el' /\ sh_handles sh' !! 0 = Some st.
Proof.
  intros sh st. apply (cancelled_is_forgotten w_el1 sh w_event 0 st).
  - apply lookup_singleton_eq.
  - reflexivity.
Defined.

Definition w_accept (ctl : list Z) (p : @StreamProtocol concrete_types) : list Z * bool :=
  (p :: ctl, bool_decide (p ∉ ctl)).

Definition w_config : NodeConfig :=
  with_bootstrap_peers (NodeConfig_default "0.1.0" w_addr w_addr) [(w_peer, w_addr)].

Lemma start_wires_config_witness :
  exists node, start (C := AnyCommand) (V := CmdValue) w_accept w_log [] 0 0 w_config = Ok node
  /\ lg_calls (el_swarm (node_loop node))
     = [CallListenOn w_addr; CallListenOn w_addr; CallKadAddAddress w_peer w_addr;
        CallAddPeerAddress w_peer w_addr; CallDial w_peer]
  /\ dom (el_bootstrap_peers (node_loop node)) = {[w_peer]}.
Proof.
  pose proof (start_wires_config (C := AnyCommand) (V := CmdValue) w_accept w_log [] 0 0 w_config) as Hs.
  destruct (start w_accept w_log [] 0 0 w_config) as [node|e] eqn:He; [|discriminate He].
  exists node. destruct Hs as (Hc & _ & _ & _ & _ & _ & _ & _ & _ & Hd).
  split; [reflexivity|]. split; [exact Hc|]. rewrite Hd. vm_compute. reflexivity.
Defined.

(** ** The node with its clients *)

Definition w_node : Node ToySwarm AnyCommand CmdValue :=
  match start w_accept toy_swarm [] 0 0 w_config with
  | Ok node => node
  | Err _ => mkNode w_el w_sh w_queue [] 0 0 0
  end.

Lemma w_start : start w_accept toy_swarm [] 0 0 w_config = Ok w_node.
Proof. vm_cast_no_check (eq_refl (Ok w_node : CResult (Node ToySwarm AnyCommand CmdValue))). Qed.

(** A step of the system, by its constructor. *)
Ltac take_step c := eapply rtc_l; [eexists; eapply c|].

(** A client makes a call on a started node, sends it, and the loop runs it. *)
Section call_run.
Context {Sw : Type} `{!SwarmOps Sw, !SwarmPoll Sw} (node : Node Sw AnyCommand CmdValue).

Definition w_client : NetClient :=
  NetClient_new (mkPendingMap 0 (node_pending_ttl node)) (node_open_timeout node).
Definition w_called : Shared CmdValue := sh_set_handle 0 ResultState_default (node_shared node).

Definition w_after_run (lc : LiveCall) : System Sw :=
  match handle_command (retain_active (node_loop node) w_called) w_called (mkTask (lc_command lc) 0) with
  | Some (el, sh) =>
      mkSystem (mkNW Iterating el sh (node_commands node) 2 [] []) [w_client]
        (<[0 := lc_set_future (mkFuture None 0) lc]> (<[0 := lc]> ∅)) [] []
  | None => system_of node
  end.

Lemma w_call_run (call : ClientCall) lc q :
  sh_handles (node_shared node) !! 0 = None ->
  live_of (call_future 0 (sh_now (node_shared node)) call) = Some lc ->
  CommandFuture_send (T := CmdValue) (lc_future lc) (node_commands node) = (mkFuture None 0, q, None) ->
  ch_recv q = Some (mkTask (lc_command lc) 0, node_commands node) ->
  is_Some (cf_handler (lc_future lc)) ->
  sys_run (system_of node) (w_after_run lc).
Proof.
  intros Hno Hl Hs Hr Hh. unfold w_after_run.
  destruct (handle_command _ _ _) as [[el sh]|] eqn:Hc; [|done]. unfold system_of.
  take_step sy_call; [by left|exact Hno|exact Hl|].
  take_step sy_send; [apply lookup_insert_eq|exact Hh|exact Hs|].
  take_step sy_loop; [apply ls_retain|]. take_step sy_loop; [by eapply ls_command|]. done.
Qed.

(** The loop handles an event that it does not report. *)
Definition w_after_event (s : System Sw) (ev : SwarmEvent) (sw : Sw) : System Sw :=
  let '(mkSystem (mkNW _ el sh q n rcv cv) cl ca op ch) := s in
  match handle_swarm_event (el_set_swarm sw (retain_active el sh)) sh ev with
  | Some (el, sh, None) => mkSystem (mkNW Iterating el sh q n rcv (cv ++ [])) cl ca op ch
  | _ => s
  end.

Lemma w_event_run (s : System Sw) ev sw :
  nw_phase (sy_node s) = Iterating -> sw_poll (el_swarm (nw_loop (sy_node s))) (Some ev) sw ->
  sys_run s (w_after_event s ev sw).
Proof.
  destruct s as [[ph el sh q n rcv cv] cl ca op ch]. simpl. intros -> Hp.
  destruct (handle_swarm_event _ _ _) as [[[el' sh'] [o|]]|] eqn:He; [done| |done].
  take_step sy_loop; [apply ls_retain|]. take_step sy_loop; [by eapply (ls_event _ _ _ _ _ _ ev)|]. done.
Qed.

End call_run.

Definition w_addrs_live : LiveCall :=
  mkLive (AGetListenAddrs mkGetListenAddrs) (mkRequestCall (nc_get_addrs 0) None).
Definition w_record_live : LiveCall :=
  mkLive (AGetRecord (GetRecordCommand_new w_key)) (mkRequestCall (nc_get_record 0 w_key) None).

Lemma w_addrs_run : sys_run (system_of w_node) (w_after_run w_node w_addrs_live).
Proof.
  apply (w_call_run w_node CGetAddrs w_addrs_live (mkQueue [mkTask (AGetListenAddrs mkGetListenAddrs) 0] 32 true));
    first [reflexivity|by eexists].
Qed.

Lemma w_record_run : sys_run (system_of w_node) (w_after_run w_node w_record_live).
Proof.
  apply (w_call_run w_node (CGetRecord w_key) w_record_live
    (mkQueue [mkTask (AGetRecord (GetRecordCommand_new w_key)) 0] 32 true));
    first [reflexivity|by eexists].
Qed.

Definition w_inbound_state : System ToySwarm :=
  mkSystem (mkNW Iterating (retain_active (node_loop w_node) (node_shared w_node))
    (handle_inbound_channel (node_shared w_node) w_proto w_peer w_stream) (node_commands w_node) 1 [] [])
    [w_client w_node] ∅ [] [].

Lemma w_inbound_run : sys_run (system_of w_node) w_inbound_state.
Proof.
  unfold system_of. take_step sy_loop; [apply ls_retain|].
  take_step sy_loop; [by apply (ls_inbound _ _ _ _ _ _ w_proto w_peer w_stream)|]. done.
Qed.

Lemma quota_in_every_state_witness :
  held_guards w_inbound_state = [mkGuard w_peer w_proto Inbound]
  /\ registry_ok (data_channel_limits w_config) (sh_registry (nw_shared (sy_node w_inbound_state)))
       (held_guards w_inbound_state).
Proof.
  split; [vm_compute; reflexivity|].
  apply (quota_in_every_state w_accept toy_swarm [] 0 0 w_config w_node w_inbound_state).
  - unfold limits_in_range, in_u64, u64_max, u64_modulus. simpl. lia.
  - exact w_start.
  - exact w_inbound_run.
Defined.

Lemma system_refines_node_witness :
  rtc node_step (sy_node (system_of w_node)) (sy_node (w_after_run w_node w_addrs_live))
  /\ nw_senders (sy_node (w_after_run w_node w_addrs_live)) = 2.
Proof.
  destruct (system_refines_node w_accept toy_swarm [] 0 0 w_config w_node (w_after_run w_node w_addrs_live))
    as (Hr & Hn & _); [exact w_start|exact w_addrs_run|].
  split; [exact Hr|]. rewrite Hn. vm_compute. reflexivity.
Defined.

Lemma answers_reach_their_owner_witness :
  let el := nw_loop (sy_node (w_after_run w_node w_record_live)) in
  let sh := nw_shared (sy_node (w_after_run w_node w_record_live)) in
  let ev := progress w_q0 (QR_GetRecord (Ok (FoundRecord None w_record_value))) w_stats true in
  let t := mkTask (AGetRecord (mkGetRecord w_key (Some w_q0) None None)) 0 in
  exists active, handle_swarm_event el sh ev
    = Some (el_set_active active el, deliver (el_swarm el) ev sh t, None).
Proof.
  intros el sh ev t.
  destruct (answers_reach_their_owner w_accept toy_swarm [] 0 0 w_config w_node (w_after_run w_node w_record_live)
    ev (KQuery w_q0) (el_swarm el)) as (active & sh' & He & _ & Ho & _).
  - exact w_start.
  - exact w_record_run.
  - reflexivity.
  - reflexivity.
  - exists active. etrans; [exact He|]. rewrite (Ho t); [reflexivity|by left|reflexivity].
Defined.

Definition w_dial_live : LiveCall :=
  mkLive (ADial {| dial_peer_id := w_peer |}) (mkRequestCall (nc_dial 0 w_peer) None).

Lemma w_dial_run : sys_run (system_of w_node) (w_after_run w_node w_dial_live).
Proof.
  apply (w_call_run w_node (CDial w_peer) w_dial_live
    (mkQueue [mkTask (ADial {| dial_peer_id := w_peer |}) 0] 32 true));
    first [reflexivity|by eexists].
Qed.

Lemma connection_events_resolve_calls_witness :
  let w := sy_node (w_after_run w_node w_dial_live) in
  let el := el_set_swarm (el_swarm (nw_loop w)) (nw_loop w) in
  let ev := ConnectionEstablished w_peer 1 in
  exists active sh1,
    handle_swarm_event el (nw_shared w) ev
      = Some (convert_to_node_event (el_set_active active el) sh1 ev)
    /\ rs_result <$> sh_handles sh1 !! 0 = Some (Some (Ok (VUnit tt))).
Proof.
  intros w el ev.
  destruct (connection_events_resolve_calls w_accept toy_swarm [] 0 0 w_config w_node
    (w_after_run w_node w_dial_live) ev (el_swarm (nw_loop w)) w_start w_dial_run eq_refl)
    as (active & sh1 & He & Ha).
  exists active, sh1. split; [exact He|].
  apply (Ha (mkTask (ADial {| dial_peer_id := w_peer |}) 0)).
  - by left.
  - right. left. by eexists.
  - by eexists.
Defined.

(** A request to the peer, answered by it, on a traced swarm. *)
Definition w_tswarm : Traced ToySwarm := mkTraced toy_swarm [].

Definition w_tnode : Node (Traced ToySwarm) AnyCommand CmdValue :=
  match start w_accept w_tswarm [] 0 0 w_config with
  | Ok node => node
  | Err _ => mkNode (EventLoop_new w_tswarm "/app/1" true Off) w_sh w_queue [] 0 0 0
  end.

Lemma w_tstart : start w_accept w_tswarm [] 0 0 w_config = Ok w_tnode.
Proof. vm_cast_no_check (eq_refl (Ok w_tnode : CResult (Node (Traced ToySwarm) AnyCommand CmdValue))). Qed.

(** A call of a client on the started node: it is sent and run, and then the
    swarm yields these events. *)
Definition w_called_and (call : ClientCall) (evs : list SwarmEvent) : System (Traced ToySwarm) :=
  sim_all (system_of w_tnode)
    ([DoCall 0 call; DoSend 0; DoRetain; DoCommand] ++ (evs ≫= fun ev => [DoRetain; DoEvent ev])).

Lemma w_called_run call evs : sys_run (Sw := Traced ToySwarm) (system_of w_tnode) (w_called_and call evs).
Proof. apply sim_all_sound. Qed.

Definition w_live (call : ClientCall) : option LiveCall :=
  lc_set_future (mkFuture None 0) <$> live_of (call_future 0 0 call).

Definition w_request : ClientCall := CSendRequest w_peer "hello" RequestOptions_new.
Definition w_response : SwarmEvent := Behaviour (CBE_ReqResp (RR_Response w_peer 0%Z "welcome")).
Definition w_answered : System (Traced ToySwarm) := w_called_and w_request [w_response].
Definition w_sent_request : LiveCall :=
  mkLive (ASendRequest (SendRequestCommand_new w_peer "hello")) (mkRequestCall (mkFuture None 0) None).

Lemma w_answered_call : sy_calls w_answered !! 0 = Some w_sent_request.
Proof. vm_compute. reflexivity. Qed.

Definition w_welcomed : Label := Returned 0 (Ok (VResp ("welcome" : Resp))).

Lemma w_answered_returns :
  exists s', sys_step (Sw := Traced ToySwarm) w_welcomed w_answered s'.
Proof.
  apply (sim_label (DoPoll 0 9)). vm_cast_no_check (eq_refl (Some w_welcomed)).
Qed.

Lemma calls_are_isolated_witness :
  exists c' alive fin unseen,
    life (el_swarm (nw_loop (sy_node w_answered))) (lc_command w_sent_request) c' alive fin unseen
    /\ Ok (VResp "welcome") ∈ fin.
Proof.
  destruct w_answered_returns as [s' Hs].
  destruct (calls_are_isolated w_accept w_tswarm [] 0 0 w_config w_tnode _ _ 0 _ _ w_tstart (w_called_run _ _)
    Hs w_answered_call)
    as [[He _]|[[He _]|Hlife]]; [discriminate He|discriminate He|exact Hlife].
Defined.

Lemma responses_match_requests_witness :
  exists rid,
    OAlloc (ISendRequest w_peer "hello") (KRequest rid) ∈ tr_log (el_swarm (nw_loop (sy_node w_answered)))
    /\ Behaviour (CBE_ReqResp (RR_Response w_peer rid "welcome")) ∈ tr_events (el_swarm (nw_loop (sy_node w_answered))).
Proof.
  destruct w_answered_returns as [s' Hs].
  destruct (responses_match_requests w_accept w_tswarm [] 0 0 w_config w_tnode _ _ 0 _ _ w_peer "hello"
    w_tstart (w_called_run _ _) Hs w_answered_call eq_refl) as [He|[[He _]|(rid & Hsend & [(resp & Hev & He)|(e & _ & He)])]].
  - discriminate He.
  - discriminate He.
  - injection He as <-. by exists rid.
  - discriminate He.
Defined.

(** Queries of the client: an event of another query comes in between. *)
Definition w_other : SwarmEvent := progress w_query (QR_GetRecord (Ok GR_FinishedWithNoAdditionalRecord)) w_stats true.

Definition w_sent (cmd : AnyCommand) : LiveCall := mkLive cmd (mkRequestCall (mkFuture None 0) None).

Definition w_record_asked : System (Traced ToySwarm) :=
  w_called_and (CGetRecord w_key)
    [w_other; progress w_q0 (QR_GetRecord w_record) w_stats false;
     progress w_q0 (QR_GetRecord (Ok (FoundRecord None w_record_value))) w_stats true].

Definition w_found : CResult CmdValue :=
  result_map VRecord (get_record_answer [w_record] (Ok (FoundRecord None w_record_value))
                        (total_stats [w_stats] w_stats)).

Lemma get_record_call_outcome_witness :
  exists q steps res st extra,
    progress_since sel_record (IGetRecord w_key) (el_swarm (nw_loop (sy_node w_record_asked))) q
      ((ongoing <$> steps) ++ (res, st, true) :: extra)
    /\ w_found = result_map VRecord (get_record_answer steps.*1 res (total_stats steps.*2 st)).
Proof.
  destruct (sim_label (DoPoll 0 9) w_record_asked (Returned 0 w_found)) as [s' Hs];
    [vm_cast_no_check (eq_refl (Some (Returned 0 w_found)))|].
  destruct (get_record_call_outcome w_accept w_tswarm [] 0 0 w_config w_tnode _ _ 0 _
    (w_sent (AGetRecord (GetRecordCommand_new w_key))) w_key w_tstart (w_called_run _ _) Hs)
    as [[He|[He _]]|Hout]; [vm_compute; reflexivity|reflexivity|discriminate He|discriminate He|exact Hout].
Defined.

Definition w_providers_asked : System (Traced ToySwarm) :=
  w_called_and (CGetProviders w_key)
    [progress w_q0 (QR_GetProviders (Ok w_providers)) w_stats false; w_other;
     progress w_q0 (QR_GetProviders (Ok (GP_FinishedWithNoAdditionalRecord []))) w_stats true].

Definition w_provided : CResult CmdValue :=
  Ok (VProviders (mkProvidersResult [w_peer] (QueryStatsInfo_from (total_stats [w_stats] w_stats)))).

Lemma get_providers_call_outcome_witness :
  exists q steps res st is_last extra,
    progress_since sel_providers (IGetProviders w_key) (el_swarm (nw_loop (sy_node w_providers_asked))) q
      ((going <$> steps) ++ (res, st, is_last) :: extra)
    /\ w_provided
       = match res with
         | Ok ok => Ok (VProviders (mkProvidersResult ((steps.*1 ++ [ok]) ≫= providers_found)
                                      (QueryStatsInfo_from (total_stats steps.*2 st))))
         | Err e => Err (kad_err "GetProviders" e)
         end
    /\ (is_ok res = true -> is_last = true).
Proof.
  destruct (sim_label (DoPoll 0 9) w_providers_asked (Returned 0 w_provided)) as [s' Hs];
    [vm_cast_no_check (eq_refl (Some (Returned 0 w_provided)))|].
  destruct (get_providers_call_outcome w_accept w_tswarm [] 0 0 w_config w_tnode _ _ 0 _
    (w_sent (AGetProviders (GetProvidersCommand_new w_key))) w_key w_tstart (w_called_run _ _) Hs)
    as [[He|[He _]]|Hout]; [vm_compute; reflexivity|reflexivity|discriminate He|discriminate He|exact Hout].
Defined.

(** A record is stored, and the query reports that it was. *)
Definition w_record_put : System (Traced ToySwarm) :=
  w_called_and (CPutRecord w_record_value)
    [w_other; progress w_q0 (QR_PutRecord (Ok tt)) w_stats false;
     progress w_q0 (QR_PutRecord (Ok tt)) w_stats true].

Definition w_stored : CResult CmdValue := Ok (VStats (QueryStatsInfo_from (total_stats [w_stats] w_stats))).

Lemma other_query_calls_outcome_witness :
  exists q steps res st extra,
    progress_since sel_put (IPutRecord w_record_value) (el_swarm (nw_loop (sy_node w_record_put))) q
      ((ongoing <$> steps) ++ (res, st, true) :: extra)
    /\ w_stored = match res with
                  | Ok _ => Ok (VStats (QueryStatsInfo_from (total_stats steps.*2 st)))
                  | Err e => Err (kad_err "PutRecord" e)
                  end.
Proof.
  destruct (sim_label (DoPoll 0 9) w_record_put (Returned 0 w_stored)) as [s' Hs];
    [vm_cast_no_check (eq_refl (Some (Returned 0 w_stored)))|].
  destruct (other_query_calls_outcome w_accept w_tswarm [] 0 0 w_config w_tnode _ _ 0 _
    (w_sent (APutRecord (PutRecordCommand_new w_record_value))) w_tstart (w_called_run _ _) Hs)
    as (_ & _ & Hput & _); [vm_compute; reflexivity|].
  destruct (Hput w_record_value eq_refl) as [[He|[He _]]|[[e He]|Hout]];
    [discriminate He|discriminate He|discriminate He|exact Hout].
Defined.

(** ** The network *)

(** The two nodes of the integration test, up to the point where [peer_a]'s call
    is about to return. *)
Definition w_net : Net ToySwarm :=
  net_after (test_net (pair_of plain plain)) (removelast (t_script (dual_node_full_flow "hello" "world"))).

Definition w_net_call : LiveCall :=
  mkLive (ASendRequest (SendRequestCommand_new peer_b "hello")) (mkRequestCall (mkFuture None 5) None).

Definition w_net_returned : Label := Returned 5 (Ok (VResp ("world" : Resp))).

Lemma responses_are_end_to_end_witness :
  exists id, InboundRequest peer_a id "hello" ∈ nw_converted (sy_node (net_nodes w_net peer_b))
    /\ (peer_b, Responding id "world") ∈ net_history w_net.
Proof.
  destruct (sim_label (DoPoll 5 0) (net_nodes w_net peer_a) w_net_returned) as [s' Hs];
    [vm_cast_no_check (eq_refl (Some w_net_returned))|].
  refine (responses_are_end_to_end (test_net (pair_of plain plain)) w_net peer_a peer_b s' 5 w_net_call "hello" "world"
    plain_started (net_after_run _ _) Hs _ eq_refl).
  vm_cast_no_check (eq_refl (Some w_net_call)).
Defined.

Lemma inbound_requests_are_authentic_witness :
  exists loc options, (peer_a, Called loc (CSendRequest peer_b "hello" options)) ∈ net_history w_net.
Proof.
  apply (inbound_requests_are_authentic (test_net (pair_of plain plain)) w_net peer_a peer_b 0 "hello"
    plain_started (net_after_run _ _)).
  rewrite list_elem_of_In. assert (forall l : list NodeEvent,
    l = [Listening addr_b; PeerConnected peer_a; InboundRequest peer_a 0%Z "hello"] ->
    In (InboundRequest peer_a 0%Z "hello") l) as Hin by (intros l ->; simpl; auto).
  apply Hin. vm_compute. reflexivity.
Defined.

(** ** Channels *)

(** The application opens a channel and accepts one. *)
Definition w_channels : list Act :=
  [DoOpen w_peer w_proto; DoPollOpen None; DoPollOpen (Some (Ok 33%Z));
   DoRetain; DoInbound w_proto w_peer 34%Z; DoAccept].
Definition w_channel_labels : list Label := sim_labels (system_of w_tnode) w_channels.

Lemma channels_given_are_asked_for_witness :
  (dc_direction <$> given w_channel_labels) = [Outbound; Inbound]
  /\ omap outbound_target (given w_channel_labels) ⊆+ open_calls w_channel_labels
  /\ NoDup (DataChannel_id <$> given w_channel_labels).
Proof.
  destruct (channels_given_are_asked_for w_accept w_tswarm [] 0 0 w_config w_tnode w_channel_labels
    (sim_all (system_of w_tnode) w_channels)) as (_ & Hsub & Hnd).
  - discriminate.
  - exact w_tstart.
  - exact (sim_history _ [] w_channels _ (history_nil _)).
  - split; [vm_compute; reflexivity|]. split; [exact Hsub|]. apply Hnd. vm_compute. reflexivity.
Defined.

(** ** What makes a node act *)

Definition w_lswarm : Traced (Logged ToySwarm) := mkTraced (mkLogged toy_swarm []) [].

Definition w_lnode : Node (Traced (Logged ToySwarm)) AnyCommand CmdValue :=
  match start w_accept w_lswarm [] 0 0 w_config with
  | Ok node => node
  | Err _ => mkNode (EventLoop_new w_lswarm "/app/1" true Off) w_sh w_queue [] 0 0 0
  end.

Lemma w_lstart : start w_accept w_lswarm [] 0 0 w_config = Ok w_lnode.
Proof.
  vm_cast_no_check (eq_refl (Ok w_lnode : CResult (Node (Traced (Logged ToySwarm)) AnyCommand CmdValue))).
Qed.

Definition w_lworld (ph : LoopPhase) (el : EventLoop (Traced (Logged ToySwarm)) AnyCommand) sh (cv : list NodeEvent) :
    System (Traced (Logged ToySwarm)) :=
  mkSystem (mkNW ph el sh (node_commands w_lnode) 1 [] cv) (sy_clients (system_of w_lnode)) ∅ [] [].

(** The swarm discovers a peer. *)
Definition w_met_event : SwarmEvent := Behaviour (CBE_MdnsDiscovered [(w_peer, w_addr)]).
Definition w_before : EventLoop (Traced (Logged ToySwarm)) AnyCommand :=
  retain_active (node_loop w_lnode) (node_shared w_lnode).
Definition w_yielded : Traced (Logged ToySwarm) :=
  mkTraced (tr_swarm (el_swarm w_before)) (tr_log (el_swarm w_before) ++ [OYield w_met_event]).
Definition w_after : EventLoop (Traced (Logged ToySwarm)) AnyCommand :=
  on_mdns_discovered (el_set_swarm w_yielded w_before) [(w_peer, w_addr)].
Definition w_met : System (Traced (Logged ToySwarm)) :=
  w_lworld (Sending (PeersDiscovered [(w_peer, w_addr)])) w_after (node_shared w_lnode)
    [PeersDiscovered [(w_peer, w_addr)]].

Lemma w_met_history : history (system_of w_lnode) [Tau; Tau] w_met.
Proof.
  apply (history_snoc _ [Tau] Tau (w_lworld Selecting w_before (node_shared w_lnode) [])).
  - apply (history_snoc _ [] Tau (system_of w_lnode)); [constructor|]. apply sy_loop, ls_retain.
  - apply sy_loop. refine (ls_event w_before _ _ _ _ [] w_met_event w_yielded _ _
      (Some (PeersDiscovered [(w_peer, w_addr)])) _ _); [by split; [split|]|].
    vm_cast_no_check (eq_refl (Some (w_after, node_shared w_lnode, Some (PeersDiscovered [(w_peer, w_addr)])))).
Qed.

Lemma node_acts_on_request_witness :
  configured w_config (CallDial w_peer)
  \/ (exists loc call, Called loc call ∈ [Tau; Tau] /\ asks w_config call (CallDial w_peer))
  \/ (exists ch response id p request, CallDial w_peer = CallSendResponse ch response
        /\ Responding id response ∈ [Tau; Tau]
        /\ Behaviour (CBE_ReqResp (RR_Request p request ch)) ∈ tr_events (swarm_of w_met)
        /\ InboundRequest p id request ∈ nw_converted (sy_node w_met))
  \/ (exists ev, ev ∈ tr_events (swarm_of w_met) /\ prompts w_config ev (CallDial w_peer)).
Proof.
  assert (sw_relay_client_is_enabled w_lswarm = enable_relay_client w_config) as Hen by reflexivity.
  apply (node_acts_on_request w_accept w_lswarm [] 0 0 w_config w_lnode [Tau; Tau] w_met (CallDial w_peer)
    eq_refl eq_refl Hen w_lstart w_met_history).
  assert (forall l : list SwarmCall, existsb (fun c => match c with CallDial p => (p =? 7)%Z | _ => false end) l = true ->
    CallDial w_peer ∈ l) as Hin.
  { intros l (c & Hc & He)%existsb_exists. destruct c; try discriminate He. apply Z.eqb_eq in He as ->.
    by apply list_elem_of_In. }
  apply Hin. vm_compute. reflexivity.
Defined.

(** ** Contact *)

(** Every node has a bootstrap peer and listens on a circuit of it. *)
Definition w_circuit : @Multiaddr concrete_types := [PP2p w_peer; PP2pCircuit].
Definition w_cconfig : NodeConfig := with_listen_addrs w_config [w_circuit].
Definition w_cnode : Node (Traced (Logged ToySwarm)) AnyCommand CmdValue :=
  match start w_accept w_lswarm [] 0 0 w_cconfig with Ok node => node | Err _ => w_lnode end.
Definition w_parse (s : string) : option (@StreamProtocol concrete_types) := Some w_proto.
Definition w_mdns (i : @PeerId concrete_types) : bool := true.
Definition w_configs (i : @PeerId concrete_types) : NodeConfig := w_cconfig.

Definition w_apart : Net (Logged ToySwarm) := mkNet (fun _ => system_of w_cnode) [] [].

Lemma w_cstarted : started_as w_configs w_parse w_mdns w_apart.
Proof.
  split; [done|]. split; [done|]. intros i.
  destruct (behaviour_of w_configs w_parse w_mdns i) as [b|] eqn:Hb; [|by vm_compute in Hb].
  exists (list Z), w_accept, w_lswarm, [], 0%Z, 0%Z, w_cnode, b. split_and!.
  - done.
  - done.
  - done.
  - unfold behaviour_of in Hb. simpl in Hb. by injection Hb as <-.
  - vm_cast_no_check (eq_refl (Ok w_cnode : CResult (Node (Traced (Logged ToySwarm)) AnyCommand CmdValue))).
  - done.
Qed.

(** The loop of one node takes an event that no command waits for. *)
Definition w_retained : EventLoop (Traced (Logged ToySwarm)) AnyCommand :=
  retain_active (node_loop w_cnode) (node_shared w_cnode).
Definition w_polled (ev : SwarmEvent) : Traced (Logged ToySwarm) :=
  mkTraced (mkLogged (toy_next (lg_swarm (tr_swarm (el_swarm w_retained))) (Some ev))
              (lg_calls (tr_swarm (el_swarm w_retained)))) (tr_log (el_swarm w_retained) ++ [OYield ev]).
Definition w_took (ev : SwarmEvent) (evt : NodeEvent) : System (Traced (Logged ToySwarm)) :=
  mkSystem (mkNW (Sending evt) (el_set_swarm (w_polled ev) w_retained) (node_shared w_cnode)
    (node_commands w_cnode) 1 [] [evt]) (sy_clients (system_of w_cnode)) ∅ [] [].
Definition w_ready : System (Traced (Logged ToySwarm)) :=
  mkSystem (mkNW Selecting w_retained (node_shared w_cnode) (node_commands w_cnode) 1 [] [])
    (sy_clients (system_of w_cnode)) ∅ [] [].
Definition w_met_net (i : @PeerId concrete_types) ev evt : Net (Logged ToySwarm) :=
  mkNet (<[i := w_took ev evt]> (<[i := w_ready]> (net_nodes w_apart))) [] [(i, Tau); (i, Tau)].

Lemma w_met_run i ev evt :
  handle_swarm_event (el_set_swarm (w_polled ev) w_retained) (node_shared w_cnode) ev
  = Some (el_set_swarm (w_polled ev) w_retained, node_shared w_cnode, Some evt) ->
  req_resp_event ev = false ->
  (forall net : Net (Logged ToySwarm), net_history net = [(i, Tau)] -> (forall j, calls_of (swarm_of (net_nodes net j)) = calls_of (el_swarm w_retained)) ->
     grounded w_configs w_parse w_mdns net i ev) ->
  rtc (grounded_step w_configs w_parse w_mdns) w_apart (w_met_net i ev evt).
Proof.
  intros He Hr Hg.
  eapply rtc_l; [eapply (grounded_step_intro _ _ _ w_apart i Tau w_ready None []); [|done|constructor|done]|].
  { apply sy_loop, ls_retain. }
  apply rtc_once. set (net1 := mkNet _ _ _).
  assert (net_nodes net1 i = w_ready) as Hi by (unfold net1; simpl; by rewrite fn_lookup_insert).
  pose proof (grounded_step_intro w_configs w_parse w_mdns net1 i Tau (w_took ev evt) (Some ev) []) as Hs.
  rewrite Hi in Hs. apply Hs.
  - apply sy_loop. refine (ls_event w_retained _ _ _ _ [] ev (w_polled ev) _ _ (Some evt) _ He). by split; [split|].
  - change (omap yielded (tr_log (el_swarm w_retained) ++ [OYield ev]) = omap yielded (tr_log (el_swarm w_retained)) ++ [ev]).
    by rewrite omap_app.
  - by constructor.
  - intros ev' [= <-]. apply Hg; [done|]. intros j. unfold net1. simpl.
    destruct (decide (j = i)) as [->|Hne]; [by rewrite fn_lookup_insert|by rewrite fn_lookup_insert_ne].
Qed.

(** The node's calls when it has just started: it has dialled, and it listens. *)
Lemma w_calls : calls_of (el_swarm w_retained)
  = [CallListenOn w_circuit; CallKadAddAddress w_peer w_addr; CallAddPeerAddress w_peer w_addr; CallDial w_peer].
Proof. vm_compute. reflexivity. Qed.

Definition w_third : @PeerId concrete_types := 11%Z.
Definition w_linked : Net (Logged ToySwarm) :=
  w_met_net w_third (ConnectionEstablished w_peer 1) (PeerConnected w_peer).

Lemma w_linked_run : rtc (grounded_step w_configs w_parse w_mdns) w_apart w_linked.
Proof.
  set (ev := ConnectionEstablished w_peer 1). apply w_met_run; [|reflexivity|].
  - vm_cast_no_check (eq_refl (Some (el_set_swarm (w_polled ev) w_retained, node_shared w_cnode,
      Some (PeerConnected w_peer)))).
  - intros net _ Hc. left. exists w_third, (CallDial w_peer). rewrite Hc, w_calls. split; [|done].
    do 3 right. by left.
Qed.

Lemma connections_are_wanted_witness :
  exists j, wants_contact (w_configs j) (labels_of j (net_history w_linked)).
Proof.
  apply (connections_are_wanted w_configs w_parse w_mdns w_apart w_linked w_third w_peer w_cstarted w_linked_run).
  unfold w_linked, w_met_net. cbn [net_nodes]. rewrite fn_lookup_insert. by left.
Defined.




(** Infinite runs: a script, after which the loop goes round and the clock ticks. *)
Inductive w_stage := WSelect | WTop | WTick.

Definition w_next (x : w_stage * Z) : w_stage * Z :=
  match x with
  | (WSelect, now) => (WTop, now)
  | (WTop, now) => (WTick, now + 1)%Z
  | (WTick, now) => (WSelect, now)
  end.

(** Every third state is at [select!]. *)
Lemma w_round k : Nat.iter (3 * k) w_next (WSelect, 0%Z) = (WSelect, Z.of_nat k).
Proof.
  induction k as [|k IH]; [done|]. replace (3 * S k) with (S (S (S (3 * k)))) by lia.
  rewrite !Nat.iter_succ, IH. simpl. f_equal. lia.
Qed.

Definition w_spin (idle : ToySystem) (x : w_stage * Z) : ToySystem :=
  let '(mkSystem (mkNW _ el sh q n rcv cv) cl ca op ch) := idle in
  mkSystem (mkNW (match x.1 with WSelect => Selecting | _ => Iterating end) el (sh_set_now x.2 sh) q n rcv cv)
    cl ca op ch.

(** Every choice of the script is possible. *)
Fixpoint w_plays (s : ToySystem) (l : list Act) : bool :=
  match l with
  | [] => true
  | a :: l => match sim a s with Some (_, s) => w_plays s l | None => false end
  end.

Lemma w_plays_at s l i a : w_plays s l = true -> l !! i = Some a ->
  exists lab, sim a (sim_all s (take i l)) = Some (lab, sim_all s (take (S i) l)).
Proof.
  revert s i. induction l as [|b l IH]; intros s i Hp Ha; [done|]. simpl in Hp.
  destruct (sim b s) as [[lab s']|] eqn:Hs; [|done]. destruct i as [|i]; simpl in *.
  - injection Ha as ->. exists lab. by rewrite Hs.
  - rewrite Hs. by apply IH.
Qed.

(** An event the loop takes, as the step relation has it. *)
Lemma w_takes_event ev lab (s s' : ToySystem) :
  sim (DoEvent ev) s = Some (lab, s') -> takes_event ev (sy_node s) (sy_node s').
Proof.
  destruct s as [[[] el sh q n rcv cv] cl ca op ch]; simpl; [done| |done..].
  destruct (handle_swarm_event _ sh ev) as [[[el' sh'] o]|] eqn:He; [|done]. intros [= _ <-].
  exists (toy_yield (el_swarm el) ev), o. by split; [split|].
Qed.

Section spinning.
Context (from : ToySystem) (script : list Act).

Definition w_at (i : nat) : ToySystem := sim_all from (take i script).
Definition w_idle : ToySystem := sim_all from script.

Definition w_run : Run (Traced ToySwarm) :=
  mkRun
    (fun i => if i <? length script then w_at i
              else w_spin w_idle (Nat.iter (i - length script) w_next (WSelect, 0%Z)))
    (fun i => match script !! i with
              | Some a => match sim a (w_at i) with Some (lab, _) => lab | None => Tau end
              | None => Tau
              end).

(** The script can be played, and nothing is left to do at its end. *)
Record w_playable : Prop := {
  wp_plays : w_plays from script = true;
  wp_phase : nw_phase (sy_node w_idle) = Selecting;
  wp_now : sh_now (nw_shared (sy_node w_idle)) = 0%Z;
  wp_active : el_active (nw_loop (sy_node w_idle)) = [];
  wp_queue : queued (sy_node w_idle) = [];
  wp_calls : sy_calls w_idle = ∅;
  wp_accepts : accepts (sy_node w_idle);
}.

Context (Hp : w_playable).

Lemma w_spin_step x : sys_step Tau (w_spin w_idle x) (w_spin w_idle (w_next x)).
Proof.
  pose proof (wp_active Hp) as Hact. unfold w_spin.
  destruct w_idle as [[ph el sh q n rcv cv] cl ca op ch]. destruct x as [[] now]; simpl in *.
  - apply sy_loop, ls_inbound_end.
  - apply (sy_time (mkNW _ _ (sh_set_now now sh) _ _ _ _)). simpl. lia.
  - apply sy_loop. pose proof (ls_retain el (sh_set_now now sh) q n rcv cv) as Hs.
    replace (retain_active el (sh_set_now now sh)) with el in Hs by (destruct el; simpl in Hact; by subst).
    exact Hs.
Qed.

Lemma w_spin_idle : w_spin w_idle (WSelect, 0%Z) = w_idle.
Proof.
  pose proof (wp_phase Hp) as Hph. pose proof (wp_now Hp) as Hnow. unfold w_spin.
  destruct w_idle as [[ph el [] q n rcv cv] cl ca op ch]. simpl in *. by subst.
Qed.

Lemma w_run_script i : i <= length script -> state_at w_run i = w_at i.
Proof.
  intros Hi. unfold w_run. simpl. destruct (i <? length script) eqn:Hlt; [done|].
  apply Nat.ltb_ge in Hlt. replace i with (length script) by lia. rewrite Nat.sub_diag. simpl.
  rewrite w_spin_idle. unfold w_at, w_idle. by rewrite firstn_all.
Qed.

Lemma w_run_spin k : state_at w_run (length script + k) = w_spin w_idle (Nat.iter k w_next (WSelect, 0%Z)).
Proof.
  unfold w_run. simpl. rewrite (proj2 (Nat.ltb_ge _ _)) by lia.
  by replace (length script + k - length script) with k by lia.
Qed.

Lemma w_run_ok : run_ok w_run.
Proof.
  intros i. destruct (script !! i) as [a|] eqn:Ha.
  - pose proof (lookup_lt_Some _ _ _ Ha). rewrite !w_run_script by lia.
    destruct (w_plays_at _ _ _ _ (wp_plays Hp) Ha) as [lab Hs].
    unfold w_run. simpl. unfold w_at in *. rewrite Ha, Hs. by eapply sim_sound.
  - apply lookup_ge_None in Ha as Hge.
    assert (label_at w_run i = Tau) as -> by (simpl; by rewrite Ha).
    replace i with (length script + (i - length script)) by lia. rewrite <- Nat.add_succ_r, !w_run_spin.
    apply w_spin_step.
Qed.

Lemma w_spin_quiet x :
  queued (sy_node (w_spin w_idle x)) = [] /\ sy_calls (w_spin w_idle x) = ∅
  /\ accepts (sy_node (w_spin w_idle x)) /\ sh_now (nw_shared (sy_node (w_spin w_idle x))) = x.2
  /\ nw_loop (sy_node (w_spin w_idle x)) = nw_loop (sy_node w_idle).
Proof.
  destruct Hp as [_ _ _ _ Hq Hc Ha]. unfold w_spin. destruct w_idle as [[ph el sh q n rcv cv] cl ca op ch]. by split_and!.
Qed.

(** The states at [select!] after the script. *)
Lemma w_run_round k : state_at w_run (length script + 3 * k) = w_spin w_idle (WSelect, Z.of_nat k).
Proof. by rewrite w_run_spin, w_round. Qed.

Lemma w_run_fair : fair_run w_run.
Proof.
  split; [split|..].
  - intros i. exists (length script + 3 * i). split; [lia|]. left. rewrite w_run_round, <- Nat.add_succ_r, w_run_spin.
    rewrite Nat.iter_succ, w_round. unfold w_spin. destruct w_idle as [[] ? ? ? ?]. apply ls_inbound_end.
  - intros i. exists (length script + 3 * i). split; [lia|]. rewrite w_run_round. apply w_spin_quiet.
  - intros i. right. exists (length script + i). split; [lia|]. intros k Hk. intros [_ Hq].
    replace k with (length script + (k - length script)) in Hq by lia. rewrite w_run_spin in Hq.
    by apply Hq, w_spin_quiet.
  - intros loc i. exists (length script + 3 * i). split; [lia|]. right. rewrite w_run_round.
    intros (lc & Hl & _). by rewrite (proj1 (proj2 (w_spin_quiet _))), lookup_empty in Hl.
  - intros t. exists (length script + 3 * Z.to_nat t). rewrite w_run_round.
    destruct (w_spin_quiet (WSelect, Z.of_nat (Z.to_nat t))) as (_ & _ & _ & -> & _). simpl. lia.
Qed.

End spinning.

(** A call to [is_connected] returns in the first step. *)
Definition w_asked : ToySystem := w_called_and (CIsConnected w_peer) [].
Definition w_ask : list Act := [DoPoll 0 9; DoRetain].

Lemma w_ask_plays : w_playable w_asked w_ask.
Proof. split; [vm_compute; reflexivity..|]. right. vm_compute. lia. Qed.

Lemma calls_return_witness :
  exists j, 0 <= j /\ (returns (w_run w_asked w_ask) j 0 \/ dropped (w_run w_asked w_ask) j 0).
Proof.
  apply (calls_return w_accept w_tswarm [] 0 0 w_config w_tnode (w_run w_asked w_ask) 0 0
    (w_sent (AIsConnected {| is_connected_peer_id := w_peer |})) w_tstart (w_called_run _ _)
    (w_run_ok _ _ w_ask_plays) (w_run_fair _ _ w_ask_plays)).
  - vm_compute. reflexivity.
  - by left.
Defined.

(** A dial, which the swarm concludes in the first step. *)
Definition w_dialled : ToySystem := sim_all (w_called_and (CDial w_peer) []) [DoRetain].
Definition w_dial : list Act := [DoEvent (ConnectionEstablished w_peer 1); DoPoll 0 9; DoSent; DoRetain].

Lemma w_dial_plays : w_playable w_dialled w_dial.
Proof. split; [vm_compute; reflexivity..|]. right. vm_compute. lia. Qed.

Lemma w_dial_concluded : concluded (w_run w_dialled w_dial) 0 0.
Proof.
  exists (ConnectionEstablished w_peer 1), (mkTask (ADial {| dial_peer_id := w_peer |}) 0).
  rewrite !(w_run_script _ _ w_dial_plays) by (simpl; lia). split_and!; [|vm_compute; by left|done|done].
  destruct (w_plays_at _ _ 0 _ (wp_plays _ _ w_dial_plays) eq_refl) as [lab Hs]. exact (w_takes_event _ lab _ _ Hs).
Qed.

Lemma w_dial_answered : network_answers (w_run w_dialled w_dial) 0.
Proof.
  intros [|i] _; [exists 0; split; [done|by left; apply w_dial_concluded]|].
  exists (length w_dial + 3 * i). split; [simpl; lia|]. right. rewrite (w_run_round _ _ i).
  intros (t & Ht & _). destruct (w_spin_quiet _ _ w_dial_plays (WSelect, Z.of_nat i)) as (_ & _ & _ & _ & He).
  rewrite He, (wp_active _ _ w_dial_plays) in Ht. by apply elem_of_nil in Ht.
Qed.

Lemma every_call_returns_witness :
  exists j, 0 <= j /\ (returns (w_run w_dialled w_dial) j 0 \/ dropped (w_run w_dialled w_dial) j 0).
Proof.
  apply (every_call_returns w_accept w_tswarm [] 0 0 w_config w_tnode (w_run w_dialled w_dial) 0 0
    (w_sent (ADial {| dial_peer_id := w_peer |})) w_tstart).
  - etrans; [exact (w_called_run (CDial w_peer) [])|exact (sim_all_sound [DoRetain] _)].
  - exact (w_run_ok _ _ w_dial_plays).
  - exact (w_run_fair _ _ w_dial_plays).
  - exact w_dial_answered.
  - vm_compute. reflexivity.
Defined.

Lemma awaiting_consumer_deadlocks_witness :
  exists s loc lc,
    sys_run (system_of w_node) s /\ sy_calls s !! loc = Some lc
    /\ forall s', rtc (patient_step loc) s s' ->
         sy_calls s' !! loc = Some lc
         /\ (forall w, ~ loop_step (sy_node s') w)
         /\ (forall s'' r, ~ sys_step (Returned loc r) s' s'').
Proof.
  apply (awaiting_consumer_deadlocks w_accept toy_swarm [] 0 0 w_config w_node (CDial w_peer) w_peer
    (fun sw => w_peer ∈ ts_connected sw) (toy_next (el_swarm (node_loop w_node)) (Some (ConnectionEstablished w_peer 1)))).
  - exact w_start.
  - reflexivity.
  - by left.
  - intros sw Hin. exists 5%Z, sw. by split.
  - reflexivity.
Defined.

Definition w_ip4 (a b c d : Z) : @Multiaddr concrete_types := [PIp4 (mkIpv4 a b c d); POther 4001%Z].
Definition w_ip6 (l : list Z) : @Multiaddr concrete_types := [PIp6 (mkIpv6 l); POther 4001%Z].

Lemma unit_tests_pass_witness :
  test_usable_lan_addr_filters_non_routable_addresses (w_ip4 192 168 1 10) (w_ip4 0 0 0 0)
    (w_ip4 127 0 0 1) (w_ip4 169 254 1 1) (w_ip4 8 8 8 8)
    (w_ip6 [0xfd00; 0; 0; 0; 0; 0; 0; 1]%Z) (w_ip6 [0; 0; 0; 0; 0; 0; 0; 1]%Z) = true.
Proof.
  eapply andb_prop, (unit_tests_pass w_proto 1%Z 2%Z 3%Z 0 0 0 0 59 true [1%Z] "0.1.0" w_addr w_addr
    w_addr 0 9 4001%Z (w_ip4 192 168 1 10) (w_ip4 0 0 0 0) (w_ip4 127 0 0 1) (w_ip4 169 254 1 1)
    (w_ip4 8 8 8 8) (w_ip6 [0xfd00; 0; 0; 0; 0; 0; 0; 1]%Z) (w_ip6 [0; 0; 0; 0; 0; 0; 0; 1]%Z)).
  all: vm_compute; repeat split; try done.
Defined.

(** ** The bootstrap server *)

Lemma identity_is_stable_witness :
  let enc := fun k : nat => Some [k] in
  let dec := fun b : list nat => head b in
  let ok := fun _ : nat => true in
  let write := fun (_ : nat) (_ : list nat) => Written in
  let start := load_or_generate_keypair enc dec ok ok write true 420 in
  let '(fs1, r1) := start 5 0 (∅ : gmap nat (File (list nat))) in
  let '(fs2, r2) := start 6 0 fs1 in
  r1 = Ok 5 /\ r2 = Ok 5 /\ fs2 = fs1 /\ file_mode <$> fs1 !! 0 = Some owner_only.
Proof.
  intros enc dec ok write.
  assert (forall k b, enc k = Some b -> dec b = Some k) as Hrt by (intros k b [= <-]; reflexivity).
  pose proof (identity_is_stable enc dec ok ok write true Hrt 420 420 5 6 0 ∅ eq_refl) as Hs.
  split; [reflexivity|]. destruct Hs as (Hr & Hf & Hm). split; [done|]. split; [done|].
  by apply Hm.
Defined.

